(* ===== verification/_CoqProject ===== *)
-Q . S2P
Prelude.v
Bytes.v
Framing.v
Protocol.v
WalRecord.v
LogReader.v
Effects.v
Wal.v
Interface.v
Database.v
ScanFormat.v
Server.v
Locking.v
LockingInvariant.v
LockingTheorems.v
Concurrency.v
Serving.v
Connection.v
Client.v
Acceptor.v
Workers.v
System.v
EndToEnd.v
Parallel.v
IoThreads.v
Durability.v
Network.v
Disconnects.v
Restarts.v
Stoi.v
ClientMain.v
BenchmarkMain.v
StandAlone.v
ServerMain.v
Headers.v
