(* ===== verification/Prelude.v ===== *)
(** * DistributedDB: a verification development

    DistributedDB is a key-value database in C++: a map in memory whose changes are logged to
    a write-ahead log, a TCP server that serves it with asynchronous I/O, and a blocking
    client.  This library models these parts operation by operation and proves what makes
    them correct, and where they are not what their comments and the README say, it proves
    that.

    ** The program and the files that model it

    - [src/network/protocol.cpp], [include/network/protocol.h]: [Message], its byte format and
      limits.  [Protocol.v].
    - [src/storage/wal.cpp], [include/storage/wal.h]: [WALRecord] and its byte format
      ([WalRecord.v]); the loop that reads a log file back ([LogReader.v]); the class
      [WriteAheadLog], all operations, over files, a clock and I/O calls each of which can
      fail ([Wal.v], on [Effects.v]).
    - [include/core/database.h]: [OperationResult] and the abstract classes [Database] and
      [Transaction], as a class of operations, and the contract their users rely on
      ([Interface.v]).
    - [src/core/persistent_database.cpp]: [PersistentTransaction] and [PersistentDatabase], all
      operations, with the objects they share by pointer ([Database.v], which discharges the
      contract); the calls of any number of threads, cut at every lock and unlock of [mutex_]
      and of the log's mutex ([Locking.v]), with the simulation that explains them by whole
      operations ([LockingInvariant.v]) and what follows ([LockingTheorems.v]).
    - [src/network/server.cpp], [include/network/server.h]: the text of scan results
      ([ScanFormat.v], with the client's parser); [process_request_sync] and [process_request]
      over the database interface ([Server.v]); the former's calls on the database
      interleaved with those of other requests ([Concurrency.v]), and executed by threads under
      the locks ([Serving.v]); [ConnectionHandler] as a machine driven by completions
      ([Connection.v]); the accept chain and the connection counter ([Acceptor.v]); the worker
      threads and the end of [stop] ([Workers.v]).  Put together: the chain, the connections it
      makes and the database they share, an event of a connection being one step
      ([System.v]); the same with requests of all connections processed at the same time, a
      call of the database being one step ([Parallel.v]); the same run by the threads of the
      [io_context] under the locks ([IoThreads.v]), and what is left of it after a crash
      ([Durability.v]).  Every execution of the threads is one of [Parallel.v]
      ([running_refines]).
    - [src/network/client.cpp], [include/network/client.h]: [DatabaseClient], all operations,
      over a socket that is a parameter ([Client.v]); a client whose socket is connected by the
      accept chain of [System.v] and whose bytes and close are events of its handler
      ([EndToEnd.v]; [link_runs_server] shows that all this is execution of the server); any number
      of them over a network to the server with its threads ([Network.v]), how their disconnects
      get to the handlers ([Disconnects.v]), and the same through crashes of the server and
      restarts that find its log or open a new one ([Restarts.v]).
    - The programs: [src/client_main.cpp] ([ClientMain.v]), [src/server_main.cpp]
      ([ServerMain.v]), [src/benchmark_main.cpp] ([BenchmarkMain.v]) and [src/main.cpp], which
      shares no code with the others ([StandAlone.v]); [std::stoi], which reads their numbers
      ([Stoi.v]).
    - [include/storage/btree.h], [include/storage/transaction.h]: what they have with a body
      ([Headers.v]).

    [Prelude.v] (this file) has machine integers, results, tactics, hint databases and generic
    lemmas; [Bytes.v] the bytes of integers and strings; [Framing.v] the length-prefixed
    frames that the log and both ends of a connection use, over the interface [Codec], which
    [Message] and [WALRecord] instantiate.

    ** How the code is represented

    Integers are [Z], with every conversion and addition that can wrap written with [u8],
    [u16], [u32] or [u64]; [size_t] has 64 bits and memory is little-endian.  Strings are byte
    strings.  [std::unordered_map] is a [gmap]; the order in which a loop visits it is an
    oracle of the environment, constrained only to be a permutation.  An operation is a
    function of the state monad [M] of [Effects.v], whose outcomes are a value, an exception
    with its [what()], or undefined behaviour (locking a mutex twice, reading a destroyed
    buffer, a null pointer).  The environment [World] has the files, the clock readings, the
    fate of each I/O call (whether it fails, and how many bytes of a stream's buffer reach the
    file meanwhile) and the bucket orders.  Threads are interleavings.  For the
    database there are two granularities, related by a simulation: whole operations
    ([db_step]), and the stretches between two locks or unlocks, with the mutexes and their
    owners as state ([threads_step]); for requests accordingly whole calls on the database
    ([requests_step]) and steps of threads ([serving_step]); for the system whole events of
    connections ([system_step]), events cut at the calls of a request ([par_step]), and threads
    with their locks ([run_step]), to which the clients' calls are added, cut where they block
    ([net_step]).  The accept chain ([accept_step]) and the thread pool
    ([pool_step]) are cut at single accesses to shared members, the benchmark at the client's
    calls and the accesses to the counters ([bench_step]).  The memory model is sequential
    consistency, which for the database is justified by the absence of data races, as long as
    a transaction is used by one thread at a time ([threads_race_free]); the server uses it so.
    A program's [main] is an operation on its console and its globals whose value is the exit
    status; an exception that is its outcome is one that nobody catches.
    Boost.Asio is not part of the program: [Connection.v] has its documented contract for
    asynchronous operations, [Client.v] takes the socket as the class [Socket].  How many of its
    bytes a write fetches when it starts is not documented, and is a parameter everywhere
    ([fetch]).  [write_response] destroys its buffers when it returns, so that the completion of a
    write that did not fetch all its bytes is undefined behaviour: the executions of the systems
    end there for the connection, and the theorems say what holds up to then, and that nothing
    else keeps a request from its answer.

    ** What the theorems show

    - Formats: messages and records read back as they were written, with any bytes after them;
      exactly which inputs [deserialize] accepts.
    - Log: whatever I/O does, a reader finds the old records and a prefix of the appended
      ones; when I/O works, everything appended is read back; what a failed append leaves.
    - Database: the map in memory is at any time what replaying its log gives, under any
      interleaving of transactions, and a process initialised on that log has the same map;
      the outcomes of [put], [del] and [scan] under any I/O behaviour and bucket order;
      identifiers are unique.
    - Locks: under its mutexes the database is linearizable, free of data races and of
      deadlocks, and its log describes the calls that took effect at any moment.
    - Server: every request is answered as the contents say, on any database that keeps the
      contract; the two implementations agree; no exception gets out.  Requests of several
      connections are linearizable, also when their threads can be interrupted at every lock.
    - Connections: under any arrival of bytes and any completions the requests are answered
      once and in order; every request is answered when the operations complete; a disconnect
      is reported once; no connection is forgotten; the counter is exact and within its limit.
    - Thread pool: first in, first out, each task answered once, mutual exclusion; [stop]
      joins the workers unless one of them was falling asleep when it notified.
    - The server as one system: one sequential history explains the database and the responses
      of all connections; with at least one thread everything that has arrived is answered in
      boundedly many steps; when the clients hang up the counter returns to zero; the system
      refines the accept chain.  Stopped at any moment, no answered request is lost, as long as
      I/O works and the requests fit the log reader's limit.
    - Client and server together: [get], [put], [del] and [scan] do what they say, or the call is
      cut off by the server's dangling write.  The calls of any number of clients over a network
      are linearizable, and each of them returns unless such a write keeps it; the server's
      counter follows their disconnects.  Through any number of crashes and restarts they stay
      linearizable, from the empty database again after a restart on a new log; a PUT that
      returned is not lost by restarts on the same log.
    - Programs: what every command line of the client does to the server's contents, what it
      prints and how it exits; how the server program comes up, fails, also when a thread cannot
      be made, and shuts down or hangs in doing so, and that once up it serves as above; the
      benchmark terminates on any network, its counters are bounded, and against the server,
      within its limit of connections, all operations succeed; the demo's output; the bounds of
      ports and of the B-tree's tests.
    - Defects, each as a theorem: a new process does not find the log of the last one; a failed
      [put] loses the old value; [rollback] and isolation do nothing; [compact] gives up
      recoverability; [restore] locks a mutex twice; the flush that makes a record durable is
      not checked; a record above 1 MB hides the rest of the log, and a request that is within the
      message limit can have one; empty values cannot be read;
      scan texts can be forged; a response that is too large puts the client out of step;
      [write_response] writes from destroyed variables; two threads that share a transaction
      race; [stop] can miss a sleeping worker; a thread that cannot be made can end the server
      program by [std::terminate]; an unreadable port ends a program by an uncaught exception, one above 65535 is another
      port; the server's globals are destroyed in the wrong order.

    ** Fuel

    [read_loop] runs on one unit per byte of the file and one more; each round consumes at
    least four bytes, and [read_loop_terminates] shows that this is enough.
    [scan_parse_loop] runs on one unit per character and one more; each round moves the
    position forward, and [scan_parse_terminates] shows that this is enough.  The counting
    loops of the programs run on the number of rounds that are left.

    ** What is not modelled

    What the classes print to the console, except where a program's output is the subject;
    measured times, and the printing of figures computed from them, are the environment's
    choice.  Allocation failures, failing to make the threads of the benchmark, failing reads of a
    log that could be opened, and directories beyond the success of creating them.  Signals
    that arrive before [main] waits for its threads, or while the handler of another is
    running.  The operations of [BTree], [ACIDTransaction] and [TransactionManager],
    which are declared and have no definition.  The worker threads are not part
    of the system of [IoThreads.v], since nothing ever gives them a task.  Crashes inside one
    append are [read_all_records_crash]'s and [append_crash_consistency]'s; [Durability.v] stops
    the process between the steps of its threads.  In
    [Network.v] the network keeps what was written, and a client does not connect again after
    [disconnect] (a new client does).  The program names its log after the clock, so that a
    restart opens the log of the process before only within one millisecond of that one's start,
    and otherwise a new one ([restart_starts_empty]): [Restarts.v] has both, but not the clock that
    goes back to the name of an older log.  In [ClientMain.v] and [BenchmarkMain.v] a client's
    call, with what the server does for it, is one step; [Network.v] cuts it. *)

From stdpp Require Import base list strings.
From Stdlib Require Import ZArith Lia.
From Stdlib Require Import Strings.Byte.

#[global] Open Scope Z_scope.

(** ** Machine integers

    The program computes on [uint8_t], [uint32_t], [uint64_t] and [size_t] (64 bits on
    the targets it is built for).  They are kept as [Z], and every conversion or addition
    that can wrap is written with one of these. *)

Definition u8 (z : Z) : Z := z mod 2 ^ 8.
Definition u16 (z : Z) : Z := z mod 2 ^ 16.
Definition u32 (z : Z) : Z := z mod 2 ^ 32.
Definition u64 (z : Z) : Z := z mod 2 ^ 64.
Definition i32 (z : Z) : Z := (z + 2 ^ 31) mod 2 ^ 32 - 2 ^ 31.

Definition is_u32 (z : Z) : Prop := 0 <= z < 2 ^ 32.
Definition is_u64 (z : Z) : Prop := 0 <= z < 2 ^ 64.

#[global] Instance is_u32_dec z : Decision (is_u32 z) := _.
#[global] Instance is_u64_dec z : Decision (is_u64 z) := _.

(** Sizes as the code sees them: [size()] of a vector, [length()] of a string. *)
Definition zlen {A} (l : list A) : Z := Z.of_nat (length l).
Definition slen (s : string) : Z := Z.of_nat (String.length s).

(** [operator<=] and [operator<] of [std::string]: lexicographic, by unsigned characters. *)
Definition string_leb (a b : string) : bool := Stdlib.Strings.String.leb a b.
Definition string_ltb (a b : string) : bool := Stdlib.Strings.String.ltb a b.

(** ** Results of a computation that may throw

    [Throw what] is an exception carrying its [what()]. *)

Inductive result (A : Type) : Type :=
  | Ok (a : A)
  | Throw (what : string).
Arguments Ok {A} a.
Arguments Throw {A} what.

Definition is_ok {A} (r : result A) : bool :=
  match r with Ok _ => true | Throw _ => false end.

(** ** Tactics and hint databases *)

Create HintDb db_arith.
Create Rewrite HintDb db_len.
Create Rewrite HintDb db_bytes.

(** Case analysis on a comparison of the goal, turned into an arithmetic fact. *)
Ltac zcase :=
  match goal with
  | |- context [?a <? ?b] => destruct (Z.ltb_spec a b)
  | |- context [?a <=? ?b] => destruct (Z.leb_spec a b)
  | |- context [?a >? ?b] => rewrite (Z.gtb_ltb a b); destruct (Z.ltb_spec b a)
  | |- context [?a >=? ?b] => rewrite (Z.geb_leb a b); destruct (Z.leb_spec b a)
  | |- context [?a =? ?b] => destruct (Z.eqb_spec a b)
  end; cbn [orb andb negb].

(** All of them; branches that contradict the context are closed. *)
Ltac zcases := repeat (zcase; try lia).

Ltac unfold_len := unfold zlen, slen in *.

(** ** Shared lemmas *)

Section Words.
Implicit Types z : Z.

Lemma u32_small z : is_u32 z → u32 z = z.
Proof. unfold is_u32, u32. intros. by apply Z.mod_small. Qed.

Lemma u64_small z : is_u64 z → u64 z = z.
Proof. unfold is_u64, u64. intros. by apply Z.mod_small. Qed.

Lemma u32_range z : is_u32 (u32 z).
Proof. unfold is_u32, u32. apply Z.mod_pos_bound. lia. Qed.

Lemma u64_range z : is_u64 (u64 z).
Proof. unfold is_u64, u64. apply Z.mod_pos_bound. lia. Qed.

Lemma i32_small z : - 2 ^ 31 <= z < 2 ^ 31 → i32 z = z.
Proof. unfold i32. intros. rewrite Z.mod_small; lia. Qed.

(** The sum of three sizes, in [size_t] arithmetic. *)
Lemma u64_sum a b c :
  0 <= a → 0 <= b → 0 <= c → a + b + c < 2 ^ 64 → u64 (u64 (a + b) + c) = a + b + c.
Proof.
  intros. rewrite (u64_small (a + b)) by (unfold is_u64; lia).
  apply u64_small. unfold is_u64. lia.
Qed.
End Words.

#[export] Hint Resolve u32_range u64_range : db_arith.

Section Lists.
Context {A : Type}.
Implicit Types l k : list A.

Lemma zlen_nonneg l : 0 <= zlen l.
Proof. unfold zlen. lia. Qed.

Lemma zlen_app l k : zlen (l ++ k) = zlen l + zlen k.
Proof. unfold zlen. rewrite length_app. lia. Qed.

Lemma zlen_nil : zlen (@nil A) = 0.
Proof. done. Qed.

Lemma zlen_cons (a : A) l : zlen (a :: l) = 1 + zlen l.
Proof. unfold zlen. simpl. lia. Qed.

Lemma take_exact l k n : length l = n → take n (l ++ k) = l.
Proof. intros <-. apply take_app_length. Qed.

Lemma drop_exact l k n : length l = n → drop n (l ++ k) = k.
Proof. intros <-. apply drop_app_length. Qed.

Lemma prefix_of_take n l : take n l `prefix_of` l.
Proof. exists (drop n l). by rewrite take_drop. Qed.

(** A sum over a list when one element changes. *)
Lemma sum_list_with_insert (f : A → nat) l i x y :
  l !! i = Some x →
  (sum_list_with f (<[i := y]> l) + f x = sum_list_with f l + f y)%nat.
Proof.
  revert i. induction l as [|z l IH]; intros [|i] H; [done|done|..]; cbn in H.
  - injection H as ->. change (<[0%nat := y]> (x :: l)) with (y :: l). cbn. lia.
  - specialize (IH i H). change (<[S i := y]> (z :: l)) with (z :: <[i := y]> l). cbn. lia.
Qed.

Lemma prefix_take_length l k : l `prefix_of` k → l = take (length l) k.
Proof. intros [m ->]. by rewrite take_app_length. Qed.
End Lists.

#[export] Hint Rewrite @zlen_app @zlen_nil @zlen_cons : db_len.

(** ** Strings *)

Section Strings.
Implicit Types a b c : string.

Lemma string_app_cons (x : Ascii.ascii) a b : String x a +:+ b = String x (a +:+ b).
Proof. done. Qed.

Lemma string_app_nil_r a : a +:+ "" = a.
Proof. induction a as [|x a IH]; [done|]. by rewrite string_app_cons, IH. Qed.

Lemma string_app_assoc a b c : (a +:+ b) +:+ c = a +:+ (b +:+ c).
Proof. induction a as [|x a IH]; [done|]. by rewrite !string_app_cons, IH. Qed.

Lemma string_length_app a b :
  String.length (a +:+ b) = (String.length a + String.length b)%nat.
Proof. induction a as [|x a IH]; [done|]. rewrite string_app_cons. cbn. by rewrite IH. Qed.

Lemma slen_app a b : slen (a +:+ b) = slen a + slen b.
Proof. unfold slen. rewrite string_length_app. lia. Qed.

Lemma string_app_inj_r a b c : a +:+ c = b +:+ c → a = b.
Proof.
  revert b. induction a as [|x a IH]; intros [|y b] E; [done|..].
  - apply (f_equal String.length) in E. rewrite !string_length_app in E. cbn in E. lia.
  - apply (f_equal String.length) in E. rewrite !string_length_app in E. cbn in E. lia.
  - injection E as -> E. f_equal. by apply IH.
Qed.

(** [find] and [substr] past a prefix. *)
Lemma index_past a b (pattern : string) :
  String.index (String.length a) pattern (a +:+ b)
  = (λ n, String.length a + n)%nat <$> String.index 0 pattern b.
Proof.
  induction a as [|x a IH].
  { change ("" +:+ b) with b. cbn [String.length]. by destruct (String.index 0 pattern b). }
  rewrite string_app_cons. cbn. rewrite IH. by destruct (String.index 0 pattern b).
Qed.

Lemma substring_past a b n :
  String.substring (String.length a) n (a +:+ b) = String.substring 0 n b.
Proof. induction a as [|x a IH]; [done|]. rewrite string_app_cons. exact IH. Qed.

Lemma substring_all a b : String.substring 0 (String.length a) (a +:+ b) = a.
Proof. induction a as [|x a IH]; [by destruct b|]. rewrite string_app_cons. cbn. by rewrite IH. Qed.

(** A match is where the pattern fits in the string. *)
Lemma index_bounds n m (pattern : string) a :
  String.index n pattern a = Some m →
  (n <= m)%nat ∧ (m + String.length pattern <= String.length a)%nat.
Proof.
  revert n m. induction a as [|x a IH]; intros n m.
  - destruct n; [|done]. destruct pattern; [|done]. cbn. intros [= <-]. lia.
  - destruct n as [|n]; cbn [String.index].
    + destruct (String.prefix pattern (String x a)) eqn:P.
      * intros [= <-]. split; [lia|]. clear IH. revert P. generalize (String x a). clear.
        induction pattern as [|y pattern IH]; intros [|z s]; cbn; intros P; try done; try lia.
        destruct (Ascii.ascii_dec y z); [|done]. specialize (IH _ P). lia.
      * destruct (String.index 0 pattern a) as [k|] eqn:E; [|done]. intros [= <-].
        destruct (IH _ _ E). cbn. lia.
    + destruct (String.index n pattern a) as [k|] eqn:E; [|done]. intros [= <-].
      destruct (IH _ _ E). cbn. lia.
Qed.
End Strings.
