(* ===== verification/Bytes.v ===== *)
(** * Bytes

    What the two wire formats of the program share: copying an integer to and from bytes
    with [std::memcpy] (little endian, as on every target the project is built for),
    strings as byte sequences, and reading a field of a byte vector at an offset. *)

From stdpp Require Import base list strings.
From Stdlib Require Import ZArith Lia.
From Stdlib Require Import Strings.Byte.
From coqutil Require Byte Word.LittleEndianList.
From S2P Require Import Prelude.

(** [std::memcpy] of an [n]-byte unsigned integer to bytes, and back. *)
Definition le_bytes (n : nat) (z : Z) : list byte := LittleEndianList.le_split n z.
Definition le_value (bs : list byte) : Z := LittleEndianList.le_combine bs.

(** A [std::string] is the sequence of its [char]s. *)
Definition bytes_of_string (s : string) : list byte := String.list_byte_of_string s.
Definition string_of_bytes (bs : list byte) : string := String.string_of_list_byte bs.

(** The [n] bytes of [data] that start at [offset]. *)
Definition field (data : list byte) (offset n : nat) : list byte :=
  take n (drop offset data).

(** [static_cast<uint8_t>] of an enumerator and the reverse. *)
Definition byte_of_Z (z : Z) : byte := coqutil.Byte.byte.of_Z z.
Definition Z_of_byte (b : byte) : Z := coqutil.Byte.byte.unsigned b.

Section Integers.
Lemma length_le_bytes n z : length (le_bytes n z) = n.
Proof. apply LittleEndianList.length_le_split. Qed.

Lemma le_value_bytes n z : le_value (le_bytes n z) = z mod 2 ^ (Z.of_nat n * 8).
Proof. apply LittleEndianList.le_combine_split. Qed.

Lemma le_value_bytes4 z : le_value (le_bytes 4 z) = u32 z.
Proof. apply le_value_bytes. Qed.

Lemma le_value_bytes8 z : le_value (le_bytes 8 z) = u64 z.
Proof. apply le_value_bytes. Qed.

Lemma le_bytes_value n bs : length bs = n → le_bytes n (le_value bs) = bs.
Proof. apply LittleEndianList.split_le_combine'. Qed.

Lemma le_value_range bs n :
  (length bs <= n)%nat → 0 <= le_value bs < 2 ^ (8 * Z.of_nat n).
Proof.
  intros Hn. pose proof (LittleEndianList.le_combine_bound bs) as [H1 H2].
  split; [exact H1|]. eapply Z.lt_le_trans; [exact H2|].
  apply Z.pow_le_mono_r; lia.
Qed.

Lemma le_value_u32 bs : (length bs <= 4)%nat → is_u32 (le_value bs).
Proof. intros H. exact (le_value_range bs 4 H). Qed.

Lemma le_value_u64 bs : (length bs <= 8)%nat → is_u64 (le_value bs).
Proof. intros H. exact (le_value_range bs 8 H). Qed.
End Integers.

Section Strings.
Lemma string_of_bytes_of_string s : string_of_bytes (bytes_of_string s) = s.
Proof. apply String.string_of_list_byte_of_string. Qed.

Lemma bytes_of_string_of_bytes bs : bytes_of_string (string_of_bytes bs) = bs.
Proof. apply String.list_byte_of_string_of_list_byte. Qed.

#[global] Instance bytes_of_string_inj : Inj (=) (=) bytes_of_string.
Proof. intros s t E. by rewrite <- (string_of_bytes_of_string s), E, string_of_bytes_of_string. Qed.

Lemma length_bytes_of_string s : length (bytes_of_string s) = String.length s.
Proof.
  unfold bytes_of_string, String.list_byte_of_string.
  rewrite length_map. induction s; simpl; congruence.
Qed.

Lemma zlen_bytes_of_string s : zlen (bytes_of_string s) = slen s.
Proof. unfold zlen, slen. by rewrite length_bytes_of_string. Qed.

Lemma slen_string_of_bytes bs : slen (string_of_bytes bs) = zlen bs.
Proof. by rewrite <- zlen_bytes_of_string, bytes_of_string_of_bytes. Qed.
End Strings.

Section Fields.
Implicit Types a b data : list byte.

Lemma field_0 data n : field data 0 n = take n data.
Proof. done. Qed.

Lemma field_skip a b offset n :
  (length a <= offset)%nat → field (a ++ b) offset n = field b (offset - length a) n.
Proof. intros H. unfold field. by rewrite drop_app_ge. Qed.

Lemma field_here a b offset n :
  offset = 0%nat → length a = n → field (a ++ b) offset n = a.
Proof. intros -> <-. apply take_app_length. Qed.

Lemma length_field data offset n :
  (offset + n <= length data)%nat → length (field data offset n) = n.
Proof. intros H. unfold field. rewrite length_take, length_drop. lia. Qed.

Lemma length_field_le data offset n : (length (field data offset n) <= n)%nat.
Proof. unfold field. rewrite length_take. lia. Qed.

Lemma field_app_l a b offset n :
  (offset + n <= length a)%nat → field (a ++ b) offset n = field a offset n.
Proof.
  intros H. unfold field. rewrite drop_app_le by lia.
  rewrite take_app_le; [done|]. rewrite length_drop. lia.
Qed.
End Fields.

#[export] Hint Rewrite @length_app length_le_bytes length_bytes_of_string : db_len.
#[export] Hint Rewrite le_value_bytes4 le_value_bytes8 string_of_bytes_of_string
  bytes_of_string_of_bytes : db_bytes.
#[export] Hint Resolve le_value_u32 le_value_u64 length_field_le : db_arith.

(** Reads a field out of a serialised header: skips the fields before it. *)
Ltac read_field :=
  repeat (rewrite field_skip by (autorewrite with db_len; simpl; lia);
          autorewrite with db_len; simpl (_ - _)%nat);
  rewrite ?field_here by (autorewrite with db_len; lia).

Section Refields.
Lemma take_field data a n : take (a + n) data = take a data ++ field data a n.
Proof. unfold field. by rewrite take_take_drop. Qed.

Lemma byte_at_0 data : (1 <= length data)%nat → take 1 data = [nth 0 data x00].
Proof. destruct data; simpl; [lia|]. by rewrite take_0. Qed.

Lemma le_bytes_field data offset n :
  (offset + n <= length data)%nat → le_bytes n (le_value (field data offset n)) = field data offset n.
Proof. intros H. by apply le_bytes_value, length_field. Qed.

Lemma slen_string_field data offset n :
  (offset + n <= length data)%nat → slen (string_of_bytes (field data offset n)) = Z.of_nat n.
Proof. intros H. rewrite slen_string_of_bytes. unfold zlen. by rewrite length_field. Qed.
End Refields.
