(* ===== verification/Framing.v ===== *)
(** * Length-prefixed frames and codecs

    The log and both directions of a connection carry the same shape: a [uint32_t] size
    followed by that many bytes.  [Codec] is the interface a serialisable record offers to
    the code that puts it into frames ([WALRecord] to the log, [Message] to the server and
    the client); the theorems about frame streams are proved against it. *)

From stdpp Require Import base list.
From Stdlib Require Import ZArith Lia.
From Stdlib Require Import Strings.Byte.
From S2P Require Import Prelude.
From S2P Require Import Bytes.

(** What [T::serialize] and [T::deserialize] promise to the framing code. *)
Class Codec (A : Type) := {
  encode : A → list byte;
  decode : list byte → result A;
  (** the values whose encoding reads back: length fields that agree with the data, integer
      fields in range *)
  well_formed : A → Prop;
  decode_encode : ∀ a, well_formed a → decode (encode a) = Ok a;
}.

(** The limit that the log reader, the server and the client put on a frame's size. *)
Definition MAX_FRAME : Z := 1024 * 1024.

(** The bytes of one frame, as [write_record_to_file], [send_message] and [write_response]
    emit them: [uint32_t size = static_cast<uint32_t>(data.size())], then the data. *)
Definition frame (data : list byte) : list byte :=
  le_bytes 4 (u32 (zlen data)) ++ data.

(** The bytes of a sequence of values. *)
Definition frames {A} `{Codec A} (xs : list A) : list byte :=
  concat (map (λ x, frame (encode x)) xs).

(** A value whose frame a reader accepts. *)
Definition frameable {A} `{Codec A} (x : A) : Prop :=
  well_formed x ∧ zlen (encode x) <= MAX_FRAME.

Arguments frame : simpl never.
Arguments frames : simpl never.

Section Frame.
Implicit Types data rest : list byte.

Lemma length_frame data : length (frame data) = (4 + length data)%nat.
Proof. unfold frame. by autorewrite with db_len. Qed.

Lemma zlen_frame data : zlen (frame data) = 4 + zlen data.
Proof. unfold zlen. rewrite length_frame. lia. Qed.

Lemma frame_header data rest :
  zlen data <= MAX_FRAME → le_value (take 4 (frame data ++ rest)) = zlen data.
Proof.
  intros H. unfold frame. rewrite <- app_assoc, take_exact by apply length_le_bytes.
  rewrite le_value_bytes4. pose proof (zlen_nonneg data).
  rewrite !u32_small; unfold is_u32, MAX_FRAME in *; rewrite ?u32_small; unfold is_u32; lia.
Qed.

Lemma frame_rest data rest : drop 4 (frame data ++ rest) = data ++ rest.
Proof. unfold frame. rewrite <- app_assoc. apply drop_exact, length_le_bytes. Qed.

Lemma frame_not_nil data : frame data ≠ [].
Proof. intros E%(f_equal length). rewrite length_frame in E. simpl in E. lia. Qed.
End Frame.

Section Frames.
Context {A : Type} `{!Codec A}.
Implicit Types xs ys : list A.

Lemma frames_nil : frames (@nil A) = [].
Proof. done. Qed.

Lemma frames_cons x xs : frames (x :: xs) = frame (encode x) ++ frames xs.
Proof. done. Qed.

Lemma frames_app xs ys : frames (xs ++ ys) = frames xs ++ frames ys.
Proof. unfold frames. by rewrite map_app, concat_app. Qed.

Lemma frames_snoc xs x : frames (xs ++ [x]) = frames xs ++ frame (encode x).
Proof. rewrite frames_app. unfold frames at 2. simpl. by rewrite app_nil_r. Qed.

Lemma frames_mono xs ys : xs `prefix_of` ys → frames xs `prefix_of` frames ys.
Proof. intros [zs ->]. rewrite frames_app. by apply prefix_app_r. Qed.
End Frames.
