(* ===== verification/Protocol.v ===== *)
(** * Wire protocol messages

    [include/network/protocol.h] and [src/network/protocol.cpp]: the message types, the
    [Message] structure and its two conversions.  The file closes with the round trip, the
    exact set of inputs [deserialize] accepts, and the [Codec] instance through which the
    server and the client use messages. *)

From stdpp Require Import base list strings.
From Stdlib Require Import ZArith Lia.
From Stdlib Require Import Strings.Byte.
From S2P Require Import Prelude.
From S2P Require Import Bytes.
From S2P Require Import Framing.

(** [enum class MessageType : uint8_t].  The underlying type is fixed, so every byte is a
    value of the enumeration; [Unnamed] stands for the ones without an enumerator. *)
Module MessageType.
Inductive t :=
  | GET | PUT | DELETE | SCAN | PING | PONG | ERROR | SUCCESS
  | Unnamed (b : byte).
End MessageType.

#[global] Instance MessageType_eq_dec : EqDecision MessageType.t.
Proof. intros x y. unfold Decision. decide equality. apply Byte.byte_eq_dec. Defined.

(** [static_cast<uint8_t>(type)]. *)
Definition MessageType_to_byte (t : MessageType.t) : byte :=
  match t with
  | MessageType.GET => x01
  | MessageType.PUT => x02
  | MessageType.DELETE => x03
  | MessageType.SCAN => x04
  | MessageType.PING => x05
  | MessageType.PONG => x06
  | MessageType.ERROR => x07
  | MessageType.SUCCESS => x08
  | MessageType.Unnamed b => b
  end.

(** [static_cast<MessageType>(byte)]. *)
Definition MessageType_of_byte (b : byte) : MessageType.t :=
  match b with
  | x01 => MessageType.GET
  | x02 => MessageType.PUT
  | x03 => MessageType.DELETE
  | x04 => MessageType.SCAN
  | x05 => MessageType.PING
  | x06 => MessageType.PONG
  | x07 => MessageType.ERROR
  | x08 => MessageType.SUCCESS
  | b => MessageType.Unnamed b
  end.

(** One representation per value: [Unnamed] is not used for a byte that has a name. *)
Definition MessageType_canonical (t : MessageType.t) : Prop :=
  MessageType_of_byte (MessageType_to_byte t) = t.

(** [struct Message]. *)
Record Message := mkMessage {
  msg_type : MessageType.t;
  msg_id : Z;
  msg_key_length : Z;
  msg_value_length : Z;
  msg_key : string;
  msg_value : string;
}.

(** [Message::Message()]. *)
Definition Message_default : Message :=
  {| msg_type := MessageType.GET; msg_id := 0; msg_key_length := 0;
     msg_value_length := 0; msg_key := ""; msg_value := "" |}.

Definition MAX_MESSAGE_SIZE : Z := 1024 * 1024.
Definition MAX_KEY_SIZE : Z := 256.
Definition MAX_VALUE_SIZE : Z := 1024 * 1024.

(** [Message::size()]: [size_t] arithmetic. *)
Definition Message_size (m : Message) : Z :=
  u64 (u64 (1 + 4 * 3 + msg_key_length m) + msg_value_length m).

(** [Message::serialize()]. *)
Definition Message_serialize (m : Message) : list byte :=
  [MessageType_to_byte (msg_type m)]
  ++ le_bytes 4 (msg_id m)
  ++ le_bytes 4 (msg_key_length m)
  ++ le_bytes 4 (msg_value_length m)
  ++ bytes_of_string (msg_key m)
  ++ bytes_of_string (msg_value m).

(** [Message::deserialize(data)]. *)
Definition Message_deserialize (data : list byte) : result Message :=
  if zlen data <? 13 then Throw "Invalid message: too short" else
  let type := MessageType_of_byte (nth 0 data x00) in
  let id := le_value (field data 1 4) in
  let key_length := le_value (field data 5 4) in
  let value_length := le_value (field data 9 4) in
  let offset := 13 in
  if (key_length >? MAX_KEY_SIZE) || (value_length >? MAX_VALUE_SIZE) then
    Throw "Invalid message: key or value too large" else
  if zlen data <? u64 (u64 (offset + key_length) + value_length) then
    Throw "Invalid message: incomplete data" else
  let key := string_of_bytes (field data (Z.to_nat offset) (Z.to_nat key_length)) in
  let offset := offset + key_length in
  let value := string_of_bytes (field data (Z.to_nat offset) (Z.to_nat value_length)) in
  Ok {| msg_type := type; msg_id := id; msg_key_length := key_length;
        msg_value_length := value_length; msg_key := key; msg_value := value |}.

(** The messages the client and the server build: the length fields are the lengths of
    the strings, and the receiver's limits are kept. *)
Definition Message_wf (m : Message) : Prop :=
  MessageType_canonical (msg_type m) ∧ is_u32 (msg_id m) ∧
  msg_key_length m = slen (msg_key m) ∧ msg_value_length m = slen (msg_value m) ∧
  slen (msg_key m) <= MAX_KEY_SIZE ∧ slen (msg_value m) <= MAX_VALUE_SIZE.

(** ** Lemmas *)

Section MessageTypes.
Lemma MessageType_of_to_of b :
  MessageType_of_byte (MessageType_to_byte (MessageType_of_byte b)) = MessageType_of_byte b.
Proof. by destruct b. Qed.

Lemma MessageType_to_of b : MessageType_to_byte (MessageType_of_byte b) = b.
Proof. by destruct b. Qed.
End MessageTypes.

Section Layout.
Implicit Types m : Message.

Lemma length_Message_serialize m :
  zlen (Message_serialize m) = 13 + slen (msg_key m) + slen (msg_value m).
Proof.
  unfold Message_serialize, zlen, slen. autorewrite with db_len. simpl length. lia.
Qed.

Lemma serialize_fields m rest :
  nth 0 (Message_serialize m ++ rest) x00 = MessageType_to_byte (msg_type m) ∧
  field (Message_serialize m ++ rest) 1 4 = le_bytes 4 (msg_id m) ∧
  field (Message_serialize m ++ rest) 5 4 = le_bytes 4 (msg_key_length m) ∧
  field (Message_serialize m ++ rest) 9 4 = le_bytes 4 (msg_value_length m) ∧
  field (Message_serialize m ++ rest) 13 (String.length (msg_key m))
    = bytes_of_string (msg_key m) ∧
  field (Message_serialize m ++ rest) (13 + String.length (msg_key m))
    (String.length (msg_value m)) = bytes_of_string (msg_value m).
Proof.
  unfold Message_serialize. rewrite <- !app_assoc. split; [done|].
  repeat split; by read_field.
Qed.
End Layout.

Lemma Message_decode m rest :
  Message_wf m → Message_deserialize (Message_serialize m ++ rest) = Ok m.
Proof.
  intros (Ht & Hid & Hk & Hv & Hks & Hvs).
  destruct (serialize_fields m rest) as (F0 & F1 & F2 & F3 & F4 & F5).
  unfold Message_deserialize. rewrite F0, F1, F2, F3, Ht, zlen_app, length_Message_serialize.
  autorewrite with db_bytes. rewrite Hk, Hv.
  pose proof (zlen_nonneg rest). unfold slen, is_u32, MAX_KEY_SIZE, MAX_VALUE_SIZE in *.
  rewrite !u32_small by (unfold is_u32; lia). rewrite u64_sum by lia. zcases.
  replace (Z.to_nat (13 + _)) with (13 + String.length (msg_key m))%nat by lia.
  rewrite !Nat2Z.id. change (Z.to_nat 13) with 13%nat. rewrite F4, F5.
  autorewrite with db_bytes. destruct m; simpl in *; congruence.
Qed.

(** ** Theorems *)

(** C30.  [Message::deserialize] reads back what [Message::serialize] wrote, whatever bytes
    follow it, for every message whose length fields describe its strings. *)
Theorem Message_roundtrip (m : Message) (rest : list byte) :
  Message_wf m → Message_deserialize (Message_serialize m ++ rest) = Ok m.
Proof. apply Message_decode. Qed.

(** C31.  Conversely, whatever [Message::deserialize] accepts is a well-formed message, and
    serialising it gives back the bytes it was read from: two inputs that are read as the
    same message agree on every byte that was looked at. *)
Theorem Message_deserialize_sound (data : list byte) (m : Message) :
  Message_deserialize data = Ok m →
  Message_wf m ∧ zlen (Message_serialize m) <= zlen data ∧
  Message_serialize m = take (Z.to_nat (zlen (Message_serialize m))) data.
Proof.
  unfold Message_deserialize.
  pose proof (le_value_u32 (field data 1 4) (length_field_le _ _ _)) as Hid.
  pose proof (le_value_u32 (field data 5 4) (length_field_le _ _ _)) as Hk.
  pose proof (le_value_u32 (field data 9 4) (length_field_le _ _ _)) as Hv.
  pose proof (zlen_nonneg data).
  unfold is_u32, MAX_KEY_SIZE, MAX_VALUE_SIZE, zlen in *.
  rewrite u64_sum by lia. zcases; try discriminate.
  set (k := le_value (field data 5 4)) in *. set (v := le_value (field data 9 4)) in *.
  intros [= <-].
  assert (slen (string_of_bytes (field data (Z.to_nat 13) (Z.to_nat k))) = k) as Ek
    by (rewrite slen_string_field; lia).
  assert (slen (string_of_bytes (field data (Z.to_nat (13 + k)) (Z.to_nat v))) = v) as Ev
    by (rewrite slen_string_field; lia).
  change (Z.of_nat (length (Message_serialize ?m))) with (zlen (Message_serialize m)).
  rewrite length_Message_serialize. cbn [msg_key msg_value]. rewrite Ek, Ev.
  split; [|split; [lia|]].
  - unfold Message_wf, MAX_KEY_SIZE, MAX_VALUE_SIZE, is_u32. cbn. rewrite Ek, Ev.
    repeat split; try lia. apply MessageType_of_to_of.
  - unfold Message_serialize. cbn [msg_type msg_id msg_key_length msg_value_length msg_key msg_value].
    rewrite MessageType_to_of. autorewrite with db_bytes. unfold k at 1, v at 1.
    rewrite !le_bytes_field by lia.
    replace (Z.to_nat (13 + k + v)) with (13 + Z.to_nat k + Z.to_nat v)%nat by lia.
    rewrite !take_field. replace (Z.to_nat (13 + k)) with (13 + Z.to_nat k)%nat by lia.
    change (take 13 data) with (take (1 + 4 + 4 + 4) data).
    rewrite !take_field, byte_at_0 by lia.
    by rewrite <- !app_assoc.
Qed.

(** C32.  [Message::deserialize] succeeds exactly on the inputs whose header is complete,
    whose declared lengths are within the limits and whose body is all there.  No other
    input is accepted and none of these is refused: the size check is done in [size_t]
    without wrapping. *)
Theorem Message_deserialize_accepts (data : list byte) :
  is_ok (Message_deserialize data) = true ↔
  13 <= zlen data ∧ le_value (field data 5 4) <= MAX_KEY_SIZE ∧
  le_value (field data 9 4) <= MAX_VALUE_SIZE ∧
  13 + le_value (field data 5 4) + le_value (field data 9 4) <= zlen data.
Proof.
  unfold Message_deserialize.
  pose proof (le_value_u32 (field data 5 4) (length_field_le _ _ _)) as Hk.
  pose proof (le_value_u32 (field data 9 4) (length_field_le _ _ _)) as Hv.
  unfold is_u32, MAX_KEY_SIZE, MAX_VALUE_SIZE in *.
  rewrite u64_sum by lia. zcases; simpl; split; intros; (lia || discriminate || done).
Qed.

(** [Message::size] is the number of bytes [serialize] produces, and a message near the
    value limit does not fit in a frame: the largest value a peer accepts is
    [MAX_MESSAGE_SIZE - 13 - key_length], short of [MAX_VALUE_SIZE]. *)
Theorem Message_size_serialize (m : Message) :
  Message_wf m →
  Message_size m = zlen (Message_serialize m) ∧
  (zlen (Message_serialize m) <= MAX_MESSAGE_SIZE ↔
   slen (msg_value m) <= MAX_VALUE_SIZE - 13 - slen (msg_key m)).
Proof.
  intros (_ & _ & Hk & Hv & Hks & Hvs). rewrite length_Message_serialize.
  unfold Message_size. rewrite Hk, Hv.
  unfold slen, MAX_MESSAGE_SIZE, MAX_KEY_SIZE, MAX_VALUE_SIZE in *.
  rewrite u64_sum by lia. split; lia.
Qed.

(** ** The codec interface *)

#[export] Instance Message_codec : Codec Message.
Proof.
  refine {| encode := Message_serialize; decode := Message_deserialize;
            well_formed := Message_wf |}.
  intros m Hm. rewrite <- (app_nil_r (Message_serialize m)). by apply Message_decode.
Defined.

(** ** Witnesses *)

Definition sample_put : Message :=
  {| msg_type := MessageType.PUT; msg_id := 7; msg_key_length := 6; msg_value_length := 8;
     msg_key := "user:1"; msg_value := "John Doe" |}.

Lemma sample_put_wf : Message_wf sample_put.
Proof. repeat split; vm_compute; congruence. Qed.

Lemma Message_roundtrip_witness :
  Message_wf sample_put ∧
  Message_deserialize (Message_serialize sample_put ++ [x2a]) = Ok sample_put.
Proof. split; [apply sample_put_wf|]. apply (Message_roundtrip sample_put [x2a] sample_put_wf). Defined.

Lemma Message_deserialize_sound_witness :
  Message_wf sample_put ∧ zlen (Message_serialize sample_put) = 27.
Proof.
  split; [|vm_compute; reflexivity].
  apply (Message_deserialize_sound (Message_serialize sample_put) sample_put).
  vm_compute. reflexivity.
Defined.

Lemma Message_size_serialize_witness : Message_size sample_put = zlen (Message_serialize sample_put).
Proof. apply (Message_size_serialize sample_put sample_put_wf). Defined.
