(* ===== verification/WalRecord.v ===== *)
(** * Log records

    [include/storage/wal.h] and [src/storage/wal.cpp], lines 9-90: the record types, the
    [WALRecord] structure and its conversions.  Same plan as [Protocol.v], but the record
    header has no limit on the lengths it declares, and the two lengths are only bounded by
    the 32 bits they are stored in. *)

From stdpp Require Import base list strings.
From Stdlib Require Import ZArith Lia.
From Stdlib Require Import Strings.Byte.
From S2P Require Import Prelude.
From S2P Require Import Bytes.
From S2P Require Import Framing.

(** [enum class WALRecordType : uint8_t]; see [MessageType] for [Unnamed]. *)
Module WALRecordType.
Inductive t := PUT | DELETE | COMMIT | CHECKPOINT | Unnamed (b : byte).
End WALRecordType.

#[global] Instance WALRecordType_eq_dec : EqDecision WALRecordType.t.
Proof. intros x y. unfold Decision. decide equality. apply Byte.byte_eq_dec. Defined.

(** [static_cast<uint8_t>(type)]. *)
Definition WALRecordType_to_byte (t : WALRecordType.t) : byte :=
  match t with
  | WALRecordType.PUT => x01
  | WALRecordType.DELETE => x02
  | WALRecordType.COMMIT => x03
  | WALRecordType.CHECKPOINT => x04
  | WALRecordType.Unnamed b => b
  end.

(** [static_cast<WALRecordType>(byte)]. *)
Definition WALRecordType_of_byte (b : byte) : WALRecordType.t :=
  match b with
  | x01 => WALRecordType.PUT
  | x02 => WALRecordType.DELETE
  | x03 => WALRecordType.COMMIT
  | x04 => WALRecordType.CHECKPOINT
  | b => WALRecordType.Unnamed b
  end.

Definition WALRecordType_canonical (t : WALRecordType.t) : Prop :=
  WALRecordType_of_byte (WALRecordType_to_byte t) = t.

(** [struct WALRecord]. *)
Record WALRecord := mkWALRecord {
  rec_type : WALRecordType.t;
  rec_timestamp : Z;
  rec_key_length : Z;
  rec_value_length : Z;
  rec_key : string;
  rec_value : string;
  rec_transaction_id : Z;
}.

(** [WALRecord::WALRecord()]. *)
Definition WALRecord_default : WALRecord :=
  {| rec_type := WALRecordType.PUT; rec_timestamp := 0; rec_key_length := 0;
     rec_value_length := 0; rec_key := ""; rec_value := ""; rec_transaction_id := 0 |}.

(** [WALRecord::serialize()]. *)
Definition WALRecord_serialize (r : WALRecord) : list byte :=
  [WALRecordType_to_byte (rec_type r)]
  ++ le_bytes 8 (rec_timestamp r)
  ++ le_bytes 8 (rec_transaction_id r)
  ++ le_bytes 4 (rec_key_length r)
  ++ le_bytes 4 (rec_value_length r)
  ++ bytes_of_string (rec_key r)
  ++ bytes_of_string (rec_value r).

(** [WALRecord::deserialize(data)]. *)
Definition WALRecord_deserialize (data : list byte) : result WALRecord :=
  if zlen data <? 25 then Throw "Invalid WAL record: too short" else
  let type := WALRecordType_of_byte (nth 0 data x00) in
  let timestamp := le_value (field data 1 8) in
  let transaction_id := le_value (field data 9 8) in
  let key_length := le_value (field data 17 4) in
  let value_length := le_value (field data 21 4) in
  let offset := 25 in
  if zlen data <? u64 (u64 (offset + key_length) + value_length) then
    Throw "Invalid WAL record: incomplete data" else
  let key := string_of_bytes (field data (Z.to_nat offset) (Z.to_nat key_length)) in
  let offset := offset + key_length in
  let value := string_of_bytes (field data (Z.to_nat offset) (Z.to_nat value_length)) in
  Ok {| rec_type := type; rec_timestamp := timestamp; rec_key_length := key_length;
        rec_value_length := value_length; rec_key := key; rec_value := value;
        rec_transaction_id := transaction_id |}.

(** [WALRecord::size()]: [size_t] arithmetic. *)
Definition WALRecord_size (r : WALRecord) : Z :=
  u64 (u64 (1 + 8 * 2 + 4 * 2 + rec_key_length r) + rec_value_length r).

Definition WALRecord_wf (r : WALRecord) : Prop :=
  WALRecordType_canonical (rec_type r) ∧ is_u64 (rec_timestamp r) ∧
  is_u64 (rec_transaction_id r) ∧
  rec_key_length r = slen (rec_key r) ∧ rec_value_length r = slen (rec_value r) ∧
  is_u32 (slen (rec_key r)) ∧ is_u32 (slen (rec_value r)).

(** ** Lemmas *)

Section RecordTypes.
Lemma WALRecordType_of_to_of b :
  WALRecordType_of_byte (WALRecordType_to_byte (WALRecordType_of_byte b))
  = WALRecordType_of_byte b.
Proof. by destruct b. Qed.

Lemma WALRecordType_to_of b : WALRecordType_to_byte (WALRecordType_of_byte b) = b.
Proof. by destruct b. Qed.
End RecordTypes.

Section Layout.
Implicit Types r : WALRecord.

Lemma length_WALRecord_serialize r :
  zlen (WALRecord_serialize r) = 25 + slen (rec_key r) + slen (rec_value r).
Proof.
  unfold WALRecord_serialize, zlen, slen. autorewrite with db_len. simpl length. lia.
Qed.

Lemma record_fields r rest :
  nth 0 (WALRecord_serialize r ++ rest) x00 = WALRecordType_to_byte (rec_type r) ∧
  field (WALRecord_serialize r ++ rest) 1 8 = le_bytes 8 (rec_timestamp r) ∧
  field (WALRecord_serialize r ++ rest) 9 8 = le_bytes 8 (rec_transaction_id r) ∧
  field (WALRecord_serialize r ++ rest) 17 4 = le_bytes 4 (rec_key_length r) ∧
  field (WALRecord_serialize r ++ rest) 21 4 = le_bytes 4 (rec_value_length r) ∧
  field (WALRecord_serialize r ++ rest) 25 (String.length (rec_key r))
    = bytes_of_string (rec_key r) ∧
  field (WALRecord_serialize r ++ rest) (25 + String.length (rec_key r))
    (String.length (rec_value r)) = bytes_of_string (rec_value r).
Proof.
  unfold WALRecord_serialize. rewrite <- !app_assoc. split; [done|].
  repeat split; by read_field.
Qed.

Lemma WALRecord_decode r rest :
  WALRecord_wf r → WALRecord_deserialize (WALRecord_serialize r ++ rest) = Ok r.
Proof.
  intros (Ht & Hts & Htx & Hk & Hv & Hks & Hvs).
  destruct (record_fields r rest) as (F0 & F1 & F2 & F3 & F4 & F5 & F6).
  unfold WALRecord_deserialize.
  rewrite F0, F1, F2, F3, F4, Ht, zlen_app, length_WALRecord_serialize.
  autorewrite with db_bytes. rewrite Hk, Hv, !u32_small by done.
  rewrite (u64_small (rec_timestamp r)), (u64_small (rec_transaction_id r)) by done.
  pose proof (zlen_nonneg rest). unfold slen, is_u32 in *. rewrite u64_sum by lia. zcases.
  replace (Z.to_nat (25 + _)) with (25 + String.length (rec_key r))%nat by lia.
  rewrite !Nat2Z.id. change (Z.to_nat 25) with 25%nat. rewrite F5, F6.
  autorewrite with db_bytes. destruct r; simpl in *; congruence.
Qed.
End Layout.

(** ** Theorems *)

(** C33.  [WALRecord::deserialize] reads back what [WALRecord::serialize] wrote, whatever
    bytes follow it, for every record whose length fields describe its strings. *)
Theorem WALRecord_roundtrip (r : WALRecord) (rest : list byte) :
  WALRecord_wf r → WALRecord_deserialize (WALRecord_serialize r ++ rest) = Ok r.
Proof. apply WALRecord_decode. Qed.

(** Whatever [WALRecord::deserialize] accepts is a well-formed record whose
    serialisation is the prefix of the input it was read from; the two 32-bit lengths are
    added in [size_t] without wrapping, so no declared length escapes the bounds check. *)
Theorem WALRecord_deserialize_sound (data : list byte) (r : WALRecord) :
  WALRecord_deserialize data = Ok r →
  WALRecord_wf r ∧ zlen (WALRecord_serialize r) <= zlen data ∧
  WALRecord_serialize r = take (Z.to_nat (zlen (WALRecord_serialize r))) data.
Proof.
  unfold WALRecord_deserialize.
  pose proof (le_value_u64 (field data 1 8) (length_field_le _ _ _)) as Hts.
  pose proof (le_value_u64 (field data 9 8) (length_field_le _ _ _)) as Htx.
  pose proof (le_value_u32 (field data 17 4) (length_field_le _ _ _)) as Hk.
  pose proof (le_value_u32 (field data 21 4) (length_field_le _ _ _)) as Hv.
  unfold is_u32, is_u64, zlen in *. rewrite u64_sum by lia. zcases; try discriminate.
  set (k := le_value (field data 17 4)) in *. set (v := le_value (field data 21 4)) in *.
  intros [= <-].
  assert (slen (string_of_bytes (field data (Z.to_nat 25) (Z.to_nat k))) = k) as Ek
    by (rewrite slen_string_field; lia).
  assert (slen (string_of_bytes (field data (Z.to_nat (25 + k)) (Z.to_nat v))) = v) as Ev
    by (rewrite slen_string_field; lia).
  change (Z.of_nat (length (WALRecord_serialize ?r))) with (zlen (WALRecord_serialize r)).
  rewrite length_WALRecord_serialize. cbn [rec_key rec_value]. rewrite Ek, Ev.
  split; [|split; [lia|]].
  - unfold WALRecord_wf, is_u32, is_u64. cbn. rewrite Ek, Ev.
    repeat split; try lia. apply WALRecordType_of_to_of.
  - unfold WALRecord_serialize.
    cbn [rec_type rec_timestamp rec_transaction_id rec_key_length rec_value_length rec_key rec_value].
    rewrite WALRecordType_to_of. autorewrite with db_bytes. unfold k at 1, v at 1.
    rewrite !le_bytes_field by lia.
    replace (Z.to_nat (25 + k + v)) with (25 + Z.to_nat k + Z.to_nat v)%nat by lia.
    rewrite !take_field. replace (Z.to_nat (25 + k)) with (25 + Z.to_nat k)%nat by lia.
    change (take 25 data) with (take (1 + 8 + 8 + 4 + 4) data).
    rewrite !take_field, byte_at_0 by lia. by rewrite <- !app_assoc.
Qed.

(** [WALRecord::deserialize] succeeds exactly on the inputs with a complete header and a complete body: no length is
    refused for being too large. *)
Theorem WALRecord_deserialize_accepts (data : list byte) :
  is_ok (WALRecord_deserialize data) = true ↔
  25 <= zlen data ∧
  25 + le_value (field data 17 4) + le_value (field data 21 4) <= zlen data.
Proof.
  unfold WALRecord_deserialize.
  pose proof (le_value_u32 (field data 17 4) (length_field_le _ _ _)) as Hk.
  pose proof (le_value_u32 (field data 21 4) (length_field_le _ _ _)) as Hv.
  unfold is_u32 in *. rewrite u64_sum by lia.
  zcases; simpl; split; intros; (lia || discriminate || done).
Qed.

(** ** The codec interface *)

#[export] Instance WALRecord_codec : Codec WALRecord.
Proof.
  refine {| encode := WALRecord_serialize; decode := WALRecord_deserialize;
            well_formed := WALRecord_wf |}.
  intros r Hr. rewrite <- (app_nil_r (WALRecord_serialize r)). by apply WALRecord_decode.
Defined.

Lemma WALRecord_size_serialize r : WALRecord_wf r → WALRecord_size r = zlen (WALRecord_serialize r).
Proof.
  intros (_ & _ & _ & Hk & Hv & Hks & Hvs). rewrite length_WALRecord_serialize.
  unfold WALRecord_size. rewrite Hk, Hv. unfold is_u32 in *. rewrite u64_sum; lia.
Qed.

(** ** Witnesses *)

Definition sample_record : WALRecord :=
  {| rec_type := WALRecordType.PUT; rec_timestamp := 1700000000123; rec_key_length := 6;
     rec_value_length := 8; rec_key := "user:1"; rec_value := "John Doe";
     rec_transaction_id := 1 |}.

Lemma sample_record_wf : WALRecord_wf sample_record.
Proof. repeat split; vm_compute; congruence. Qed.

Lemma WALRecord_roundtrip_witness :
  WALRecord_wf sample_record ∧
  WALRecord_deserialize (WALRecord_serialize sample_record ++ [xff; x00]) = Ok sample_record.
Proof.
  split; [apply sample_record_wf|].
  apply (WALRecord_roundtrip sample_record [xff; x00] sample_record_wf).
Defined.

Lemma WALRecord_deserialize_sound_witness :
  WALRecord_wf sample_record ∧ zlen (WALRecord_serialize sample_record) = 39.
Proof.
  split; [|vm_compute; reflexivity].
  apply (WALRecord_deserialize_sound (WALRecord_serialize sample_record) sample_record).
  vm_compute. reflexivity.
Defined.
