(* ===== verification/LogReader.v ===== *)
(** * The log reader

    [src/storage/wal.cpp], lines 153-183: the loop of [WriteAheadLog::read_all_records]
    over the bytes of a log file.  It is written over a [Codec], the interface a record
    offers, and instantiated at [WALRecord] by the log.  The theorems say what the loop
    recovers from a complete log, from a log cut at any byte, and from a log that holds a
    record above the size limit. *)

From stdpp Require Import base list strings.
From Stdlib Require Import ZArith Lia.
From Stdlib Require Import Strings.Byte.
From S2P Require Import Prelude.
From S2P Require Import Bytes.
From S2P Require Import Framing.
From S2P Require Import WalRecord.

Section Reader.
Context {A : Type} `{!Codec A}.

(** One iteration per record.  [bs] is what the stream has left; [read_file.good()] holds
    on entry because every path on which a read hits the end of the file leaves the loop.
    [None] only says that the fuel ran out. *)
Fixpoint read_loop (fuel : nat) (bs : list byte) (records : list A) : option (list A) :=
  match fuel with
  | O => None
  | S fuel =>
      (* read(&record_size, 4); if (eof()) break; *)
      if zlen bs <? 4 then Some records else
      let record_size := le_value (take 4 bs) in
      let rest := drop 4 bs in
      if record_size >? 1024 * 1024 then Some records else
      (* read(data.data(), record_size); gcount() != record_size *)
      let data := take (Z.to_nat record_size) rest in
      if negb (zlen data =? record_size) then Some records else
      match decode data with
      | Throw _ => Some records
      | Ok record =>
          read_loop fuel (drop (Z.to_nat record_size) rest) (records ++ [record])
      end
  end.

(** The whole loop on a file's contents: one byte of fuel per byte of the file, and one. *)
Definition read_records (bs : list byte) : option (list A) :=
  read_loop (S (length bs)) bs [].

(** How many of the frames of [xs] lie within the first [n] bytes of the log. *)
Fixpoint complete_frames (n : nat) (xs : list A) : nat :=
  match xs with
  | [] => 0
  | x :: xs =>
      if (length (frame (encode x)) <=? n)%nat
      then S (complete_frames (n - length (frame (encode x))) xs) else 0
  end.
End Reader.

(** ** Lemmas *)

Section ReaderLemmas.
Context {A : Type} `{!Codec A}.
Implicit Types (x : A) (xs acc : list A) (bs tail : list byte).

Lemma read_loop_acc fuel bs acc :
  read_loop fuel bs acc = (app acc) <$> read_loop (A:=A) fuel bs [].
Proof.
  revert bs acc. induction fuel as [|fuel IH]; intros bs acc; [done|]. simpl.
  repeat case_match; simpl; rewrite ?app_nil_r; try done.
  rewrite IH, (IH _ [_]). destruct (read_loop _ _ []); simpl; [|done].
  by rewrite <- app_assoc.
Qed.

(** Any two amounts of fuel that exceed the length of the input give the same result. *)
Lemma read_loop_fuel fuel fuel' bs acc :
  (length bs < fuel)%nat → (length bs < fuel')%nat →
  read_loop (A:=A) fuel bs acc = read_loop fuel' bs acc.
Proof.
  revert fuel' bs acc. induction fuel as [|fuel IH]; intros [|fuel'] bs acc Hf Hf';
    [lia..|]. simpl.
  destruct (Z.ltb_spec (zlen bs) 4); [done|]. repeat case_match; try done.
  unfold zlen in *. apply IH; rewrite !length_drop; lia.
Qed.

Lemma read_loop_total fuel bs acc :
  (length bs < fuel)%nat → is_Some (read_loop (A:=A) fuel bs acc).
Proof.
  revert bs acc. induction fuel as [|fuel IH]; intros bs acc Hf; [lia|]. simpl.
  destruct (Z.ltb_spec (zlen bs) 4); [done|]. repeat case_match; try done.
  unfold zlen in *. apply IH; rewrite !length_drop; lia.
Qed.

Lemma read_records_total (bs : list byte) : is_Some (read_records (A:=A) bs).
Proof. unfold read_records. apply read_loop_total. lia. Qed.

(** One complete frame in front. *)
Lemma read_frame x tail :
  frameable x →
  read_records (frame (encode x) ++ tail) = (cons x) <$> read_records (A:=A) tail.
Proof.
  intros [Hw Hl]. unfold read_records at 1. cbn [read_loop].
  pose proof (length_frame (encode x)) as Hf. pose proof (zlen_nonneg (encode x)).
  rewrite frame_header, frame_rest by done. unfold MAX_FRAME in *.
  rewrite take_exact, drop_exact by (unfold zlen; lia).
  rewrite zlen_app, zlen_frame. pose proof (zlen_nonneg tail).
  zcases. rewrite decode_encode by done.
  rewrite read_loop_acc. change (app ([] ++ [x])) with (cons x). unfold read_records.
  f_equal. apply read_loop_fuel; rewrite ?length_app; lia.
Qed.

Lemma read_frames_tail xs tail :
  Forall frameable xs →
  read_records (frames xs ++ tail) = (app xs) <$> read_records (A:=A) tail.
Proof.
  induction 1 as [|x xs Hx Hxs IH].
  - simpl. by destruct (read_records tail).
  - rewrite frames_cons, <- app_assoc, read_frame, IH by done.
    by destruct (read_records tail).
Qed.

Lemma read_short bs : zlen bs < 4 → read_records (A:=A) bs = Some [].
Proof. intros H. unfold read_records. simpl. by zcase; [|lia]. Qed.

Lemma read_frames xs : Forall frameable xs → read_records (frames xs) = Some xs.
Proof.
  intros H. rewrite <- (app_nil_r (frames xs)), read_frames_tail, read_short by done.
  simpl. by rewrite app_nil_r.
Qed.

(** A frame that is cut short ends the loop. *)
Lemma read_torn x n :
  frameable x → (n < length (frame (encode x)))%nat →
  read_records (A:=A) (take n (frame (encode x))) = Some [].
Proof.
  intros [Hw Hl] Hn. destruct (decide (n < 4)%nat).
  { apply read_short. unfold zlen. rewrite length_take. lia. }
  assert (take n (frame (encode x)) = le_bytes 4 (zlen (encode x)) ++ take (n - 4) (encode x)) as E.
  { unfold frame. rewrite u32_small by (pose proof (zlen_nonneg (encode x)); unfold is_u32, MAX_FRAME in *; lia).
    rewrite take_app_ge by (rewrite length_le_bytes; lia). by rewrite length_le_bytes. }
  rewrite length_frame in Hn. rewrite E.
  unfold read_records. cbn [read_loop].
  rewrite take_exact, drop_exact by apply length_le_bytes.
  rewrite le_value_bytes4. pose proof (zlen_nonneg (encode x)).
  rewrite u32_small by (unfold is_u32, MAX_FRAME in *; lia).
  zcase; [done|]. unfold MAX_FRAME in *. zcase; [lia|].
  rewrite take_take. zcase; [|done]. unfold zlen in *. rewrite length_take in *. lia.
Qed.

(** A frame that declares more than the limit ends the loop. *)
Lemma read_oversize bs :
  1024 * 1024 < le_value (take 4 bs) → read_records (A:=A) bs = Some [].
Proof.
  intros H. unfold read_records. cbn [read_loop]. zcase; [done|]. zcase; [done|lia].
Qed.

Lemma read_cut n xs :
  Forall frameable xs →
  read_records (take n (frames xs)) = Some (take (complete_frames n xs) xs).
Proof.
  intros Hxs. revert n. induction Hxs as [|x xs Hx Hxs IH]; intros n.
  - by rewrite frames_nil, take_nil.
  - rewrite frames_cons. cbn [complete_frames].
    destruct (Nat.leb_spec (length (frame (encode x))) n).
    + rewrite take_app_ge, read_frame, IH by done. done.
    + rewrite take_app_le by lia. by apply read_torn.
Qed.

Lemma complete_frames_le n xs : (complete_frames n xs <= length xs)%nat.
Proof.
  revert n. induction xs as [|x xs IH]; intros n; cbn [complete_frames length]; [lia|].
  case_match; [|lia]. by apply le_n_S.
Qed.

Lemma complete_frames_app n xs ys :
  (length (frames xs) <= n)%nat →
  complete_frames n (xs ++ ys) = (length xs + complete_frames (n - length (frames xs)) ys)%nat.
Proof.
  revert n. induction xs as [|x xs IH]; intros n Hn.
  { by rewrite frames_nil, Nat.sub_0_r. }
  rewrite frames_cons, length_app in Hn. rewrite frames_cons, length_app. cbn [complete_frames length app].
  destruct (Nat.leb_spec (length (frame (encode x))) n); [|lia].
  rewrite IH by lia. rewrite Nat.sub_add_distr. lia.
Qed.

Lemma complete_frames_all n xs :
  (length (frames xs) <= n)%nat → complete_frames n xs = length xs.
Proof.
  intros Hn. rewrite <- (app_nil_r xs) at 1. rewrite complete_frames_app by done.
  cbn. lia.
Qed.
End ReaderLemmas.

Section CutPoints.
Context {A : Type} `{!Codec A}.
Implicit Types (x : A) (xs : list A).

(** [complete_frames n xs] is the number of frames of [xs] that end within [n] bytes. *)
Lemma complete_frames_fit n xs :
  (length (frames (take (complete_frames n xs) xs)) <= n)%nat.
Proof.
  revert n. induction xs as [|x xs IH]; intros n; cbn [complete_frames take].
  { rewrite frames_nil. cbn [length]. lia. }
  destruct (Nat.leb_spec (length (frame (encode x))) n).
  - cbn [take]. rewrite frames_cons, length_app.
    specialize (IH (n - length (frame (encode x)))%nat). lia.
  - cbn [take]. rewrite frames_nil. cbn [length]. lia.
Qed.

Lemma complete_frames_max n xs k :
  (k <= length xs)%nat → (length (frames (take k xs)) <= n)%nat →
  (k <= complete_frames n xs)%nat.
Proof.
  intros Hk Hn. rewrite <- (take_drop k xs), complete_frames_app by done.
  rewrite length_take. lia.
Qed.

(** A record too large for the reader, at the head of what is left of the log. *)
Lemma read_large x tail :
  MAX_FRAME < zlen (encode x) < 2 ^ 32 → read_records (A:=A) (frame (encode x) ++ tail) = Some [].
Proof.
  intros H. apply read_oversize. unfold frame.
  rewrite <- app_assoc, take_exact, le_value_bytes4 by apply length_le_bytes.
  unfold MAX_FRAME in *. rewrite !u32_small; rewrite ?u32_small; unfold is_u32; lia.
Qed.
End CutPoints.

(** ** Theorems: what [read_all_records] recovers *)

(** The reading loop always ends, and the fuel [read_records] gives it is enough: every
    larger amount of fuel gives the same records. *)
Theorem read_loop_terminates (bs : list byte) (fuel : nat) :
  (length bs < fuel)%nat →
  ∃ records : list WALRecord,
    read_records bs = Some records ∧ read_loop fuel bs [] = Some records.
Proof.
  intros Hf. destruct (read_loop_total (A:=WALRecord) fuel bs [] Hf) as [records E].
  exists records. split; [|done]. rewrite <- E. apply read_loop_fuel; lia.
Qed.

(** Reading a log of records that respect the 1 MB limit gives back exactly those
    records, in order, followed by whatever the bytes behind them hold. *)
Theorem read_all_records_roundtrip (rs : list WALRecord) (tail : list byte) :
  Forall frameable rs →
  read_records (frames rs ++ tail) = (app rs) <$> read_records tail.
Proof. apply read_frames_tail. Qed.

(** C25.  Crash safety of the log format: cut the log at any byte [n], as a crash in the
    middle of a write does, and the reader returns exactly the records whose frames end
    within the first [n] bytes: the longest such prefix, never a damaged or reordered
    record. *)
Theorem read_all_records_crash (rs : list WALRecord) (n : nat) :
  Forall frameable rs →
  ∃ k, read_records (take n (frames rs)) = Some (take k rs) ∧ (k <= length rs)%nat ∧
    (length (frames (take k rs)) <= n)%nat ∧
    ∀ j, (j <= length rs)%nat → (length (frames (take j rs)) <= n)%nat → (j <= k)%nat.
Proof.
  intros Hrs. exists (complete_frames n rs).
  split; [by apply read_cut|]. split; [apply complete_frames_le|].
  split; [apply complete_frames_fit|]. intros j. apply complete_frames_max.
Qed.

(** The writer has no size limit but the reader has one: behind a record whose
    serialisation exceeds 1 MB, no record of the log is ever read again. *)
Theorem read_all_records_oversize (rs : list WALRecord) (big : WALRecord) (later : list WALRecord) :
  Forall frameable rs → MAX_FRAME < zlen (encode big) < 2 ^ 32 →
  read_records (frames (rs ++ big :: later)) = Some rs.
Proof.
  intros Hrs Hbig. rewrite frames_app, frames_cons, read_frames_tail, read_large by done.
  simpl. by rewrite app_nil_r.
Qed.

(** ** Witnesses *)

Lemma sample_record_frameable : frameable sample_record.
Proof. split; [apply sample_record_wf | vm_compute; congruence]. Qed.

Lemma read_loop_terminates_witness :
  ∃ records : list WALRecord, read_records [x01; x00; x00; x00; x07] = Some records ∧
    read_loop 9 [x01; x00; x00; x00; x07] [] = Some records.
Proof. apply read_loop_terminates. simpl. lia. Defined.

Lemma read_all_records_roundtrip_witness :
  read_records (frames [sample_record; sample_record] ++ [x01; x02])
  = Some [sample_record; sample_record].
Proof.
  rewrite (read_all_records_roundtrip [sample_record; sample_record] [x01; x02]);
    [reflexivity|].
  repeat constructor; apply sample_record_frameable.
Defined.

Lemma read_all_records_crash_witness :
  ∃ k, read_records (take 50 (frames [sample_record; sample_record]))
       = Some (take k [sample_record; sample_record]) ∧ k = 1%nat.
Proof.
  destruct (read_all_records_crash [sample_record; sample_record] 50) as (k & E & Hk & Hfit & Hmax).
  { repeat constructor; apply sample_record_frameable. }
  exists k. split; [exact E|]. destruct k as [|[|[|k]]]; [|done|..]; simpl in Hk; try lia.
  - specialize (Hmax 1%nat). vm_compute in Hmax. lia.
  - vm_compute in Hfit. lia.
Defined.

(** A record with a value of 1 MB; it is described, not computed. *)
Definition large_value : string := string_of_bytes (repeat x61 (Z.to_nat (1024 * 1024))).
Definition large_record : WALRecord :=
  {| rec_type := WALRecordType.PUT; rec_timestamp := 1; rec_key_length := 1;
     rec_value_length := 1024 * 1024; rec_key := "k"; rec_value := large_value;
     rec_transaction_id := 1 |}.

Lemma slen_large_value : slen large_value = 1024 * 1024.
Proof. unfold large_value. rewrite slen_string_of_bytes. unfold zlen. rewrite repeat_length. lia. Qed.

Lemma zlen_large_record : zlen (encode large_record) = 1024 * 1024 + 26.
Proof.
  change (encode large_record) with (WALRecord_serialize large_record).
  rewrite length_WALRecord_serialize. cbn [rec_key rec_value large_record].
  rewrite slen_large_value. reflexivity.
Qed.

Lemma read_all_records_oversize_witness :
  read_records (frames ([sample_record] ++ large_record :: [sample_record])) = Some [sample_record].
Proof.
  apply (read_all_records_oversize [sample_record] large_record [sample_record]).
  - repeat constructor; apply sample_record_frameable.
  - rewrite zlen_large_record. split; reflexivity.
Defined.
