(* ===== verification/Effects.v ===== *)
(** * Effects: exceptions, undefined behaviour, the environment, output streams

    A C++ operation is a function from a state to an outcome and a new state.  The
    environment ([World]) holds what the operating system and the standard library decide:
    the contents of the files, the readings of [std::chrono::system_clock], whether an I/O
    call succeeds and how much of a stream buffer reaches the file, and the order in which
    [std::unordered_map] walks its buckets.  The last three are oracles: every theorem
    holds for all of them unless it names a hypothesis about one. *)

From stdpp Require Import base gmap list strings.
From Stdlib Require Import ZArith Lia.
From Stdlib Require Import Strings.Byte.
From S2P Require Import Prelude.

(** ** Outcomes and the monad *)

(** A normal return, an exception with its [what()], or undefined behaviour. *)
Inductive outcome (A : Type) : Type :=
  | Val (a : A)
  | Exn (what : string)
  | UB (why : string).
Arguments Val {A} a.
Arguments Exn {A} what.
Arguments UB {A} why.

Definition M (S A : Type) : Type := S → outcome A * S.

#[global] Instance M_ret S : MRet (M S) := λ A a s, (Val a, s).
#[global] Instance M_bind S : MBind (M S) := λ A B k m s,
  match m s with
  | (Val a, s') => k a s'
  | (Exn what, s') => (Exn what, s')
  | (UB why, s') => (UB why, s')
  end.

Section Operations.
Context {S : Type}.

Definition get_state : M S S := λ s, (Val s, s).
Definition gets {A} (f : S → A) : M S A := λ s, (Val (f s), s).
Definition modify (f : S → S) : M S unit := λ s, (Val tt, f s).
Definition throw {A} (what : string) : M S A := λ s, (Exn what, s).
Definition undefined {A} (why : string) : M S A := λ s, (UB why, s).
Definition of_result {A} (r : result A) : M S A :=
  match r with Ok a => mret a | Throw what => throw what end.

(** [try { m } catch (const std::exception& e) { h(e.what()) }]. *)
Definition try_catch {A} (m : M S A) (h : string → M S A) : M S A := λ s,
  match m s with
  | (Exn what, s') => h what s'
  | r => r
  end.
End Operations.

(** Runs an operation of a part of the state. *)
Definition zoom {S T A} (get : S → T) (set : T → S → S) (m : M T A) : M S A := λ s,
  let '(r, t) := m (get s) in (r, set t s).

(** [m] leaves [f] of the state as it is, however it ends. *)
Definition keeps {S A X} (f : S → X) (m : M S A) : Prop := ∀ s, f (m s).2 = f s.

Create HintDb db_keeps.

Section Keeps.
Context {S X : Type} (f : S → X).

Lemma keeps_ret {A} (a : A) : keeps f (mret a : M S A).
Proof. done. Qed.

Lemma keeps_gets {A} (g : S → A) : keeps f (gets g).
Proof. done. Qed.

Lemma keeps_undefined {A} why : keeps f (@undefined S A why).
Proof. done. Qed.

Lemma keeps_bind {A B} (m : M S A) (k : A → M S B) :
  keeps f m → (∀ a, keeps f (k a)) → keeps f (m ≫= k).
Proof.
  intros Hm Hk s. unfold mbind, M_bind. specialize (Hm s).
  destruct (m s) as [[a|?|?] s']; cbn in *; [|done..]. by rewrite (Hk a s').
Qed.

Lemma keeps_modify (g : S → S) : (∀ s, f (g s) = f s) → keeps f (modify g).
Proof. intros H s. apply H. Qed.

Lemma keeps_if {A} (b : bool) (m n : M S A) : keeps f m → keeps f n → keeps f (if b then m else n).
Proof. by destruct b. Qed.
End Keeps.

#[export] Hint Resolve keeps_ret keeps_gets keeps_undefined keeps_if : db_keeps.

(** How an operation can end, whatever the state: with a value in [P], with an exception in
    [Q], and without undefined behaviour. *)
Definition ends {S A} (P : A → Prop) (Q : string → Prop) (m : M S A) : Prop := ∀ s,
  match (m s).1 with
  | Val a => P a
  | Exn what => Q what
  | UB _ => False
  end.

Create HintDb db_ends.

Section Ends.
Context {S : Type}.

Lemma ends_ret {A} (P : A → Prop) Q (a : A) : P a → ends P Q (mret a : M S A).
Proof. intros H s. apply H. Qed.

Lemma ends_gets {A} (P : A → Prop) Q (f : S → A) : (∀ s, P (f s)) → ends P Q (gets f).
Proof. intros H s. apply H. Qed.

Lemma ends_modify (P : unit → Prop) Q (f : S → S) : P tt → ends P Q (modify f).
Proof. intros H s. apply H. Qed.

Lemma ends_throw {A} (P : A → Prop) (Q : string → Prop) what : Q what → ends P Q (@throw S A what).
Proof. intros H s. apply H. Qed.

Lemma ends_of_result {A} (P : A → Prop) (Q : string → Prop) (r : result A) :
  match r with Ok a => P a | Throw what => Q what end → ends (S := S) P Q (of_result r).
Proof. intros H s. destruct r; exact H. Qed.

Lemma ends_bind {A B} (R : A → Prop) (P : B → Prop) Q (m : M S A) (k : A → M S B) :
  ends R Q m → (∀ a, R a → ends P Q (k a)) → ends P Q (m ≫= k).
Proof.
  intros Hm Hk s. specialize (Hm s). unfold mbind, M_bind.
  destruct (m s) as [[a|what|why] s']; cbn in *; [|done..]. by apply Hk.
Qed.

Lemma ends_try {A} (P : A → Prop) (R Q : string → Prop) (m : M S A) (h : string → M S A) :
  ends P R m → (∀ what, R what → ends P Q (h what)) → ends P Q (try_catch m h).
Proof.
  intros Hm Hh s. specialize (Hm s). unfold try_catch.
  destruct (m s) as [[a|what|why] s']; cbn in *; [done| |done]. by apply Hh.
Qed.

Lemma ends_zoom {T A} (P : A → Prop) Q (get : T → S) (set : S → T → T) (m : M S A) :
  ends P Q m → ends P Q (zoom get set m).
Proof. intros H s. specialize (H (get s)). unfold zoom. by destruct (m (get s)). Qed.

Lemma ends_if {A} (P : A → Prop) Q (b : bool) (m n : M S A) :
  ends P Q m → ends P Q n → ends P Q (if b then m else n).
Proof. by destruct b. Qed.

Lemma ends_weaken {A} (P P' : A → Prop) (Q Q' : string → Prop) (m : M S A) :
  ends P Q m → (∀ a, P a → P' a) → (∀ what, Q what → Q' what) → ends P' Q' m.
Proof. intros H HP HQ s. specialize (H s). destruct (m s).1; auto. Qed.
End Ends.

(** ** The environment *)

(** The fate of one I/O call: whether it succeeds, and how many of the bytes in hand reach
    the file during the call. *)
Record io_result := mkIo { io_ok : bool; io_count : nat }.

Record World := mkWorld {
  w_files : gmap string (list byte);
  w_clock : nat → Z;        (** successive readings of the clock, in milliseconds *)
  w_ticks : nat;            (** how many were taken *)
  w_io : nat → io_result;   (** fate of the successive I/O calls *)
  w_ios : nat;
  w_order : nat → gmap string string → list (string * string);
                            (** bucket order at the successive walks of a map *)
  w_walks : nat;
}.

Definition set_files (f : gmap string (list byte)) (w : World) : World :=
  mkWorld f (w_clock w) (w_ticks w) (w_io w) (w_ios w) (w_order w) (w_walks w).

(** [std::chrono::system_clock::now()], as a count of milliseconds. *)
Definition clock_now : M World Z := λ w,
  (Val (w_clock w (w_ticks w)),
   mkWorld (w_files w) (w_clock w) (S (w_ticks w)) (w_io w) (w_ios w) (w_order w) (w_walks w)).

(** The fate of the next I/O call. *)
Definition next_io (w : World) : io_result * World :=
  (w_io w (w_ios w),
   mkWorld (w_files w) (w_clock w) (w_ticks w) (w_io w) (S (w_ios w)) (w_order w) (w_walks w)).

(** [for (const auto& pair : map)]: the elements in bucket order. *)
Definition walk_map (m : gmap string string) : M World (list (string * string)) := λ w,
  (Val (w_order w (w_walks w) m),
   mkWorld (w_files w) (w_clock w) (w_ticks w) (w_io w) (w_ios w) (w_order w) (S (w_walks w))).

(** What the standard promises of a walk: every element, once. *)
Definition fair_order (w : World) : Prop :=
  ∀ n m, w_order w n m ≡ₚ map_to_list m.

(** No I/O call fails from here on; buffering stays arbitrary. *)
Definition healthy (w : World) : Prop :=
  ∀ n, (w_ios w <= n)%nat → io_ok (w_io w n) = true.

(** The bytes of a file; a file that does not exist has none. *)
Definition file_bytes (w : World) (path : string) : list byte :=
  default [] (w_files w !! path).

Definition append_file (path : string) (bs : list byte) (w : World) : World :=
  set_files (<[path := file_bytes w path ++ bs]> (w_files w)) w.

(** ** [std::ofstream] opened with [std::ios::binary | std::ios::app] *)

Record Ofstream := mkOfstream {
  of_path : string;
  of_open : bool;
  of_bad : bool;           (** failbit or badbit is set, so that good() is false *)
  of_buf : list byte;      (** accepted by the stream, not yet in the file *)
}.

Definition Ofstream_default : Ofstream :=
  {| of_path := ""; of_open := false; of_bad := false; of_buf := [] |}.

Definition of_set_bad (s : Ofstream) : Ofstream :=
  mkOfstream (of_path s) (of_open s) true (of_buf s).
Definition of_set_buf (b : list byte) (s : Ofstream) : Ofstream :=
  mkOfstream (of_path s) (of_open s) (of_bad s) b.

(** [stream.open(path, binary | app)]: an open stream fails; success clears the state and
    creates the file. *)
Definition of_do_open (path : string) (s : Ofstream) (w : World) : Ofstream * World :=
  if of_open s then (of_set_bad s, w) else
  let '(io, w) := next_io w in
  if io_ok io then (mkOfstream path true false [], append_file path [] w)
  else (of_set_bad s, w).

(** [stream.write(bytes)]: nothing on a stream that is not good; badbit on a stream that is
    not open; otherwise part of the buffer may be passed on to the file. *)
Definition of_do_write (bs : list byte) (s : Ofstream) (w : World) : Ofstream * World :=
  if of_bad s then (s, w) else
  if negb (of_open s) then (of_set_bad s, w) else
  let '(io, w) := next_io w in
  let pending := of_buf s ++ bs in
  let w := append_file (of_path s) (take (io_count io) pending) w in
  let s := of_set_buf (drop (io_count io) pending) s in
  (if io_ok io then s else of_set_bad s, w).

(** [stream.flush()]: the whole buffer reaches the file, or part of it and badbit. *)
Definition of_do_flush (s : Ofstream) (w : World) : Ofstream * World :=
  if of_bad s || negb (of_open s) then (s, w) else
  let '(io, w) := next_io w in
  if io_ok io then (of_set_buf [] s, append_file (of_path s) (of_buf s) w)
  else (of_set_bad (of_set_buf (drop (io_count io) (of_buf s)) s),
        append_file (of_path s) (take (io_count io) (of_buf s)) w).

(** [stream.close()]: flushes and closes; failbit if the stream was not open or the flush
    failed, and what could not be flushed is lost. *)
Definition of_do_close (s : Ofstream) (w : World) : Ofstream * World :=
  if negb (of_open s) then (of_set_bad s, w) else
  let '(io, w) := next_io w in
  if io_ok io then (mkOfstream (of_path s) false (of_bad s) [], append_file (of_path s) (of_buf s) w)
  else (mkOfstream (of_path s) false true [],
        append_file (of_path s) (take (io_count io) (of_buf s)) w).

(** [std::ifstream(path, binary)]: the contents, when the file can be opened. *)
Definition ifstream_open (path : string) : M World (option (list byte)) := λ w,
  let '(io, w) := next_io w in
  (Val (if io_ok io then w_files w !! path else None), w).

(** [std::filesystem::create_directories(path)]; directories themselves are not tracked. *)
Definition create_directories (path : string) : M World unit := λ w,
  let '(io, w) := next_io w in
  (if io_ok io then Val tt else Exn "filesystem error: cannot create directories", w).

(** ** How an operation may change the environment *)

(** Only the file at [path] may differ, and it only grows; the oracles are the same and only move forward. *)
Record evolves (path : string) (w w' : World) : Prop := {
  ev_clock : w_clock w' = w_clock w;
  ev_io : w_io w' = w_io w;
  ev_order : w_order w' = w_order w;
  ev_ticks : (w_ticks w <= w_ticks w')%nat;
  ev_ios : (w_ios w <= w_ios w')%nat;
  ev_walks : (w_walks w <= w_walks w')%nat;
  ev_files : ∀ p, p ≠ path → w_files w' !! p = w_files w !! p;
  ev_grows : file_bytes w path `prefix_of` file_bytes w' path;
}.

#[global] Instance evolves_preorder path : PreOrder (evolves path).
Proof.
  split.
  - intros w. by split.
  - intros w1 w2 w3 [] []. split; try congruence; try lia.
    + intros p Hp. rewrite ev_files1 by done. by apply ev_files0.
    + by etrans.
Qed.

Create HintDb db_env.
Create Rewrite HintDb db_files.

Lemma evolves_healthy path w w' : evolves path w w' → healthy w → healthy w'.
Proof. intros [] H n Hn. rewrite ev_io0. apply H. lia. Qed.

Lemma evolves_fair path w w' : evolves path w w' → fair_order w → fair_order w'.
Proof. intros [] H n m. rewrite ev_order0. apply H. Qed.

Lemma evolves_next_io path w : evolves path w (next_io w).2.
Proof. split; simpl; auto with lia. Qed.

Lemma file_bytes_append path bs w :
  file_bytes (append_file path bs w) path = file_bytes w path ++ bs.
Proof. unfold file_bytes at 1, append_file. simpl. by rewrite lookup_insert_eq. Qed.

Lemma evolves_append path bs w : evolves path w (append_file path bs w).
Proof.
  split; simpl; try done.
  - intros p Hp. by apply lookup_insert_ne.
  - rewrite file_bytes_append. by apply prefix_app_r.
Qed.

#[export] Hint Resolve evolves_healthy evolves_fair evolves_next_io evolves_append : db_env.
#[export] Hint Extern 0 (evolves _ ?w ?w) => reflexivity : db_env.

Lemma lookup_append_file path bs w :
  w_files (append_file path bs w) !! path = Some (file_bytes w path ++ bs).
Proof. apply lookup_insert_eq. Qed.

Lemma lookup_file_bytes path bs w : w_files w !! path = Some bs → file_bytes w path = bs.
Proof. unfold file_bytes. by intros ->. Qed.

Lemma file_bytes_next_io path w : file_bytes (next_io w).2 path = file_bytes w path.
Proof. done. Qed.

#[export] Hint Rewrite file_bytes_append : db_files.

(** ** Streams *)

(** Everything the stream accepted: what the file holds, then what is still buffered. *)
Definition accepted (s : Ofstream) (w : World) : list byte :=
  file_bytes w (of_path s) ++ of_buf s.

Definition good (s : Ofstream) : bool := negb (of_bad s).

(** A stream on which output works. *)
Definition live (s : Ofstream) : Prop := of_open s = true ∧ of_bad s = false.

Section Streams.
Implicit Types (s : Ofstream) (w : World).

Lemma accepted_drain k bs s w b :
  accepted (mkOfstream (of_path s) (of_open s) b (drop k (of_buf s ++ bs)))
    (append_file (of_path s) (take k (of_buf s ++ bs)) (next_io w).2)
  = accepted s w ++ bs.
Proof.
  unfold accepted. cbn [of_path of_buf]. rewrite file_bytes_append, file_bytes_next_io.
  by rewrite <- !app_assoc, take_drop.
Qed.

Lemma evolves_io_append path bs w : evolves path w (append_file path bs (next_io w).2).
Proof. etrans; [apply evolves_next_io|apply evolves_append]. Qed.

(** Under any I/O outcome, a write adds its bytes or, on a stream that was not good,
    nothing; the stream is good afterwards only if it was live and the bytes are in. *)
Lemma write_accepted bs s w s' w' :
  of_do_write bs s w = (s', w') →
  of_path s' = of_path s ∧ of_open s' = of_open s ∧ evolves (of_path s) w w' ∧
  (accepted s' w' = accepted s w ∧ of_bad s' = true ∨
   live s ∧ accepted s' w' = accepted s w ++ bs).
Proof.
  unfold of_do_write. destruct (of_bad s) eqn:Hb.
  { intros [= <- <-]. split_and!; try done. by left. }
  destruct (of_open s) eqn:Ho; simpl; [|intros [= <- <-]; split_and!; try done; by left].
  destruct (io_ok _); intros [= <- <-]; split_and!; try done;
    try apply evolves_io_append; right; (split; [done|]); exact (accepted_drain _ bs s w _).
Qed.

Lemma write_healthy bs s w :
  live s → healthy w →
  ∃ s' w', of_do_write bs s w = (s', w') ∧ live s' ∧ of_path s' = of_path s ∧
    evolves (of_path s) w w' ∧ accepted s' w' = accepted s w ++ bs.
Proof.
  intros [Ho Hb] Hw. destruct (of_do_write bs s w) as [s' w'] eqn:E.
  exists s', w'. destruct (write_accepted _ _ _ _ _ E) as (Hp & Ho' & Hev & Hacc).
  assert (of_bad s' = false) as Hb'.
  { revert E. unfold of_do_write. rewrite Hb, Ho. simpl. rewrite Hw by lia.
    by intros [= <- <-]. }
  split_and!; try done; [by split; congruence|].
  destruct Hacc as [[_ ?]|[_ ?]]; [congruence|done].
Qed.

(** A write that is buffered whole. *)
Lemma write_buffered bs s w :
  live s → w_io w (w_ios w) = mkIo true 0 →
  of_do_write bs s w
  = (of_set_buf (of_buf s ++ bs) s, append_file (of_path s) [] (next_io w).2).
Proof. intros [Ho Hb] E. unfold of_do_write. rewrite Hb, Ho. simpl. by rewrite E. Qed.

(** A flush that fails before its first byte. *)
Lemma flush_lost s w :
  live s → w_io w (w_ios w) = mkIo false 0 →
  of_do_flush s w
  = (of_set_bad (of_set_buf (of_buf s) s), append_file (of_path s) [] (next_io w).2).
Proof. intros [Ho Hb] E. unfold of_do_flush. rewrite Hb, Ho. simpl. by rewrite E. Qed.

Lemma append_nothing path p bs w :
  w_files w !! p = Some bs → w_files (append_file path [] w) !! p = Some bs.
Proof.
  intros H. unfold append_file, file_bytes. simpl. rewrite app_nil_r.
  destruct (decide (path = p)) as [->|Hne].
  - rewrite lookup_insert_eq. by rewrite H.
  - by rewrite lookup_insert_ne.
Qed.

(** A flush moves bytes from the buffer to the file and loses none. *)
Lemma flush_accepted s w s' w' :
  of_do_flush s w = (s', w') →
  of_path s' = of_path s ∧ of_open s' = of_open s ∧ evolves (of_path s) w w' ∧
  accepted s' w' = accepted s w ∧ (of_bad s' = false → live s → of_buf s' = []).
Proof.
  unfold of_do_flush. destruct (of_bad s) eqn:Hb; simpl.
  { intros [= <- <-]. split_and!; try done. congruence. }
  destruct (of_open s) eqn:Ho; simpl;
    [|intros [= <- <-]; split_and!; try done; intros _ []; congruence].
  destruct (io_ok _); intros [= <- <-]; split_and!; try done; try apply evolves_io_append;
    unfold accepted; rewrite file_bytes_append; cbn -[next_io app take drop].
  - by rewrite app_nil_r.
  - by rewrite <- app_assoc, take_drop.
Qed.

Lemma flush_healthy s w :
  live s → healthy w →
  ∃ s' w', of_do_flush s w = (s', w') ∧ live s' ∧ of_path s' = of_path s ∧ of_buf s' = [] ∧
    evolves (of_path s) w w' ∧ w_files w' !! of_path s = Some (accepted s w).
Proof.
  intros [Ho Hb] Hw. destruct (of_do_flush s w) as [s' w'] eqn:E.
  exists s', w'. destruct (flush_accepted _ _ _ _ E) as (Hp & Ho' & Hev & Hacc & Hbuf).
  revert E. unfold of_do_flush. rewrite Hb, Ho. simpl. rewrite Hw by lia.
  intros [= <- <-]. split_and!; try done. apply lookup_append_file.
Qed.

(** Closing puts a prefix of what was accepted into the file; all of it on success. *)
Lemma close_accepted s w s' w' :
  of_do_close s w = (s', w') →
  of_path s' = of_path s ∧ of_open s' = false ∧ of_buf s' = [] ∨ s' = of_set_bad s ∧ w' = w.
Proof.
  unfold of_do_close. destruct (of_open s); simpl; [|intros [= <- <-]; by right].
  destruct (io_ok _); intros [= <- <-]; by left.
Qed.

Lemma close_healthy s w :
  of_open s = true → healthy w →
  ∃ w', of_do_close s w = (mkOfstream (of_path s) false (of_bad s) [], w') ∧
    evolves (of_path s) w w' ∧ w_ticks w' = w_ticks w ∧ w_files w' !! of_path s = Some (accepted s w).
Proof.
  intros Ho Hw. unfold of_do_close. rewrite Ho. simpl. rewrite Hw by lia.
  eexists. split; [done|]. split; [apply evolves_io_append|]. split; [done|].
  apply lookup_append_file.
Qed.

Lemma open_healthy path s w :
  of_open s = false → healthy w →
  ∃ w', of_do_open path s w = (mkOfstream path true false [], w') ∧
    evolves path w w' ∧ w_files w' !! path = Some (file_bytes w path).
Proof.
  intros Ho Hw. unfold of_do_open. rewrite Ho. simpl. rewrite Hw by lia.
  eexists. split; [done|]. split; [apply evolves_io_append|].
  rewrite lookup_append_file, app_nil_r. done.
Qed.
End Streams.
