(* ===== verification/Wal.v ===== *)
(** * The write-ahead log

    [include/storage/wal.h] and [src/storage/wal.cpp], lines 92-358: the [WriteAheadLog]
    object and all its operations, over the environment and the stream of [Effects.v].
    Messages printed to [std::cout] and [std::cerr] are left out. *)

From stdpp Require Import base gmap list strings pretty.
From Stdlib Require Import ZArith Lia.
From Stdlib Require Import Strings.Byte.
From S2P Require Import Prelude.
From S2P Require Import Bytes.
From S2P Require Import Framing.
From S2P Require Import WalRecord.
From S2P Require Import LogReader.
From S2P Require Import Effects.

(** [std::to_string] of an integer. *)
Definition to_string (z : Z) : string := pretty z.

(** [class WriteAheadLog]. *)
Record WriteAheadLog := mkWriteAheadLog {
  log_dir_ : string;
  current_log_file_ : string;
  log_file_ : Ofstream;
  wal_mutex_ : bool;          (** [mutex_] is held by the thread that is running *)
  total_records_ : Z;
  total_bytes_ : Z;
}.

Definition set_log_file (s : Ofstream) (l : WriteAheadLog) : WriteAheadLog :=
  mkWriteAheadLog (log_dir_ l) (current_log_file_ l) s (wal_mutex_ l) (total_records_ l) (total_bytes_ l).
Definition set_current_log_file (f : string) (l : WriteAheadLog) : WriteAheadLog :=
  mkWriteAheadLog (log_dir_ l) f (log_file_ l) (wal_mutex_ l) (total_records_ l) (total_bytes_ l).
Definition set_wal_mutex (b : bool) (l : WriteAheadLog) : WriteAheadLog :=
  mkWriteAheadLog (log_dir_ l) (current_log_file_ l) (log_file_ l) b (total_records_ l) (total_bytes_ l).
Definition set_totals (r b : Z) (l : WriteAheadLog) : WriteAheadLog :=
  mkWriteAheadLog (log_dir_ l) (current_log_file_ l) (log_file_ l) (wal_mutex_ l) r b.

(** An operation of the log runs on the environment and the object. *)
Abbreviation LogM := (M (World * WriteAheadLog)).

Definition log_gets {A} (f : WriteAheadLog → A) : LogM A := gets (f ∘ snd).
Definition log_modify (f : WriteAheadLog → WriteAheadLog) : LogM unit :=
  modify (λ '(w, l), (w, f l)).

(** An operation of the environment alone. *)
Definition on_world {A} (m : M World A) : LogM A :=
  zoom fst (λ w s, (w, snd s)) m.

(** An operation of the stream [log_file_]. *)
Definition on_log_file (f : Ofstream → World → Ofstream * World) : LogM unit := λ '(w, l),
  let '(s, w) := f (log_file_ l) w in (Val tt, (w, set_log_file s l)).

(** [std::lock_guard<std::mutex> lock(mutex_)] around the rest of a body.  [mutex_] is not
    recursive: the thread that holds it may not lock it again.  The guard's destructor
    unlocks on a return and on an exception. *)
Definition lock_guard {A} (body : LogM A) : LogM A := λ '(w, l),
  if wal_mutex_ l then (UB "std::mutex::lock by the thread that owns the mutex", (w, l)) else
  let '(r, (w, l)) := body (w, set_wal_mutex true l) in (r, (w, set_wal_mutex false l)).

(** [get_current_timestamp]: the count of milliseconds, converted to [uint64_t]. *)
Definition get_current_timestamp : LogM Z :=
  now ← on_world clock_now; mret (u64 now).

(** [open_new_log_file]. *)
Definition open_new_log_file : LogM bool :=
  timestamp ← on_world clock_now;
  dir ← log_gets log_dir_;
  let name := dir +:+ "/wal_" +:+ to_string timestamp +:+ ".log" in
  log_modify (set_current_log_file name);;
  on_log_file (of_do_open name);;
  s ← log_gets log_file_;
  mret (of_open s).

(** [write_record_to_file]. *)
Definition write_record_to_file (record : WALRecord) : LogM bool :=
  let data := encode record in
  let size := u32 (zlen data) in
  on_log_file (of_do_write (le_bytes 4 size));;
  on_log_file (of_do_write data);;
  s ← log_gets log_file_;
  mret (good s).

(** [WriteAheadLog::WriteAheadLog(log_dir)]: the new object, or the exception of
    [create_directories].  The result of [open_new_log_file] is not looked at. *)
Definition WriteAheadLog_new (log_dir : string) : M World WriteAheadLog :=
  create_directories log_dir;;
  (λ w,
    let l := {| log_dir_ := log_dir; current_log_file_ := ""; log_file_ := Ofstream_default;
                wal_mutex_ := false; total_records_ := 0; total_bytes_ := 0 |} in
    match open_new_log_file (w, l) with
    | (Val _, (w, l)) => (Val l, w)
    | (Exn what, (w, _)) => (Exn what, w)
    | (UB why, (w, _)) => (UB why, w)
    end) : M World WriteAheadLog.

(** [WriteAheadLog::~WriteAheadLog()]. *)
Definition WriteAheadLog_delete : LogM unit :=
  s ← log_gets log_file_;
  if of_open s then on_log_file of_do_close else mret tt.

(** [record_with_timestamp]: a timestamp of 0 means that none was set. *)
Definition stamped (timestamp : Z) (r : WALRecord) : WALRecord :=
  if rec_timestamp r =? 0 then
    mkWALRecord (rec_type r) timestamp (rec_key_length r) (rec_value_length r)
      (rec_key r) (rec_value r) (rec_transaction_id r)
  else r.

(** [append_record]. *)
Definition append_record (record : WALRecord) : LogM bool :=
  lock_guard (try_catch
    (record_with_timestamp ←
       (if rec_timestamp record =? 0 then
          timestamp ← get_current_timestamp; mret (stamped timestamp record)
        else mret record);
     ok ← write_record_to_file record_with_timestamp;
     if negb ok then mret false else
     log_modify (λ l, set_totals (u64 (total_records_ l + 1))
                        (u64 (total_bytes_ l + WALRecord_size record_with_timestamp)) l);;
     on_log_file of_do_flush;;
     mret true)
    (λ _, mret false)).

(** [read_all_records]. *)
Definition read_all_records : LogM (list WALRecord) :=
  lock_guard (try_catch
    (on_log_file of_do_close;;
     name ← log_gets current_log_file_;
     opened ← on_world (ifstream_open name);
     match opened with
     | None => mret []
     | Some bs =>
         match read_records bs with
         | None => undefined "the reading loop does not end"
         | Some records =>
             on_log_file (of_do_open name);;
             mret records
         end
     end)
    (λ _, mret [])).

(** [create_checkpoint]. *)
Definition create_checkpoint (checkpoint_file : string) : LogM bool :=
  lock_guard (try_catch
    (timestamp ← get_current_timestamp;
     let checkpoint_record :=
       {| rec_type := WALRecordType.CHECKPOINT; rec_timestamp := timestamp;
          rec_key_length := u32 (slen checkpoint_file); rec_value_length := 0;
          rec_key := checkpoint_file; rec_value := ""; rec_transaction_id := 0 |} in
     ok ← write_record_to_file checkpoint_record;
     if negb ok then mret false else
     on_log_file of_do_flush;;
     mret true)
    (λ _, mret false)).

(** The checkpoint search and the loop of [recover_from_checkpoint]: all they produce is the
    lines printed on the console. *)
Definition recovery_report (records : list WALRecord) : list string :=
  match find (λ record, bool_decide (rec_type record = WALRecordType.CHECKPOINT)) (rev records) with
  | Some checkpoint => "Recovering from checkpoint: " +:+ rec_key checkpoint
  | None => "No checkpoint found, recovering from full WAL"
  end ::
  ((λ record, "Recovering record: " +:+ rec_key record) <$>
     filter (λ record, rec_type record ≠ WALRecordType.CHECKPOINT) records).

(** [recover_from_checkpoint]: [mutex_] is taken, and [read_all_records] takes it too.  The
    console is not part of the state. *)
Definition recover_from_checkpoint (checkpoint_file : string) : LogM bool :=
  lock_guard (try_catch
    (records ← read_all_records;
     let _ := recovery_report records in
     mret true)
    (λ _, mret false)).

(** [get_stats]. *)
Definition log_get_stats : LogM (gmap string string) :=
  lock_guard (
    l ← log_gets id;
    mret (<["log_directory" := log_dir_ l]>
         (<["current_log_file" := current_log_file_ l]>
         (<["total_records" := to_string (total_records_ l)]>
         (<["total_bytes" := to_string (total_bytes_ l)]>
         (<["log_file_open" := if of_open (log_file_ l) then "true" else "false"]> ∅)))))).

(** [truncate_log]. *)
Definition truncate_log : LogM bool :=
  lock_guard (try_catch
    (on_log_file of_do_close;;
     ok ← open_new_log_file;
     if negb ok then mret false else
     log_modify (set_totals 0 0);;
     mret true)
    (λ _, mret false)).

(** [flush]. *)
Definition log_flush : LogM unit :=
  lock_guard (
    s ← log_gets log_file_;
    if of_open s then on_log_file of_do_flush else mret tt).

(** ** Lemmas *)

(** Computes through the binds of an operation whose steps are known. *)
Ltac mcbn :=
  cbn -[of_do_write of_do_open of_do_flush of_do_close ifstream_open create_directories
        walk_map le_bytes encode u32 u64 zlen read_records file_bytes to_string String.append] in *.

Ltac msimpl :=
  unfold get_current_timestamp in *;
  unfold mbind, M_bind, mret, M_ret, log_gets, log_modify, on_world, on_log_file, gets,
    modify, zoom, try_catch, clock_now, throw, undefined, compose in *;
  mcbn.

(** [l'] is [l] with a stream on the same file and other totals: what every operation
    except opening a new file leaves. *)
Record same_log (l l' : WriteAheadLog) : Prop := {
  sl_dir : log_dir_ l' = log_dir_ l;
  sl_current : current_log_file_ l' = current_log_file_ l;
  sl_mutex : wal_mutex_ l' = wal_mutex_ l;
  sl_path : of_path (log_file_ l') = of_path (log_file_ l);
}.

#[global] Instance same_log_preorder : PreOrder same_log.
Proof. split; [by split|]. intros l1 l2 l3 [] []; split; congruence. Qed.

(** The log at rest: nobody is inside, and the stream writes to the current file. *)
Definition log_idle (l : WriteAheadLog) : Prop :=
  wal_mutex_ l = false ∧ of_path (log_file_ l) = current_log_file_ l.

(** The log at rest, its stream in order, [bs] in the file and nothing held back. *)
Definition log_ready (w : World) (l : WriteAheadLog) (bs : list byte) : Prop :=
  log_idle l ∧ live (log_file_ l) ∧ of_buf (log_file_ l) = [] ∧
  w_files w !! current_log_file_ l = Some bs.

Definition log_accepted (w : World) (l : WriteAheadLog) : list byte := accepted (log_file_ l) w.

Lemma same_log_idle l l' : same_log l l' → log_idle l → log_idle l'.
Proof. intros [] []. split; congruence. Qed.

Lemma log_ready_accepted w l bs : log_ready w l bs → log_accepted w l = bs.
Proof.
  intros ([_ Hp] & _ & Hb & Hf). unfold log_accepted, accepted, file_bytes.
  by rewrite Hb, Hp, Hf, app_nil_r.
Qed.

Section WriteRecord.
Implicit Types (w : World) (l : WriteAheadLog).

(** Under any I/O outcomes: a prefix of the record's frame is accepted; [true] is returned
    exactly when all of it is and the stream is still good. *)
Lemma write_record_any r w l :
  ∃ b w' s' p, write_record_to_file r (w, l) = (Val b, (w', set_log_file s' l)) ∧
    of_path s' = of_path (log_file_ l) ∧ of_open s' = of_open (log_file_ l) ∧
    evolves (of_path (log_file_ l)) w w' ∧
    accepted s' w' = accepted (log_file_ l) w ++ p ∧ p `prefix_of` frame (encode r) ∧
    b = good s' ∧ (b = true → live (log_file_ l) ∧ p = frame (encode r)) ∧
    (of_bad (log_file_ l) = true → p = [] ∧ b = false).
Proof.
  unfold write_record_to_file. msimpl.
  destruct (of_do_write (le_bytes 4 _) _ w) as [s1 w1] eqn:E1. cbn [log_file_ set_log_file].
  destruct (of_do_write (encode r) s1 w1) as [s2 w2] eqn:E2. unfold good.
  cbn [snd log_file_ set_log_file].
  destruct (write_accepted _ _ _ _ _ E1) as (P1 & O1 & V1 & A1).
  destruct (write_accepted _ _ _ _ _ E2) as (P2 & O2 & V2 & A2).
  rewrite P1 in V2.
  assert (of_bad (log_file_ l) = true → s1 = log_file_ l ∧ s2 = log_file_ l ∧ w1 = w ∧ w2 = w) as Hbad.
  { intros Hb. unfold of_do_write in E1. rewrite Hb in E1. injection E1 as <- <-.
    unfold of_do_write in E2. rewrite Hb in E2. by injection E2 as <- <-. }
  destruct A1 as [[A1 B1]|[L1 A1]]; [|destruct A2 as [[A2 B2]|[L2 A2]]].
  - assert (s2 = s1 ∧ w2 = w1) as [-> ->].
    { unfold of_do_write in E2. rewrite B1 in E2. by injection E2 as <- <-. }
    exists false, w1, s1, []. rewrite B1, app_nil_r.
    split_and!; auto using prefix_nil; discriminate.
  - exists false, w2, s2, (le_bytes 4 (u32 (zlen (encode r)))).
    rewrite B2, A2, A1. split_and!; try congruence; try done.
    + by etrans.
    + by apply prefix_app_r.
    + intros Hb. destruct L1. congruence.
  - exists (negb (of_bad s2)), w2, s2, (frame (encode r)). unfold frame. rewrite A2, A1, <- app_assoc.
    split_and!; try congruence; try done; [by etrans|]. intros Hb. destruct L1. congruence.
Qed.
End WriteRecord.

Section Append.
Implicit Types (w : World) (l : WriteAheadLog).

(** What [append_record] stamps a record with that has no timestamp. *)
Definition stamp_of w : Z := u64 (w_clock w (w_ticks w)).

Lemma append_record_unfold r w l :
  wal_mutex_ l = false →
  ∃ w1, evolves (of_path (log_file_ l)) w w1 ∧ w_files w1 = w_files w ∧ w_ios w1 = w_ios w ∧
    append_record r (w, l) =
    let r' := stamped (stamp_of w) r in
    let '(o, (w2, l2)) := write_record_to_file r' (w1, set_wal_mutex true l) in
    match o with
    | Val true =>
        let l3 := set_totals (u64 (total_records_ l2 + 1))
                    (u64 (total_bytes_ l2 + WALRecord_size r')) l2 in
        let '(s, w3) := of_do_flush (log_file_ l3) w2 in
        (Val true, (w3, set_wal_mutex false (set_log_file s l3)))
    | Val false => (Val false, (w2, set_wal_mutex false l2))
    | Exn _ => (Val false, (w2, set_wal_mutex false l2))
    | UB why => (UB why, (w2, set_wal_mutex false l2))
    end.
Proof.
  intros Hm. unfold append_record, lock_guard. rewrite Hm.
  destruct (Z.eqb_spec (rec_timestamp r) 0) as [E|E].
  - exists (clock_now w).2. split; [split; simpl; auto|]. do 2 (split; [done|]).
    msimpl. unfold stamped, stamp_of. rewrite (proj2 (Z.eqb_eq _ _) E).
    destruct (write_record_to_file _ _) as [[[]|?|?] [w2 l2]]; cbn; try done.
    by destruct (of_do_flush _ w2) as [s w3].
  - exists w. do 3 (split; [done|]). msimpl. unfold stamped.
    rewrite (proj2 (Z.eqb_neq _ _) E).
    destruct (write_record_to_file _ _) as [[[]|?|?] [w2 l2]]; cbn; try done.
    by destruct (of_do_flush _ w2) as [s w3].
Qed.

Lemma accepted_files s w w1 : w_files w1 = w_files w → accepted s w1 = accepted s w.
Proof. intros E. unfold accepted, file_bytes. by rewrite E. Qed.

(** [append_record] under any I/O outcomes. *)
Lemma append_record_any r w l :
  log_idle l →
  ∃ b w' l' p, append_record r (w, l) = (Val b, (w', l')) ∧
    same_log l l' ∧ of_open (log_file_ l') = of_open (log_file_ l) ∧
    evolves (current_log_file_ l) w w' ∧
    log_accepted w' l' = log_accepted w l ++ p ∧
    p `prefix_of` frame (encode (stamped (stamp_of w) r)) ∧
    (b = true → live (log_file_ l) ∧ p = frame (encode (stamped (stamp_of w) r)) ∧
       (of_bad (log_file_ l') = false → of_buf (log_file_ l') = []) ∧
       total_records_ l' = u64 (total_records_ l + 1) ∧
       total_bytes_ l' = u64 (total_bytes_ l + WALRecord_size (stamped (stamp_of w) r))) ∧
    (b = false → of_bad (log_file_ l') = true ∧ total_records_ l' = total_records_ l ∧
       total_bytes_ l' = total_bytes_ l) ∧
    (of_bad (log_file_ l) = true → p = [] ∧ b = false).
Proof.
  intros [Hm Hp]. destruct (append_record_unfold r w l Hm) as (w1 & V1 & F1 & I1 & ->). cbn zeta.
  set (r' := stamped (stamp_of w) r).
  destruct (write_record_any r' w1 (set_wal_mutex true l))
    as (b & w2 & s & p & -> & Ps & Os & V2 & A & Pp & Hb & Ht & Hbad).
  cbn [log_file_ set_wal_mutex] in *. rewrite (accepted_files _ _ _ F1) in A.
  rewrite Hp in V1, V2, Ps. destruct b.
  - destruct (of_do_flush _ w2) as [s3 w3] eqn:E3. cbn [log_file_ set_totals set_log_file] in *.
    destruct (flush_accepted _ _ _ _ E3) as (P3 & O3 & V3 & A3 & B3). rewrite Ps in V3.
    destruct (Ht eq_refl) as [HL Hpf]. symmetry in Hb. unfold good in Hb.
    apply negb_true_iff in Hb.
    eexists true, w3, _, p. split; [reflexivity|]. split; [split; cbn; congruence|].
    split_and!; cbn; try done; try congruence.
    + etrans; [exact V1|]. by etrans.
    + unfold log_accepted. cbn. congruence.
    + intros _. split_and!; try done. intros Hb3. apply B3; [done|].
      destruct HL. split; congruence.
  - eexists false, w2, _, p. split; [reflexivity|]. split; [split; cbn; congruence|].
    split_and!; cbn; try done.
    + by etrans.
    + intros _. unfold good in Hb. split_and!; try done. symmetry in Hb.
      by apply negb_false_iff in Hb.
Qed.

(** Writing a record and flushing, when no I/O call fails: the log file grows by the
    record's frame. *)
Lemma write_flush_healthy r w l bs :
  live (log_file_ l) → of_path (log_file_ l) = current_log_file_ l →
  accepted (log_file_ l) w = bs → healthy w →
  ∃ w1 s1 w2 s2,
    write_record_to_file r (w, l) = (Val true, (w1, set_log_file s1 l)) ∧
    of_do_flush s1 w1 = (s2, w2) ∧ live s2 ∧ of_path s2 = current_log_file_ l ∧
    of_buf s2 = [] ∧ w_files w2 !! current_log_file_ l = Some (bs ++ frame (encode r)) ∧
    healthy w2 ∧ evolves (current_log_file_ l) w w2.
Proof.
  intros HL Hp Hacc Hw. unfold write_record_to_file. msimpl.
  destruct (write_healthy (le_bytes 4 (u32 (zlen (encode r)))) (log_file_ l) w HL Hw)
    as (s1 & w1 & -> & L1 & P1 & V1 & A1). mcbn.
  pose proof (evolves_healthy _ _ _ V1 Hw) as Hw1.
  destruct (write_healthy (encode r) s1 w1 L1 Hw1) as (s2 & w2 & -> & L2 & P2 & V2 & A2). mcbn.
  pose proof (evolves_healthy _ _ _ V2 Hw1) as Hw2.
  destruct (flush_healthy s2 w2 L2 Hw2) as (s3 & w3 & E3 & L3 & P3 & B3 & V3 & A3).
  pose proof (evolves_healthy _ _ _ V3 Hw2) as Hw3.
  rewrite P2, P1, Hp in *. exists w2, s2, w3, s3. unfold good. rewrite (proj2 L2).
  split_and!; try done; [|by repeat (etrans; [eassumption|])].
  rewrite A3, A2, A1, Hacc. unfold frame. by rewrite <- app_assoc.
Qed.

(** [append_record] when no I/O call fails. *)
Lemma append_record_healthy r w l bs :
  log_ready w l bs → healthy w →
  ∃ w' l', append_record r (w, l) = (Val true, (w', l')) ∧
    log_ready w' l' (bs ++ frame (encode (stamped (stamp_of w) r))) ∧ healthy w' ∧
    same_log l l' ∧ evolves (current_log_file_ l) w w'.
Proof.
  intros Hr Hw. pose proof (log_ready_accepted _ _ _ Hr) as Hacc.
  destruct Hr as ([Hm Hp] & HL & Hbuf & Hf).
  destruct (append_record_unfold r w l Hm) as (w1 & V1 & F1 & I1 & ->). cbn zeta.
  rewrite Hp in V1. pose proof (evolves_healthy _ _ _ V1 Hw) as Hw1.
  unfold log_accepted in Hacc. rewrite <- (accepted_files _ _ _ F1) in Hacc.
  destruct (write_flush_healthy (stamped (stamp_of w) r) w1 (set_wal_mutex true l) bs HL Hp Hacc Hw1)
    as (w2 & s2 & w3 & s3 & -> & E & L3 & P3 & B3 & F3 & Hw3 & V3).
  cbn [log_file_ set_totals set_log_file]. rewrite E.
  eexists w3, _. split; [reflexivity|]. unfold log_ready, log_idle.
  cbn [current_log_file_ set_wal_mutex] in *.
  split_and!; try done; [by split; cbn; congruence | by etrans].
Qed.
End Append.

Section OtherOperations.
Implicit Types (w : World) (l : WriteAheadLog).

Lemma ifstream_open_healthy path w :
  healthy w → ∃ w1, ifstream_open path w = (Val (w_files w !! path), w1) ∧
    evolves path w w1 ∧ w_files w1 = w_files w.
Proof.
  intros Hw. unfold ifstream_open. cbn. rewrite Hw by lia. eexists. split; [done|].
  split; [apply evolves_next_io|done].
Qed.

(** Reading the log back leaves it as it was. *)
Lemma read_all_records_healthy w l bs rs :
  log_ready w l bs → healthy w → read_records bs = Some rs →
  ∃ w' l', read_all_records (w, l) = (Val rs, (w', l')) ∧ log_ready w' l' bs ∧ healthy w' ∧
    same_log l l' ∧ evolves (current_log_file_ l) w w'.
Proof.
  intros Hr Hw Hrs. pose proof (log_ready_accepted _ _ _ Hr) as Hacc.
  destruct Hr as ([Hm Hp] & [Ho Hb] & Hbuf & Hf).
  unfold read_all_records, lock_guard. rewrite Hm. msimpl.
  destruct (close_healthy (log_file_ l) w Ho Hw) as (w1 & -> & V1 & T1 & F1).
  mcbn. rewrite Hp in *. unfold log_accepted in Hacc. rewrite Hacc in F1.
  pose proof (evolves_healthy _ _ _ V1 Hw) as Hw1.
  destruct (ifstream_open_healthy (current_log_file_ l) w1 Hw1) as (w2 & -> & V2 & F2).
  rewrite F1, Hrs. pose proof (evolves_healthy _ _ _ V2 Hw1) as Hw2.
  mcbn.
  destruct (open_healthy (current_log_file_ l) (mkOfstream (current_log_file_ l) false (of_bad (log_file_ l)) []) w2
              eq_refl Hw2) as (w3 & -> & V3 & F3).
  assert (evolves (current_log_file_ l) w w3) as V by (do 2 (etrans; [eassumption|]); done).
  eexists w3, _. split; [reflexivity|]. split_and!; [|by eapply evolves_healthy|by split|done].
  unfold log_ready, log_idle, live. cbn. rewrite F3. unfold file_bytes. rewrite F2, F1. done.
Qed.

Lemma create_checkpoint_healthy file w l bs :
  log_ready w l bs → healthy w →
  ∃ w' l', create_checkpoint file (w, l) = (Val true, (w', l')) ∧
    log_ready w' l' (bs ++ frame (encode
      {| rec_type := WALRecordType.CHECKPOINT; rec_timestamp := stamp_of w;
         rec_key_length := u32 (slen file); rec_value_length := 0;
         rec_key := file; rec_value := ""; rec_transaction_id := 0 |})) ∧
    healthy w' ∧ same_log l l' ∧ total_records_ l' = total_records_ l ∧
    total_bytes_ l' = total_bytes_ l ∧ evolves (current_log_file_ l) w w'.
Proof.
  intros Hr Hw. pose proof (log_ready_accepted _ _ _ Hr) as Hacc.
  destruct Hr as ([Hm Hp] & HL & Hbuf & Hf).
  unfold create_checkpoint, lock_guard. rewrite Hm. msimpl.
  assert (evolves (current_log_file_ l) w (clock_now w).2) as V1 by (split; simpl; auto).
  destruct (write_flush_healthy
    {| rec_type := WALRecordType.CHECKPOINT; rec_timestamp := stamp_of w;
       rec_key_length := u32 (slen file); rec_value_length := 0;
       rec_key := file; rec_value := ""; rec_transaction_id := 0 |}
    (clock_now w).2 (set_wal_mutex true l) bs HL Hp Hacc (evolves_healthy _ _ _ V1 Hw))
    as (w2 & s2 & w3 & s3 & E2 & E & L3 & P3 & B3 & F3 & Hw3 & V3).
  unfold stamp_of, clock_now in E2. cbn [snd] in E2. rewrite E2. mcbn. rewrite E.
  eexists w3, _. split; [reflexivity|]. unfold log_ready, log_idle.
  cbn [current_log_file_ set_wal_mutex] in *.
  split_and!; try done; [by split; cbn; congruence | by etrans].
Qed.

(** The name [open_new_log_file] gives the file. *)
Definition log_file_name (dir : string) (timestamp : Z) : string :=
  dir +:+ "/wal_" +:+ to_string timestamp +:+ ".log".

Lemma open_new_log_file_healthy w l :
  of_open (log_file_ l) = false → healthy w →
  let name := log_file_name (log_dir_ l) (w_clock w (w_ticks w)) in
  ∃ w', open_new_log_file (w, l)
        = (Val true, (w', set_log_file (mkOfstream name true false []) (set_current_log_file name l))) ∧
    evolves name w w' ∧ w_files w' !! name = Some (file_bytes w name) ∧ healthy w'.
Proof.
  intros Ho Hw name. unfold open_new_log_file. msimpl.
  assert (evolves name w (clock_now w).2) as V1 by (split; simpl; auto).
  pose proof (evolves_healthy _ _ _ V1 Hw) as Hw1.
  destruct (open_healthy name (log_file_ l) (clock_now w).2 Ho Hw1) as (w2 & E & V2 & F2).
  unfold clock_now in E. cbn [snd] in E. fold (log_file_name (log_dir_ l) (w_clock w (w_ticks w))).
  fold name. rewrite E. exists w2.
  split_and!; [done|by etrans|done|by eapply evolves_healthy].
Qed.

Lemma WriteAheadLog_new_healthy dir w :
  healthy w →
  let name := log_file_name dir (w_clock w (w_ticks w)) in
  ∃ w' l, WriteAheadLog_new dir w = (Val l, w') ∧ log_ready w' l (file_bytes w name) ∧
    log_dir_ l = dir ∧ current_log_file_ l = name ∧
    total_records_ l = 0 ∧ total_bytes_ l = 0 ∧ healthy w' ∧ evolves name w w'.
Proof.
  intros Hw name. unfold WriteAheadLog_new, mbind, M_bind, create_directories. cbn [next_io].
  rewrite Hw by lia.
  pose proof (evolves_next_io name w) as V1. pose proof (evolves_healthy _ _ _ V1 Hw) as Hw1.
  match goal with |- context [open_new_log_file (_, ?l)] =>
    destruct (open_new_log_file_healthy (next_io w).2 l eq_refl Hw1) as (w2 & E & V2 & F2 & Hw2) end.
  unfold next_io in E. cbn [snd] in E. rewrite E.
  eexists w2, _. split; [reflexivity|]. unfold log_ready, log_idle, live.
  split_and!; try done. by etrans.
Qed.

Lemma truncate_log_healthy w l bs :
  log_ready w l bs → healthy w →
  let name := log_file_name (log_dir_ l) (w_clock w (w_ticks w)) in
  ∃ w' l', truncate_log (w, l) = (Val true, (w', l')) ∧
    log_ready w' l' (file_bytes w name) ∧ log_dir_ l' = log_dir_ l ∧
    current_log_file_ l' = name ∧ total_records_ l' = 0 ∧ total_bytes_ l' = 0 ∧
    w_files w' !! current_log_file_ l = Some bs ∧ healthy w' ∧ w_order w' = w_order w ∧
    (∀ p, p ≠ current_log_file_ l → p ≠ name → w_files w' !! p = w_files w !! p).
Proof.
  intros Hr Hw name. pose proof (log_ready_accepted _ _ _ Hr) as Hacc.
  destruct Hr as ([Hm Hp] & [Ho Hb] & Hbuf & Hf).
  unfold truncate_log, lock_guard. rewrite Hm. msimpl.
  destruct (close_healthy (log_file_ l) w Ho Hw) as (w1 & -> & V1 & T1 & F1). mcbn.
  rewrite Hp in *. unfold log_accepted in Hacc. rewrite Hacc in F1.
  pose proof (evolves_healthy _ _ _ V1 Hw) as Hw1.
  match goal with |- context [open_new_log_file (_, ?l)] =>
    destruct (open_new_log_file_healthy w1 l eq_refl Hw1) as (w2 & E & V2 & F2 & Hw2) end.
  cbn [log_dir_ set_log_file set_wal_mutex] in *.
  rewrite (ev_clock _ _ _ V1), T1 in *. fold name in E, V2, F2. rewrite E.
  eexists w2, _. split; [reflexivity|]. unfold log_ready, log_idle, live. mcbn.
  assert (file_bytes w1 name = file_bytes w name) as En.
  { unfold file_bytes. destruct (decide (name = current_log_file_ l)) as [->|Hne];
      [by rewrite F1, Hf | by rewrite (ev_files _ _ _ V1)]. }
  rewrite En in F2. split_and!; try done.
  - destruct (decide (name = current_log_file_ l)) as [Hn|Hne].
    + rewrite <- Hn, F2. f_equal. unfold file_bytes. by rewrite Hn, Hf.
    + by rewrite (ev_files _ _ _ V2).
  - by rewrite (ev_order _ _ _ V2), (ev_order _ _ _ V1).
  - intros p Hp1 Hp2. by rewrite (ev_files _ _ _ V2), (ev_files _ _ _ V1).
Qed.
End OtherOperations.

(** ** Sequences of appends, and crashes *)

Section Sequences.
Implicit Types (w : World) (l : WriteAheadLog) (rs : list WALRecord).

(** The calls [append_record(r)] for each [r] of a list. *)
Definition append_all rs : LogM (list bool) := mapM append_record rs.

(** [r'] is [r] as the log writes it. *)
Definition stamping (r r' : WALRecord) : Prop := ∃ ts, is_u64 ts ∧ r' = stamped ts r.

Lemma append_all_cons r rs w l b w1 l1 :
  append_record r (w, l) = (Val b, (w1, l1)) →
  append_all (r :: rs) (w, l) =
    let '(o, s) := append_all rs (w1, l1) in
    (match o with Val acks => Val (b :: acks) | Exn e => Exn e | UB e => UB e end, s).
Proof.
  intros E. unfold append_all. simpl. unfold mbind, M_bind. rewrite E.
  by destruct (mapM append_record rs (w1, l1)) as [[] ?].
Qed.

Lemma stamped_frameable ts r : is_u64 ts → frameable r → frameable (stamped ts r).
Proof.
  intros Hts [(H1 & H2 & H3 & H4 & H5 & H6 & H7) Hl].
  unfold stamped. destruct (rec_timestamp r =? 0); [|by split]. split; [by split_and!|].
  revert Hl. unfold encode, WALRecord_codec. by rewrite !length_WALRecord_serialize.
Qed.

Lemma stamping_frameable rs rs' :
  Forall frameable rs → Forall2 stamping rs rs' → Forall frameable rs'.
Proof.
  intros Hrs. induction 1 as [|r r' rs rs' (ts & Hts & ->) H IH]; [done|].
  inv Hrs. constructor; [by apply stamped_frameable|auto].
Qed.

(** What is in the log after any calls under any I/O outcomes: a prefix of the frames
    sent, and all of them while the stream is good. *)
Definition sent_invariant w l (base : list byte) (sent : list WALRecord) : Prop :=
  ∃ q, log_accepted w l = base ++ q ∧ q `prefix_of` frames sent ∧
    (of_bad (log_file_ l) = false → q = frames sent).

Lemma append_record_sent r w l base sent :
  log_idle l → sent_invariant w l base sent →
  ∃ b w' l', append_record r (w, l) = (Val b, (w', l')) ∧ same_log l l' ∧
    evolves (current_log_file_ l) w w' ∧
    sent_invariant w' l' base (sent ++ [stamped (stamp_of w) r]).
Proof.
  intros Hi (q & Hacc & Hq & Hall).
  destruct (append_record_any r w l Hi)
    as (b & w' & l' & p & E & HS & _ & V & A & Hp & Ht & Hf & Hbad).
  exists b, w', l'. split_and!; try done. exists (q ++ p).
  rewrite A, Hacc, <- app_assoc, frames_snoc. split; [done|].
  destruct (of_bad (log_file_ l)) eqn:Hb.
  - destruct (Hbad eq_refl) as [-> ->]. rewrite app_nil_r. split; [by apply prefix_app_r|].
    intros H. destruct (Hf eq_refl). congruence.
  - rewrite (Hall eq_refl). split; [by apply prefix_app|].
    intros H. destruct b; [by destruct (Ht eq_refl) as (_ & -> & _)|].
    destruct (Hf eq_refl). congruence.
Qed.

Lemma append_all_sent rs w l base sent :
  log_idle l → sent_invariant w l base sent →
  ∃ acks w' l' rs', append_all rs (w, l) = (Val acks, (w', l')) ∧ same_log l l' ∧
    evolves (current_log_file_ l) w w' ∧ Forall2 stamping rs rs' ∧
    sent_invariant w' l' base (sent ++ rs').
Proof.
  revert w l sent. induction rs as [|r rs IH]; intros w l sent Hi Hs.
  { exists [], w, l, []. rewrite app_nil_r. by split_and!. }
  destruct (append_record_sent r w l base sent Hi Hs) as (b & w1 & l1 & E1 & S1 & V1 & Hs1).
  destruct (IH w1 l1 _ (same_log_idle _ _ S1 Hi) Hs1)
    as (acks & w2 & l2 & rs' & E2 & S2 & V2 & HF & Hs2).
  rewrite (sl_current _ _ S1) in V2.
  exists (b :: acks), w2, l2, (stamped (stamp_of w) r :: rs').
  rewrite (append_all_cons _ _ _ _ _ _ _ E1), E2. rewrite <- app_assoc in Hs2.
  split_and!; try done; try by etrans. constructor; [|done].
  eexists. split; [|done]. apply u64_range.
Qed.
End Sequences.

(** Without a healthy environment: no exception and no undefined behaviour. *)
Lemma open_new_log_file_total w l :
  ∃ opened w' l', open_new_log_file (w, l) = (Val opened, (w', l')) ∧ wal_mutex_ l' = wal_mutex_ l.
Proof.
  unfold open_new_log_file. msimpl.
  destruct (of_do_open _ _ _) as [s w']. mcbn. by eexists _, _, _.
Qed.

Lemma read_all_records_total w l :
  wal_mutex_ l = false → ∃ records st', read_all_records (w, l) = (Val records, st').
Proof.
  intros Hm. unfold read_all_records, lock_guard. rewrite Hm. msimpl.
  destruct (of_do_close _ _) as [s1 w1]. mcbn.
  destruct (ifstream_open _ w1) as [[opened|what|why] w2] eqn:E; mcbn.
  - destruct opened as [bs|]; [|by eexists _, _].
    destruct (read_records_total bs) as [records ->]. mcbn.
    destruct (of_do_open _ _ _) as [s2 w3]. mcbn. by eexists _, _.
  - by eexists _, _.
  - unfold ifstream_open in E. by destruct (next_io w1).
Qed.

(** ** Theorems *)

(** C11.  Crash consistency under any I/O behaviour: whichever calls fail, however the stream
    buffers, and wherever the process dies, the log file can be read back to the records it
    held before, all of them, followed by a prefix of the records appended since.  No record
    is lost before a later one, none is read damaged. *)
Theorem append_crash_consistency
    (w : World) (l : WriteAheadLog) (old rs : list WALRecord) :
  log_ready w l (frames old) → Forall frameable old → Forall frameable rs →
  ∃ acks w' l' rs' k,
    append_all rs (w, l) = (Val acks, (w', l')) ∧ Forall2 stamping rs rs' ∧
    read_records (file_bytes w' (current_log_file_ l)) = Some (old ++ take k rs').
Proof.
  intros Hr Hold Hrs. destruct Hr as (Hi & HL & Hbuf & Hf).
  destruct (append_all_sent rs w l (frames old) [] Hi) as
    (acks & w' & l' & rs' & E & HS & V & HF & q & Hacc & Hq & _).
  { exists []. split_and!; [|by apply prefix_nil|done]. rewrite app_nil_r.
    by apply log_ready_accepted. }
  destruct (ev_grows _ _ _ V) as [p Hp]. rewrite (lookup_file_bytes _ _ _ Hf) in Hp.
  unfold log_accepted, accepted in Hacc.
  rewrite (sl_path _ _ HS), (proj2 Hi), Hp, <- app_assoc in Hacc. apply app_inv_head in Hacc.
  rewrite <- Hacc in Hq. pose proof (prefix_app_l _ _ _ Hq : p `prefix_of` frames rs') as Hpre.
  exists acks, w', l', rs', (complete_frames (length p) rs'). split_and!; try done.
  rewrite Hp, read_frames_tail by done. rewrite (prefix_take_length _ _ Hpre) at 1.
  by rewrite read_cut by (by eapply stamping_frameable).
Qed.

(** While I/O works, [append_record] returns [true], and by the time it does the log file
    has grown by exactly the record's frame (with the clock's reading where the record had
    no timestamp), every other file is as it was, the counters count it, and the log is
    ready for the next call. *)
Theorem append_record_durable (r : WALRecord) (w : World) (l : WriteAheadLog) (bs : list byte) :
  log_ready w l bs → healthy w →
  ∃ w' l', append_record r (w, l) = (Val true, (w', l')) ∧
    log_ready w' l' (bs ++ frame (encode (stamped (stamp_of w) r))) ∧
    (∀ p, p ≠ current_log_file_ l → w_files w' !! p = w_files w !! p) ∧
    total_records_ l' = u64 (total_records_ l + 1) ∧
    total_bytes_ l' = u64 (total_bytes_ l + WALRecord_size (stamped (stamp_of w) r)).
Proof.
  intros Hr Hw. destruct (append_record_healthy r w l bs Hr Hw) as (w' & l' & E & Hr' & _ & _ & V).
  destruct (append_record_any r w l (proj1 Hr)) as (b & w2 & l2 & p & E2 & _ & _ & _ & _ & _ & Ht & _).
  rewrite E in E2. injection E2 as <- <- <-. destruct (Ht eq_refl) as (_ & _ & _ & T1 & T2).
  exists w', l'. split_and!; try done. apply V.
Qed.

(** When [append_record] returns [false], under any I/O behaviour, the counters are
    unchanged, at most a prefix of the frame reached the stream, and the stream stays bad:
    every later append returns [false] and writes nothing, until the file is reopened. *)
Theorem append_record_failure (r r2 : WALRecord) (w w' : World) (l l' : WriteAheadLog) :
  log_idle l → append_record r (w, l) = (Val false, (w', l')) →
  total_records_ l' = total_records_ l ∧ total_bytes_ l' = total_bytes_ l ∧
  (∃ p, log_accepted w' l' = log_accepted w l ++ p ∧
        p `prefix_of` frame (encode (stamped (stamp_of w) r))) ∧
  ∃ w2 l2, append_record r2 (w', l') = (Val false, (w2, l2)) ∧
           log_accepted w2 l2 = log_accepted w' l' ∧ log_idle l2.
Proof.
  intros Hi E.
  destruct (append_record_any r w l Hi) as (b & w1 & l1 & p & E1 & S1 & _ & _ & A1 & P1 & _ & Hf & _).
  rewrite E in E1. injection E1 as <- <- <-. destruct (Hf eq_refl) as (Hb & T1 & T2).
  destruct (append_record_any r2 w' l' (same_log_idle _ _ S1 Hi))
    as (b2 & w2 & l2 & p2 & E2 & S2 & _ & _ & A2 & _ & _ & _ & Hbad).
  destruct (Hbad Hb) as [-> ->]. rewrite app_nil_r in A2.
  split_and!; [done..|by exists p|]. exists w2, l2. split_and!; try done.
  by eapply same_log_idle, same_log_idle.
Qed.

(** C24.  Everything appended is read back: on a ready log, [read_all_records] after any number
    of appends returns the records that were there and then the appended ones in order, each
    with its timestamp, and leaves the log ready to be written to again. *)
Theorem append_then_read (w : World) (l : WriteAheadLog) (old rs : list WALRecord) :
  log_ready w l (frames old) → healthy w → Forall frameable old → Forall frameable rs →
  ∃ w1 l1 rs' w2 l2,
    append_all rs (w, l) = (Val (replicate (length rs) true), (w1, l1)) ∧
    Forall2 stamping rs rs' ∧
    read_all_records (w1, l1) = (Val (old ++ rs'), (w2, l2)) ∧
    log_ready w2 l2 (frames (old ++ rs')).
Proof.
  intros Hr Hw Hold Hrs.
  assert (∃ w1 l1 rs', append_all rs (w, l) = (Val (replicate (length rs) true), (w1, l1)) ∧
    Forall2 stamping rs rs' ∧ log_ready w1 l1 (frames (old ++ rs')) ∧ healthy w1)
    as (w1 & l1 & rs' & E1 & HF & Hr1 & Hw1).
  { revert w l old Hr Hw Hold. induction Hrs as [|r rs Hr0 Hrs IH]; intros w l old Hr Hw Hold.
    { exists w, l, []. rewrite app_nil_r. by split_and!. }
    destruct (append_record_healthy r w l _ Hr Hw) as (w1 & l1 & E1 & Hr1 & Hw1 & _ & _).
    rewrite <- frames_snoc in Hr1.
    assert (is_u64 (stamp_of w)) as Hst by apply u64_range.
    destruct (IH w1 l1 _ Hr1 Hw1) as (w2 & l2 & rs' & E2 & HF & Hr2 & Hw2).
    { apply Forall_app. split; [done|]. by repeat constructor; apply stamped_frameable. }
    exists w2, l2, (stamped (stamp_of w) r :: rs').
    rewrite (append_all_cons _ _ _ _ _ _ _ E1), E2. rewrite <- app_assoc in Hr2.
    split_and!; try done. constructor; [by exists (stamp_of w)|done]. }
  assert (read_records (frames (old ++ rs')) = Some (old ++ rs')) as Hread.
  { apply read_frames, Forall_app. split; [done|]. by eapply stamping_frameable. }
  destruct (read_all_records_healthy w1 l1 _ _ Hr1 Hw1 Hread) as (w2 & l2 & E2 & Hr2 & _).
  exists w1, l1, rs', w2, l2. by split_and!.
Qed.

(** [recover_from_checkpoint] never returns normally: it calls [read_all_records] while
    it holds the non-recursive mutex that [read_all_records] locks. *)
Theorem recover_from_checkpoint_relocks (file : string) (w : World) (l : WriteAheadLog) :
  ∃ why, (recover_from_checkpoint file (w, l)).1 = UB why.
Proof.
  unfold recover_from_checkpoint, lock_guard. destruct (wal_mutex_ l); [by eexists|].
  eexists. reflexivity.
Qed.

(** [create_checkpoint] writes one CHECKPOINT record that names the file, into the log;
    it creates no file of that name, copies no data, and is not counted in the statistics. *)
Theorem create_checkpoint_only_logs (file : string) (w : World) (l : WriteAheadLog) (bs : list byte) :
  log_ready w l bs → healthy w →
  ∃ w' l' record, create_checkpoint file (w, l) = (Val true, (w', l')) ∧
    rec_type record = WALRecordType.CHECKPOINT ∧ rec_key record = file ∧
    log_ready w' l' (bs ++ frame (encode record)) ∧
    (∀ p, p ≠ current_log_file_ l → w_files w' !! p = w_files w !! p) ∧
    total_records_ l' = total_records_ l ∧ total_bytes_ l' = total_bytes_ l.
Proof.
  intros Hr Hw. destruct (create_checkpoint_healthy file w l bs Hr Hw)
    as (w' & l' & E & Hr' & _ & _ & T1 & T2 & V).
  eexists w', l', _. split_and!; [exact E| | |exact Hr'|apply V|done|done]; done.
Qed.

(** [truncate_log] never removes a byte: the old log file keeps its contents, and the log
    continues in the file named after the current millisecond, whatever that file already
    holds; in the same millisecond that is the old file, all its records included.  Only the
    counters start again. *)
Theorem truncate_log_keeps (w : World) (l : WriteAheadLog) (bs : list byte) :
  log_ready w l bs → healthy w →
  let name := log_file_name (log_dir_ l) (w_clock w (w_ticks w)) in
  ∃ w' l', truncate_log (w, l) = (Val true, (w', l')) ∧
    current_log_file_ l' = name ∧
    log_ready w' l' (if decide (name = current_log_file_ l) then bs else file_bytes w name) ∧
    w_files w' !! current_log_file_ l = Some bs ∧
    total_records_ l' = 0 ∧ total_bytes_ l' = 0.
Proof.
  intros Hr Hw name.
  destruct (truncate_log_healthy w l bs Hr Hw) as (w' & l' & E & Hr' & _ & Hc & T1 & T2 & Hold & _).
  exists w', l'. split_and!; try done. case_decide as Hn; [|done].
  fold name in Hr'. rewrite Hn in Hr'. rewrite (lookup_file_bytes _ bs) in Hr'; [done|apply Hr].
Qed.

(** The environment [w] in which the two writes of the next append are buffered whole and the
    flush that follows fails without writing a byte. *)
Definition failing_flush (w : World) : World :=
  mkWorld (w_files w) (w_clock w) (w_ticks w)
    (λ n, mkIo (negb (n =? w_ios w + 2)%nat) 0) (w_ios w) (w_order w) (w_walks w).

(** The result of [log_file_.flush()] is not looked at: [append_record] also returns
    [true], and counts the record, when not one byte of it has reached the file. *)
Theorem append_record_ignores_flush (r : WALRecord) (w : World) (l : WriteAheadLog) (bs : list byte) :
  log_ready w l bs →
  ∃ w' l', append_record r (failing_flush w, l) = (Val true, (w', l')) ∧
    w_files w' !! current_log_file_ l = Some bs ∧
    total_records_ l' = u64 (total_records_ l + 1) ∧ of_bad (log_file_ l') = true.
Proof.
  intros ([Hm Hp] & [Ho Hb] & Hbuf & Hf).
  destruct (append_record_unfold r (failing_flush w) l Hm) as (w1 & V1 & F1 & I1 & ->). cbn zeta.
  set (r' := stamped (stamp_of (failing_flush w)) r).
  unfold write_record_to_file. msimpl.
  pose proof (ev_io _ _ _ V1) as Hio. cbn in I1, Hio.
  rewrite write_buffered; [|done|by rewrite Hio, I1, (proj2 (Nat.eqb_neq _ _)) by lia]. mcbn.
  rewrite write_buffered; [|done|cbn; by rewrite Hio, I1, (proj2 (Nat.eqb_neq _ _)) by lia].
  unfold good. mcbn. rewrite Hb. mcbn.
  rewrite flush_lost; [|done|cbn; by rewrite Hio, I1, (proj2 (Nat.eqb_eq _ _)) by lia].
  eexists _, _. split; [reflexivity|]. split_and!; try done.
  do 2 (apply append_nothing; cbn [w_files next_io snd]).
  apply (append_nothing _ _ _ (next_io w1).2). cbn. by rewrite F1.
Qed.

(** ** Witnesses *)

(** An environment with no files in which every call succeeds and nothing is drained from a
    buffer before a flush; its clock advances one millisecond per reading. *)
Definition demo_world : World :=
  {| w_files := ∅; w_clock := λ n, 1700000000000 + Z.of_nat n; w_ticks := 0;
     w_io := λ _, mkIo true 0; w_ios := 0;
     w_order := λ _ m, map_to_list m; w_walks := 0 |}.

Lemma demo_world_healthy : healthy demo_world.
Proof. by intros n _. Qed.

Lemma demo_world_fair : fair_order demo_world.
Proof. by intros n m. Qed.

Definition demo_name : string := "data/wal/wal_1700000000000.log".

(** The log [WriteAheadLog_new "data/wal"] makes there. *)
Definition demo_log : WriteAheadLog :=
  {| log_dir_ := "data/wal"; current_log_file_ := demo_name;
     log_file_ := mkOfstream demo_name true false []; wal_mutex_ := false;
     total_records_ := 0; total_bytes_ := 0 |}.
Definition demo_log_world : World := (WriteAheadLog_new "data/wal" demo_world).2.

Example demo_log_made : (WriteAheadLog_new "data/wal" demo_world).1 = Val demo_log.
Proof. vm_compute. reflexivity. Qed.

Lemma demo_log_ready : log_ready demo_log_world demo_log (frames (@nil WALRecord)).
Proof. repeat split. Qed.

Lemma demo_log_healthy : healthy demo_log_world.
Proof. by intros n _. Qed.

Definition demo_record : WALRecord :=
  {| rec_type := WALRecordType.PUT; rec_timestamp := 0; rec_key_length := 1;
     rec_value_length := 1; rec_key := "k"; rec_value := "v"; rec_transaction_id := 1 |}.

Lemma demo_record_frameable : frameable demo_record.
Proof. repeat split; vm_compute; congruence. Qed.

Lemma append_crash_consistency_witness :
  ∃ acks w' l' rs' k,
    append_all [demo_record; sample_record] (demo_log_world, demo_log) = (Val acks, (w', l')) ∧
    Forall2 stamping [demo_record; sample_record] rs' ∧
    read_records (file_bytes w' (current_log_file_ demo_log)) = Some ([] ++ take k rs').
Proof.
  apply (append_crash_consistency demo_log_world demo_log [] [demo_record; sample_record]).
  - apply demo_log_ready.
  - constructor.
  - constructor; [apply demo_record_frameable|].
    constructor; [apply sample_record_frameable | constructor].
Defined.

Lemma append_record_durable_witness :
  ∃ w' l', append_record demo_record (demo_log_world, demo_log) = (Val true, (w', l')) ∧
    total_records_ l' = 1.
Proof.
  destruct (append_record_durable demo_record demo_log_world demo_log _ demo_log_ready
              demo_log_healthy) as (w' & l' & E & _ & _ & T & _).
  exists w', l'. split; [exact E | exact T].
Defined.

(** The log's stream after its file could not be written. *)
Definition broken_log : WriteAheadLog :=
  set_log_file (of_set_bad (log_file_ demo_log)) demo_log.

Lemma append_record_failure_witness :
  ∃ w' l' w2 l2, append_record demo_record (demo_log_world, broken_log) = (Val false, (w', l')) ∧
    append_record demo_record (w', l') = (Val false, (w2, l2)).
Proof.
  destruct (append_record demo_record (demo_log_world, broken_log)) as [o [w' l']] eqn:E.
  assert (o = Val false) as ->.
  { change o with ((o, (w', l')).1). rewrite <- E. reflexivity. }
  destruct (append_record_failure demo_record demo_record demo_log_world w' broken_log l'
              (conj eq_refl eq_refl) E) as (_ & _ & _ & w2 & l2 & E2 & _).
  exists w', l', w2, l2. split; [reflexivity | exact E2].
Defined.

Lemma append_then_read_witness :
  ∃ w1 l1 rs' w2 l2,
    append_all [demo_record] (demo_log_world, demo_log) = (Val [true], (w1, l1)) ∧
    Forall2 stamping [demo_record] rs' ∧
    read_all_records (w1, l1) = (Val ([] ++ rs'), (w2, l2)) ∧
    log_ready w2 l2 (frames ([] ++ rs')).
Proof.
  apply (append_then_read demo_log_world demo_log [] [demo_record]).
  - apply demo_log_ready.
  - apply demo_log_healthy.
  - constructor.
  - repeat constructor; apply demo_record_frameable.
Defined.

Lemma create_checkpoint_only_logs_witness :
  ∃ w' l', create_checkpoint "data/checkpoint.db" (demo_log_world, demo_log) = (Val true, (w', l')) ∧
    w_files w' !! "data/checkpoint.db" = None.
Proof.
  destruct (create_checkpoint_only_logs "data/checkpoint.db" demo_log_world demo_log _
              demo_log_ready demo_log_healthy) as (w' & l' & rec & E & _ & _ & _ & Hf & _).
  exists w', l'. split; [exact E|]. rewrite Hf; [vm_compute; reflexivity | vm_compute; congruence].
Defined.

Lemma truncate_log_keeps_witness :
  ∃ w' l', truncate_log (demo_log_world, demo_log) = (Val true, (w', l')) ∧
    current_log_file_ l' = "data/wal/wal_1700000000001.log".
Proof.
  destruct (truncate_log_keeps demo_log_world demo_log _ demo_log_ready demo_log_healthy)
    as (w' & l' & E & Hc & _).
  exists w', l'. split; [exact E|]. rewrite Hc. vm_compute. reflexivity.
Defined.

Lemma append_record_ignores_flush_witness :
  ∃ w' l', append_record demo_record (failing_flush demo_log_world, demo_log) = (Val true, (w', l')) ∧
    w_files w' !! demo_name = Some [].
Proof.
  destruct (append_record_ignores_flush demo_record demo_log_world demo_log _ demo_log_ready)
    as (w' & l' & E & Hf & _).
  exists w', l'. split; [exact E | exact Hf].
Defined.

(** Clients reason with the lemmas, not with the bodies. *)
#[global] Arguments append_record : simpl never.
#[global] Arguments read_all_records : simpl never.
#[global] Arguments create_checkpoint : simpl never.
#[global] Arguments recover_from_checkpoint : simpl never.
#[global] Arguments truncate_log : simpl never.
#[global] Arguments log_get_stats : simpl never.
#[global] Arguments WriteAheadLog_new : simpl never.
