(* ===== verification/Interface.v ===== *)
(** * The database interface

    [include/core/database.h]: the result codes and the abstract classes [Database] and
    [Transaction], as the class of their operations over a program state; and the contract
    that the callers (the server) rely on.  The contract speaks of the key-value contents
    only; [Database.v] discharges it for [PersistentDatabase]. *)

From stdpp Require Import base gmap list strings sorting.
From Stdlib Require Import ZArith Lia.
From S2P Require Import Prelude.
From S2P Require Import Effects.

(** [enum class OperationResult]. *)
Module OperationResult.
Inductive t := SUCCESS | KEY_NOT_FOUND | KEY_EXISTS | INVALID_TRANSACTION | SYSTEM_ERROR.
End OperationResult.

#[global] Instance OperationResult_eq_dec : EqDecision OperationResult.t.
Proof. solve_decision. Defined.

(** [class Database] and [class Transaction].  [S] is the state of the program, [T] the type
    of (pointers to) transactions; a null [shared_ptr<Transaction>] is [None]. *)
Class Database (S T : Type) := {
  initialize : string → M S OperationResult.t;
  shutdown : M S unit;
  begin_transaction : M S (option T);
  get_stats : M S (gmap string string);
  compact : M S OperationResult.t;
  backup : string → M S OperationResult.t;
  restore : string → M S OperationResult.t;
  txn_get : T → string → M S string;
  txn_put : T → string → string → M S OperationResult.t;
  txn_del : T → string → M S OperationResult.t;
  txn_scan : T → string → string → Z → M S (list (string * string));
  txn_commit : T → M S OperationResult.t;
  txn_rollback : T → M S unit;
  txn_get_id : T → M S Z;
}.

(** [start_key <= key < end_key], comparing as [std::string] does. *)
Definition in_range (start_key end_key key : string) : bool :=
  string_leb start_key key && string_ltb key end_key.

(** What a scan may answer: the pairs in range in some order of the contents, cut off at the
    limit (but never before the first pair). *)
Definition scan_answer (contents : gmap string string) (start_key end_key : string) (limit : Z)
    (answer : list (string * string)) : Prop :=
  ∃ order, order ≡ₚ map_to_list contents ∧
    answer = take (Nat.max 1 (Z.to_nat limit))
               (filter (λ kv, in_range start_key end_key kv.1 = true) order).

(** The contract.  [db_ok] is the condition under which it holds: the database is
    initialised and I/O works.  A transaction stays one, whatever is done with others. *)
Class DatabaseContract (S T : Type) `{!Database S T} := {
  db_ok : S → Prop;
  contents : S → gmap string string;
  is_txn : S → T → Prop;
  begin_ok s :
    db_ok s →
    ∃ t s', begin_transaction s = (Val (Some t), s') ∧
      db_ok s' ∧ is_txn s' t ∧ (∀ u, is_txn s u → is_txn s' u) ∧ contents s' = contents s;
  get_ok s t k :
    db_ok s → is_txn s t →
    ∃ s', txn_get t k s = (Val (default "" (contents s !! k)), s') ∧
      db_ok s' ∧ (∀ u, is_txn s u → is_txn s' u) ∧ contents s' = contents s;
  put_ok s t k v :
    db_ok s → is_txn s t →
    ∃ s', txn_put t k v s = (Val OperationResult.SUCCESS, s') ∧
      db_ok s' ∧ (∀ u, is_txn s u → is_txn s' u) ∧ contents s' = <[k := v]> (contents s);
  del_ok s t k :
    db_ok s → is_txn s t →
    ∃ s', txn_del t k s =
        (Val (if contents s !! k is Some _ then OperationResult.SUCCESS else OperationResult.KEY_NOT_FOUND), s') ∧
      db_ok s' ∧ (∀ u, is_txn s u → is_txn s' u) ∧ contents s' = delete k (contents s);
  scan_ok s t a b limit :
    db_ok s → is_txn s t →
    ∃ s' answer, txn_scan t a b limit s = (Val answer, s') ∧
      scan_answer (contents s) a b limit answer ∧
      db_ok s' ∧ (∀ u, is_txn s u → is_txn s' u) ∧ contents s' = contents s;
  commit_ok s t :
    db_ok s → is_txn s t →
    ∃ s', txn_commit t s = (Val OperationResult.SUCCESS, s') ∧
      db_ok s' ∧ (∀ u, is_txn s u → is_txn s' u) ∧ contents s' = contents s;
}.

(** ** What a scan answer is *)

Section ScanAnswer.
Implicit Types (m : gmap string string) (a b : string).

(** The keys of [m] that a scan of [a, b) concerns. *)
Definition matching m a b : gmap string string :=
  filter (λ kv, in_range a b kv.1 = true) m.

Lemma size_matching m a b order :
  order ≡ₚ map_to_list m →
  size (matching m a b) = length (filter (λ kv, in_range a b kv.1 = true) order).
Proof.
  intros Hp. unfold matching. rewrite map_filter_alt, <- length_map_to_list.
  rewrite map_to_list_to_map.
  - by rewrite Hp.
  - eapply sublist_NoDup; [apply (NoDup_fst_map_to_list m)|].
    apply fmap_sublist, sublist_filter.
Qed.

Lemma scan_answer_sublist m a b limit answer :
  scan_answer m a b limit answer →
  ∃ order, order ≡ₚ map_to_list m ∧ answer `sublist_of` order.
Proof.
  intros (order & Hp & ->). exists order. split; [done|].
  etrans; [apply sublist_take|apply sublist_filter].
Qed.

Lemma scan_answer_sound m a b limit answer k v :
  scan_answer m a b limit answer → (k, v) ∈ answer → m !! k = Some v ∧ in_range a b k = true.
Proof.
  intros (order & Hp & ->) Hin. apply elem_of_take in Hin as (i & Hi & _).
  apply list_elem_of_lookup_2, list_elem_of_filter in Hi as [HP Hin]. split; [|done].
  rewrite Hp in Hin. by apply elem_of_map_to_list in Hin.
Qed.

Lemma scan_answer_nodup m a b limit answer :
  scan_answer m a b limit answer → NoDup answer.*1.
Proof.
  intros H. destruct (scan_answer_sublist _ _ _ _ _ H) as (order & Hp & Hs).
  eapply sublist_NoDup; [|by apply fmap_sublist].
  rewrite Hp. apply NoDup_fst_map_to_list.
Qed.

Lemma scan_answer_length m a b limit answer :
  scan_answer m a b limit answer →
  length answer = Nat.min (Nat.max 1 (Z.to_nat limit)) (size (matching m a b)).
Proof. intros (order & Hp & ->). by rewrite length_take, (size_matching _ _ _ order). Qed.
End ScanAnswer.
