(* ===== verification/Database.v ===== *)
(** * The persistent database

    [src/core/persistent_database.cpp]: [PersistentTransaction] and [PersistentDatabase].
    The state of the process holds the objects that are shared by pointer or reference: the
    logs ([shared_ptr<WriteAheadLog>]), the transactions ([shared_ptr<Transaction>]) and the
    database, whose map and mutex every transaction refers to.  A pointer is an index. *)

From stdpp Require Import base gmap list strings sorting pretty.
From Stdlib Require Import ZArith Lia.
From Stdlib Require Import Strings.Byte.
From S2P Require Import Prelude.
From S2P Require Import Bytes.
From S2P Require Import Framing.
From S2P Require Import WalRecord.
From S2P Require Import LogReader.
From S2P Require Import Effects.
From S2P Require Import Wal.
From S2P Require Import Interface.

(** [std::shared_mutex], as the running thread finds it. *)
Inductive SharedMutex := Unlocked | LockedShared | LockedExclusive.

(** [class PersistentTransaction]; [data_] and [mutex_] are the database's. *)
Record PersistentTransaction := mkPersistentTransaction {
  tx_wal_ : option nat;
  tx_id_ : Z;
  tx_has_writes_ : bool;
}.

(** [class PersistentDatabase]. *)
Record PersistentDatabase := mkPersistentDatabase {
  data_ : gmap string string;
  mutex_ : SharedMutex;
  data_dir_ : string;
  initialized_ : bool;
  next_transaction_id_ : Z;
  wal_ : option nat;
}.

Record Process := mkProcess {
  p_world : World;
  p_logs : list WriteAheadLog;
  p_txns : list PersistentTransaction;
  p_db : PersistentDatabase;
}.

(** [PersistentDatabase::PersistentDatabase()], with the members' default values;
    [DatabaseFactory::create_database] returns one. *)
Definition PersistentDatabase_new : PersistentDatabase :=
  {| data_ := ∅; mutex_ := Unlocked; data_dir_ := ""; initialized_ := false;
     next_transaction_id_ := 1; wal_ := None |}.

Definition create_database (w : World) : Process :=
  {| p_world := w; p_logs := []; p_txns := []; p_db := PersistentDatabase_new |}.

Definition set_data (d : gmap string string) (db : PersistentDatabase) : PersistentDatabase :=
  mkPersistentDatabase d (mutex_ db) (data_dir_ db) (initialized_ db) (next_transaction_id_ db) (wal_ db).
Definition set_mutex (m : SharedMutex) (db : PersistentDatabase) : PersistentDatabase :=
  mkPersistentDatabase (data_ db) m (data_dir_ db) (initialized_ db) (next_transaction_id_ db) (wal_ db).
Definition set_data_dir (d : string) (db : PersistentDatabase) : PersistentDatabase :=
  mkPersistentDatabase (data_ db) (mutex_ db) d (initialized_ db) (next_transaction_id_ db) (wal_ db).
Definition set_initialized (b : bool) (db : PersistentDatabase) : PersistentDatabase :=
  mkPersistentDatabase (data_ db) (mutex_ db) (data_dir_ db) b (next_transaction_id_ db) (wal_ db).
Definition set_next_id (n : Z) (db : PersistentDatabase) : PersistentDatabase :=
  mkPersistentDatabase (data_ db) (mutex_ db) (data_dir_ db) (initialized_ db) n (wal_ db).
Definition set_wal (p : option nat) (db : PersistentDatabase) : PersistentDatabase :=
  mkPersistentDatabase (data_ db) (mutex_ db) (data_dir_ db) (initialized_ db) (next_transaction_id_ db) p.

Definition on_db (f : PersistentDatabase → PersistentDatabase) (s : Process) : Process :=
  mkProcess (p_world s) (p_logs s) (p_txns s) (f (p_db s)).

Abbreviation DbM := (M Process).

Definition db_gets {A} (f : PersistentDatabase → A) : DbM A := gets (f ∘ p_db).
Definition db_modify (f : PersistentDatabase → PersistentDatabase) : DbM unit := modify (on_db f).

Definition on_env {A} (m : M World A) : DbM A :=
  zoom p_world (λ w s, mkProcess w (p_logs s) (p_txns s) (p_db s)) m.

(** [wal_->m()]. *)
Definition on_wal {A} (wal : option nat) (m : LogM A) : DbM A := λ s,
  match wal with
  | None => (UB "null WriteAheadLog", s)
  | Some p =>
      match p_logs s !! p with
      | None => (UB "dangling WriteAheadLog", s)
      | Some l =>
          let '(r, (w, l)) := m (p_world s, l) in
          (r, mkProcess w (<[p := l]> (p_logs s)) (p_txns s) (p_db s))
      end
  end.

Definition with_has_writes (b : bool) (tx : PersistentTransaction) : PersistentTransaction :=
  mkPersistentTransaction (tx_wal_ tx) (tx_id_ tx) b.

#[global] Arguments on_wal : simpl never.

(** The transaction behind a pointer, and the assignment of its [has_writes_]. *)
Definition deref (t : nat) : DbM PersistentTransaction := λ s,
  match p_txns s !! t with
  | None => (UB "null or dangling Transaction", s)
  | Some tx => (Val tx, s)
  end.

Definition set_has_writes (t : nat) (b : bool) : DbM unit := modify (λ s,
  mkProcess (p_world s) (p_logs s)
    (alter (with_has_writes b) t (p_txns s)) (p_db s)).

(** [std::shared_lock] and [std::unique_lock] on [mutex_] around the rest of a body; the
    mutex may not be locked by the thread that holds it, in either mode. *)
Definition with_mutex {A} (mode : SharedMutex) (body : DbM A) : DbM A := λ s,
  match mutex_ (p_db s) with
  | Unlocked =>
      let '(r, s) := body (on_db (set_mutex mode) s) in (r, on_db (set_mutex Unlocked) s)
  | _ => (UB "std::shared_mutex locked by the thread that owns it", s)
  end.
Definition shared_lock {A} (body : DbM A) : DbM A := with_mutex LockedShared body.
Definition unique_lock {A} (body : DbM A) : DbM A := with_mutex LockedExclusive body.

(** ** [PersistentTransaction] *)

(** The log records that [put], [del] and [commit] build. *)
Definition put_record (id : Z) (key value : string) : WALRecord :=
  {| rec_type := WALRecordType.PUT; rec_timestamp := 0;
     rec_key_length := u32 (slen key); rec_value_length := u32 (slen value);
     rec_key := key; rec_value := value; rec_transaction_id := id |}.
Definition del_record (id : Z) (key : string) : WALRecord :=
  {| rec_type := WALRecordType.DELETE; rec_timestamp := 0;
     rec_key_length := u32 (slen key); rec_value_length := 0;
     rec_key := key; rec_value := ""; rec_transaction_id := id |}.
Definition commit_record (id : Z) : WALRecord :=
  {| rec_type := WALRecordType.COMMIT; rec_timestamp := 0;
     rec_key_length := 0; rec_value_length := 0;
     rec_key := ""; rec_value := ""; rec_transaction_id := id |}.

(** [get]. *)
Definition PersistentTransaction_get (t : nat) (key : string) : DbM string :=
  shared_lock (
    data ← db_gets data_;
    mret (match data !! key with Some v => v | None => "" end)).

(** [put]. *)
Definition PersistentTransaction_put (t : nat) (key value : string) : DbM OperationResult.t :=
  unique_lock (
    tx ← deref t;
    db_modify (λ db, set_data (<[key := value]> (data_ db)) db);;
    set_has_writes t true;;
    ok ← on_wal (tx_wal_ tx) (append_record (put_record (tx_id_ tx) key value));
    if negb ok then
      db_modify (λ db, set_data (delete key (data_ db)) db);;
      set_has_writes t false;;
      mret OperationResult.SYSTEM_ERROR
    else mret OperationResult.SUCCESS).

(** [del]. *)
Definition PersistentTransaction_del (t : nat) (key : string) : DbM OperationResult.t :=
  unique_lock (
    tx ← deref t;
    data ← db_gets data_;
    match data !! key with
    | None => mret OperationResult.KEY_NOT_FOUND
    | Some old_value =>
        db_modify (λ db, set_data (delete key (data_ db)) db);;
        set_has_writes t true;;
        ok ← on_wal (tx_wal_ tx) (append_record (del_record (tx_id_ tx) key));
        if negb ok then
          db_modify (λ db, set_data (<[key := old_value]> (data_ db)) db);;
          set_has_writes t false;;
          mret OperationResult.SYSTEM_ERROR
        else mret OperationResult.SUCCESS
    end).

(** The loop of [scan] over the elements of [data_] in bucket order. *)
Fixpoint scan_loop (start_key end_key : string) (limit : Z)
    (pairs result : list (string * string)) : list (string * string) :=
  match pairs with
  | [] => result
  | (k, v) :: pairs =>
      if string_leb start_key k && string_ltb k end_key then
        let result := result ++ [(k, v)] in
        if zlen result >=? limit then result
        else scan_loop start_key end_key limit pairs result
      else scan_loop start_key end_key limit pairs result
  end.

(** [scan]. *)
Definition PersistentTransaction_scan (t : nat) (start_key end_key : string) (limit : Z)
    : DbM (list (string * string)) :=
  shared_lock (
    data ← db_gets data_;
    pairs ← on_env (walk_map data);
    mret (scan_loop start_key end_key limit pairs [])).

(** [commit]: without the database's mutex. *)
Definition PersistentTransaction_commit (t : nat) : DbM OperationResult.t :=
  tx ← deref t;
  if tx_has_writes_ tx then
    ok ← on_wal (tx_wal_ tx) (append_record (commit_record (tx_id_ tx)));
    if negb ok then mret OperationResult.SYSTEM_ERROR else mret OperationResult.SUCCESS
  else mret OperationResult.SUCCESS.

(** [rollback]: prints a line. *)
Definition PersistentTransaction_rollback (t : nat) : DbM unit :=
  tx ← deref t; mret tt.

(** [get_id]. *)
Definition PersistentTransaction_get_id (t : nat) : DbM Z :=
  tx ← deref t; mret (tx_id_ tx).

(** ** [PersistentDatabase] *)

(** The [switch] of the recovery loop. *)
Definition apply_record (data : gmap string string) (record : WALRecord) : gmap string string :=
  match rec_type record with
  | WALRecordType.PUT => <[rec_key record := rec_value record]> data
  | WALRecordType.DELETE => delete (rec_key record) data
  | WALRecordType.COMMIT => data
  | WALRecordType.CHECKPOINT => data
  | WALRecordType.Unnamed _ => data
  end.

(** The recovery loop. *)
Definition replay (data : gmap string string) (records : list WALRecord) : gmap string string :=
  foldl apply_record data records.

(** [recover_from_wal]. *)
Definition recover_from_wal : DbM bool :=
  try_catch
    (wal ← db_gets wal_;
     records ← on_wal wal read_all_records;
     if (zlen records =? 0) then mret true else
     db_modify (λ db, set_data (replay (data_ db) records) db);;
     mret true)
    (λ _, mret false).

(** [std::make_shared<WriteAheadLog>(dir)]. *)
Definition make_shared_wal (dir : string) : DbM nat :=
  l ← on_env (WriteAheadLog_new dir);
  p ← gets (length ∘ p_logs);
  modify (λ s, mkProcess (p_world s) (p_logs s ++ [l]) (p_txns s) (p_db s));;
  mret p.

(** [initialize]. *)
Definition PersistentDatabase_initialize (data_dir : string) : DbM OperationResult.t :=
  db_modify (set_data_dir data_dir);;
  let wal_dir := data_dir +:+ "/wal" in
  p ← make_shared_wal wal_dir;
  db_modify (set_wal (Some p));;
  ok ← recover_from_wal;
  if negb ok then mret OperationResult.SYSTEM_ERROR else
  db_modify (set_initialized true);;
  mret OperationResult.SUCCESS.

(** [shutdown]. *)
Definition PersistentDatabase_shutdown : DbM unit :=
  initialized ← db_gets initialized_;
  if (initialized : bool) then
    dir ← db_gets data_dir_;
    wal ← db_gets wal_;
    _ ← on_wal wal (create_checkpoint (dir +:+ "/checkpoint.db"));
    db_modify (set_initialized false)
  else mret tt.

(** [begin_transaction]. *)
Definition PersistentDatabase_begin_transaction : DbM (option nat) :=
  initialized ← db_gets initialized_;
  if negb initialized then mret None else
  id ← db_gets next_transaction_id_;
  db_modify (set_next_id (u64 (id + 1)));;
  wal ← db_gets wal_;
  t ← gets (length ∘ p_txns);
  modify (λ s, mkProcess (p_world s) (p_logs s)
                 (p_txns s ++ [mkPersistentTransaction wal id false]) (p_db s));;
  mret (Some t).

(** The loop [for (const auto& [key, value] : wal_stats) stats["wal_" + key] = value]; the
    keys differ, so the order of the walk does not matter. *)
Definition add_wal_stats (stats wal_stats : gmap string string) : gmap string string :=
  map_fold (λ k v acc, <["wal_" +:+ k := v]> acc) stats wal_stats.

(** [get_stats]. *)
Definition PersistentDatabase_get_stats : DbM (gmap string string) :=
  shared_lock (
    db ← gets p_db;
    let stats :=
      <["next_transaction_id" := to_string (next_transaction_id_ db)]>
      (<["initialized" := if initialized_ db then "true" else "false"]>
      (<["data_directory" := data_dir_ db]>
      (<["total_keys" := to_string (Z.of_nat (size (data_ db)))]> ∅))) in
    match wal_ db with
    | Some _ =>
        wal_stats ← on_wal (wal_ db) log_get_stats;
        mret (add_wal_stats stats wal_stats)
    | None => mret stats
    end).

(** [compact]: the result of [truncate_log] is not looked at. *)
Definition PersistentDatabase_compact : DbM OperationResult.t :=
  wal ← db_gets wal_;
  match wal with
  | Some _ => _ ← on_wal wal truncate_log; mret OperationResult.SUCCESS
  | None => mret OperationResult.SUCCESS
  end.

(** [backup]. *)
Definition PersistentDatabase_backup (backup_path : string) : DbM OperationResult.t :=
  wal ← db_gets wal_;
  match wal with
  | Some _ =>
      ok ← on_wal wal (create_checkpoint backup_path);
      mret (if ok : bool then OperationResult.SUCCESS else OperationResult.SYSTEM_ERROR)
  | None => mret OperationResult.SYSTEM_ERROR
  end.

(** [restore]. *)
Definition PersistentDatabase_restore (backup_path : string) : DbM OperationResult.t :=
  wal ← db_gets wal_;
  match wal with
  | Some _ =>
      ok ← on_wal wal (recover_from_checkpoint backup_path);
      mret (if ok : bool then OperationResult.SUCCESS else OperationResult.SYSTEM_ERROR)
  | None => mret OperationResult.SYSTEM_ERROR
  end.

(** [PersistentDatabase] and [PersistentTransaction] implement the abstract classes. *)
#[export] Instance PersistentDatabase_iface : Database Process nat := {|
  initialize := PersistentDatabase_initialize;
  shutdown := PersistentDatabase_shutdown;
  begin_transaction := PersistentDatabase_begin_transaction;
  get_stats := PersistentDatabase_get_stats;
  compact := PersistentDatabase_compact;
  backup := PersistentDatabase_backup;
  restore := PersistentDatabase_restore;
  txn_get := PersistentTransaction_get;
  txn_put := PersistentTransaction_put;
  txn_del := PersistentTransaction_del;
  txn_scan := PersistentTransaction_scan;
  txn_commit := PersistentTransaction_commit;
  txn_rollback := PersistentTransaction_rollback;
  txn_get_id := PersistentTransaction_get_id;
|}.

(** ** Lemmas *)

Ltac dbsimpl :=
  unfold shared_lock, unique_lock, with_mutex, deref, db_gets, db_modify, set_has_writes, on_env in *;
  msimpl.

(** [t] is a transaction whose log is [l], at [p]. *)
Record txn_at (s : Process) (t : nat) (tx : PersistentTransaction) (p : nat) (l : WriteAheadLog)
    : Prop := {
  ta_txn : p_txns s !! t = Some tx;
  ta_wal : tx_wal_ tx = Some p;
  ta_log : p_logs s !! p = Some l;
}.

Section Steps.
Implicit Types (s : Process) (l : WriteAheadLog).

Lemma on_wal_step {A} p (m : LogM A) s l a w' l' :
  p_logs s !! p = Some l → m (p_world s, l) = (Val a, (w', l')) →
  on_wal (Some p) m s = (Val a, mkProcess w' (<[p := l']> (p_logs s)) (p_txns s) (p_db s)).
Proof. intros Hl E. unfold on_wal. by rewrite Hl, E. Qed.

Lemma alter_has_writes b c t (txns : list PersistentTransaction) :
  alter (with_has_writes b) t (alter (with_has_writes c) t txns)
  = alter (with_has_writes b) t txns.
Proof. by rewrite list_alter_alter_eq. Qed.

(** The operations, given what [append_record] did. *)
Lemma put_step t k v s tx p l b w' l' :
  mutex_ (p_db s) = Unlocked → txn_at s t tx p l →
  append_record (put_record (tx_id_ tx) k v) (p_world s, l) = (Val b, (w', l')) →
  PersistentTransaction_put t k v s =
    (Val (if b : bool then OperationResult.SUCCESS else OperationResult.SYSTEM_ERROR),
     mkProcess w' (<[p := l']> (p_logs s)) (alter (with_has_writes b) t (p_txns s))
       (set_data (if b then <[k := v]> (data_ (p_db s)) else delete k (data_ (p_db s))) (p_db s))).
Proof.
  intros Hm [Ht Hw Hl] E. unfold PersistentTransaction_put. dbsimpl. rewrite Hm. mcbn.
  rewrite Ht. mcbn. rewrite Hw. erewrite on_wal_step; [|exact Hl|exact E].
  destruct s as [w ls ts db], db. cbn in Hm. subst.
  destruct b; mcbn; [done|]. by rewrite alter_has_writes, delete_insert_eq.
Qed.

Lemma del_step_missing t k s tx p l :
  mutex_ (p_db s) = Unlocked → txn_at s t tx p l → data_ (p_db s) !! k = None →
  PersistentTransaction_del t k s = (Val OperationResult.KEY_NOT_FOUND, s).
Proof.
  intros Hm [Ht Hw Hl] Hk. unfold PersistentTransaction_del. dbsimpl. rewrite Hm. mcbn.
  rewrite Ht. mcbn. rewrite Hk. destruct s as [w ls ts db], db. cbn in Hm. by subst.
Qed.

Lemma del_step t k v s tx p l b w' l' :
  mutex_ (p_db s) = Unlocked → txn_at s t tx p l → data_ (p_db s) !! k = Some v →
  append_record (del_record (tx_id_ tx) k) (p_world s, l) = (Val b, (w', l')) →
  PersistentTransaction_del t k s =
    (Val (if b : bool then OperationResult.SUCCESS else OperationResult.SYSTEM_ERROR),
     mkProcess w' (<[p := l']> (p_logs s)) (alter (with_has_writes b) t (p_txns s))
       (set_data (if b then delete k (data_ (p_db s)) else data_ (p_db s)) (p_db s))).
Proof.
  intros Hm [Ht Hw Hl] Hk E. unfold PersistentTransaction_del. dbsimpl. rewrite Hm. mcbn.
  rewrite Ht. mcbn. rewrite Hk. mcbn. rewrite Hw. erewrite on_wal_step; [|exact Hl|exact E].
  destruct s as [w ls ts db], db. cbn in Hm, Hk. subst.
  destruct b; mcbn; [done|]. by rewrite alter_has_writes, insert_delete_id.
Qed.

Lemma commit_step t s tx p l b w' l' :
  txn_at s t tx p l → tx_has_writes_ tx = true →
  append_record (commit_record (tx_id_ tx)) (p_world s, l) = (Val b, (w', l')) →
  PersistentTransaction_commit t s =
    (Val (if b : bool then OperationResult.SUCCESS else OperationResult.SYSTEM_ERROR),
     mkProcess w' (<[p := l']> (p_logs s)) (p_txns s) (p_db s)).
Proof.
  intros [Ht Hw Hl] Hh E. unfold PersistentTransaction_commit. dbsimpl.
  rewrite Ht. mcbn. rewrite Hh, Hw. erewrite on_wal_step; [|exact Hl|exact E]. by destruct b.
Qed.

Lemma commit_step_readonly t s tx :
  p_txns s !! t = Some tx → tx_has_writes_ tx = false →
  PersistentTransaction_commit t s = (Val OperationResult.SUCCESS, s).
Proof.
  intros Ht Hh. unfold PersistentTransaction_commit. dbsimpl. rewrite Ht. mcbn. by rewrite Hh.
Qed.

Lemma get_step t k s :
  mutex_ (p_db s) = Unlocked →
  PersistentTransaction_get t k s = (Val (default "" (data_ (p_db s) !! k)), s).
Proof.
  intros Hm. unfold PersistentTransaction_get. dbsimpl. rewrite Hm. mcbn.
  destruct s as [w ls ts db], db. cbn in *. subst. by destruct (_ !! k).
Qed.

Lemma begin_step s :
  initialized_ (p_db s) = true →
  PersistentDatabase_begin_transaction s =
    (Val (Some (length (p_txns s))),
     mkProcess (p_world s) (p_logs s)
       (p_txns s ++ [mkPersistentTransaction (wal_ (p_db s)) (next_transaction_id_ (p_db s)) false])
       (set_next_id (u64 (next_transaction_id_ (p_db s) + 1)) (p_db s))).
Proof.
  intros Hi. unfold PersistentDatabase_begin_transaction. dbsimpl. by rewrite Hi.
Qed.
End Steps.

Section Scan.
Implicit Types (s : Process) (pairs result : list (string * string)).

Lemma scan_loop_spec a b limit pairs result :
  (length result < Nat.max 1 (Z.to_nat limit))%nat →
  scan_loop a b limit pairs result =
    result ++ take (Nat.max 1 (Z.to_nat limit) - length result)
                (filter (λ kv, in_range a b kv.1 = true) pairs).
Proof.
  revert result. induction pairs as [|[k v] pairs IH]; intros result Hlen.
  { by rewrite filter_nil, take_nil, app_nil_r. }
  cbn [scan_loop]. rewrite filter_cons. cbn [fst].
  change (string_leb a k && string_ltb k b) with (in_range a b k).
  destruct (in_range a b k) eqn:E.
  - rewrite decide_True by done.
    rewrite Z.geb_leb, zlen_app, zlen_cons, zlen_nil. unfold zlen. zcase.
    + replace (Nat.max 1 (Z.to_nat limit) - length result)%nat with 1%nat by lia. simpl.
      by rewrite take_0.
    + rewrite IH by (rewrite length_app; simpl; lia).
      rewrite length_app. simpl. rewrite <- app_assoc. simpl. f_equal.
      replace (Nat.max 1 (Z.to_nat limit) - length result)%nat
        with (S (Nat.max 1 (Z.to_nat limit) - (length result + 1)))%nat by lia. done.
  - rewrite decide_False by congruence. by apply IH.
Qed.

Lemma scan_step t a b limit s :
  mutex_ (p_db s) = Unlocked → fair_order (p_world s) →
  ∃ answer w', PersistentTransaction_scan t a b limit s
      = (Val answer, mkProcess w' (p_logs s) (p_txns s) (p_db s)) ∧
    scan_answer (data_ (p_db s)) a b limit answer ∧
    w_files w' = w_files (p_world s) ∧ (∀ path, evolves path (p_world s) w').
Proof.
  intros Hm Hw. destruct s as [w ls ts db], db. cbn in Hm, Hw. subst.
  eexists _, (walk_map data_0 w).2. split; [|split; [|split]].
  - unfold PersistentTransaction_scan. dbsimpl. reflexivity.
  - cbn. rewrite scan_loop_spec by (cbn; lia).
    eexists. split; [apply Hw|]. by rewrite Nat.sub_0_r.
  - done.
  - intros path. split; cbn; auto.
Qed.
End Scan.

(** ** The database in working order *)

(** The database is initialised, its log [l] (at [p]) is ready with [bs] in its file, and the
    environment behaves. *)
Record db_ready (s : Process) (p : nat) (l : WriteAheadLog) (bs : list byte) : Prop := {
  dr_mutex : mutex_ (p_db s) = Unlocked;
  dr_init : initialized_ (p_db s) = true;
  dr_wal : wal_ (p_db s) = Some p;
  dr_log : p_logs s !! p = Some l;
  dr_ready : log_ready (p_world s) l bs;
  dr_healthy : healthy (p_world s);
  dr_fair : fair_order (p_world s);
}.

(** [t] was begun on the database's current log. *)
Definition current_txn (s : Process) (t : nat) : Prop :=
  ∃ tx, p_txns s !! t = Some tx ∧ tx_wal_ tx = wal_ (p_db s).

(** The refinement relation: the log file is the sequence of frames of [rs], every one of
    which a reader accepts, and the map in memory is what replaying [rs] gives. *)
Record logged (s : Process) (rs : list WALRecord) : Prop := {
  lg_ready : ∃ p l, db_ready s p l (frames rs);
  lg_data : data_ (p_db s) = replay ∅ rs;
  lg_frameable : Forall frameable rs;
  lg_next_id : is_u64 (next_transaction_id_ (p_db s));
  lg_ids : Forall (λ tx, is_u64 (tx_id_ tx)) (p_txns s);
}.

Section Ready.
Implicit Types (s : Process) (l : WriteAheadLog).

Lemma db_ready_append s p l bs r :
  db_ready s p l bs →
  ∃ w' l', append_record r (p_world s, l) = (Val true, (w', l')) ∧
    ∀ txns db, mutex_ db = Unlocked → initialized_ db = true → wal_ db = Some p →
      db_ready (mkProcess w' (<[p := l']> (p_logs s)) txns db) p l'
        (bs ++ frame (encode (stamped (stamp_of (p_world s)) r))).
Proof.
  intros [].
  destruct (append_record_healthy r _ _ _ dr_ready0 dr_healthy0) as (w' & l' & E & Hr & Hw & _ & V).
  exists w', l'. split; [done|]. intros txns db Hm Hi Hp. split; cbn; try done.
  - apply list_lookup_insert_eq. by eapply lookup_lt_Some.
  - by eapply evolves_fair.
Qed.

Lemma current_txn_at s p l bs t :
  db_ready s p l bs → current_txn s t → ∃ tx, txn_at s t tx p l.
Proof. intros [] (tx & Ht & Hw). exists tx. split; [done|congruence|done]. Qed.

Lemma current_txn_alter s w' ls db t u b :
  wal_ db = wal_ (p_db s) → current_txn s t →
  current_txn (mkProcess w' ls (alter (with_has_writes b) u (p_txns s)) db) t.
Proof.
  intros Hd (tx & Ht & Hw). unfold current_txn. cbn. rewrite Hd.
  destruct (decide (u = t)) as [->|Hne].
  - exists (with_has_writes b tx). by rewrite list_lookup_alter_eq, Ht.
  - exists tx. by rewrite list_lookup_alter_ne.
Qed.

(** Each operation on a database in working order: its result, the map, and what the log
    gains. *)
Lemma put_ready s p l bs t k v :
  db_ready s p l bs → current_txn s t →
  ∃ s' l' tx, p_txns s !! t = Some tx ∧
    PersistentTransaction_put t k v s = (Val OperationResult.SUCCESS, s') ∧
    db_ready s' p l'
      (bs ++ frame (encode (stamped (stamp_of (p_world s)) (put_record (tx_id_ tx) k v)))) ∧
    p_db s' = set_data (<[k := v]> (data_ (p_db s))) (p_db s) ∧
    p_txns s' = alter (with_has_writes true) t (p_txns s) ∧
    ∀ u, current_txn s u → current_txn s' u.
Proof.
  intros H Ht. destruct (current_txn_at _ _ _ _ _ H Ht) as [tx Hat].
  destruct (db_ready_append s p l bs (put_record (tx_id_ tx) k v) H) as (w' & l' & E & Hr).
  eexists _, l', tx. split; [apply Hat|]. split.
  { by rewrite (put_step _ _ _ _ _ _ _ _ _ _ (dr_mutex _ _ _ _ H) Hat E). }
  split; [by apply Hr; destruct H|]. do 2 (split; [done|]).
  intros u. by apply current_txn_alter.
Qed.

Lemma del_ready s p l bs t k v :
  db_ready s p l bs → current_txn s t → data_ (p_db s) !! k = Some v →
  ∃ s' l' tx, p_txns s !! t = Some tx ∧
    PersistentTransaction_del t k s = (Val OperationResult.SUCCESS, s') ∧
    db_ready s' p l'
      (bs ++ frame (encode (stamped (stamp_of (p_world s)) (del_record (tx_id_ tx) k)))) ∧
    p_db s' = set_data (delete k (data_ (p_db s))) (p_db s) ∧
    p_txns s' = alter (with_has_writes true) t (p_txns s) ∧
    ∀ u, current_txn s u → current_txn s' u.
Proof.
  intros H Ht Hk. destruct (current_txn_at _ _ _ _ _ H Ht) as [tx Hat].
  destruct (db_ready_append s p l bs (del_record (tx_id_ tx) k) H) as (w' & l' & E & Hr).
  eexists _, l', tx. split; [apply Hat|]. split.
  { by rewrite (del_step _ _ _ _ _ _ _ _ _ _ (dr_mutex _ _ _ _ H) Hat Hk E). }
  split; [by apply Hr; destruct H|]. do 2 (split; [done|]).
  intros u. by apply current_txn_alter.
Qed.

Lemma commit_ready s p l bs t :
  db_ready s p l bs → current_txn s t →
  ∃ s' l' rs, PersistentTransaction_commit t s = (Val OperationResult.SUCCESS, s') ∧
    db_ready s' p l' (bs ++ frames rs) ∧
    (rs = [] ∨ ∃ tx, p_txns s !! t = Some tx ∧
       rs = [stamped (stamp_of (p_world s)) (commit_record (tx_id_ tx))]) ∧
    p_db s' = p_db s ∧ p_txns s' = p_txns s ∧ ∀ u, current_txn s u → current_txn s' u.
Proof.
  intros H Ht. destruct (current_txn_at _ _ _ _ _ H Ht) as [tx Hat].
  destruct (tx_has_writes_ tx) eqn:Hh.
  - destruct (db_ready_append s p l bs (commit_record (tx_id_ tx)) H) as (w' & l' & E & Hr).
    eexists _, l', [stamped (stamp_of (p_world s)) (commit_record (tx_id_ tx))]. split.
    { by rewrite (commit_step _ _ _ _ _ _ _ _ Hat Hh E). }
    rewrite <- (app_nil_l [_]), frames_snoc, frames_nil. split; [by apply Hr; destruct H|].
    split; [|done]. right. exists tx. by split; [apply Hat|].
  - exists s, l, []. rewrite frames_nil, app_nil_r. split.
    + apply (commit_step_readonly _ _ tx); [apply Hat|done].
    + split; [done|]. split; [by left|done].
Qed.

Lemma begin_ready s p l bs :
  db_ready s p l bs →
  ∃ t s', PersistentDatabase_begin_transaction s = (Val (Some t), s') ∧
    db_ready s' p l bs ∧ current_txn s' t ∧ data_ (p_db s') = data_ (p_db s) ∧
    ∀ u, current_txn s u → current_txn s' u.
Proof.
  intros H. eexists _, _. split; [apply begin_step, H|]. destruct H.
  split; [by split|]. split; [|split; [done|]].
  - eexists. cbn. by rewrite list_lookup_middle.
  - intros u (tx & Hu & Hw). exists tx. split; [|done]. cbn. by apply lookup_app_l_Some.
Qed.

Lemma scan_ready s p l bs t a b limit :
  db_ready s p l bs →
  ∃ s' answer, PersistentTransaction_scan t a b limit s = (Val answer, s') ∧
    scan_answer (data_ (p_db s)) a b limit answer ∧ db_ready s' p l bs ∧
    p_db s' = p_db s ∧ p_txns s' = p_txns s ∧ ∀ u, current_txn s u → current_txn s' u.
Proof.
  intros H. destruct (scan_step t a b limit s (dr_mutex _ _ _ _ H) (dr_fair _ _ _ _ H))
    as (answer & w' & E & Ha & Hf & V).
  eexists _, answer. split; [exact E|]. split; [done|]. destruct H.
  split; [|done]. split; cbn; try done.
  - destruct dr_ready0 as (? & ? & ? & ?). split_and!; try done. by rewrite Hf.
  - by eapply evolves_healthy, dr_healthy0.
  - by eapply evolves_fair, dr_fair0.
  Unshelve. all: exact "".
Qed.
End Ready.

(** ** The contract, discharged *)

#[export] Instance PersistentDatabase_contract : DatabaseContract Process nat.
Proof.
  refine {| db_ok := λ s, ∃ p l bs, db_ready s p l bs; contents := data_ ∘ p_db;
            is_txn := current_txn |}.
  - intros s (p & l & bs & H).
    destruct (begin_ready s p l bs H) as (t & s' & E & H' & Ht & Hd & Hu). eauto 12.
  - intros s t k (p & l & bs & H) Ht. exists s.
    pose proof (get_step t k s (dr_mutex _ _ _ _ H)) as E. eauto 10.
  - intros s t k v (p & l & bs & H) Ht.
    destruct (put_ready s p l bs t k v H Ht) as (s' & l' & tx & _ & E & H' & Hd & _ & Hu).
    exists s'. unfold compose. rewrite Hd. eauto 10.
  - intros s t k (p & l & bs & H) Ht. unfold compose.
    destruct (data_ (p_db s) !! k) as [v|] eqn:Hk.
    + destruct (del_ready s p l bs t k v H Ht Hk) as (s' & l' & tx & _ & E & H' & Hd & _ & Hu).
      exists s'. rewrite Hd. eauto 10.
    + destruct (current_txn_at _ _ _ _ _ H Ht) as [tx Hat].
      pose proof (del_step_missing t k s tx p l (dr_mutex _ _ _ _ H) Hat Hk) as E.
      exists s. rewrite (delete_id _ _ Hk). eauto 10.
  - intros s t a b limit (p & l & bs & H) Ht.
    destruct (scan_ready s p l bs t a b limit H) as (s' & ans & E & Ha & H' & Hd & _ & Hu).
    exists s', ans. unfold compose. rewrite Hd. eauto 10.
  - intros s t (p & l & bs & H) Ht.
    destruct (commit_ready s p l bs t H Ht) as (s' & l' & rs & E & H' & _ & Hd & _ & Hu).
    exists s'. unfold compose. rewrite Hd. eauto 10.
Defined.

(** ** Executions

    Any number of transactions, their operations in any order.  Every operation holds the
    database's mutex, or the log's, from its first effect to its last, so the executions of
    concurrent threads are interleavings of whole operations ([LockingTheorems.v] proves it). *)

Inductive db_step : Process → Process → Prop :=
  | step_begin s r s' :
      PersistentDatabase_begin_transaction s = (Val r, s') → db_step s s'
  | step_get s t k r s' :
      PersistentTransaction_get t k s = (Val r, s') → db_step s s'
  | step_put s t k v r s' :
      current_txn s t → slen k + slen v <= MAX_FRAME - 25 →
      PersistentTransaction_put t k v s = (Val r, s') → db_step s s'
  | step_del s t k r s' :
      current_txn s t → slen k <= MAX_FRAME - 25 →
      PersistentTransaction_del t k s = (Val r, s') → db_step s s'
  | step_scan s t a b limit r s' :
      PersistentTransaction_scan t a b limit s = (Val r, s') → db_step s s'
  | step_commit s t r s' :
      current_txn s t → PersistentTransaction_commit t s = (Val r, s') → db_step s s'
  | step_rollback s t r s' :
      PersistentTransaction_rollback t s = (Val r, s') → db_step s s'.

Section Replay.
Implicit Types (d : gmap string string) (rs : list WALRecord).

Lemma replay_app d rs rs' : replay d (rs ++ rs') = replay (replay d rs) rs'.
Proof. apply foldl_app. Qed.

Lemma replay_snoc d rs r : replay d (rs ++ [r]) = apply_record (replay d rs) r.
Proof. by rewrite replay_app. Qed.

Lemma apply_stamped d ts r : apply_record d (stamped ts r) = apply_record d r.
Proof. unfold stamped, apply_record. by destruct (rec_timestamp r =? 0). Qed.

End Replay.

Section Frameable.
Lemma plain_record_frameable ty id k v :
  WALRecordType_canonical ty → is_u64 id → slen k + slen v <= MAX_FRAME - 25 →
  frameable {| rec_type := ty; rec_timestamp := 0; rec_key_length := u32 (slen k);
               rec_value_length := u32 (slen v); rec_key := k; rec_value := v;
               rec_transaction_id := id |}.
Proof.
  intros Ht Hid H. unfold slen, MAX_FRAME in *. split.
  - unfold well_formed, WALRecord_codec, WALRecord_wf, slen. cbn.
    rewrite !u32_small by (unfold is_u32; lia).
    split_and!; (done || unfold is_u32, is_u64; lia).
  - unfold encode, WALRecord_codec. rewrite length_WALRecord_serialize. cbn.
    unfold slen, MAX_FRAME. lia.
Qed.
End Frameable.

Lemma put_record_frameable id k v :
  is_u64 id → slen k + slen v <= MAX_FRAME - 25 → frameable (put_record id k v).
Proof. by apply plain_record_frameable. Qed.

Lemma del_record_frameable id k :
  is_u64 id → slen k <= MAX_FRAME - 25 → frameable (del_record id k).
Proof. intros Hid Hk. apply (plain_record_frameable WALRecordType.DELETE id k ""); [done..|]. unfold slen in *. simpl. lia. Qed.

Lemma commit_record_frameable id : is_u64 id → frameable (commit_record id).
Proof. intros Hid. by apply (plain_record_frameable WALRecordType.COMMIT id "" ""). Qed.

Section Logged.
Implicit Types (s : Process).

Lemma logged_grow s s' rs r p l :
  logged s rs → frameable r → is_u64 (next_transaction_id_ (p_db s')) →
  db_ready s' p l (frames rs ++ frame (encode (stamped (stamp_of (p_world s)) r))) →
  data_ (p_db s') = apply_record (data_ (p_db s)) r →
  Forall (λ tx, is_u64 (tx_id_ tx)) (p_txns s') →
  logged s' (rs ++ [stamped (stamp_of (p_world s)) r]).
Proof.
  intros [] Hr Hn Hrdy Hd Hids. rewrite <- frames_snoc in Hrdy. split; [by eauto| | |done|done].
  - by rewrite replay_snoc, apply_stamped, <- lg_data0.
  - apply Forall_app. split; [done|]. constructor; [|done].
    apply stamped_frameable; [apply u64_range|done].
Qed.

Lemma ids_alter s b t :
  Forall (λ tx, is_u64 (tx_id_ tx)) (p_txns s) →
  Forall (λ tx, is_u64 (tx_id_ tx)) (alter (with_has_writes b) t (p_txns s)).
Proof. intros H. apply Forall_alter; [done|]. by intros tx _ Htx. Qed.

Lemma logged_id s rs t tx : logged s rs → p_txns s !! t = Some tx → is_u64 (tx_id_ tx).
Proof. intros [] Ht. exact (proj1 (Forall_lookup _ _) lg_ids0 _ _ Ht). Qed.

Lemma logged_begin s rs :
  logged s rs →
  ∃ s', PersistentDatabase_begin_transaction s = (Val (Some (length (p_txns s))), s') ∧
    logged s' rs.
Proof.
  intros [(p & l & []) Hd Hf Hn Hi]. eexists. split; [by apply begin_step|]. split; cbn; try done.
  - exists p, l. by split.
  - apply u64_range.
  - apply Forall_app. split; [done|]. by constructor.
Qed.

Lemma logged_step s s' rs :
  logged s rs → db_step s s' → ∃ new, logged s' (rs ++ new).
Proof.
  intros H Hstep. pose proof H as H0. destruct H0 as [(p & l & Hr) Hd Hf Hn Hi].
  destruct Hstep as
    [s r s' E|s t k r s' E|s t k v r s' Ht Hs E|s t k r s' Ht Hs E|s t a b lim r s' E
    |s t r s' Ht E|s t r s' E].
  - destruct (logged_begin _ _ H) as (s1 & E1 & H1). rewrite E in E1. injection E1 as _ <-.
    exists []. by rewrite app_nil_r.
  - rewrite (get_step _ _ _ (dr_mutex _ _ _ _ Hr)) in E. injection E as <- <-.
    exists []. by rewrite app_nil_r.
  - destruct (put_ready s p l _ t k v Hr Ht) as (s1 & l1 & tx & Htx & E1 & Hr1 & Hd1 & Ht1 & _).
    rewrite E in E1. injection E1 as _ <-. eexists [_].
    eapply (logged_grow s s' rs (put_record (tx_id_ tx) k v)); try done; rewrite ?Hd1, ?Ht1; try done.
    + apply put_record_frameable; [by eapply logged_id|done].
    + by apply ids_alter.
  - destruct (data_ (p_db s) !! k) as [v|] eqn:Hk.
    + destruct (del_ready s p l _ t k v Hr Ht Hk) as (s1 & l1 & tx & Htx & E1 & Hr1 & Hd1 & Ht1 & _).
      rewrite E in E1. injection E1 as _ <-. eexists [_].
      eapply (logged_grow s s' rs (del_record (tx_id_ tx) k)); try done; rewrite ?Hd1, ?Ht1; try done.
      * apply del_record_frameable; [by eapply logged_id|done].
      * by apply ids_alter.
    + destruct (current_txn_at _ _ _ _ _ Hr Ht) as [tx Hat].
      rewrite (del_step_missing t k s tx p l (dr_mutex _ _ _ _ Hr) Hat Hk) in E.
      injection E as <- <-. exists []. by rewrite app_nil_r.
  - destruct (scan_ready s p l _ t a b lim Hr) as (s1 & ans & E1 & _ & Hr1 & Hd1 & Ht1 & _).
    rewrite E in E1. injection E1 as _ <-. exists []. rewrite app_nil_r.
    split; rewrite ?Hd1, ?Ht1; eauto.
  - destruct (commit_ready s p l _ t Hr Ht) as (s1 & l1 & rs1 & E1 & Hr1 & Hrs & Hd1 & Ht1 & _).
    rewrite E in E1. injection E1 as _ <-. destruct Hrs as [->|(tx & Htx & ->)].
    + rewrite frames_nil, app_nil_r in Hr1. exists []. rewrite app_nil_r.
      split; rewrite ?Hd1, ?Ht1; eauto.
    + rewrite <- (app_nil_l [_]), frames_snoc, frames_nil in Hr1. eexists [_].
      eapply (logged_grow s s' rs (commit_record (tx_id_ tx))); try done; rewrite ?Hd1, ?Ht1; try done.
      apply commit_record_frameable. by eapply logged_id.
  - unfold PersistentTransaction_rollback in E. dbsimpl.
    destruct (p_txns s !! t); [|done]. injection E as <- <-. exists []. by rewrite app_nil_r.
Qed.

Lemma logged_steps s s' rs :
  logged s rs → rtc db_step s s' → ∃ new, logged s' (rs ++ new).
Proof.
  intros H Hsteps. revert rs H. induction Hsteps as [s|s s1 s2 Hs Hss IH]; intros rs H.
  - exists []. by rewrite app_nil_r.
  - destruct (logged_step _ _ _ H Hs) as [new1 H1]. destruct (IH _ H1) as [new2 H2].
    exists (new1 ++ new2). by rewrite app_assoc.
Qed.
End Logged.

(** ** Initialisation and recovery *)

(** The log file a process writes that is initialised now, on [data_dir]. *)
Definition log_name_now (data_dir : string) (w : World) : string :=
  log_file_name (data_dir +:+ "/wal") (w_clock w (w_ticks w)).

Section Initialise.
Implicit Types (s : Process) (w : World).

(** [recover_from_wal] on a log that is ready: the records are replayed on the map. *)
Lemma recover_from_wal_ready s p l bs rs :
  wal_ (p_db s) = Some p → p_logs s !! p = Some l → log_ready (p_world s) l bs →
  healthy (p_world s) → read_records bs = Some rs →
  ∃ w' l', recover_from_wal s =
      (Val true, mkProcess w' (<[p := l']> (p_logs s)) (p_txns s)
                   (set_data (replay (data_ (p_db s)) rs) (p_db s))) ∧
    log_ready w' l' bs ∧ healthy w' ∧ evolves (current_log_file_ l) (p_world s) w'.
Proof.
  intros Hw Hl Hr Hh Hrs.
  destruct (read_all_records_healthy _ l bs rs Hr Hh Hrs) as (w' & l' & E & Hr' & Hh' & _ & V).
  exists w', l'. split; [|done]. unfold recover_from_wal. dbsimpl. rewrite Hw.
  erewrite on_wal_step; [|exact Hl|exact E]. mcbn. zcase; [|done]. unfold zlen in *. mcbn.
  destruct rs; [|done]. destruct s as [w ls ts db], db. done.
Qed.

Lemma initialize_ready dir s rs :
  mutex_ (p_db s) = Unlocked → healthy (p_world s) → fair_order (p_world s) →
  read_records (file_bytes (p_world s) (log_name_now dir (p_world s))) = Some rs →
  ∃ s' p l, PersistentDatabase_initialize dir s = (Val OperationResult.SUCCESS, s') ∧
    db_ready s' p l (file_bytes (p_world s) (log_name_now dir (p_world s))) ∧
    data_ (p_db s') = replay (data_ (p_db s)) rs ∧
    next_transaction_id_ (p_db s') = next_transaction_id_ (p_db s) ∧ p_txns s' = p_txns s ∧
    evolves (log_name_now dir (p_world s)) (p_world s) (p_world s').
Proof.
  intros Hm Hh Hf Hrs. destruct s as [w ls ts db]. cbn in Hm, Hh, Hf, Hrs.
  unfold PersistentDatabase_initialize, make_shared_wal. dbsimpl.
  destruct (WriteAheadLog_new_healthy (dir +:+ "/wal") w Hh)
    as (w1 & l & -> & Hr & _ & Hc & _ & _ & Hh1 & V1). mcbn. fold (log_name_now dir w) in Hr, Hc, V1.
  destruct (recover_from_wal_ready
    (mkProcess w1 (ls ++ [l]) ts (set_wal (Some (length ls)) (set_data_dir dir db)))
    (length ls) l _ rs eq_refl (list_lookup_middle _ _ _ _ eq_refl) Hr Hh1 Hrs)
    as (w2 & l2 & E & Hr2 & Hh2 & V2). cbn in V2.
  unfold on_db. mcbn. rewrite E. mcbn.
  rewrite Hc in V2.
  assert (evolves (log_name_now dir w) w w2) as V by (by etrans).
  eexists _, (length ls), l2. split; [reflexivity|]. split; [|done].
  split; cbn; try done.
  - apply list_lookup_insert_eq. rewrite length_app. cbn. lia.
  - by eapply evolves_fair.
Qed.
End Initialise.

(** Whatever the environment does, [initialize] of a new database succeeds or throws what
    [create_directories] has thrown; [SYSTEM_ERROR] is never its result. *)
Lemma initialize_new dir w :
  ∃ s', PersistentDatabase_initialize dir (create_database w) = (Val OperationResult.SUCCESS, s') ∨
    PersistentDatabase_initialize dir (create_database w)
    = (Exn "filesystem error: cannot create directories", s').
Proof.
  unfold PersistentDatabase_initialize, make_shared_wal. dbsimpl.
  unfold WriteAheadLog_new, create_directories, next_io. msimpl.
  destruct (io_ok (w_io w (w_ios w))); mcbn; [|eexists; by right].
  match goal with |- context [open_new_log_file (?w, ?l)] =>
    destruct (open_new_log_file_total w l) as (opened & w2 & l2 & -> & Hm) end. mcbn.
  destruct (read_all_records_total w2 l2 Hm) as (records & [w3 l3] & E).
  unfold recover_from_wal. dbsimpl. unfold on_wal, on_db. mcbn. rewrite E. mcbn.
  destruct (zlen records =? 0); mcbn; eexists; by left.
Qed.

Section Names.
(** Different milliseconds, different files. *)
Lemma log_file_name_inj dir t u : log_file_name dir t = log_file_name dir u → t = u.
Proof.
  unfold log_file_name, to_string. intros E. apply (inj (String.append _)), (inj (String.append _)) in E.
  apply string_app_inj_r in E. by apply (inj pretty).
Qed.
End Names.

(** Initialisation on the log file of another process. *)
Lemma recovers (s : Process) (p : nat) (l : WriteAheadLog) (rs : list WALRecord)
    (w : World) (dir : string) :
  logged s rs → db_ready s p l (frames rs) →
  healthy w → fair_order w →
  file_bytes w (log_name_now dir w) = file_bytes (p_world s) (current_log_file_ l) →
  ∃ s', PersistentDatabase_initialize dir (create_database w) = (Val OperationResult.SUCCESS, s') ∧
    data_ (p_db s') = data_ (p_db s) ∧ logged s' rs.
Proof.
  intros H Hr Hw Hf Hbytes. rewrite (lookup_file_bytes (current_log_file_ l) (frames rs)) in Hbytes
    by apply (dr_ready _ _ _ _ Hr).
  destruct (initialize_ready dir (create_database w) rs) as (s' & p' & l' & E & Hr' & Hd & Hn & Ht & _);
    try done.
  { change (p_world (create_database w)) with w. rewrite Hbytes. apply read_frames, H. }
  cbn in Hr', Hd, Hn, Ht. rewrite Hbytes in Hr'. exists s'. split; [done|].
  rewrite Hd. split; [by rewrite (lg_data _ _ H)|]. split; [by eauto|done|apply H|by rewrite Hn|by rewrite Ht].
Qed.

(** ** Theorems *)

(** C9.  The map in memory refines the log: as long as I/O works and the records fit the
    reader's limit, after any interleaving of the operations of any number of transactions,
    the log file holds the records it held and new ones, every one readable, and replaying
    them from the empty map gives exactly the map in memory. *)
Theorem log_refines_memory (s s' : Process) (rs : list WALRecord) :
  logged s rs → rtc db_step s s' → ∃ new, logged s' (rs ++ new).
Proof. apply logged_steps. Qed.

(** C10.  Recovery is exact: a process that is initialised on the log file of another one, at
    any point of that one's execution, ends up with the same map, and its own log refines
    it. *)
Theorem initialize_recovers (s : Process) (p : nat) (l : WriteAheadLog) (rs : list WALRecord)
    (w : World) (dir : string) :
  logged s rs → db_ready s p l (frames rs) →
  healthy w → fair_order w →
  file_bytes w (log_name_now dir w) = file_bytes (p_world s) (current_log_file_ l) →
  ∃ s', PersistentDatabase_initialize dir (create_database w) = (Val OperationResult.SUCCESS, s') ∧
    data_ (p_db s') = data_ (p_db s) ∧ logged s' rs.
Proof. by apply recovers. Qed.

(** But a new process looks for another file.  The log is named after the current
    millisecond: unless a file of that very name exists, [initialize] succeeds with an empty
    map, and the logs of every other moment stay where they are, unread. *)
Theorem restart_starts_empty (w : World) (dir : string) :
  healthy w → fair_order w → w_files w !! log_name_now dir w = None →
  ∃ s', PersistentDatabase_initialize dir (create_database w) = (Val OperationResult.SUCCESS, s') ∧
    data_ (p_db s') = ∅ ∧ logged s' [] ∧
    ∀ t, t ≠ w_clock w (w_ticks w) →
      w_files (p_world s') !! log_file_name (dir +:+ "/wal") t
      = w_files w !! log_file_name (dir +:+ "/wal") t.
Proof.
  intros Hw Hf Hnone.
  assert (file_bytes w (log_name_now dir w) = []) as Hb by (unfold file_bytes; by rewrite Hnone).
  destruct (initialize_ready dir (create_database w) []) as (s' & p & l & E & Hr & Hd & Hn & Ht & V);
    try done.
  { change (p_world (create_database w)) with w. by rewrite Hb. }
  cbn in Hr, Hd, Hn, Ht. rewrite Hb in Hr. exists s'. split_and!; try done.
  - split; [by eauto|done|done|by rewrite Hn|by rewrite Ht].
  - intros t Hne. apply V. by intros Et%log_file_name_inj.
Qed.

(** When the log refuses the record, [put] answers [SYSTEM_ERROR] and "rolls back" by
    erasing the key: a value the key had before the call is lost from memory, and the
    transaction counts as one that wrote nothing. *)
Theorem put_failure_erases (s s' : Process) (t p : nat) (l : WriteAheadLog)
    (tx : PersistentTransaction) (k v : string) (r : OperationResult.t) :
  mutex_ (p_db s) = Unlocked → txn_at s t tx p l → log_idle l →
  PersistentTransaction_put t k v s = (Val r, s') →
  (r = OperationResult.SUCCESS ∧ data_ (p_db s') = <[k := v]> (data_ (p_db s)) ∧
   p_txns s' !! t = Some (with_has_writes true tx)) ∨
  (r = OperationResult.SYSTEM_ERROR ∧ data_ (p_db s') = delete k (data_ (p_db s)) ∧
   p_txns s' !! t = Some (with_has_writes false tx)).
Proof.
  intros Hm Hat Hl E.
  destruct (append_record_any (put_record (tx_id_ tx) k v) (p_world s) l Hl) as (b & w' & l' & ? & Ea & _).
  rewrite (put_step t k v s tx p l b w' l' Hm Hat Ea) in E.
  destruct Hat. injection E as <- <-. cbn. rewrite list_lookup_alter_eq, ta_txn0.
  destruct b; [by left|by right].
Qed.

(** [del] under any I/O behaviour: a missing key changes nothing at all; otherwise the
    key is removed and the removal logged, or the log refused and the map is as before. *)
Theorem del_outcomes (s s' : Process) (t p : nat) (l : WriteAheadLog)
    (tx : PersistentTransaction) (k : string) (r : OperationResult.t) :
  mutex_ (p_db s) = Unlocked → txn_at s t tx p l → log_idle l →
  PersistentTransaction_del t k s = (Val r, s') →
  (r = OperationResult.KEY_NOT_FOUND ∧ data_ (p_db s) !! k = None ∧ s' = s) ∨
  (r = OperationResult.SUCCESS ∧ is_Some (data_ (p_db s) !! k) ∧
   data_ (p_db s') = delete k (data_ (p_db s))) ∨
  (r = OperationResult.SYSTEM_ERROR ∧ is_Some (data_ (p_db s) !! k) ∧
   data_ (p_db s') = data_ (p_db s)).
Proof.
  intros Hm Hat Hl E. destruct (data_ (p_db s) !! k) as [v|] eqn:Hk.
  - destruct (append_record_any (del_record (tx_id_ tx) k) (p_world s) l Hl) as (b & w' & l' & ? & Ea & _).
    rewrite (del_step t k v s tx p l b w' l' Hm Hat Hk Ea) in E. injection E as <- <-.
    right. destruct b; [left|right]; split_and!; done.
  - rewrite (del_step_missing t k s tx p l Hm Hat Hk) in E. injection E as <- <-. by left.
Qed.

(** [rollback] undoes nothing, and a transaction isolates nothing: after [put] and
    [rollback] the value is in the map, every transaction reads it, and the log, without any
    COMMIT record, recovers it. *)
Theorem rollback_keeps_writes (s : Process) (rs : list WALRecord) (t u : nat) (k v : string) :
  logged s rs → current_txn s t → slen k + slen v <= MAX_FRAME - 25 →
  ∃ s1 record,
    (_ ← PersistentTransaction_put t k v; PersistentTransaction_rollback t) s = (Val (), s1) ∧
    PersistentTransaction_get u k s1 = (Val v, s1) ∧
    logged s1 (rs ++ [record]) ∧ rec_type record = WALRecordType.PUT.
Proof.
  intros H Ht Hs. destruct (lg_ready _ _ H) as (p & l & Hr).
  destruct (put_ready s p l _ t k v Hr Ht) as (s1 & l1 & tx & Htx & E & Hr1 & Hd & Htx1 & _).
  exists s1, (stamped (stamp_of (p_world s)) (put_record (tx_id_ tx) k v)). split_and!.
  - unfold mbind, M_bind. rewrite E. unfold PersistentTransaction_rollback. dbsimpl.
    by rewrite Htx1, list_lookup_alter_eq, Htx.
  - rewrite get_step by apply (dr_mutex _ _ _ _ Hr1). rewrite Hd. cbn.
    by rewrite lookup_insert_eq.
  - eapply (logged_grow s s1 rs (put_record (tx_id_ tx) k v)); try done; rewrite ?Hd, ?Htx1;
      try done; try apply H.
    + apply put_record_frameable; [by eapply logged_id|done].
    + apply ids_alter, H.
  - done.
Qed.

(** C34.  What [scan] returns, whatever the bucket order: pairs of the map whose keys are in
    [start_key, end_key), no key twice, and as many as there are up to the limit, except
    that a limit of 0 still lets one pair through. *)
Theorem scan_correct (s : Process) (t : nat) (a b : string) (limit : Z) :
  mutex_ (p_db s) = Unlocked → fair_order (p_world s) →
  ∃ answer s', PersistentTransaction_scan t a b limit s = (Val answer, s') ∧ p_db s' = p_db s ∧
    (∀ k v, (k, v) ∈ answer → data_ (p_db s) !! k = Some v ∧ in_range a b k = true) ∧
    NoDup answer.*1 ∧
    length answer = Nat.min (Nat.max 1 (Z.to_nat limit)) (size (matching (data_ (p_db s)) a b)).
Proof.
  intros Hm Hf. destruct (scan_step t a b limit s Hm Hf) as (answer & w' & E & Ha & _).
  eexists _, _. split; [exact E|]. split; [done|]. split_and!.
  - intros k v. by eapply scan_answer_sound.
  - by eapply scan_answer_nodup.
  - by eapply scan_answer_length.
Qed.

(** [compact] keeps the map but not its log: it moves on to the file of the current
    millisecond, and when that is new, the log the database now runs on is empty.  Everything
    logged so far is only in a file that is never opened again; a process that recovers from
    the current log would start empty. *)
Theorem compact_forgets (s : Process) (p : nat) (l : WriteAheadLog) (rs : list WALRecord) :
  db_ready s p l (frames rs) →
  w_files (p_world s) !! log_file_name (log_dir_ l) (w_clock (p_world s) (w_ticks (p_world s))) = None →
  ∃ s' l', PersistentDatabase_compact s = (Val OperationResult.SUCCESS, s') ∧
    p_db s' = p_db s ∧ db_ready s' p l' [] ∧
    current_log_file_ l' ≠ current_log_file_ l ∧
    w_files (p_world s') !! current_log_file_ l = Some (frames rs).
Proof.
  intros [] Hnew.
  destruct (truncate_log_healthy _ l _ dr_ready0 dr_healthy0)
    as (w' & l' & E & Hr & Hdir & Hc & _ & _ & Hold & Hh & Ho & _).
  unfold file_bytes in Hr. rewrite Hnew in Hr. cbn in Hr.
  eexists _, l'. unfold PersistentDatabase_compact. dbsimpl. rewrite dr_wal0. msimpl.
  erewrite on_wal_step; [|exact dr_log0|exact E]. split; [reflexivity|]. split; [done|].
  split; [split; cbn; try done|split; [|done]].
  - apply list_lookup_insert_eq. by eapply lookup_lt_Some.
  - intros n m. rewrite Ho. apply dr_fair0.
  - rewrite Hc. intros Heq. rewrite Heq in Hnew.
    destruct dr_ready0 as (_ & _ & _ & Hf). congruence.
Qed.

(** [restore] of an initialised database does not return: it reaches
    [recover_from_checkpoint], which locks its own mutex. *)
Theorem restore_never_returns (s : Process) (p : nat) (l : WriteAheadLog) (path : string) :
  wal_ (p_db s) = Some p → p_logs s !! p = Some l →
  ∃ why, (PersistentDatabase_restore path s).1 = UB why.
Proof.
  intros Hp Hl. unfold PersistentDatabase_restore. dbsimpl. rewrite Hp. msimpl.
  unfold on_wal. rewrite Hl.
  assert (∃ why, (recover_from_checkpoint path (p_world s, l)).1 = UB why) as [why E].
  { unfold recover_from_checkpoint, lock_guard. destruct (wal_mutex_ l); by eexists. }
  destruct (recover_from_checkpoint path _) as [o [w' l']]. cbn in E. subst. by exists why.
Qed.

(** ** Transaction identifiers *)

(** The identifiers handed out so far, and the next one. *)
Definition ids (s : Process) : list Z * Z :=
  (tx_id_ <$> p_txns s, next_transaction_id_ (p_db s)).

Definition ids_distinct (s : Process) : Prop :=
  NoDup (ids s).1 ∧ Forall (λ i, i < (ids s).2) (ids s).1.

Section Ids.
Lemma keeps_on_wal {A} wal (m : LogM A) : keeps ids (on_wal wal m).
Proof.
  intros s. unfold on_wal. destruct wal as [p|]; [|done]. destruct (p_logs s !! p); [|done].
  by destruct (m _) as [? [? ?]].
Qed.

Lemma keeps_deref t : keeps ids (deref t).
Proof. intros s. unfold deref. by destruct (p_txns s !! t). Qed.

Lemma keeps_set_has_writes t b : keeps ids (set_has_writes t b).
Proof.
  intros s. unfold ids, set_has_writes, modify. cbn. f_equal.
  rewrite (list_fmap_alter _ _ id); [by apply list_alter_id|]. by apply Forall_true.
Qed.

Lemma keeps_set_data f : keeps ids (db_modify (λ db, set_data (f db) db)).
Proof. by apply keeps_modify. Qed.

Lemma keeps_with_mutex {A} mode (m : DbM A) : keeps ids m → keeps ids (with_mutex mode m).
Proof.
  intros H s. unfold with_mutex. destruct (mutex_ (p_db s)); [|done..].
  specialize (H (on_db (set_mutex mode) s)). by destruct (m _) as [r s'].
Qed.

Lemma keeps_on_env {A} (m : M World A) : keeps ids (on_env m).
Proof. intros s. unfold on_env, zoom. by destruct (m _). Qed.
End Ids.

#[export] Hint Resolve keeps_on_wal keeps_deref keeps_set_has_writes keeps_set_data keeps_on_env
  : db_keeps.

(** Decomposes an operation into its steps and looks each one up. *)
Ltac keeps :=
  repeat first
    [ solve [eauto with db_keeps]
    | apply keeps_with_mutex
    | apply keeps_bind; [|intros ?]
    | apply keeps_if
    | case_match ].

Section StepIds.
Implicit Types s : Process.

Lemma keeps_get t k : keeps ids (PersistentTransaction_get t k).
Proof. unfold PersistentTransaction_get, shared_lock, db_gets. keeps. Qed.

Lemma keeps_put t k v : keeps ids (PersistentTransaction_put t k v).
Proof. unfold PersistentTransaction_put, unique_lock. keeps. Qed.

Lemma keeps_del t k : keeps ids (PersistentTransaction_del t k).
Proof. unfold PersistentTransaction_del, unique_lock, db_gets. keeps. Qed.

Lemma keeps_scan t a b limit : keeps ids (PersistentTransaction_scan t a b limit).
Proof. unfold PersistentTransaction_scan, shared_lock, db_gets. keeps. Qed.

Lemma keeps_commit t : keeps ids (PersistentTransaction_commit t).
Proof. unfold PersistentTransaction_commit. keeps. Qed.

Lemma keeps_rollback t : keeps ids (PersistentTransaction_rollback t).
Proof. unfold PersistentTransaction_rollback. keeps. Qed.

Lemma begin_ids s :
  let s' := (PersistentDatabase_begin_transaction s).2 in
  ids s' = ids s ∨ ids s' = ((ids s).1 ++ [(ids s).2], u64 ((ids s).2 + 1)).
Proof.
  destruct (initialized_ (p_db s)) eqn:Hi.
  - right. rewrite (begin_step s Hi). unfold ids. cbn. by rewrite fmap_app.
  - left. unfold PersistentDatabase_begin_transaction. dbsimpl. by rewrite Hi.
Qed.

Lemma step_ids s s' :
  db_step s s' → ids s' = ids s ∨ ids s' = ((ids s).1 ++ [(ids s).2], u64 ((ids s).2 + 1)).
Proof.
  intros H. destruct H as
    [s r s' E|s t k r s' E|s t k v r s' _ _ E|s t k r s' _ _ E|s t a b lim r s' E
    |s t r s' _ E|s t r s' E]; change s' with ((Val r, s').2); rewrite <- E.
  - apply begin_ids.
  - left. apply keeps_get.
  - left. apply keeps_put.
  - left. apply keeps_del.
  - left. apply keeps_scan.
  - left. apply keeps_commit.
  - left. apply keeps_rollback.
Qed.
End StepIds.

(** No two transactions of a process share an identifier, under any I/O behaviour and
    any interleaving, as long as the 64-bit counter does not wrap: an execution of [n]
    operations hands out at most [n]. *)
Theorem transaction_ids_unique (n : nat) (s s' : Process) :
  ids_distinct s → 0 <= (ids s).2 → (ids s).2 + Z.of_nat n < 2 ^ 64 →
  nsteps db_step n s s' → ids_distinct s' ∧ (ids s').2 <= (ids s).2 + Z.of_nat n.
Proof.
  intros Hd H0 Hn Hsteps. induction Hsteps as [s|n s s1 s2 Hs Hss IH]; [split; [done|lia]|].
  assert (ids_distinct s1 ∧ 0 <= (ids s1).2 ∧ (ids s1).2 <= (ids s).2 + 1) as (Hd1 & H1 & H2).
  { unfold ids_distinct in *. destruct (step_ids s s1 Hs) as [->| ->]; [split; [done|lia]|].
    cbn [fst snd]. rewrite u64_small by (unfold is_u64; lia). destruct Hd as [Hnd Hlt].
    split; [split|lia].
    - apply NoDup_app. split_and!; [done| |by apply NoDup_singleton].
      intros i Hi Hi'. apply list_elem_of_singleton in Hi' as ->.
      pose proof (proj1 (Forall_forall _ _) Hlt _ Hi) as Hi''. cbv beta in Hi''. lia.
    - apply Forall_app. split; [|constructor; [lia|done]].
      eapply Forall_impl; [exact Hlt|]. intros i Hi. cbv beta in *. lia. }
  destruct IH as [? ?]; [done|lia..|]. split; [done|lia].
Qed.

(** ** Witnesses *)

(** A process initialised in [demo_world], with one transaction begun and then a second. *)
Definition demo_process : Process :=
  (PersistentDatabase_initialize "data" (create_database demo_world)).2.
Definition demo_begun : Process :=
  ((_ ← PersistentDatabase_begin_transaction; PersistentDatabase_begin_transaction) demo_process).2.
(** ... and "old" put under "k". *)
Definition demo_put : Process := (PersistentTransaction_put 0%nat "k" "old" demo_begun).2.

Lemma demo_process_logged : logged demo_process [].
Proof.
  assert (∃ s', PersistentDatabase_initialize "data" (create_database demo_world)
            = (Val OperationResult.SUCCESS, s') ∧ logged s' []) as (s' & E & H).
  { destruct (initialize_ready "data" (create_database demo_world) [])
      as (s' & p & l & E & Hr & Hd & Hn & Ht & _);
      [reflexivity|apply demo_world_healthy|apply demo_world_fair|vm_compute; reflexivity|].
    replace (file_bytes _ _) with (frames (@nil WALRecord)) in Hr by (vm_compute; reflexivity).
    exists s'. split; [exact E|].
    split; [by exists p, l|exact Hd|constructor|rewrite Hn|rewrite Ht; constructor].
    split; vm_compute; congruence. }
  unfold demo_process. by rewrite E.
Qed.

Lemma demo_begun_logged : logged demo_begun [].
Proof.
  destruct (logged_begin _ _ demo_process_logged) as (s1 & E1 & H1).
  destruct (logged_begin _ _ H1) as (s2 & E2 & H2).
  unfold demo_begun, mbind, M_bind. by rewrite E1, E2.
Qed.

Lemma demo_txn t : (t < 2)%nat → current_txn demo_begun t.
Proof.
  intros Ht. destruct t as [|[|t]]; [..|lia].
  - exists (mkPersistentTransaction (Some 0%nat) 1 false). by vm_compute.
  - exists (mkPersistentTransaction (Some 0%nat) 2 false). by vm_compute.
Qed.

Lemma demo_put_step : db_step demo_begun demo_put.
Proof.
  destruct (lg_ready _ _ demo_begun_logged) as (p & l & Hr).
  destruct (put_ready _ p l _ 0%nat "k" "old" Hr (demo_txn 0 ltac:(lia))) as (s' & _ & _ & _ & E & _).
  assert (demo_put = s') as -> by (unfold demo_put; rewrite E; reflexivity).
  apply (step_put _ 0%nat "k" "old" OperationResult.SUCCESS);
    [apply demo_txn; lia|vm_compute; congruence|exact E].
Qed.

Lemma demo_put_logged : ∃ rs, logged demo_put rs.
Proof. exact (logged_step _ _ _ demo_begun_logged demo_put_step). Qed.

Lemma demo_txn_at : ∃ tx p l, txn_at demo_begun 0%nat tx p l ∧ log_idle l.
Proof.
  destruct (lg_ready _ _ demo_begun_logged) as (p & l & Hr).
  destruct (current_txn_at _ _ _ _ 0%nat Hr (demo_txn 0%nat ltac:(lia))) as [tx Ht].
  exists tx, p, l. split; [exact Ht|]. exact (proj1 (dr_ready _ _ _ _ Hr)).
Qed.

Lemma log_refines_memory_witness : ∃ new, logged demo_put ([] ++ new).
Proof.
  apply (log_refines_memory demo_begun demo_put []).
  - exact demo_begun_logged.
  - apply rtc_once. exact demo_put_step.
Defined.

(** The world as another process finds it that starts in the millisecond of the first. *)
Definition demo_world_again : World :=
  mkWorld (w_files (p_world demo_put)) (w_clock demo_world) 0 (w_io demo_world) 0
    (w_order demo_world) 0.

Lemma initialize_recovers_witness :
  ∃ s', PersistentDatabase_initialize "data" (create_database demo_world_again)
          = (Val OperationResult.SUCCESS, s') ∧
    data_ (p_db s') = data_ (p_db demo_put) ∧ data_ (p_db demo_put) !! "k" = Some "old".
Proof.
  destruct demo_put_logged as [rs H]. destruct (lg_ready _ _ H) as (p & l & Hr).
  destruct (initialize_recovers demo_put p l rs demo_world_again "data") as (s' & E & Hd & _).
  - exact H.
  - exact Hr.
  - exact demo_world_healthy.
  - exact demo_world_fair.
  - assert (Some p = Some 0%nat) as [= ->].
    { rewrite <- (dr_wal _ _ _ _ Hr). vm_compute. reflexivity. }
    assert (Some (current_log_file_ l) = Some demo_name) as [= ->].
    { change (Some (current_log_file_ l)) with (current_log_file_ <$> Some l).
      rewrite <- (dr_log _ _ _ _ Hr). vm_compute. reflexivity. }
    vm_compute. reflexivity.
  - exists s'. split; [exact E|]. split; [exact Hd|]. vm_compute. reflexivity.
Defined.

Lemma restart_starts_empty_witness :
  ∃ s', PersistentDatabase_initialize "data" (create_database demo_world)
          = (Val OperationResult.SUCCESS, s') ∧ data_ (p_db s') = ∅.
Proof.
  destruct (restart_starts_empty demo_world "data" demo_world_healthy demo_world_fair)
    as (s' & E & Hd & _).
  - vm_compute. reflexivity.
  - exists s'. split; [exact E | exact Hd].
Defined.

(** The process when the log's stream has failed. *)
Definition demo_broken : Process :=
  mkProcess (p_world demo_put) (<[0%nat := broken_log]> (p_logs demo_put)) (p_txns demo_put)
    (p_db demo_put).

Lemma demo_broken_txn :
  txn_at demo_broken 0%nat (mkPersistentTransaction (Some 0%nat) 1 true) 0%nat broken_log.
Proof. split; vm_compute; reflexivity. Qed.

(** "old" is lost: it was in the map, and after the failed put the key is not. *)
Lemma put_failure_erases_witness :
  data_ (p_db demo_broken) !! "k" = Some "old" ∧
  ∃ s', PersistentTransaction_put 0%nat "k" "new" demo_broken = (Val OperationResult.SYSTEM_ERROR, s') ∧
    data_ (p_db s') !! "k" = None.
Proof.
  split; [vm_compute; reflexivity|].
  destruct (PersistentTransaction_put 0%nat "k" "new" demo_broken) as [o s'] eqn:E.
  assert (o = Val OperationResult.SYSTEM_ERROR) as ->.
  { change o with ((o, s').1). rewrite <- E. vm_compute. reflexivity. }
  exists s'. split; [reflexivity|].
  destruct (put_failure_erases demo_broken s' 0%nat 0%nat broken_log _ "k" "new" _
              eq_refl demo_broken_txn (conj eq_refl eq_refl) E) as [(Hr & _)|(_ & Hd & _)].
  - discriminate Hr.
  - rewrite Hd. apply lookup_delete_eq.
Defined.

Lemma del_outcomes_witness :
  ∃ s', PersistentTransaction_del 0%nat "k" demo_broken = (Val OperationResult.SYSTEM_ERROR, s') ∧
    data_ (p_db s') = data_ (p_db demo_broken).
Proof.
  destruct (PersistentTransaction_del 0%nat "k" demo_broken) as [o s'] eqn:E.
  assert (o = Val OperationResult.SYSTEM_ERROR) as ->.
  { change o with ((o, s').1). rewrite <- E. vm_compute. reflexivity. }
  exists s'. split; [reflexivity|].
  destruct (del_outcomes demo_broken s' 0%nat 0%nat broken_log _ "k" _
              eq_refl demo_broken_txn (conj eq_refl eq_refl) E) as [(Hr & _)|[(Hr & _)|(_ & _ & Hd)]].
  - discriminate Hr.
  - discriminate Hr.
  - exact Hd.
Defined.

Lemma rollback_keeps_writes_witness :
  ∃ s1 record,
    (_ ← PersistentTransaction_put 0%nat "k" "v"; PersistentTransaction_rollback 0%nat) demo_begun
      = (Val (), s1) ∧
    PersistentTransaction_get 1%nat "k" s1 = (Val "v", s1) ∧
    logged s1 ([] ++ [record]) ∧ rec_type record = WALRecordType.PUT.
Proof.
  apply (rollback_keeps_writes demo_begun [] 0%nat 1%nat "k" "v").
  - exact demo_begun_logged.
  - apply demo_txn. lia.
  - vm_compute. congruence.
Defined.

Lemma scan_correct_witness :
  ∃ answer s', PersistentTransaction_scan 0%nat "a" "z" 0 demo_put = (Val answer, s') ∧
    length answer = 1%nat.
Proof.
  destruct demo_put_logged as [rs H]. destruct (lg_ready _ _ H) as (p & l & Hr).
  destruct (scan_correct demo_put 0%nat "a" "z" 0 (dr_mutex _ _ _ _ Hr) (dr_fair _ _ _ _ Hr))
    as (answer & s' & E & _ & _ & _ & Hlen).
  exists answer, s'. split; [exact E|]. rewrite Hlen. vm_compute. reflexivity.
Defined.

Lemma compact_forgets_witness :
  ∃ p l s' l', PersistentDatabase_compact demo_process = (Val OperationResult.SUCCESS, s') ∧
    db_ready s' p l' [] ∧ current_log_file_ l' ≠ current_log_file_ l.
Proof.
  destruct (lg_ready _ _ demo_process_logged) as (p & l & Hr).
  assert (Some p = Some 0%nat) as [= ->].
  { rewrite <- (dr_wal _ _ _ _ Hr). vm_compute. reflexivity. }
  assert (Some (log_dir_ l) = Some "data/wal") as [= Hdir].
  { change (Some (log_dir_ l)) with (log_dir_ <$> Some l).
    rewrite <- (dr_log _ _ _ _ Hr). vm_compute. reflexivity. }
  destruct (compact_forgets demo_process 0%nat l [] Hr) as (s' & l' & E & _ & Hr' & Hne & _).
  - rewrite Hdir. vm_compute. reflexivity.
  - exists 0%nat, l, s', l'. split; [exact E|]. split; [exact Hr'|exact Hne].
Defined.

Lemma restore_never_returns_witness :
  ∃ why, (PersistentDatabase_restore "backup" demo_broken).1 = UB why.
Proof.
  apply (restore_never_returns demo_broken 0%nat broken_log "backup");
    vm_compute; reflexivity.
Defined.

Lemma transaction_ids_unique_witness :
  ids_distinct demo_put ∧ (ids demo_put).2 <= (ids demo_begun).2 + 1.
Proof.
  apply (transaction_ids_unique 1 demo_begun demo_put).
  - split.
    + apply (bool_decide_unpack _). vm_compute. exact I.
    + apply (bool_decide_unpack _). vm_compute. exact I.
  - vm_compute. congruence.
  - vm_compute. reflexivity.
  - apply nsteps_once. exact demo_put_step.
Defined.
