(* ===== verification/ScanFormat.v ===== *)
(** * The text of scan results

    The server answers SCAN with a JSON-like text ([src/network/server.cpp], the SCAN case of
    [process_request_sync] and of [process_request]); the client takes it apart again with
    [std::string::find] ([src/network/client.cpp], [DatabaseClient::scan]).  Neither side
    escapes quotes: the round trip holds for keys and values without one, and a value can
    imitate the separator of two pairs. *)

From stdpp Require Import base list strings.
From Stdlib Require Import ZArith Lia.
From S2P Require Import Prelude.

Definition quote : string := String (Ascii.ascii_of_nat 34) EmptyString.

(** The literals of the source, with their quotes. *)
Definition key_open : string := "{" +:+ quote +:+ "key" +:+ quote +:+ ":" +:+ quote.
Definition value_open : string := quote +:+ "value" +:+ quote +:+ ":" +:+ quote.
Definition pair_middle : string := quote +:+ "," +:+ value_open.
Definition pair_close : string := quote +:+ "}".

(** ** The server's side *)

(** The loop over the results: the comma comes after every element but the last. *)
Fixpoint scan_text_loop (results : list (string * string)) (result_str : string) : string :=
  match results with
  | [] => result_str
  | (key, value) :: rest =>
      let result_str := result_str +:+ (key_open +:+ key +:+ pair_middle +:+ value +:+ pair_close) in
      let result_str := match rest with [] => result_str | _ :: _ => result_str +:+ "," end in
      scan_text_loop rest result_str
  end.

Definition scan_text (results : list (string * string)) : string :=
  scan_text_loop results "[" +:+ "]".

(** ** The client's side *)

(** [json.find(pattern, pos)]; [None] is [npos]. *)
Definition string_find (json pattern : string) (pos : nat) : option nat :=
  String.index pos pattern json.

(** [json.substr(pos, count)], for [pos] within the string. *)
Definition string_substr (json : string) (pos count : nat) : string :=
  String.substring pos count json.

(** The [while] loop of [DatabaseClient::scan]. *)
Fixpoint scan_parse_loop (fuel : nat) (json : string) (limit : Z) (pos : nat)
    (results : list (string * string)) : option (list (string * string)) :=
  match fuel with
  | O => None
  | S fuel =>
      match string_find json key_open pos with
      | None => Some results
      | Some pos =>
          let pos := (pos + 8)%nat in
          match string_find json quote pos with
          | None => Some results
          | Some key_end =>
              let key := string_substr json pos (key_end - pos) in
              match string_find json value_open key_end with
              | None => Some results
              | Some pos =>
                  let pos := (pos + 9)%nat in
                  match string_find json quote pos with
                  | None => Some results
                  | Some value_end =>
                      let value := string_substr json pos (value_end - pos) in
                      let results := results ++ [(key, value)] in
                      let pos := value_end in
                      if zlen results >=? limit then Some results
                      else scan_parse_loop fuel json limit pos results
                  end
              end
          end
      end
  end.

(** Every round moves [pos] forward, so the length of the text bounds their number. *)
Definition scan_parse (json : string) (limit : Z) : option (list (string * string)) :=
  scan_parse_loop (S (String.length json)) json limit 0 [].

(** ** Lemmas *)

Fixpoint quote_free (s : string) : Prop :=
  match s with
  | EmptyString => True
  | String c s => c ≠ Ascii.ascii_of_nat 34 ∧ quote_free s
  end.

#[global] Instance quote_free_dec s : Decision (quote_free s).
Proof. induction s; cbn; apply _. Defined.

Definition pair_quote_free (kv : string * string) : Prop := quote_free kv.1 ∧ quote_free kv.2.

Section Text.
Implicit Types (rs : list (string * string)) (k v pre : string).

(** The elements and the closing bracket, without the accumulator. *)
Fixpoint scan_elems rs : string :=
  match rs with
  | [] => "]"
  | (k, v) :: rest =>
      key_open +:+ k +:+ pair_middle +:+ v +:+ pair_close +:+
      match rest with [] => "]" | _ :: _ => "," +:+ scan_elems rest end
  end.

Lemma scan_text_loop_elems rs pre :
  scan_text_loop rs pre +:+ "]" = pre +:+ scan_elems rs.
Proof.
  revert pre. induction rs as [|[k v] rs IH]; intros pre; [done|].
  cbn [scan_text_loop scan_elems]. rewrite IH. destruct rs as [|kv rs].
  - cbn [scan_elems]. by rewrite !string_app_assoc.
  - by rewrite !string_app_assoc.
Qed.

Lemma scan_text_elems rs : scan_text rs = "[" +:+ scan_elems rs.
Proof. apply scan_text_loop_elems. Qed.

(** [find] and [substr] in a text of which [pos] marks the end of a known part. *)
Lemma find_at json pattern pos pre rest n :
  json = pre +:+ rest → pos = String.length pre → String.index 0 pattern rest = Some n →
  string_find json pattern pos = Some (pos + n)%nat.
Proof. intros -> -> E. unfold string_find. by rewrite index_past, E. Qed.

Lemma find_at_none json pattern pos pre rest :
  json = pre +:+ rest → pos = String.length pre → String.index 0 pattern rest = None →
  string_find json pattern pos = None.
Proof. intros -> -> E. unfold string_find. by rewrite index_past, E. Qed.

Lemma substr_at json pos count pre s rest :
  json = pre +:+ s +:+ rest → pos = String.length pre → count = String.length s →
  string_substr json pos count = s.
Proof. intros -> -> ->. unfold string_substr. by rewrite substring_past, substring_all. Qed.

(** The next quote after a text without one. *)
Lemma index_quote s rest :
  quote_free s → String.index 0 quote (s +:+ quote +:+ rest) = Some (String.length s).
Proof.
  induction s as [|c s IH]; [intros _; by destruct rest|]. intros [Hc Hs].
  rewrite string_app_cons. cbn.
  destruct (Ascii.ascii_dec _ c) as [E|_]; [by rewrite <- E in Hc|].
  by rewrite (IH Hs).
Qed.
End Text.

(** Compares texts and lengths up to the association of [+:+]. *)
Ltac texts :=
  rewrite ?string_app_assoc, ?string_length_app;
  change (String.length key_open) with 8%nat; change (String.length pair_middle) with 11%nat;
  cbn; first [lia | reflexivity].

Section Parse.
Implicit Types (k v pre lead rest json : string) (rs results : list (string * string)).

(** [lead] is a text after which the next pair is found. *)
Definition leads lead : Prop :=
  ∀ x, String.index 0 key_open (lead +:+ key_open +:+ x) = Some (String.length lead).

Lemma leads_bracket : leads "[".
Proof. by intros []. Qed.

Lemma leads_close : leads (pair_close +:+ ",").
Proof. by intros []. Qed.

Lemma parse_round fuel limit pre lead k v rest results :
  leads lead → quote_free k → quote_free v →
  let start := pre +:+ lead +:+ key_open +:+ k +:+ pair_middle +:+ v in
  let results' := results ++ [(k, v)] in
  scan_parse_loop (S fuel) (start +:+ quote +:+ rest) limit (String.length pre) results =
    if zlen results' >=? limit then Some results'
    else scan_parse_loop fuel (start +:+ quote +:+ rest) limit (String.length start) results'.
Proof.
  intros Hl Hk Hv start results'. cbn [scan_parse_loop].
  rewrite (find_at _ key_open _ pre
            (lead +:+ key_open +:+ k +:+ pair_middle +:+ v +:+ quote +:+ rest) (String.length lead));
    [|subst start; texts|done|apply Hl].
  rewrite (find_at _ quote _ (pre +:+ lead +:+ key_open)
            (k +:+ quote +:+ "," +:+ value_open +:+ v +:+ quote +:+ rest) (String.length k));
    [|subst start; texts|texts|by apply index_quote].
  rewrite (find_at _ value_open _ (pre +:+ lead +:+ key_open +:+ k)
            (pair_middle +:+ v +:+ quote +:+ rest) 2);
    [|subst start; texts|texts|by destruct v].
  rewrite (find_at _ quote _ (pre +:+ lead +:+ key_open +:+ k +:+ pair_middle)
            (v +:+ quote +:+ rest) (String.length v));
    [|subst start; texts|texts|by apply index_quote].
  rewrite (substr_at _ _ _ (pre +:+ lead +:+ key_open) k
             (pair_middle +:+ v +:+ quote +:+ rest)); [|subst start; texts..].
  rewrite (substr_at _ _ _ (pre +:+ lead +:+ key_open +:+ k +:+ pair_middle) v (quote +:+ rest));
    [|subst start; texts..].
  replace (_ + String.length v)%nat with (String.length start) by (subst start; texts).
  done.
Qed.

(** Nothing is found after the last pair. *)
Lemma parse_end fuel limit pre results :
  scan_parse_loop (S fuel) (pre +:+ quote +:+ "}]") limit (String.length pre) results = Some results.
Proof. cbn [scan_parse_loop]. by rewrite (find_at_none _ key_open _ pre (quote +:+ "}]")). Qed.

Lemma parse_elems fuel limit pre lead rs results :
  leads lead → Forall pair_quote_free rs → rs ≠ [] → (length rs < fuel)%nat →
  (length results < Nat.max 1 (Z.to_nat limit))%nat →
  scan_parse_loop fuel (pre +:+ lead +:+ scan_elems rs) limit (String.length pre) results =
    Some (results ++ take (Nat.max 1 (Z.to_nat limit) - length results) rs).
Proof.
  intros Hl Hrs. revert fuel pre lead results Hl.
  induction Hrs as [|[k v] rs [Hk Hv] Hrs IH]; intros fuel pre lead results Hl Hne Hfuel Hlen; [done|].
  destruct fuel as [|fuel]; [cbn in Hfuel; lia|].
  set (start := pre +:+ lead +:+ key_open +:+ k +:+ pair_middle +:+ v).
  set (close := match rs with [] => "}]" | _ :: _ => "}," +:+ scan_elems rs end).
  assert (pre +:+ lead +:+ scan_elems ((k, v) :: rs) = start +:+ quote +:+ close) as ->.
  { subst start close. cbn [scan_elems]. destruct rs; texts. }
  subst start. rewrite parse_round by done. set (start := pre +:+ _).
  rewrite Z.geb_leb, zlen_app, zlen_cons, zlen_nil. unfold zlen. zcase.
  { replace (Nat.max 1 (Z.to_nat limit) - length results)%nat with 1%nat by lia.
    cbn. by rewrite take_0. }
  replace (Nat.max 1 (Z.to_nat limit) - length results)%nat
    with (S (Nat.max 1 (Z.to_nat limit) - (length results + 1)))%nat by lia.
  rewrite firstn_cons. change ((k, v) :: take ?n rs) with ([(k, v)] ++ take n rs). rewrite app_assoc.
  destruct rs as [|kv rs]; subst close.
  - rewrite take_nil, app_nil_r. destruct fuel; [cbn in Hfuel; lia|]. apply parse_end.
  - replace (start +:+ quote +:+ "}," +:+ scan_elems (kv :: rs))
      with (start +:+ (pair_close +:+ ",") +:+ scan_elems (kv :: rs)) by done.
    rewrite (IH fuel start (pair_close +:+ ",") _ leads_close);
      rewrite ?length_app; cbn in *; done || lia.
Qed.

Lemma length_scan_elems rs : (length rs < String.length (scan_elems rs))%nat.
Proof.
  induction rs as [|[k v] rs IH]; [cbn; lia|]. cbn [scan_elems length].
  rewrite !string_length_app. change (String.length key_open) with 8%nat.
  destruct rs as [|kv rs]; [cbn; lia|].
  rewrite string_length_app. cbn [length] in *. lia.
Qed.

Lemma parse_text rs limit :
  Forall pair_quote_free rs →
  scan_parse (scan_text rs) limit = Some (take (Nat.max 1 (Z.to_nat limit)) rs).
Proof.
  intros Hrs. rewrite scan_text_elems. unfold scan_parse.
  destruct rs as [|kv rs]; [by rewrite take_nil|].
  pose proof (length_scan_elems (kv :: rs)) as Hlen.
  rewrite (parse_elems _ limit "" "[" (kv :: rs) [] leads_bracket Hrs); [|done|..].
  - by rewrite Nat.sub_0_r.
  - rewrite string_length_app. cbn [String.length]. lia.
  - cbn. lia.
Qed.

(** The fuel is enough for any text: every round moves at least one character forward. *)
Lemma parse_total fuel json limit pos results :
  (String.length json < pos + fuel)%nat →
  is_Some (scan_parse_loop fuel json limit pos results) ∨ (String.length json < pos)%nat.
Proof.
  revert pos results. induction fuel as [|fuel IH]; intros pos results Hf; [right; lia|].
  left. cbn [scan_parse_loop]. unfold string_find.
  destruct (String.index pos key_open json) as [p1|] eqn:E1; [|by eexists].
  destruct (String.index (p1 + 8) quote json) as [p2|] eqn:E2; [|by eexists].
  destruct (String.index p2 value_open json) as [p3|] eqn:E3; [|by eexists].
  destruct (String.index (p3 + 9) quote json) as [p4|] eqn:E4; [|by eexists].
  destruct (zlen _ >=? limit); [by eexists|].
  apply index_bounds in E1, E2, E3, E4. cbn in E4.
  destruct (IH p4 (results ++ [(string_substr json (p1 + 8) (p2 - (p1 + 8)),
                                string_substr json (p3 + 9) (p4 - (p3 + 9)))])); [lia|done|lia].
Qed.
End Parse.

Lemma scan_parse_total (json : string) (limit : Z) : is_Some (scan_parse json limit).
Proof. by destruct (parse_total (S (String.length json)) json limit 0 []) as [?|?]; [lia|done|lia]. Qed.

(** ** Theorems *)

(** C35.  The client reads back what the server wrote: of any list of pairs without quotes in
    their keys and values, the first [limit] pairs in the server's order (a limit of 0 still
    gives one). *)
Theorem scan_text_roundtrip (rs : list (string * string)) (limit : Z) :
  Forall pair_quote_free rs →
  scan_parse (scan_text rs) limit = Some (take (Nat.max 1 (Z.to_nat limit)) rs).
Proof. apply parse_text. Qed.

(** The client's loop ends on every text, whatever a server sends. *)
Theorem scan_parse_terminates (json : string) (limit : Z) :
  is_Some (scan_parse json limit).
Proof. apply scan_parse_total. Qed.

(** Quotes are not escaped: one stored pair whose value contains the text between two
    pairs gives the very text of two pairs, so a scan reports a key that is not stored. *)
Theorem scan_text_forged (k v k' v' : string) :
  scan_text [(k, v +:+ pair_close +:+ "," +:+ key_open +:+ k' +:+ pair_middle +:+ v')]
  = scan_text [(k, v); (k', v')].
Proof. rewrite !scan_text_elems. cbn [scan_elems]. by rewrite !string_app_assoc. Qed.

(** ** Witnesses *)

Lemma scan_text_roundtrip_witness :
  scan_parse (scan_text [("user:1", "John Doe"); ("user:2", "Jane")]) 1000
  = Some [("user:1", "John Doe"); ("user:2", "Jane")].
Proof.
  rewrite (scan_text_roundtrip [("user:1", "John Doe"); ("user:2", "Jane")] 1000).
  - reflexivity.
  - repeat constructor; vm_compute; congruence.
Defined.
