(* ===== verification/Server.v ===== *)
(** * Request processing in the server

    [src/network/server.cpp]: [ConnectionHandler::process_request_sync], by which every
    request of a connection is answered, and [DatabaseServer::process_request], its
    counterpart for the worker threads.  Both are written over the interface of [Database],
    and the theorems are proved against its contract. *)

From stdpp Require Import base gmap list strings.
From Stdlib Require Import ZArith Lia.
From S2P Require Import Prelude.
From S2P Require Import Protocol.
From S2P Require Import Effects.
From S2P Require Import Interface.
From S2P Require Import Wal.
From S2P Require Import Database.
From S2P Require Import ScanFormat.

(** The [response] that is returned, once its type and value are set: [id] is the request's,
    [key] was never assigned, and the lengths are taken from the strings. *)
Definition make_response (request : Message) (type : MessageType.t) (value : string) : Message :=
  {| msg_type := type; msg_id := msg_id request;
     msg_key_length := u32 (slen ""); msg_value_length := u32 (slen value);
     msg_key := ""; msg_value := value |}.

(** [std::string::empty()]. *)
Definition string_empty (s : string) : bool :=
  match s with EmptyString => true | String _ _ => false end.

(** [struct DatabaseServer::RequestTask]; a callback is named by a number. *)
Record RequestTask := mkRequestTask {
  task_request : Message;
  task_callback : nat;
}.

(** [class DatabaseServer]: whether [database_] is set, [running_], the counters, the queue. *)
Record DatabaseServer := mkDatabaseServer {
  srv_database_ : bool;
  running_ : bool;
  connection_count_ : Z;
  total_requests_ : Z;
  request_queue_ : list RequestTask;
}.

(** [DatabaseServer::DatabaseServer]; [set_database] is called next. *)
Definition DatabaseServer_new : DatabaseServer :=
  {| srv_database_ := false; running_ := false; connection_count_ := 0; total_requests_ := 0;
     request_queue_ := [] |}.

Definition set_database (srv : DatabaseServer) : DatabaseServer :=
  mkDatabaseServer true (running_ srv) (connection_count_ srv) (total_requests_ srv)
    (request_queue_ srv).

Definition set_total_requests (n : Z) (srv : DatabaseServer) : DatabaseServer :=
  mkDatabaseServer (srv_database_ srv) (running_ srv) (connection_count_ srv) n
    (request_queue_ srv).

Section Requests.
Context {S T : Type} `{!Database S T}.

(** [ConnectionHandler::process_request_sync]. *)
Definition process_request_sync (request : Message) : M S Message :=
  response ← try_catch
    (match msg_type request with
     | MessageType.GET =>
         txn ← begin_transaction;
         match txn with
         | Some txn =>
             value ← txn_get txn (msg_key request);
             if negb (string_empty value) then mret (MessageType.SUCCESS, value)
             else mret (MessageType.ERROR, "Key not found")
         | None => mret (MessageType.ERROR, "Failed to begin transaction")
         end
     | MessageType.PUT =>
         txn ← begin_transaction;
         match txn with
         | Some txn =>
             result ← txn_put txn (msg_key request) (msg_value request);
             if decide (result = OperationResult.SUCCESS) then
               _ ← txn_commit txn;
               mret (MessageType.SUCCESS, "OK")
             else mret (MessageType.ERROR, "Failed to put value")
         | None => mret (MessageType.ERROR, "Failed to begin transaction")
         end
     | MessageType.DELETE =>
         txn ← begin_transaction;
         match txn with
         | Some txn =>
             result ← txn_del txn (msg_key request);
             if decide (result = OperationResult.SUCCESS) then
               _ ← txn_commit txn;
               mret (MessageType.SUCCESS, "OK")
             else mret (MessageType.ERROR, "Failed to delete key")
         | None => mret (MessageType.ERROR, "Failed to begin transaction")
         end
     | MessageType.SCAN =>
         txn ← begin_transaction;
         match txn with
         | Some txn =>
             results ← txn_scan txn (msg_key request) (msg_value request) 1000;
             mret (MessageType.SUCCESS, scan_text results)
         | None => mret (MessageType.ERROR, "Failed to begin transaction")
         end
     | MessageType.PING => mret (MessageType.PONG, "PONG")
     | _ => mret (MessageType.ERROR, "Unsupported operation")
     end)
    (λ what, mret (MessageType.ERROR, "Server error: " +:+ what));
  mret (make_response request response.1 response.2).

Definition on_database {A} (m : M S A) : M (DatabaseServer * S) A :=
  zoom snd (λ s st, (fst st, s)) m.

(** [DatabaseServer::process_request]. *)
Definition process_request (request : Message) : M (DatabaseServer * S) Message :=
  modify (λ '(srv, s), (set_total_requests (u64 (total_requests_ srv + 1)) srv, s));;
  database ← gets (srv_database_ ∘ fst);
  if negb database then mret (make_response request MessageType.ERROR "Database not initialized") else
  response ← try_catch
    (match msg_type request with
     | MessageType.GET =>
         txn ← on_database begin_transaction;
         match txn with
         | Some txn =>
             value ← on_database (txn_get txn (msg_key request));
             if negb (string_empty value) then mret (MessageType.SUCCESS, value)
             else mret (MessageType.ERROR, "Key not found")
         | None => mret (MessageType.ERROR, "Failed to begin transaction")
         end
     | MessageType.PUT =>
         txn ← on_database begin_transaction;
         match txn with
         | Some txn =>
             result ← on_database (txn_put txn (msg_key request) (msg_value request));
             if decide (result = OperationResult.SUCCESS) then
               _ ← on_database (txn_commit txn);
               mret (MessageType.SUCCESS, "OK")
             else mret (MessageType.ERROR, "Failed to put value")
         | None => mret (MessageType.ERROR, "Failed to begin transaction")
         end
     | MessageType.DELETE =>
         txn ← on_database begin_transaction;
         match txn with
         | Some txn =>
             result ← on_database (txn_del txn (msg_key request));
             if decide (result = OperationResult.SUCCESS) then
               _ ← on_database (txn_commit txn);
               mret (MessageType.SUCCESS, "OK")
             else mret (MessageType.ERROR, "Failed to delete key")
         | None => mret (MessageType.ERROR, "Failed to begin transaction")
         end
     | MessageType.SCAN =>
         txn ← on_database begin_transaction;
         match txn with
         | Some txn =>
             results ← on_database (txn_scan txn (msg_key request) (msg_value request) 1000);
             mret (MessageType.SUCCESS, scan_text results)
         | None => mret (MessageType.ERROR, "Failed to begin transaction")
         end
     | MessageType.PING => mret (MessageType.PONG, "PONG")
     | _ => mret (MessageType.ERROR, "Unsupported operation")
     end)
    (λ what, mret (MessageType.ERROR, "Server error: " +:+ what));
  mret (make_response request response.1 response.2).
End Requests.

(** ** What a request means *)

(** [request], served on the contents [m], may be answered by [response] and leave [m']. *)
Definition served (m : gmap string string) (request response : Message)
    (m' : gmap string string) : Prop :=
  let answer type value := response = make_response request type value in
  match msg_type request with
  | MessageType.GET =>
      m' = m ∧
      match m !! msg_key request with
      | Some v => if string_empty v then answer MessageType.ERROR "Key not found"
                  else answer MessageType.SUCCESS v
      | None => answer MessageType.ERROR "Key not found"
      end
  | MessageType.PUT =>
      m' = <[msg_key request := msg_value request]> m ∧ answer MessageType.SUCCESS "OK"
  | MessageType.DELETE =>
      match m !! msg_key request with
      | Some _ => m' = delete (msg_key request) m ∧ answer MessageType.SUCCESS "OK"
      | None => m' = m ∧ answer MessageType.ERROR "Failed to delete key"
      end
  | MessageType.SCAN =>
      m' = m ∧ ∃ results, scan_answer m (msg_key request) (msg_value request) 1000 results ∧
        answer MessageType.SUCCESS (scan_text results)
  | MessageType.PING => m' = m ∧ answer MessageType.PONG "PONG"
  | _ => m' = m ∧ answer MessageType.ERROR "Unsupported operation"
  end.

(** A sequence of requests. *)
Inductive served_all :
    gmap string string → list Message → list Message → gmap string string → Prop :=
  | served_none m : served_all m [] [] m
  | served_next m req resp m1 reqs resps m2 :
      served m req resp m1 → served_all m1 reqs resps m2 →
      served_all m (req :: reqs) (resp :: resps) m2.

(** [request] may change what the contents say of [k]. *)
Definition writes_to (k : string) (request : Message) : Prop :=
  (msg_type request = MessageType.PUT ∨ msg_type request = MessageType.DELETE) ∧
  msg_key request = k.

Section Spec.
Implicit Types (m : gmap string string) (k v : string).

Lemma served_other m request response m' k :
  served m request response m' → ¬ writes_to k request → m' !! k = m !! k.
Proof.
  unfold served, writes_to. intros H Hw.
  destruct (msg_type request); try (destruct H as [-> _]; done).
  - destruct H as [-> _]. apply lookup_insert_ne. by intros <-; apply Hw; auto.
  - destruct (m !! msg_key request); destruct H as [-> _]; [|done].
    apply lookup_delete_ne. by intros <-; apply Hw; auto.
Qed.

Lemma served_all_other m reqs resps m' k :
  served_all m reqs resps m' → Forall (λ r, ¬ writes_to k r) reqs → m' !! k = m !! k.
Proof.
  induction 1 as [|m req resp m1 reqs resps m2 Hs Hall IH]; [done|].
  inv 1. rewrite IH by done. by eapply served_other.
Qed.

Lemma served_all_snoc m reqs resps m1 r resp m2 :
  served_all m reqs resps m1 → served m1 r resp m2 →
  served_all m (reqs ++ [r]) (resps ++ [resp]) m2.
Proof.
  induction 1; intros Hr; cbn; [by econstructor; [|constructor]|]. econstructor; eauto.
Qed.

Lemma served_all_trans m reqs resps m1 reqs' resps' m2 :
  served_all m reqs resps m1 → served_all m1 reqs' resps' m2 → served_all m (reqs ++ reqs') (resps ++ resps') m2.
Proof. induction 1; intros Hrest; [done|]. cbn. econstructor; [done|]. by auto. Qed.

Lemma served_all_app m reqs reqs' resps m' :
  served_all m (reqs ++ reqs') resps m' →
  ∃ resps1 resps2 m1, resps = resps1 ++ resps2 ∧
    served_all m reqs resps1 m1 ∧ served_all m1 reqs' resps2 m'.
Proof.
  revert m resps. induction reqs as [|r reqs IH]; intros m resps H.
  - exists [], resps, m. split_and!; [done|constructor|done].
  - cbn in H. inv H. destruct (IH _ _ H6) as (r1 & r2 & m1' & -> & H1 & H2).
    eexists (_ :: r1), r2, m1'. split_and!; [done|by econstructor|done].
Qed.
End Spec.

(** ** Lemmas *)

Section Generic.
Context {S T : Type} `{!Database S T}.
Implicit Types (s : S) (request : Message).

(** Every exception is answered, so none gets out. *)
Lemma process_request_sync_shape request s :
  match process_request_sync request s with
  | (Val response, _) => ∃ type value, response = make_response request type value
  | (Exn _, _) => False
  | (UB _, _) => True
  end.
Proof.
  unfold process_request_sync.
  match goal with |- context [try_catch ?b _] => generalize b; intros body end. unfold try_catch, mbind, M_bind. by destruct (body s) as [[]]; cbn; eauto.
Qed.

(** [m'] does what [m] does, beside a server it does not touch. *)
Definition lifts {A} (m : M S A) (m' : M (DatabaseServer * S) A) : Prop :=
  ∀ srv s, m' (srv, s) = ((m s).1, (srv, (m s).2)).

Lemma lifts_ret {A} (a : A) : lifts (mret a) (mret a).
Proof. done. Qed.

Lemma lifts_on_database {A} (m : M S A) : lifts m (on_database m).
Proof. intros srv s. unfold on_database, zoom. cbn. by destruct (m s). Qed.

Lemma lifts_bind {A B} (m : M S A) m' (k : A → M S B) k' :
  lifts m m' → (∀ a, lifts (k a) (k' a)) → lifts (m ≫= k) (m' ≫= k').
Proof.
  intros Hm Hk srv s. unfold mbind, M_bind. rewrite Hm. destruct (m s) as [[]]; [apply Hk|done..].
Qed.

Lemma lifts_try_catch {A} (m : M S A) m' h h' :
  lifts m m' → (∀ e, lifts (h e) (h' e)) → lifts (try_catch m h) (try_catch m' h').
Proof.
  intros Hm Hh srv s. unfold try_catch. rewrite Hm. destruct (m s) as [[]]; [done|apply Hh|done].
Qed.

(** The worker threads' version does the same, and counts. *)
Definition counted (srv : DatabaseServer) : DatabaseServer :=
  set_total_requests (u64 (total_requests_ srv + 1)) srv.

Lemma process_request_same request srv s :
  srv_database_ srv = true →
  process_request request (srv, s) =
    ((process_request_sync request s).1, (counted srv, (process_request_sync request s).2)).
Proof.
  intros Hd. unfold process_request.
  match goal with
  | |- (modify _ ;; (database ← gets _; if negb database then _ else ?rest)) _ = _ =>
      assert (lifts (process_request_sync request) rest) as H
  end.
  { apply lifts_bind; [apply lifts_try_catch|by intros]; [|by intros].
    repeat first
      [ apply lifts_bind; [apply lifts_on_database|intros ?] | apply lifts_ret | case_match ]. }
  rewrite <- H. unfold mbind at 1 2, M_bind at 1 2. cbn. by rewrite Hd.
Qed.
End Generic.

Section Contract.
Context {S T : Type} `{!Database S T} `{!DatabaseContract S T}.
Implicit Types (s : S) (request : Message).

(** Replaces the next call on the database by what the contract says of it. *)
Ltac call H :=
  let s' := fresh "s'" in
  let E := fresh "E" in
  destruct H as (s' & E & ? & ? & ?); [by auto..|]; rewrite E; clear E; cbn.

Lemma serve_ok request s :
  db_ok s →
  ∃ response s', process_request_sync request s = (Val response, s') ∧ db_ok s' ∧
    served (contents s) request response (contents s').
Proof.
  intros Hs. unfold process_request_sync, served, try_catch, mbind, M_bind.
  destruct (begin_ok s Hs) as (t & s1 & E1 & Hs1 & Ht & _ & C1).
  destruct (msg_type request); try (by eexists _, s; split_and!); rewrite ?E1; cbn.
  - call (get_ok s1 t (msg_key request)). rewrite C1 in *.
    destruct (contents s !! msg_key request) as [v|]; cbn.
    + destruct (string_empty v); cbn; by eexists _, _; split_and!; [done|done|congruence|].
    + by eexists _, _; split_and!; [done|done|congruence|].
  - call (put_ok s1 t (msg_key request) (msg_value request)).
    rewrite decide_True by done. call (commit_ok s' t). eexists _, _. split_and!; [done|done|congruence|done].
  - destruct (del_ok s1 t (msg_key request)) as (s2 & E2 & Hs2 & Ht2 & C2); [done..|].
    rewrite E2, C1 in *. cbn. destruct (contents s !! msg_key request) eqn:Hk; cbn.
    + rewrite decide_True by done. call (commit_ok s2 t). eexists _, _. split_and!; [done|done|congruence|done].
    + rewrite decide_False by done. eexists _, _. split_and!; [done|done| |done]. rewrite C2. by apply delete_id.
  - destruct (scan_ok s1 t (msg_key request) (msg_value request) 1000)
      as (s2 & answer & E2 & Ha & Hs2 & _ & C2); [done..|].
    rewrite E2, C1 in *. cbn. eexists _, _. split_and!; [done|done|done|]. by exists answer.
Qed.

Lemma serve_all_ok requests s :
  db_ok s →
  ∃ responses s', mapM process_request_sync requests s = (Val responses, s') ∧ db_ok s' ∧
    served_all (contents s) requests responses (contents s').
Proof.
  revert s. induction requests as [|r rs IH]; intros s Hs.
  - exists [], s. split_and!; [done|done|constructor].
  - destruct (serve_ok r s Hs) as (resp & s1 & E1 & Hs1 & H1).
    destruct (IH s1 Hs1) as (resps & s2 & E2 & Hs2 & H2).
    exists (resp :: resps), s2. split_and!; [|done|by econstructor].
    cbn. unfold mbind, M_bind in *. by rewrite E1, E2.
Qed.
End Contract.

(** ** Theorems *)

(** C19.  Every request is answered as the contents say, whatever database keeps the contract:
    GET with the value, PUT and DELETE with the change, SCAN with the text of a scan answer,
    PING with PONG, anything else with an error; nothing else changes the contents. *)
Theorem process_request_sync_correct {S T : Type} `{!Database S T} `{!DatabaseContract S T}
    (request : Message) (s : S) :
  db_ok s →
  ∃ response s', process_request_sync request s = (Val response, s') ∧ db_ok s' ∧
    served (contents s) request response (contents s').
Proof. apply serve_ok. Qed.

(** A value that was put is the value that is read: after a PUT and any requests that
    do not write its key, a GET is answered with the value, provided it is not empty. *)
Theorem get_after_put {S T : Type} `{!Database S T} `{!DatabaseContract S T}
    (s : S) (put get : Message) (between : list Message) :
  db_ok s → msg_type put = MessageType.PUT → msg_type get = MessageType.GET →
  msg_key get = msg_key put → msg_value put ≠ "" →
  Forall (λ r, ¬ writes_to (msg_key put) r) between →
  ∃ responses s',
    mapM process_request_sync (put :: between ++ [get]) s
    = (Val (responses ++ [make_response get MessageType.SUCCESS (msg_value put)]), s') ∧ db_ok s'.
Proof.
  intros Hs Hput Hget Hkey Hne Hbetween.
  destruct (serve_all_ok (put :: between ++ [get]) s Hs) as (responses & s' & E & Hs' & H).
  inversion H as [|? ? rp m1 ? resps ? Hp Hrest]; subst.
  destruct (served_all_app _ _ _ _ _ Hrest) as (r1 & r2 & m2 & -> & H1 & H2).
  inversion H2 as [|? ? rg m3 ? ? ? Hg Hnil]; subst. inversion Hnil; subst.
  exists (rp :: r1), s'. split; [|done].
  enough (rg = make_response get MessageType.SUCCESS (msg_value put)) as <- by done.
  unfold served in Hp, Hg. rewrite Hput in Hp. rewrite Hget in Hg.
  destruct Hp as [-> _], Hg as [_ Hg].
  rewrite Hkey, (served_all_other _ _ _ _ _ H1 Hbetween), lookup_insert_eq in Hg.
  by destruct (msg_value put).
Qed.

(** An empty value cannot be read back: the server takes an empty string for a missing
    key, so that a PUT of an empty value succeeds and the GET after it reports an error. *)
Theorem empty_value_not_found {S T : Type} `{!Database S T} `{!DatabaseContract S T}
    (s : S) (put get : Message) :
  db_ok s → msg_type put = MessageType.PUT → msg_type get = MessageType.GET →
  msg_key get = msg_key put → msg_value put = "" →
  ∃ s', mapM process_request_sync [put; get] s
    = (Val [make_response put MessageType.SUCCESS "OK";
            make_response get MessageType.ERROR "Key not found"], s') ∧
    contents s' !! msg_key put = Some "".
Proof.
  intros Hs Hput Hget Hkey Hv.
  destruct (serve_all_ok [put; get] s Hs) as (responses & s' & E & Hs' & H). exists s'.
  inversion H as [|? ? rp m1 ? resps ? Hp H1]; subst.
  inversion H1 as [|? ? rg m2 ? ? ? Hg H2]; subst. inversion H2; subst.
  unfold served in Hp, Hg. rewrite Hput in Hp. rewrite Hget in Hg.
  destruct Hp as [-> ->], Hg as [-> Hg].
  rewrite Hkey, lookup_insert_eq, Hv in Hg. cbn in Hg. subst. split; [done|].
  by rewrite lookup_insert_eq, Hv.
Qed.

(** C36.  The two implementations of request processing agree on every database, contract or
    not: same response, same effect; the worker threads' one also counts the request. *)
Theorem process_request_equiv {S T : Type} `{!Database S T}
    (request : Message) (srv : DatabaseServer) (s : S) :
  srv_database_ srv = true →
  process_request request (srv, s) =
    ((process_request_sync request s).1,
     (set_total_requests (u64 (total_requests_ srv + 1)) srv, (process_request_sync request s).2)).
Proof. apply process_request_same. Qed.

(** No exception leaves [process_request_sync], whatever the database throws; and every
    response carries the request's id, no key, and the true length of its value. *)
Theorem process_request_sync_no_throw {S T : Type} `{!Database S T} (request : Message) (s : S) :
  match process_request_sync request s with
  | (Val response, _) =>
      msg_id response = msg_id request ∧ msg_key response = "" ∧ msg_key_length response = 0 ∧
      msg_value_length response = u32 (slen (msg_value response))
  | (Exn _, _) => False
  | (UB _, _) => True
  end.
Proof.
  pose proof (process_request_sync_shape request s) as H.
  destruct (process_request_sync request s) as [[response|what|why] s']; [|done..].
  destruct H as (type & value & ->). done.
Qed.

(** The result of [commit] is not looked at: a PUT whose [put] succeeded is answered
    with SUCCESS also when its COMMIT record could not be logged. *)
Theorem put_ignores_commit {S T : Type} `{!Database S T} (request : Message) (s s1 s2 s3 : S)
    (t : T) (r : OperationResult.t) :
  msg_type request = MessageType.PUT →
  begin_transaction s = (Val (Some t), s1) →
  txn_put t (msg_key request) (msg_value request) s1 = (Val OperationResult.SUCCESS, s2) →
  txn_commit t s2 = (Val r, s3) →
  process_request_sync request s = (Val (make_response request MessageType.SUCCESS "OK"), s3).
Proof.
  intros Ht E1 E2 E3. unfold process_request_sync, try_catch, mbind, M_bind.
  rewrite Ht, E1. cbn. rewrite E2. cbn. rewrite decide_True by done. by rewrite E3.
Qed.

(** ** Witnesses *)

Definition put_request (id : Z) (key value : string) : Message :=
  {| msg_type := MessageType.PUT; msg_id := id; msg_key_length := slen key;
     msg_value_length := slen value; msg_key := key; msg_value := value |}.
Definition get_request (id : Z) (key : string) : Message :=
  {| msg_type := MessageType.GET; msg_id := id; msg_key_length := slen key;
     msg_value_length := 0; msg_key := key; msg_value := "" |}.

Lemma demo_ok : db_ok demo_process.
Proof.
  destruct (lg_ready _ _ demo_process_logged) as (p & l & Hr). exists p, l. eexists. exact Hr.
Qed.

Lemma process_request_sync_correct_witness :
  ∃ response s', process_request_sync (put_request 1 "k" "v") demo_process = (Val response, s') ∧
    db_ok s' ∧ served (contents demo_process) (put_request 1 "k" "v") response (contents s').
Proof. apply (process_request_sync_correct (put_request 1 "k" "v") demo_process). exact demo_ok. Defined.

Lemma get_after_put_witness :
  ∃ responses s',
    mapM process_request_sync [put_request 1 "k" "v"; put_request 2 "j" "w"; get_request 3 "k"] demo_process
    = (Val (responses ++ [make_response (get_request 3 "k") MessageType.SUCCESS "v"]), s').
Proof.
  destruct (get_after_put demo_process (put_request 1 "k" "v") (get_request 3 "k")
              [put_request 2 "j" "w"]) as (responses & s' & E & _).
  - exact demo_ok.
  - reflexivity.
  - reflexivity.
  - reflexivity.
  - discriminate.
  - constructor; [|constructor]. intros [_ E]. discriminate E.
  - exists responses, s'. exact E.
Defined.

Lemma empty_value_not_found_witness :
  ∃ s', contents s' !! "k" = Some "".
Proof.
  destruct (empty_value_not_found demo_process (put_request 1 "k" "") (get_request 2 "k"))
    as (s' & _ & H); [exact demo_ok|reflexivity..|]. exists s'. exact H.
Defined.

Lemma process_request_equiv_witness :
  (process_request (get_request 1 "k") (set_database DatabaseServer_new, demo_process)).1
  = Val (make_response (get_request 1 "k") MessageType.ERROR "Key not found").
Proof.
  rewrite (process_request_equiv (get_request 1 "k") (set_database DatabaseServer_new) demo_process).
  - vm_compute. reflexivity.
  - reflexivity.
Defined.

(** The process whose stream fails after the PUT record. *)
Definition commit_fails : World :=
  mkWorld (w_files (p_world demo_process)) (w_clock demo_world) 1
    (λ n, mkIo (n <? 3)%nat 0) 0 (w_order demo_world) 0.
Definition demo_failing : Process :=
  mkProcess commit_fails (p_logs demo_process) (p_txns demo_process) (p_db demo_process).

Lemma put_ignores_commit_witness :
  ∃ s1 s2 s3,
    PersistentTransaction_put 0%nat "k" "v" s1 = (Val OperationResult.SUCCESS, s2) ∧
    PersistentTransaction_commit 0%nat s2 = (Val OperationResult.SYSTEM_ERROR, s3) ∧
    process_request_sync (put_request 1 "k" "v") demo_failing
    = (Val (make_response (put_request 1 "k" "v") MessageType.SUCCESS "OK"), s3).
Proof.
  destruct (PersistentDatabase_begin_transaction demo_failing) as [o1 s1] eqn:E1.
  destruct (PersistentTransaction_put 0%nat "k" "v" s1) as [o2 s2] eqn:E2.
  destruct (PersistentTransaction_commit 0%nat s2) as [o3 s3] eqn:E3.
  assert (o1 = Val (Some 0%nat)) as ->.
  { change o1 with ((o1, s1).1). rewrite <- E1. vm_compute. reflexivity. }
  assert (s1 = (PersistentDatabase_begin_transaction demo_failing).2) as F1 by (rewrite E1; reflexivity).
  assert (o2 = Val OperationResult.SUCCESS) as ->.
  { change o2 with ((o2, s2).1). rewrite <- E2, F1. vm_compute. reflexivity. }
  assert (s2 = (PersistentTransaction_put 0%nat "k" "v" s1).2) as F2 by (rewrite E2; reflexivity).
  assert (o3 = Val OperationResult.SYSTEM_ERROR) as ->.
  { change o3 with ((o3, s3).1). rewrite <- E3, F2, F1. vm_compute. reflexivity. }
  exists s1, s2, s3. split; [exact E2|]. split; [exact E3|].
  exact (put_ignores_commit (put_request 1 "k" "v") demo_failing s1 s2 s3 0%nat _ eq_refl E1 E2 E3).
Defined.
