(* ===== verification/Locking.v ===== *)
(** * The database under several threads

    [src/core/persistent_database.cpp] and [src/storage/wal.cpp], with every mutex: a call of
    [begin_transaction], [get], [put], [del], [scan] or [commit] is cut where the thread that
    makes it can be interrupted, at the locks of the database's [mutex_] and of the log's, and
    the pieces of any number of threads are interleaved.  Each call still takes effect at one
    point between its beginning and its end, the threads never touch the same data at the same
    time, no thread waits for ever, and the log describes the effects at any moment. *)

From stdpp Require Import base gmap list strings relations.
From Stdlib Require Import ZArith Lia.
From S2P Require Import Prelude.
From S2P Require Import Framing.
From S2P Require Import WalRecord.
From S2P Require Import Effects.
From S2P Require Import Wal.
From S2P Require Import Interface.
From S2P Require Import Database.

(** ** Calls *)

(** A call on the database or on one of its transactions, and what it returns. *)
Inductive Call :=
  | CallBegin
  | CallGet (t : nat) (key : string)
  | CallPut (t : nat) (key value : string)
  | CallDel (t : nat) (key : string)
  | CallScan (t : nat) (start_key end_key : string) (limit : Z)
  | CallCommit (t : nat).

Inductive Reply :=
  | ReplyTxn (t : option nat)
  | ReplyValue (value : string)
  | ReplyResult (result : OperationResult.t)
  | ReplyPairs (pairs : list (string * string)).

#[export] Instance Call_eq_dec : EqDecision Call.
Proof. solve_decision. Defined.
#[export] Instance Reply_eq_dec : EqDecision Reply.
Proof. solve_decision. Defined.

#[export] Instance SharedMutex_eq_dec : EqDecision SharedMutex.
Proof. solve_decision. Defined.

(** The whole operation, as [Database.v] has it. *)
Definition call_op (c : Call) : DbM Reply :=
  match c with
  | CallBegin => t ← PersistentDatabase_begin_transaction; mret (ReplyTxn t)
  | CallGet t key => v ← PersistentTransaction_get t key; mret (ReplyValue v)
  | CallPut t key value => r ← PersistentTransaction_put t key value; mret (ReplyResult r)
  | CallDel t key => r ← PersistentTransaction_del t key; mret (ReplyResult r)
  | CallScan t start_key end_key limit =>
      ps ← PersistentTransaction_scan t start_key end_key limit; mret (ReplyPairs ps)
  | CallCommit t => r ← PersistentTransaction_commit t; mret (ReplyResult r)
  end.

Definition call_txn (c : Call) : option nat :=
  match c with
  | CallBegin => None
  | CallGet t _ | CallPut t _ _ | CallDel t _ | CallScan t _ _ _ | CallCommit t => Some t
  end.

(** ** The pieces of the operations *)

(** How an operation holds the database's [mutex_]: [shared_lock], [unique_lock] or not. *)
Definition lock_mode (c : Call) : SharedMutex :=
  match c with
  | CallGet _ _ | CallScan _ _ _ _ => LockedShared
  | CallPut _ _ _ | CallDel _ _ => LockedExclusive
  | CallBegin | CallCommit _ => Unlocked
  end.

(** From the lock to the call of [append_record] (right, with the [old_value] of [del]) or to
    the result, where there is none (left). *)
Definition body (c : Call) : DbM (Reply + string) :=
  match c with
  | CallBegin => t ← PersistentDatabase_begin_transaction; mret (inl (ReplyTxn t))
  | CallGet t key =>
      data ← db_gets data_;
      mret (inl (ReplyValue (match data !! key with Some v => v | None => "" end)))
  | CallPut t key value =>
      _ ← deref t;
      db_modify (λ db, set_data (<[key := value]> (data_ db)) db);;
      set_has_writes t true;;
      mret (inr "")
  | CallDel t key =>
      _ ← deref t;
      data ← db_gets data_;
      match data !! key with
      | None => mret (inl (ReplyResult OperationResult.KEY_NOT_FOUND))
      | Some old_value =>
          db_modify (λ db, set_data (delete key (data_ db)) db);;
          set_has_writes t true;;
          mret (inr old_value)
      end
  | CallScan t start_key end_key limit =>
      data ← db_gets data_;
      pairs ← on_env (walk_map data);
      mret (inl (ReplyPairs (scan_loop start_key end_key limit pairs [])))
  | CallCommit t =>
      tx ← deref t;
      mret (if tx_has_writes_ tx then inr "" else inl (ReplyResult OperationResult.SUCCESS))
  end.

(** What [append_record] does with the log's mutex, for the record of the call. *)
Definition log_record (c : Call) (id : Z) : WALRecord :=
  match c with
  | CallPut _ key value => put_record id key value
  | CallDel _ key => del_record id key
  | _ => commit_record id
  end.
Definition log_body (c : Call) : DbM bool :=
  match call_txn c with
  | Some t => tx ← deref t; on_wal (tx_wal_ tx) (append_record (log_record c (tx_id_ tx)))
  | None => undefined "no transaction"
  end.

(** [put] and [del] after [append_record] failed. *)
Definition undo (c : Call) (old_value : string) : DbM unit :=
  match c with
  | CallPut t key _ =>
      db_modify (λ db, set_data (delete key (data_ db)) db);; set_has_writes t false
  | CallDel t key =>
      db_modify (λ db, set_data (<[key := old_value]> (data_ db)) db);; set_has_writes t false
  | _ => mret tt
  end.

(** The result after [append_record] returned [ok]. *)
Definition logged_reply (ok : bool) : Reply :=
  ReplyResult (if ok then OperationResult.SUCCESS else OperationResult.SYSTEM_ERROR).

(** ** Threads *)

(** The mutexes, with the threads that hold them. *)
Record Locks := mkLocks {
  lk_writer : option nat;     (** [mutex_], exclusive *)
  lk_readers : gset nat;      (** [mutex_], shared *)
  lk_log : option nat;        (** the log's [mutex_] *)
}.

Definition no_locks : Locks := {| lk_writer := None; lk_readers := ∅; lk_log := None |}.

(** Thread [i] locks [mutex_] in a mode, when it can. *)
Definition acquire (mode : SharedMutex) (i : nat) (k : Locks) : option Locks :=
  match mode, lk_writer k with
  | Unlocked, _ => Some k
  | LockedShared, None => Some (mkLocks None ({[i]} ∪ lk_readers k) (lk_log k))
  | LockedExclusive, None =>
      if decide (lk_readers k = ∅) then Some (mkLocks (Some i) ∅ (lk_log k)) else None
  | _, Some _ => None
  end.

Definition release (mode : SharedMutex) (i : nat) (k : Locks) : Locks :=
  match mode with
  | Unlocked => k
  | LockedShared => mkLocks (lk_writer k) (lk_readers k ∖ {[i]}) (lk_log k)
  | LockedExclusive => mkLocks None (lk_readers k) (lk_log k)
  end.

Definition set_log_owner (o : option nat) (k : Locks) : Locks :=
  mkLocks (lk_writer k) (lk_readers k) o.

(** Where a thread is. *)
Inductive Pc :=
  | Idle
  | Entered (c : Call)                               (** before the lock of [mutex_] *)
  | Inside (c : Call)                                (** with it *)
  | Logging (c : Call) (old : string)                (** before [append_record]'s lock *)
  | LogLocked (c : Call) (old : string)              (** with it *)
  | LogWritten (c : Call) (old : string) (ok : bool) (** before it is unlocked *)
  | LogUnlocked (c : Call) (old : string) (ok : bool)
  | Finished (c : Call) (r : Reply)                  (** before [mutex_] is unlocked *)
  | Returning (c : Call) (r : Reply).

(** What happens: a call, the point at which it takes effect, its return. *)
Inductive Event :=
  | Called (i : nat) (c : Call)
  | Effected (i : nat) (c : Call) (r : Reply)
  | Returned (i : nat) (c : Call) (r : Reply).

Record Threads := mkThreads {
  th_shared : Process;
  th_locks : Locks;
  th_pcs : list Pc;
  th_events : list Event;
}.

Definition goto (i : nat) (pc : Pc) (st : Threads) : Threads :=
  mkThreads (th_shared st) (th_locks st) (<[i := pc]> (th_pcs st)) (th_events st).
Definition set_locks (k : Locks) (st : Threads) : Threads :=
  mkThreads (th_shared st) k (th_pcs st) (th_events st).
Definition set_shared (s : Process) (st : Threads) : Threads :=
  mkThreads s (th_locks st) (th_pcs st) (th_events st).
Definition happens (e : Event) (st : Threads) : Threads :=
  mkThreads (th_shared st) (th_locks st) (th_pcs st) (th_events st ++ [e]).

(** One step of thread [i]; [None] if it has none: it waits for a mutex, is idle, or what it
    does is undefined. *)
Definition thread_step (i : nat) (st : Threads) : option Threads :=
  match th_pcs st !! i with
  | None | Some Idle => None
  | Some (Entered c) =>
      match acquire (lock_mode c) i (th_locks st) with
      | Some k => Some (goto i (Inside c) (set_locks k st))
      | None => None
      end
  | Some (Inside c) =>
      match body c (th_shared st) with
      | (Val (inl r), s) => Some (happens (Effected i c r) (goto i (Finished c r) (set_shared s st)))
      | (Val (inr old), s) => Some (goto i (Logging c old) (set_shared s st))
      | _ => None
      end
  | Some (Logging c old) =>
      match lk_log (th_locks st) with
      | None => Some (goto i (LogLocked c old) (set_locks (set_log_owner (Some i) (th_locks st)) st))
      | Some _ => None
      end
  | Some (LogLocked c old) =>
      match log_body c (th_shared st) with
      | (Val ok, s) =>
          Some (happens (Effected i c (logged_reply ok))
                  (goto i (LogWritten c old ok) (set_shared s st)))
      | _ => None
      end
  | Some (LogWritten c old ok) =>
      Some (goto i (LogUnlocked c old ok) (set_locks (set_log_owner None (th_locks st)) st))
  | Some (LogUnlocked c old ok) =>
      match (if ok : bool then mret tt else undo c old) (th_shared st) with
      | (Val _, s) => Some (goto i (Finished c (logged_reply ok)) (set_shared s st))
      | _ => None
      end
  | Some (Finished c r) =>
      Some (goto i (Returning c r) (set_locks (release (lock_mode c) i (th_locks st)) st))
  | Some (Returning c r) => Some (happens (Returned i c r) (goto i Idle st))
  end.

(** The transaction that a thread is using. *)
Definition pc_call (pc : Pc) : option Call :=
  match pc with
  | Idle => None
  | Entered c | Inside c | Logging c _ | LogLocked c _ | LogWritten c _ _ | LogUnlocked c _ _
  | Finished c _ | Returning c _ => Some c
  end.
Definition pc_txn (pc : Pc) : option nat := pc_call pc ≫= call_txn.

(** A call that may be made now: on a transaction of this database that no thread is using.
    ([has_writes_] is protected by no mutex, so a transaction is one thread's at a time.) *)
Definition may_call (c : Call) (st : Threads) : Prop :=
  ∀ t, call_txn c = Some t →
    current_txn (th_shared st) t ∧ Forall (λ pc, pc_txn pc ≠ Some t) (th_pcs st).

Inductive threads_step : Threads → Threads → Prop :=
  | thread_calls i c st :
      th_pcs st !! i = Some Idle → may_call c st →
      threads_step st (happens (Called i c) (goto i (Entered c) st))
  | thread_runs i st st' :
      thread_step i st = Some st' → threads_step st st'.

(** [n] threads on a process. *)
Definition threads_start (n : nat) (s : Process) : Threads :=
  {| th_shared := s; th_locks := no_locks; th_pcs := replicate n Idle; th_events := [] |}.

(** ** Histories *)

(** The effects, in their order. *)
Definition effects (es : list Event) : list (Call * Reply) :=
  omap (λ e, match e with Effected _ c r => Some (c, r) | _ => None end) es.

(** The calls one after the other, each as a whole, on transactions of the database. *)
Definition call_runs (c : Call) (s : Process) (r : Reply) (s' : Process) : Prop :=
  (∀ t, call_txn c = Some t → current_txn s t) ∧ call_op c s = (Val r, s').

Fixpoint atomically (s : Process) (es : list (Call * Reply)) (s' : Process) : Prop :=
  match es with
  | [] => s' = s
  | (c, r) :: es => ∃ s1, call_runs c s r s1 ∧ atomically s1 es s'
  end.

(** One thread's view of a history: its calls do not overlap, and each takes effect once,
    after it is made and before it returns, with the result that it returns. *)
Inductive Phase := Outside | Pending (c : Call) | Done (c : Call) (r : Reply).

Definition next_phase (i : nat) (ph : option Phase) (e : Event) : option Phase :=
  match e with
  | Called j c =>
      if decide (j = i) then match ph with Some Outside => Some (Pending c) | _ => None end else ph
  | Effected j c r =>
      if decide (j = i) then
        match ph with
        | Some (Pending c') => if decide (c' = c) then Some (Done c r) else None
        | _ => None
        end
      else ph
  | Returned j c r =>
      if decide (j = i) then
        match ph with
        | Some (Done c' r') => if decide ((c', r') = (c, r)) then Some Outside else None
        | _ => None
        end
      else ph
  end.

Definition phase (i : nat) (es : list Event) : option Phase := foldl (next_phase i) (Some Outside) es.

(** ** Schedules

    A schedule names the threads in the order in which they run, with the calls that they
    make; it determines the execution. *)

#[export] Instance current_txn_dec s t : Decision (current_txn s t).
Proof.
  refine (match p_txns s !! t as o return p_txns s !! t = o → Decision (current_txn s t) with
          | Some tx => λ E, match decide (tx_wal_ tx = wal_ (p_db s)) with
                            | left H => left _ | right H => right _ end
          | None => λ E, right _
          end eq_refl).
  - by exists tx.
  - intros (tx' & E' & Hw). congruence.
  - intros (tx' & E' & Hw). congruence.
Defined.

#[export] Instance may_call_dec c st : Decision (may_call c st).
Proof.
  unfold may_call. destruct (call_txn c) as [t|].
  - destruct (decide (current_txn (th_shared st) t ∧ Forall (λ pc, pc_txn pc ≠ Some t) (th_pcs st)))
      as [H|H].
    + left. by intros t' [= <-].
    + right. intros H'. by apply H, H'.
  - by left.
Defined.

Definition scheduled (who : nat * option Call) (st : Threads) : option Threads :=
  match who with
  | (i, None) => thread_step i st
  | (i, Some c) =>
      match th_pcs st !! i with
      | Some Idle =>
          if decide (may_call c st) then Some (happens (Called i c) (goto i (Entered c) st)) else None
      | _ => None
      end
  end.

Fixpoint run_schedule (ws : list (nat * option Call)) (st : Threads) : option Threads :=
  match ws with
  | [] => Some st
  | who :: ws => match scheduled who st with Some st => run_schedule ws st | None => None end
  end.

Lemma run_schedule_steps ws st st' : run_schedule ws st = Some st' → rtc threads_step st st'.
Proof.
  revert st. induction ws as [|[i [c|]] ws IH]; intros st; cbn.
  - by intros [= ->].
  - destruct (th_pcs st !! i) as [[]|] eqn:Hi; try done. case_decide; [|done].
    intros E. eapply rtc_l; [by apply thread_calls|by apply IH].
  - destruct (thread_step i st) eqn:E; [|done]. intros E'.
    eapply rtc_l; [by eapply thread_runs|by apply IH].
Qed.
