(* ===== verification/LockingInvariant.v ===== *)
(** * The locks keep the calls apart

    The invariant of [Locking.v]: which thread holds which mutex ([control]), and how the
    shared process differs from the one that the effects so far give while a [put] or [del]
    is under way ([sim], [explained]); every step of every thread preserves it
    ([explained_reachable]). *)

From stdpp Require Import base gmap list strings relations.
From Stdlib Require Import ZArith Lia.
From S2P Require Import Prelude.
From S2P Require Import Framing.
From S2P Require Import WalRecord.
From S2P Require Import Effects.
From S2P Require Import Wal.
From S2P Require Import Interface.
From S2P Require Import Database.
From S2P Require Import Locking.

(** ** Control: who holds which lock, and the histories *)

(** How a thread holds [mutex_], and whether it holds the log's. *)
Definition held (pc : Pc) : SharedMutex :=
  match pc with
  | Idle | Entered _ | Returning _ _ => Unlocked
  | Inside c | Logging c _ | LogLocked c _ | LogWritten c _ _ | LogUnlocked c _ _ | Finished c _ =>
      lock_mode c
  end.
Definition holds_log (pc : Pc) : bool :=
  match pc with LogLocked _ _ | LogWritten _ _ _ => true | _ => false end.

Definition pc_phase (pc : Pc) : Phase :=
  match pc with
  | Idle => Outside
  | Entered c | Inside c | Logging c _ | LogLocked c _ => Pending c
  | LogWritten c _ ok | LogUnlocked c _ ok => Done c (logged_reply ok)
  | Finished c r | Returning c r => Done c r
  end.

(** Only [put], [del] and [commit] get as far as the log. *)
Definition logs (c : Call) : bool :=
  match c with CallPut _ _ _ | CallDel _ _ | CallCommit _ => true | _ => false end.
Definition pc_shape (pc : Pc) : Prop :=
  match pc with
  | Logging c _ | LogLocked c _ | LogWritten c _ _ | LogUnlocked c _ _ => logs c = true
  | _ => True
  end.

(** The table of the threads as a function. *)
Definition pc_at (st : Threads) (i : nat) : Pc := default Idle (th_pcs st !! i).
Definition upd (i : nat) (pc : Pc) (pcs : nat → Pc) : nat → Pc :=
  λ j, if decide (i = j) then pc else pcs j.

Record locks_ok (k : Locks) (pcs : nat → Pc) : Prop := {
  lo_writer : ∀ i, lk_writer k = Some i ↔ held (pcs i) = LockedExclusive;
  lo_readers : ∀ i, i ∈ lk_readers k ↔ held (pcs i) = LockedShared;
  lo_log : ∀ i, lk_log k = Some i ↔ holds_log (pcs i) = true;
  lo_exclusion : is_Some (lk_writer k) → lk_readers k = ∅;
}.

Record control (st : Threads) : Prop := {
  ct_locks : locks_ok (th_locks st) (pc_at st);
  ct_shape : ∀ i, pc_shape (pc_at st i);
  ct_txns : ∀ i j t, pc_txn (pc_at st i) = Some t → pc_txn (pc_at st j) = Some t → i = j;
  ct_phases : ∀ i, phase i (th_events st) = Some (pc_phase (pc_at st i));
}.

Section Control.
Implicit Types (st : Threads) (k : Locks) (pcs : nat → Pc).

Lemma upd_eq i pc pcs : upd i pc pcs i = pc.
Proof. unfold upd. by rewrite decide_True. Qed.
Lemma upd_ne i j pc pcs : i ≠ j → upd i pc pcs j = pcs j.
Proof. intros. unfold upd. by rewrite decide_False. Qed.

Lemma pc_at_lookup st i pc : th_pcs st !! i = Some pc → pc_at st i = pc.
Proof. intros E. unfold pc_at. by rewrite E. Qed.

Lemma pc_at_goto st i j pc pc0 :
  th_pcs st !! i = Some pc0 → pc_at (goto i pc st) j = upd i pc (pc_at st) j.
Proof.
  intros E. unfold pc_at, upd. cbn. case_decide as D; subst.
  - rewrite list_lookup_insert_eq; [done|]. by eapply lookup_lt_Some.
  - by rewrite list_lookup_insert_ne.
Qed.

Lemma locks_ok_ext k pcs pcs' : (∀ j, pcs' j = pcs j) → locks_ok k pcs → locks_ok k pcs'.
Proof. intros E []. split; intros; rewrite ?E; auto. Qed.

(** A step that leaves the locks alone. *)
Lemma locks_same k pcs i pc :
  held pc = held (pcs i) → holds_log pc = holds_log (pcs i) →
  locks_ok k pcs → locks_ok k (upd i pc pcs).
Proof.
  intros E1 E2 []. split; [intros j; unfold upd; case_decide; subst; rewrite ?E1, ?E2; auto..|done].
Qed.

Lemma locks_acquire k k' pcs i pc mode :
  held (pcs i) = Unlocked → held pc = mode → holds_log pc = holds_log (pcs i) →
  acquire mode i k = Some k' → locks_ok k pcs → locks_ok k' (upd i pc pcs).
Proof.
  intros E1 E2 E3 Ha H. unfold acquire in Ha.
  destruct mode; [injection Ha as <-; apply locks_same; congruence|..];
    destruct (lk_writer k) eqn:Ew; try done; [|case_decide as Er; [|done]]; injection Ha as <-;
    destruct H as [Hw Hr Hl Hx]; split; cbn; try done; intros j;
    try (specialize (Hw j)); try (specialize (Hr j)); try (specialize (Hl j));
    unfold upd; case_decide; subst; rewrite ?E2, ?E3 in *; try set_solver; try naive_solver.
Qed.

Lemma locks_release k pcs i pc :
  held pc = Unlocked → holds_log pc = holds_log (pcs i) →
  locks_ok k pcs → locks_ok (release (held (pcs i)) i k) (upd i pc pcs).
Proof.
  intros E1 E3 H. destruct (held (pcs i)) eqn:E2; cbn [release].
  - apply locks_same; congruence.
  - destruct H as [Hw Hr Hl Hx]. split; cbn.
    + intros j. rewrite (Hw j). unfold upd. case_decide; subst; [rewrite E1, E2|]; naive_solver.
    + intros j. rewrite elem_of_difference, (Hr j), elem_of_singleton. unfold upd.
      case_decide; subst; [rewrite E1|]; naive_solver.
    + intros j. rewrite (Hl j). unfold upd. case_decide; subst; by rewrite ?E3.
    + intros Hs. rewrite (Hx Hs). set_solver.
  - destruct H as [Hw Hr Hl Hx]. pose proof (proj2 (Hw i) E2) as Ei. split; cbn.
    + intros j. specialize (Hw j). unfold upd. case_decide; subst; [by rewrite E1|naive_solver].
    + intros j. rewrite (Hr j). unfold upd. case_decide; subst; [|done]. by rewrite E1, E2.
    + intros j. rewrite (Hl j). unfold upd. case_decide; subst; by rewrite ?E3.
    + by intros [? ?].
Qed.

Lemma locks_log_taken k pcs i pc :
  lk_log k = None → held pc = held (pcs i) → holds_log pc = true →
  locks_ok k pcs → locks_ok (set_log_owner (Some i) k) (upd i pc pcs).
Proof.
  intros Hn E1 E3 [Hw Hr Hl Hx]. split; cbn; try done; intros j; unfold upd; case_decide; subst;
    rewrite ?E1, ?E3; auto; [done|].
  rewrite <- (Hl j), Hn. naive_solver.
Qed.

Lemma locks_log_released k pcs i pc :
  holds_log (pcs i) = true → held pc = held (pcs i) → holds_log pc = false →
  locks_ok k pcs → locks_ok (set_log_owner None k) (upd i pc pcs).
Proof.
  intros Hn E1 E3 [Hw Hr Hl Hx]. split; cbn; try done; intros j; unfold upd; case_decide; subst;
    rewrite ?E1, ?E3; auto; [done|].
  rewrite <- (Hl j), (proj2 (Hl i) Hn). naive_solver.
Qed.

Lemma phase_snoc i es e : phase i (es ++ [e]) = next_phase i (phase i es) e.
Proof. unfold phase. by rewrite foldl_app. Qed.

Definition event_thread (e : Event) : nat :=
  match e with Called i _ | Effected i _ _ | Returned i _ _ => i end.

Lemma next_phase_other i ph e : event_thread e ≠ i → next_phase i ph e = ph.
Proof. destruct e; cbn; intros; by rewrite decide_False. Qed.

(** A step of thread [i] to [pc], with the locks [k] and the events [es]. *)
Lemma control_goto st i pc pc0 k s es :
  control st → th_pcs st !! i = Some pc0 →
  locks_ok k (upd i pc (pc_at st)) → pc_shape pc →
  (∀ t, pc_txn pc = Some t → pc_txn pc0 = Some t ∨ ∀ j, pc_txn (pc_at st j) ≠ Some t) →
  ((es = [] ∧ pc_phase pc = pc_phase pc0) ∨
   ∃ e, es = [e] ∧ event_thread e = i ∧ next_phase i (Some (pc_phase pc0)) e = Some (pc_phase pc)) →
  control (mkThreads s k (<[i := pc]> (th_pcs st)) (th_events st ++ es)).
Proof.
  intros [Hl Hs Ht Hp] Hi Hk Hsh Htx Hes.
  assert (∀ j, pc_at (mkThreads s k (<[i := pc]> (th_pcs st)) (th_events st ++ es)) j
               = upd i pc (pc_at st) j) as Hat by (intros j; by apply (pc_at_goto st i j pc pc0)).
  pose proof (pc_at_lookup _ _ _ Hi) as Epc.
  split; cbn [th_locks th_events].
  - by eapply locks_ok_ext.
  - intros j. rewrite Hat. unfold upd. by case_decide.
  - intros j j' t. rewrite !Hat. unfold upd.
    assert (∀ j, pc_txn pc = Some t → pc_txn (pc_at st j) = Some t → i = j) as Hone.
    { intros j2 Et E2. destruct (Htx t Et) as [E|E]; [|by destruct (E j2)].
      apply (Ht i j2 t); [by rewrite Epc|done]. }
    repeat case_decide; subst; eauto. intros; symmetry; eauto.
  - intros j. rewrite Hat. unfold upd. destruct Hes as [[-> E]|(e & -> & Ee & E)].
    + rewrite app_nil_r, Hp. case_decide; subst; congruence.
    + rewrite phase_snoc, Hp. case_decide as D; [|by rewrite next_phase_other; congruence].
      rewrite <- D, Epc. by rewrite D in E |- *.
Qed.

Lemma control_start n s : control (threads_start n s).
Proof.
  assert (∀ i, pc_at (threads_start n s) i = Idle) as E.
  { intros i. unfold pc_at. cbn. destruct (replicate n Idle !! i) eqn:E; [|done].
    by apply lookup_replicate in E as [-> _]. }
  split; intros; rewrite ?E in *; try done.
  split; intros; rewrite ?E; cbn; try done; set_solver.
Qed.
End Control.

(** ** Data: the process that the effects so far give *)

(** The process with another map and another [has_writes_] of transaction [t]. *)
Definition over (d : gmap string string) (t : nat) (b : bool) (s : Process) : Process :=
  mkProcess (p_world s) (p_logs s) (alter (with_has_writes b) t (p_txns s)) (set_data d (p_db s)).

(** With the change that is not logged yet, and with the one whose record was lost undone. *)
Definition unlogged (c : Call) (s : Process) : Process :=
  match c with
  | CallPut t key value => over (<[key := value]> (data_ (p_db s))) t true s
  | CallDel t key => over (delete key (data_ (p_db s))) t true s
  | _ => s
  end.
Definition undone (c : Call) (old : string) (s : Process) : Process :=
  match c with
  | CallPut t key _ => over (delete key (data_ (p_db s))) t false s
  | CallDel t key => over (<[key := old]> (data_ (p_db s))) t false s
  | _ => s
  end.

Definition is_old (c : Call) (old : string) (s : Process) : Prop :=
  match c with CallDel _ key => data_ (p_db s) !! key = Some old | _ => True end.

(** The shared process [f] and the process [a] that the effects give, when the thread that
    holds [mutex_] exclusively is at [pc]. *)
Definition sim (pc : Pc) (f a : Process) : Prop :=
  match pc with
  | Logging c old | LogLocked c old => f = unlogged c a ∧ is_old c old a
  | LogWritten c old false | LogUnlocked c old false => a = undone c old f
  | _ => f = a
  end.

(** Where the exclusive holder of [mutex_] is. *)
Definition writer_at (st : Threads) : Pc := from_option (pc_at st) Idle (lk_writer (th_locks st)).

(** Initialised, with its log at [p], which nobody is in. *)
Record opened (s : Process) (p : nat) : Prop := {
  op_mutex : mutex_ (p_db s) = Unlocked;
  op_init : initialized_ (p_db s) = true;
  op_wal : wal_ (p_db s) = Some p;
  op_log : ∃ l, p_logs s !! p = Some l ∧ log_idle l;
}.

(** A thread that is about to log a commit saw [has_writes_]. *)
Definition commits (s : Process) (pc : Pc) : Prop :=
  match pc with
  | Logging (CallCommit t) _ | LogLocked (CallCommit t) _ =>
      ∃ tx, p_txns s !! t = Some tx ∧ tx_has_writes_ tx = true
  | _ => True
  end.

(** [a] is what the effects so far give. *)
Record explained (s0 : Process) (p : nat) (st : Threads) (a : Process) : Prop := {
  ex_control : control st;
  ex_opened : opened a p;
  ex_effects : atomically s0 (effects (th_events st)) a;
  ex_sim : sim (writer_at st) (th_shared st) a;
  ex_txns : ∀ i t, pc_txn (pc_at st i) = Some t → current_txn a t;
  ex_commits : ∀ i, commits a (pc_at st i);
}.

Section Data.
Implicit Types (s f a : Process) (st : Threads) (pc : Pc).

Lemma atomically_snoc s es s1 c r s2 :
  atomically s es s1 → call_runs c s1 r s2 → atomically s (es ++ [(c, r)]) s2.
Proof.
  revert s. induction es as [|[c' r'] es IH]; intros s; cbn.
  - intros -> E. by exists s2.
  - intros (s' & E' & H) E. exists s'. auto.
Qed.

Lemma effects_snoc es e : effects (es ++ [e]) = effects es ++ effects [e].
Proof. apply omap_app. Qed.

(** The log, appended to by some thread. *)
Definition relogged (w : World) (ls : list WriteAheadLog) (s : Process) : Process :=
  mkProcess w ls (p_txns s) (p_db s).

Lemma over_relogged d t b w ls s : over d t b (relogged w ls s) = relogged w ls (over d t b s).
Proof. done. Qed.

(** A new transaction. *)
Definition begun (s : Process) : Process :=
  mkProcess (p_world s) (p_logs s)
    (p_txns s ++ [mkPersistentTransaction (wal_ (p_db s)) (next_transaction_id_ (p_db s)) false])
    (set_next_id (u64 (next_transaction_id_ (p_db s) + 1)) (p_db s)).

Lemma over_begun d t b s :
  is_Some (p_txns s !! t) → over d t b (begun s) = begun (over d t b s).
Proof.
  intros H%lookup_lt_is_Some. unfold over, begun. cbn [p_txns p_db p_world p_logs wal_ set_data next_transaction_id_]. f_equal.
  by rewrite alter_app_l.
Qed.

(** What another thread does to [f] and [a] alike: the relation survives. *)
Lemma sim_relogged pc f a w ls : sim pc f a → sim pc (relogged w ls f) (relogged w ls a).
Proof.
  destruct pc as [| | |c old|c old|c old []|c old []| |]; cbn; try (by intros ->);
    destruct c; cbn; try (by intros [-> ?]); try (by intros ->).
Qed.

Lemma sim_begun pc f a :
  (∀ t, pc_txn pc = Some t → is_Some (p_txns f !! t) ∧ is_Some (p_txns a !! t)) →
  sim pc f a → sim pc (begun f) (begun a).
Proof.
  intros Ht. unfold pc_txn in Ht.
  destruct pc as [| | |c old|c old|c old []|c old []| |]; cbn; try (by intros ->);
    destruct c; cbn in *; try (by intros [-> ?]); try (by intros ->);
    edestruct Ht as [Hf Ha]; try done; first [intros -> | intros [-> ?]; split; [|done]];
    symmetry; by apply over_begun.
Qed.

(** The transactions of [f] and [a] differ in the [has_writes_] of the writer's only. *)
Lemma lookup_over d u b s t :
  p_txns (over d u b s) !! t = (if decide (t = u) then with_has_writes b else id) <$> p_txns s !! t.
Proof.
  unfold over. cbn. case_decide as D; subst.
  - by rewrite list_lookup_alter_eq.
  - rewrite list_lookup_alter_ne by done. by destruct (p_txns s !! t).
Qed.

Lemma lookup_over_ne d u b s t :
  Some u ≠ Some t → p_txns (over d u b s) !! t = p_txns s !! t.
Proof. intros H. rewrite lookup_over, decide_False by congruence. by destruct (_ !! t). Qed.

Lemma sim_lookup pc f a t :
  sim pc f a → pc_txn pc ≠ Some t → p_txns f !! t = p_txns a !! t.
Proof.
  destruct pc as [| | |c old|c old|c old []|c old []| |]; cbn; try (by intros ->);
    destruct c; cbn; try (by intros [-> ?]); try (by intros ->);
    first [intros -> | intros [-> _]]; intros; by rewrite lookup_over_ne.
Qed.

Lemma current_over d u b s t : current_txn (over d u b s) t ↔ current_txn s t.
Proof.
  unfold current_txn. rewrite lookup_over. change (wal_ (p_db (over d u b s))) with (wal_ (p_db s)).
  split.
  - intros (tx & E & Hw). apply fmap_Some in E as (tx' & E & ->). exists tx'. split; [done|].
    by case_decide.
  - intros (tx & E & Hw). rewrite E. eexists. split; [reflexivity|]. by case_decide.
Qed.

Lemma sim_current pc f a t : sim pc f a → current_txn f t ↔ current_txn a t.
Proof.
  destruct pc as [| | |c old|c old|c old []|c old []| |]; cbn; try (by intros ->);
    destruct c; cbn; try (by intros [-> ?]); try (by intros ->);
    first [intros ->; symmetry; apply current_over | intros [-> _]; apply current_over].
Qed.

Lemma sim_db pc f a :
  sim pc f a →
  p_world f = p_world a ∧ p_logs f = p_logs a ∧ wal_ (p_db f) = wal_ (p_db a) ∧
  initialized_ (p_db f) = initialized_ (p_db a) ∧
  next_transaction_id_ (p_db f) = next_transaction_id_ (p_db a) ∧
  length (p_txns f) = length (p_txns a).
Proof.
  destruct pc as [| | |c old|c old|c old []|c old []| |]; cbn; try (by intros ->);
    destruct c; cbn; try (by intros [-> ?]); try (by intros ->);
    first [intros -> | intros [-> _]]; cbn; by rewrite length_alter.
Qed.

Lemma txn_at_over d u b s t tx p l :
  txn_at s t tx p l → ∃ tx', txn_at (over d u b s) t tx' p l ∧ tx_id_ tx' = tx_id_ tx.
Proof.
  intros [Et Ew El]. eexists. split; [split; [by rewrite lookup_over, Et|..]|]; try done;
    by case_decide.
Qed.

Lemma txn_over_at d u b s t tx p l :
  txn_at (over d u b s) t tx p l → ∃ tx', txn_at s t tx' p l ∧ tx_id_ tx' = tx_id_ tx.
Proof.
  intros [Et Ew El]. rewrite lookup_over in Et. apply fmap_Some in Et as (tx' & Et & ->).
  exists tx'. split; [split; [done| |done]|]; revert Ew; by case_decide.
Qed.

Lemma sim_txn_at pc f a t tx p l :
  sim pc f a → txn_at a t tx p l → ∃ tx', txn_at f t tx' p l ∧ tx_id_ tx' = tx_id_ tx.
Proof.
  destruct pc as [| | |c old|c old|c old []|c old []| |]; cbn; try (intros ->; by eauto);
    destruct c; cbn; try (intros [-> _]; by eauto); try (intros ->; by eauto);
    first [intros ->; apply txn_over_at | intros [-> _]; apply txn_at_over].
Qed.

(** ** Who writes *)

Definition writer_of (k : Locks) (pcs : nat → Pc) : Pc := from_option pcs Idle (lk_writer k).

Lemma writer_self k pcs i pc :
  locks_ok k (upd i pc pcs) → held pc = LockedExclusive → writer_of k (upd i pc pcs) = pc.
Proof.
  intros H E. unfold writer_of. rewrite (proj2 (lo_writer _ _ H i)); cbn; by rewrite upd_eq.
Qed.

Lemma writer_same k k' pcs i pc :
  locks_ok k pcs → locks_ok k' (upd i pc pcs) →
  held pc ≠ LockedExclusive → held (pcs i) ≠ LockedExclusive →
  writer_of k' (upd i pc pcs) = writer_of k pcs.
Proof.
  intros [Hw _ _ _] [Hw' _ _ _] E E0. unfold writer_of.
  destruct (lk_writer k') as [j|] eqn:Ej.
  - pose proof (proj1 (Hw' j) eq_refl) as Hj.
    assert (i ≠ j) as Hne by (intros <-; by rewrite upd_eq in Hj).
    rewrite upd_ne in Hj by done. rewrite (proj2 (Hw j) Hj). cbn. by rewrite upd_ne.
  - destruct (lk_writer k) as [j|] eqn:Ej'; [|done].
    pose proof (proj1 (Hw j) eq_refl) as Hj.
    assert (i ≠ j) as Hne by (intros <-; congruence).
    by rewrite <- (upd_ne i j pc), <- Hw' in Hj.
Qed.

Lemma writer_none k pcs : lk_writer k = None → writer_of k pcs = Idle.
Proof. intros E. unfold writer_of. by rewrite E. Qed.

Lemma writer_none_reader k pcs i :
  locks_ok k pcs → held (pcs i) = LockedShared → lk_writer k = None.
Proof.
  intros [_ Hr _ Hx] E. destruct (lk_writer k) eqn:Ew; [|done].
  apply (proj2 (Hr i)) in E. rewrite Hx in E by done. set_solver.
Qed.

(** The writer is another thread, and its transaction another one. *)
Lemma writer_txn st i t :
  control st → held (pc_at st i) ≠ LockedExclusive → pc_txn (pc_at st i) = Some t →
  pc_txn (writer_at st) ≠ Some t.
Proof.
  intros [Hl _ Ht _] Hi Et E. unfold writer_at in E.
  destruct (lk_writer (th_locks st)) as [j|] eqn:Ej; cbn in E; [|done].
  pose proof (Ht _ _ _ Et E) as ->. apply Hi, Hl, Ej.
Qed.
End Data.

(** ** What the pieces compute *)

Section Pieces.
Implicit Types (s f a : Process).

Lemma body_begin f :
  initialized_ (p_db f) = true →
  body CallBegin f = (Val (inl (ReplyTxn (Some (length (p_txns f))))), begun f).
Proof. intros Hi. cbn [body]. unfold mbind, M_bind. by rewrite begin_step. Qed.

Lemma call_begin a :
  initialized_ (p_db a) = true →
  call_op CallBegin a = (Val (ReplyTxn (Some (length (p_txns a)))), begun a).
Proof. intros Hi. cbn [call_op]. unfold mbind, M_bind. by rewrite begin_step. Qed.

(** A read gives what the whole operation gives. *)
Lemma body_read c s :
  lock_mode c = LockedShared → mutex_ (p_db s) = Unlocked →
  ∃ r w, body c s = (Val (inl r), mkProcess w (p_logs s) (p_txns s) (p_db s)) ∧
    call_op c s = (Val r, mkProcess w (p_logs s) (p_txns s) (p_db s)).
Proof.
  intros Hc Hm. destruct s as [w ls ts [d m dir ini nid wal]]. cbn in Hm. subst.
  destruct c; try done.
  - eexists _, w. split; [reflexivity|]. cbn [call_op]. unfold mbind, M_bind.
    rewrite get_step by done. cbn. by destruct (_ !! key).
  - eexists _, (walk_map d w).2. split; [reflexivity|]. cbn [call_op].
    unfold mbind, M_bind, PersistentTransaction_scan. dbsimpl. reflexivity.
Qed.

Lemma body_commit t f tx :
  p_txns f !! t = Some tx →
  body (CallCommit t) f =
    (Val (if tx_has_writes_ tx then inr "" else inl (ReplyResult OperationResult.SUCCESS)), f).
Proof. intros E. cbn [body]. unfold mbind, M_bind, deref. rewrite E. done. Qed.

Lemma body_put t k v f tx :
  p_txns f !! t = Some tx → body (CallPut t k v) f = (Val (inr ""), unlogged (CallPut t k v) f).
Proof. intros E. cbn [body]. dbsimpl. by rewrite E. Qed.

Lemma body_del t k f tx :
  p_txns f !! t = Some tx →
  body (CallDel t k) f =
    match data_ (p_db f) !! k with
    | None => (Val (inl (ReplyResult OperationResult.KEY_NOT_FOUND)), f)
    | Some old => (Val (inr old), unlogged (CallDel t k) f)
    end.
Proof.
  intros E. cbn [body]. dbsimpl. rewrite E. mcbn. by destruct (data_ (p_db f) !! k).
Qed.

Lemma call_del_missing t k a tx p l :
  mutex_ (p_db a) = Unlocked → txn_at a t tx p l → data_ (p_db a) !! k = None →
  call_op (CallDel t k) a = (Val (ReplyResult OperationResult.KEY_NOT_FOUND), a).
Proof.
  intros Hm Ht Hk. cbn [call_op]. unfold mbind, M_bind. by rewrite (del_step_missing _ _ _ _ _ _ Hm Ht Hk).
Qed.

(** [append_record], run on the shared process and within the whole operation on the
    explanation. *)
Lemma log_body_step c t f tx p l b w' l' :
  call_txn c = Some t → txn_at f t tx p l →
  append_record (log_record c (tx_id_ tx)) (p_world f, l) = (Val b, (w', l')) →
  log_body c f = (Val b, relogged w' (<[p := l']> (p_logs f)) f).
Proof.
  intros Ec [Et Ew El] Ea. unfold log_body. rewrite Ec. unfold mbind, M_bind, deref. rewrite Et, Ew.
  by rewrite (on_wal_step _ _ _ _ _ _ _ El Ea).
Qed.

Lemma call_logged c old t a tx p l b w' l' :
  logs c = true → call_txn c = Some t → mutex_ (p_db a) = Unlocked → txn_at a t tx p l →
  is_old c old a → (c = CallCommit t → tx_has_writes_ tx = true) →
  append_record (log_record c (tx_id_ tx)) (p_world a, l) = (Val b, (w', l')) →
  call_op c a = (Val (logged_reply b),
    let s := relogged w' (<[p := l']> (p_logs a)) (unlogged c a) in
    if b then s else undone c old s).
Proof.
  intros Hl Ec Hm Ht Hold Hh Ea. destruct c; try done; cbn in Ec; injection Ec as ->;
    cbn [call_op log_record] in *; unfold mbind, M_bind.
  - rewrite (put_step _ _ _ _ _ _ _ _ _ _ Hm Ht Ea). destruct b; [done|].
    cbn. unfold over, relogged. cbn. by rewrite alter_has_writes, delete_insert_eq.
  - rewrite (del_step _ _ _ _ _ _ _ _ _ _ Hm Ht Hold Ea). destruct b; [done|].
    cbn. unfold over, relogged. cbn. by rewrite alter_has_writes, insert_delete_id.
  - rewrite (commit_step _ _ _ _ _ _ _ _ Ht (Hh eq_refl) Ea). by destruct b.
Qed.

Lemma undo_step c old t f :
  call_txn c = Some t → undo c old f = (Val tt, undone c old f).
Proof. intros Ec. destruct c; try done. Qed.

Lemma opened_over d t b a p : opened a p → opened (over d t b a) p.
Proof. by intros []. Qed.
Lemma opened_begun a p : opened a p → opened (begun a) p.
Proof. by intros []. Qed.
Lemma opened_relogged a p l l' w :
  p_logs a !! p = Some l → log_idle l' → opened a p → opened (relogged w (<[p := l']> (p_logs a)) a) p.
Proof.
  intros El Hl []. split; cbn; try done. exists l'. split; [|done].
  apply list_lookup_insert_eq. by eapply lookup_lt_Some.
Qed.

Lemma opened_txn a p t : opened a p → current_txn a t → ∃ tx l, txn_at a t tx p l ∧ log_idle l.
Proof. intros [_ _ Hw (l & El & Hl)] (tx & Et & E). exists tx, l. split; [split; congruence|done]. Qed.
End Pieces.

(** ** Every step is explained *)

Section Steps.
Context (s0 : Process) (p : nat).
Implicit Types (s f a : Process) (st : Threads) (pc : Pc).

(** Transactions are never lost, and keep everything but perhaps [has_writes_] of the ones
    that [mine] allows. *)
Definition keeps_txns (mine : option nat) (a a' : Process) : Prop :=
  (∀ t, current_txn a t → current_txn a' t) ∧
  (∀ t tx, mine ≠ Some t → p_txns a !! t = Some tx → p_txns a' !! t = Some tx).

Lemma keeps_txns_refl mine a : keeps_txns mine a a.
Proof. by split. Qed.

Lemma keeps_txns_over d t b a : keeps_txns (Some t) a (over d t b a).
Proof.
  split; intros u; [by apply current_over|]. intros tx Hu E. by rewrite lookup_over_ne.
Qed.

Lemma keeps_txns_relogged mine w ls a : keeps_txns mine a (relogged w ls a).
Proof. by split. Qed.

Lemma keeps_txns_begun mine a : keeps_txns mine a (begun a).
Proof.
  split.
  - intros t (tx & E & Hw). exists tx. split; [by apply lookup_app_l_Some|done].
  - intros t tx _ E. by apply lookup_app_l_Some.
Qed.

Lemma keeps_commits mine a a' pc :
  keeps_txns mine a a' → (∀ t, mine = Some t → pc_txn pc ≠ Some t) → commits a pc → commits a' pc.
Proof.
  intros [_ Hk] Hm. unfold pc_txn in Hm. destruct pc as [| | |c ?|c ?| | | |]; try done; destruct c; try done;
    cbn; intros (tx & E & Hh); exists tx; split; [|done|..|done]; apply Hk; try done;
    destruct mine; try done; intros [= ->]; by eapply Hm.
Qed.

(** Thread [i] goes to [pc]; the locks become [k], the shared process [f], the explanation
    [a']. *)
Lemma explained_goto st a i pc pc0 k f a' es :
  explained s0 p st a → th_pcs st !! i = Some pc0 →
  control (mkThreads f k (<[i := pc]> (th_pcs st)) (th_events st ++ es)) →
  opened a' p → atomically s0 (effects (th_events st ++ es)) a' →
  sim (writer_of k (upd i pc (pc_at st))) f a' →
  keeps_txns (pc_txn pc0) a a' →
  (∀ t, pc_txn pc = Some t → current_txn a' t) → commits a' pc →
  explained s0 p (mkThreads f k (<[i := pc]> (th_pcs st)) (th_events st ++ es)) a'.
Proof.
  intros [Hc _ _ _ Ht Hm] Hi Hc' Ho He Hs Hk Hpc Hcm. pose proof (pc_at_lookup _ _ _ Hi) as Epc.
  assert (∀ j, pc_at (mkThreads f k (<[i := pc]> (th_pcs st)) (th_events st ++ es)) j
               = upd i pc (pc_at st) j) as Hat by (intros j; by apply (pc_at_goto st i j pc pc0)).
  split; try done.
  - unfold writer_at. cbn [th_locks]. unfold writer_of in Hs.
    destruct (lk_writer k); cbn in *; by rewrite ?Hat.
  - intros j t. rewrite Hat. unfold upd. case_decide; [by auto|]. intros E. apply Hk. eauto.
  - intros j. rewrite Hat. unfold upd. case_decide; [done|]. eapply keeps_commits; [exact Hk| |apply Hm].
    intros t E0 Ej. rewrite <- Epc in E0. by eapply (ct_txns _ Hc) in E0; [|exact Ej].
Qed.

(** The writer after a step that is not a change of the writer. *)
Lemma sim_other st a i pc pc0 k :
  explained s0 p st a → th_pcs st !! i = Some pc0 → locks_ok k (upd i pc (pc_at st)) →
  held pc ≠ LockedExclusive → held pc0 ≠ LockedExclusive →
  writer_of k (upd i pc (pc_at st)) = writer_at st.
Proof.
  intros He Hi Hk E E0. pose proof (pc_at_lookup _ _ _ Hi) as Epc.
  eapply writer_same; [apply He|done..|by rewrite Epc].
Qed.

Lemma sim_writer st a i pc0 :
  explained s0 p st a → th_pcs st !! i = Some pc0 → held pc0 = LockedExclusive →
  sim pc0 (th_shared st) a.
Proof.
  intros He Hi E. pose proof (pc_at_lookup _ _ _ Hi) as Epc. rewrite <- Epc in E |- *.
  pose proof (ex_sim _ _ _ _ He) as Hs. unfold writer_at in Hs.
  by rewrite (proj2 (lo_writer _ _ (ct_locks _ (ex_control _ _ _ _ He)) i) E) in Hs.
Qed.

(** Without a writer, and so under a shared lock, the shared process is explained as it is. *)
Lemma sim_reader st a i pc0 :
  explained s0 p st a → th_pcs st !! i = Some pc0 → held pc0 = LockedShared → th_shared st = a.
Proof.
  intros He Hi E. pose proof (pc_at_lookup _ _ _ Hi) as Epc. rewrite <- Epc in E.
  pose proof (ex_sim _ _ _ _ He) as Hs. unfold writer_at in Hs.
  by rewrite (writer_none_reader _ _ _ (ct_locks _ (ex_control _ _ _ _ He)) E) in Hs.
Qed.

(** The form of every step. *)
Definition stepped (i : nat) (pc : Pc) (k : Locks) (f : Process) (es : list Event) (st : Threads)
    : Threads := mkThreads f k (<[i := pc]> (th_pcs st)) (th_events st ++ es).

Lemma goto_stepped i pc k f st :
  goto i pc (set_locks k (set_shared f st)) = stepped i pc k f [] st.
Proof. unfold stepped. by rewrite app_nil_r. Qed.

(** A step that changes neither the data nor the effects. *)
Lemma explained_silent st a i pc pc0 k es :
  explained s0 p st a → th_pcs st !! i = Some pc0 →
  control (stepped i pc k (th_shared st) es st) → effects es = [] → locks_ok k (upd i pc (pc_at st)) →
  (held pc = LockedExclusive → sim pc (th_shared st) a) →
  (held pc0 = LockedExclusive → held pc ≠ LockedExclusive → lk_writer k = None ∧ th_shared st = a) →
  (∀ t, pc_txn pc = Some t → pc_txn pc0 = Some t ∨ current_txn a t) → commits a pc →
  explained s0 p (stepped i pc k (th_shared st) es st) a.
Proof.
  intros H Hi Hc He Hk H1 H2 Ht Hcm. pose proof (pc_at_lookup _ _ _ Hi) as Epc.
  apply (explained_goto st a i pc pc0); try done; try apply H.
  - unfold effects in *. rewrite omap_app, He, app_nil_r. apply H.
  - destruct (decide (held pc = LockedExclusive)) as [D|D].
    + rewrite writer_self by done. auto.
    + destruct (decide (held pc0 = LockedExclusive)) as [D0|D0].
      * destruct (H2 D0 D) as [Ew ->]. by rewrite writer_none.
      * rewrite (sim_other _ _ _ _ _ _ H Hi Hk D D0). apply H.
  - intros t E. destruct (Ht t E) as [E0|]; [|done]. eapply (ex_txns _ _ _ _ H i). by rewrite Epc.
Qed.

Lemma runs_explained st a i pc0 c r a' :
  explained s0 p st a → th_pcs st !! i = Some pc0 → pc_call pc0 = Some c →
  call_op c a = (Val r, a') → call_runs c a r a'.
Proof.
  intros H Hi Ec E. split; [|done]. intros t Et. apply (ex_txns _ _ _ _ H i).
  rewrite (pc_at_lookup _ _ _ Hi). unfold pc_txn. by rewrite Ec.
Qed.

(** A call takes effect, by a thread that does not hold [mutex_] exclusively, on the shared
    process and the explanation alike. *)
Lemma explained_effect st a i pc pc0 f a' c r :
  explained s0 p st a → th_pcs st !! i = Some pc0 →
  control (stepped i pc (th_locks st) f [Effected i c r] st) →
  opened a' p → pc_call pc0 = Some c → call_op c a = (Val r, a') →
  locks_ok (th_locks st) (upd i pc (pc_at st)) →
  held pc ≠ LockedExclusive → held pc0 ≠ LockedExclusive → sim (writer_at st) f a' →
  keeps_txns (pc_txn pc0) a a' → pc_txn pc = pc_txn pc0 → commits a' pc →
  explained s0 p (stepped i pc (th_locks st) f [Effected i c r] st) a'.
Proof.
  intros H Hi Hc Ho Epc0 Ec Hk D D0 Hs Hkt Ht Hcm. pose proof (pc_at_lookup _ _ _ Hi) as Epc.
  apply (explained_goto st a i pc pc0); try done.
  - rewrite effects_snoc. eapply atomically_snoc; [apply H|]. by eapply runs_explained.
  - by rewrite (sim_other _ _ _ _ _ _ H Hi Hk D D0).
  - intros t E. apply Hkt. eapply (ex_txns _ _ _ _ H i). by rewrite Epc, <- Ht.
Qed.

(** The same by the writer: the effect is explained by what it leaves. *)
Lemma explained_writer st a i pc pc0 f a' es :
  explained s0 p st a → th_pcs st !! i = Some pc0 →
  control (stepped i pc (th_locks st) f es st) → opened a' p →
  (effects es = [] ∧ a' = a ∨
   ∃ c r, effects es = [(c, r)] ∧ pc_call pc0 = Some c ∧ call_op c a = (Val r, a')) →
  locks_ok (th_locks st) (upd i pc (pc_at st)) →
  held pc = LockedExclusive → sim pc f a' →
  keeps_txns (pc_txn pc0) a a' → pc_txn pc = pc_txn pc0 → commits a' pc →
  explained s0 p (stepped i pc (th_locks st) f es st) a'.
Proof.
  intros H Hi Hc Ho He Hk D Hs Hkt Ht Hcm. pose proof (pc_at_lookup _ _ _ Hi) as Epc.
  apply (explained_goto st a i pc pc0); try done.
  - unfold effects in *. rewrite omap_app. destruct He as [[-> ->]|(c & r & -> & E0 & E)].
    + rewrite app_nil_r. apply H.
    + eapply atomically_snoc; [apply H|]. by eapply runs_explained.
  - by rewrite writer_self.
  - intros t E. apply Hkt. eapply (ex_txns _ _ _ _ H i). by rewrite Epc, <- Ht.
Qed.

(** [control] for a step of the same call. *)
Lemma control_stepped st i pc pc0 k f es :
  control st → th_pcs st !! i = Some pc0 → locks_ok k (upd i pc (pc_at st)) → pc_shape pc →
  (pc = Idle ∨ pc_call pc = pc_call pc0) →
  ((es = [] ∧ pc_phase pc = pc_phase pc0) ∨
   ∃ e, es = [e] ∧ event_thread e = i ∧ next_phase i (Some (pc_phase pc0)) e = Some (pc_phase pc)) →
  control (stepped i pc k f es st).
Proof.
  intros Hc Hi Hk Hs Ht Hes. apply (control_goto st i pc pc0); try done.
  intros t E. left. destruct Ht as [->|Ht]; [done|]. unfold pc_txn in *. by rewrite <- Ht.
Qed.

(** *** The cases *)

Ltac phases := first [by left | right; eexists; (split; [reflexivity|]); split; [reflexivity|];
  cbn; rewrite !decide_True by done; done].

Lemma case_acquire st a i c k :
  explained s0 p st a → th_pcs st !! i = Some (Entered c) →
  acquire (lock_mode c) i (th_locks st) = Some k →
  explained s0 p (goto i (Inside c) (set_locks k st)) a.
Proof.
  intros H Hi Ha. pose proof (pc_at_lookup _ _ _ Hi) as Epc.
  pose proof (ex_control _ _ _ _ H) as Hc.
  assert (locks_ok k (upd i (Inside c) (pc_at st))) as Hk.
  { eapply locks_acquire; [..|exact Ha|apply Hc]; by rewrite ?Epc. }
  change (goto i (Inside c) (set_locks k st))
    with (goto i (Inside c) (set_locks k (set_shared (th_shared st) st))).
  rewrite goto_stepped. apply (explained_silent st a i _ (Entered c)); try done; cbn.
  - eapply control_stepped; try done; [by right|phases].
  - intros E. rewrite E in Ha. cbn in Ha. pose proof (ex_sim _ _ _ _ H) as Hs.
    unfold writer_at in Hs. by destruct (lk_writer (th_locks st)).
  - auto.
Qed.

Lemma case_release st a i c r :
  explained s0 p st a → th_pcs st !! i = Some (Finished c r) →
  explained s0 p (goto i (Returning c r) (set_locks (release (lock_mode c) i (th_locks st)) st)) a.
Proof.
  intros H Hi. pose proof (pc_at_lookup _ _ _ Hi) as Epc.
  pose proof (ex_control _ _ _ _ H) as Hc.
  set (k := release (lock_mode c) i (th_locks st)).
  assert (locks_ok k (upd i (Returning c r) (pc_at st))) as Hk.
  { unfold k. replace (lock_mode c) with (held (pc_at st i)) by (by rewrite Epc).
    apply locks_release; [done|by rewrite Epc|apply Hc]. }
  change (goto i (Returning c r) (set_locks k st))
    with (goto i (Returning c r) (set_locks k (set_shared (th_shared st) st))).
  rewrite goto_stepped. apply (explained_silent st a i _ (Finished c r)); try done; cbn.
  - eapply control_stepped; try done; [by right|phases].
  - intros E _. split; [unfold k; by rewrite E|]. exact (sim_writer _ _ _ _ H Hi E).
  - auto.
Qed.

Lemma case_return st a i c r :
  explained s0 p st a → th_pcs st !! i = Some (Returning c r) →
  explained s0 p (happens (Returned i c r) (goto i Idle st)) a.
Proof.
  intros H Hi. pose proof (pc_at_lookup _ _ _ Hi) as Epc.
  pose proof (ex_control _ _ _ _ H) as Hc.
  assert (locks_ok (th_locks st) (upd i Idle (pc_at st))) as Hk.
  { apply locks_same; [by rewrite Epc..|apply Hc]. }
  change (happens (Returned i c r) (goto i Idle st))
    with (stepped i Idle (th_locks st) (th_shared st) [Returned i c r] st).
  apply (explained_silent st a i _ (Returning c r)); try done; cbn.
  eapply control_stepped; try done; [by left|phases].
Qed.

Lemma case_call st a i c :
  explained s0 p st a → th_pcs st !! i = Some Idle → may_call c st →
  explained s0 p (happens (Called i c) (goto i (Entered c) st)) a.
Proof.
  intros H Hi Hm. pose proof (pc_at_lookup _ _ _ Hi) as Epc.
  pose proof (ex_control _ _ _ _ H) as Hc.
  assert (locks_ok (th_locks st) (upd i (Entered c) (pc_at st))) as Hk.
  { apply locks_same; [by rewrite Epc..|apply Hc]. }
  change (happens (Called i c) (goto i (Entered c) st))
    with (stepped i (Entered c) (th_locks st) (th_shared st) [Called i c] st).
  apply (explained_silent st a i _ Idle); try done; cbn.
  - apply (control_goto st i _ Idle); try done; [|phases].
    intros t E. right. intros j. destruct (th_pcs st !! j) as [pc|] eqn:Ej.
    + rewrite (pc_at_lookup _ _ _ Ej). exact (proj1 (Forall_lookup _ _) (proj2 (Hm t E)) _ _ Ej).
    + unfold pc_at. by rewrite Ej.
  - intros t E. right. rewrite <- (sim_current (writer_at st)); [by apply Hm|apply H].
Qed.

Lemma case_log_lock st a i c old :
  explained s0 p st a → th_pcs st !! i = Some (Logging c old) → lk_log (th_locks st) = None →
  explained s0 p
    (goto i (LogLocked c old) (set_locks (set_log_owner (Some i) (th_locks st)) st)) a.
Proof.
  intros H Hi Hl. pose proof (pc_at_lookup _ _ _ Hi) as Epc.
  pose proof (ex_control _ _ _ _ H) as Hc.
  set (k := set_log_owner (Some i) (th_locks st)).
  assert (locks_ok k (upd i (LogLocked c old) (pc_at st))) as Hk.
  { apply locks_log_taken; [done|by rewrite Epc|done|apply Hc]. }
  change (goto i (LogLocked c old) (set_locks k st))
    with (goto i (LogLocked c old) (set_locks k (set_shared (th_shared st) st))).
  rewrite goto_stepped. apply (explained_silent st a i _ (Logging c old)); try done; cbn.
  - eapply control_stepped; try done; [|by right|phases].
    change (pc_shape (Logging c old)). rewrite <- Epc. apply Hc.
  - exact (sim_writer _ _ _ _ H Hi).
  - auto.
  - change (commits a (Logging c old)). rewrite <- Epc. apply H.
Qed.

Lemma case_log_unlock st a i c old ok :
  explained s0 p st a → th_pcs st !! i = Some (LogWritten c old ok) →
  explained s0 p
    (goto i (LogUnlocked c old ok) (set_locks (set_log_owner None (th_locks st)) st)) a.
Proof.
  intros H Hi. pose proof (pc_at_lookup _ _ _ Hi) as Epc.
  pose proof (ex_control _ _ _ _ H) as Hc.
  set (k := set_log_owner None (th_locks st)).
  assert (locks_ok k (upd i (LogUnlocked c old ok) (pc_at st))) as Hk.
  { apply locks_log_released; [by rewrite Epc..|done|apply Hc]. }
  change (goto i (LogUnlocked c old ok) (set_locks k st))
    with (goto i (LogUnlocked c old ok) (set_locks k (set_shared (th_shared st) st))).
  rewrite goto_stepped. apply (explained_silent st a i _ (LogWritten c old ok)); try done; cbn.
  - eapply control_stepped; try done; [|by right|phases].
    change (pc_shape (LogWritten c old ok)). rewrite <- Epc. apply Hc.
  - exact (sim_writer _ _ _ _ H Hi).
  - auto.
Qed.

(** What a thread does at a step that computes: it succeeds, and leaves an explained state. *)
Definition after_body (i : nat) (c : Call) (st : Threads) (x : Reply + string) (s : Process) : Threads :=
  match x with
  | inl r => happens (Effected i c r) (goto i (Finished c r) (set_shared s st))
  | inr old => goto i (Logging c old) (set_shared s st)
  end.

Lemma shared_stepped i pc s st :
  goto i pc (set_shared s st) = stepped i pc (th_locks st) s [] st.
Proof. unfold stepped. by rewrite app_nil_r. Qed.

Lemma locks_here st i pc pc0 :
  control st → th_pcs st !! i = Some pc0 → held pc = held pc0 → holds_log pc = holds_log pc0 →
  locks_ok (th_locks st) (upd i pc (pc_at st)).
Proof.
  intros Hc Hi E1 E2. pose proof (pc_at_lookup _ _ _ Hi) as Epc.
  apply locks_same; [by rewrite Epc..|apply Hc].
Qed.

Ltac here H Hi :=
  lazymatch type of H with explained _ _ ?st _ =>
    apply (locks_here st _ _ _ (ex_control _ _ _ _ H) Hi); reflexivity end.

(** The transaction of a call under way, in the shared process and in the explanation. *)
Lemma txn_explained st a i c t pc0 :
  explained s0 p st a → th_pcs st !! i = Some pc0 → pc_call pc0 = Some c → call_txn c = Some t →
  ∃ tx l, txn_at a t tx p l ∧ log_idle l.
Proof.
  intros H Hi Ec Et. pose proof (pc_at_lookup _ _ _ Hi) as Epc. apply opened_txn; [apply H|].
  apply (ex_txns _ _ _ _ H i). rewrite Epc. unfold pc_txn. by rewrite Ec.
Qed.

Lemma txn_shared st a i c t pc0 :
  explained s0 p st a → th_pcs st !! i = Some pc0 → pc_call pc0 = Some c → call_txn c = Some t →
  held pc0 ≠ LockedExclusive → p_txns (th_shared st) !! t = p_txns a !! t.
Proof.
  intros H Hi Ec Et D. pose proof (pc_at_lookup _ _ _ Hi) as Epc.
  eapply sim_lookup; [apply H|]. apply (writer_txn st i); [apply H|by rewrite Epc|].
  rewrite Epc. unfold pc_txn. by rewrite Ec.
Qed.

Lemma case_body_begin st a i :
  explained s0 p st a → th_pcs st !! i = Some (Inside CallBegin) →
  ∃ x s a', body CallBegin (th_shared st) = (Val x, s) ∧
    explained s0 p (after_body i CallBegin st x s) a'.
Proof.
  intros H Hi. pose proof (ex_opened _ _ _ _ H) as Ho. pose proof (ex_sim _ _ _ _ H) as Hs.
  destruct (sim_db _ _ _ Hs) as (_ & _ & _ & Einit & _ & Elen).
  eexists _, _, (begun a). split; [apply body_begin; rewrite Einit; apply Ho|].
  change (explained s0 p (stepped i (Finished CallBegin (ReplyTxn (Some (length (p_txns (th_shared st))))))
    (th_locks st) (begun (th_shared st))
    [Effected i CallBegin (ReplyTxn (Some (length (p_txns (th_shared st)))))] st) (begun a)).
  assert (∀ r, locks_ok (th_locks st) (upd i (Finished CallBegin r) (pc_at st))) as Hk
    by (intros r; here H Hi).
  eapply explained_effect; try done.
  - eapply control_stepped; try done; [apply H|by right|phases].
  - by apply opened_begun.
  - rewrite Elen. apply call_begin, Ho.
  - apply sim_begun; [|done]. intros t Et.
    destruct (lk_writer (th_locks st)) as [j|] eqn:Ej; unfold writer_at in Et; rewrite Ej in Et; [|done].
    pose proof (ex_txns _ _ _ _ H j t Et) as Ha. split; [|destruct Ha as (? & ? & _); by eexists].
    apply (sim_current _ _ _ _ Hs) in Ha. destruct Ha as (? & ? & _). by eexists.
  - apply keeps_txns_begun.
Qed.

Lemma case_body_read st a i c :
  lock_mode c = LockedShared →
  explained s0 p st a → th_pcs st !! i = Some (Inside c) →
  ∃ x s a', body c (th_shared st) = (Val x, s) ∧ explained s0 p (after_body i c st x s) a'.
Proof.
  intros D H Hi. pose proof (ex_opened _ _ _ _ H) as Ho.
  pose proof (sim_reader _ _ _ _ H Hi D) as Ef.
  destruct (body_read c a D (op_mutex _ _ Ho)) as (r & w & Eb & Ec).
  exists (inl r), (mkProcess w (p_logs a) (p_txns a) (p_db a)), (mkProcess w (p_logs a) (p_txns a) (p_db a)).
  split; [by rewrite Ef; exact Eb|].
  change (explained s0 p (stepped i (Finished c r) (th_locks st)
    (mkProcess w (p_logs a) (p_txns a) (p_db a)) [Effected i c r] st)
    (mkProcess w (p_logs a) (p_txns a) (p_db a))).
  assert (locks_ok (th_locks st) (upd i (Finished c r) (pc_at st))) as Hk by here H Hi.
  eapply explained_effect; try done; cbn; try congruence.
  - eapply control_stepped; try done; [apply H|by right|phases].
  - by destruct Ho.
  - assert (lk_writer (th_locks st) = None) as Ew.
    { eapply writer_none_reader; [apply H|]. rewrite (pc_at_lookup _ _ _ Hi). exact D. }
    unfold writer_at. by rewrite Ew.
Qed.

Lemma case_body_commit st a i t :
  explained s0 p st a → th_pcs st !! i = Some (Inside (CallCommit t)) →
  ∃ x s a', body (CallCommit t) (th_shared st) = (Val x, s) ∧
    explained s0 p (after_body i (CallCommit t) st x s) a'.
Proof.
  intros H Hi. destruct (txn_explained _ _ _ _ t _ H Hi eq_refl eq_refl) as (tx & l & Hat & Hl).
  pose proof (ta_txn _ _ _ _ _ Hat) as Etx.
  assert (p_txns (th_shared st) !! t = Some tx) as Etx'.
  { rewrite (txn_shared _ _ _ _ _ _ H Hi eq_refl eq_refl) by done. done. }
  eexists _, _, a. split; [by apply body_commit|].
  assert (∀ old, locks_ok (th_locks st) (upd i (Logging (CallCommit t) old) (pc_at st))) as Hk
    by (intros; here H Hi).
  assert (∀ r, locks_ok (th_locks st) (upd i (Finished (CallCommit t) r) (pc_at st))) as Hk'
    by (intros; here H Hi).
  destruct (tx_has_writes_ tx) eqn:Hh; cbn [after_body].
  - rewrite shared_stepped. eapply explained_silent; try done; cbn.
    + eapply control_stepped; try done; [apply H|by right|phases].
    + auto.
    + by exists tx.
  - change (explained s0 p (stepped i (Finished (CallCommit t) (ReplyResult OperationResult.SUCCESS))
      (th_locks st) (th_shared st)
      [Effected i (CallCommit t) (ReplyResult OperationResult.SUCCESS)] st) a).
    eapply explained_effect; try done; try apply H.
    + eapply control_stepped; try done; [apply H|by right|phases].
    + cbn [call_op]. unfold mbind, M_bind. by rewrite (commit_step_readonly t a tx).
Qed.

Lemma case_body_write st a i c t :
  lock_mode c = LockedExclusive → call_txn c = Some t →
  explained s0 p st a → th_pcs st !! i = Some (Inside c) →
  ∃ x s a', body c (th_shared st) = (Val x, s) ∧ explained s0 p (after_body i c st x s) a'.
Proof.
  intros D Et H Hi. pose proof (ex_opened _ _ _ _ H) as Ho.
  pose proof (sim_writer _ _ _ _ H Hi D) as Ef. cbn in Ef.
  destruct (txn_explained _ _ _ _ t _ H Hi eq_refl Et) as (tx & l & Hat & Hl).
  pose proof (ta_txn _ _ _ _ _ Hat) as Etx.
  assert (∀ old, locks_ok (th_locks st) (upd i (Logging c old) (pc_at st))) as Hk
    by (intros; here H Hi).
  assert (∀ old, logs c = true → is_old c old a → commits a (Logging c old) →
    explained s0 p (goto i (Logging c old) (set_shared (unlogged c a) st)) a) as Hlog.
  { intros old Hlogs Hold Hcm. rewrite shared_stepped. eapply explained_writer; try done.
    - eapply control_stepped; try done; [apply H|by right|phases].
    - by left. }
  destruct c; try done; cbn in Et; injection Et as ->.
  - eexists _, _, a. split; [by rewrite Ef; apply (body_put _ _ _ _ tx)|]. by apply Hlog.
  - rewrite Ef, (body_del t key a tx Etx). destruct (data_ (p_db a) !! key) as [old|] eqn:Hold.
    + eexists _, _, a. split; [done|]. by apply Hlog.
    + eexists _, _, a. split; [done|].
      change (explained s0 p (stepped i (Finished (CallDel t key) (ReplyResult OperationResult.KEY_NOT_FOUND))
        (th_locks st) a
        [Effected i (CallDel t key) (ReplyResult OperationResult.KEY_NOT_FOUND)] st) a).
      assert (∀ r, locks_ok (th_locks st) (upd i (Finished (CallDel t key) r) (pc_at st))) as Hk'
        by (intros; here H Hi).
      eapply explained_writer; try done.
      * eapply control_stepped; try done; [apply H|by right|phases].
      * right. eexists _, _. do 2 (split; [done|]). by apply (call_del_missing t key a tx p l (op_mutex _ _ Ho)).
Qed.

Lemma case_body st a i c :
  explained s0 p st a → th_pcs st !! i = Some (Inside c) →
  ∃ x s a', body c (th_shared st) = (Val x, s) ∧ explained s0 p (after_body i c st x s) a'.
Proof.
  destruct c; intros H Hi;
    [by apply (case_body_begin _ a)|by apply (case_body_read _ a)|by apply (case_body_write _ a _ _ t)
    |by apply (case_body_write _ a _ _ t)|by apply (case_body_read _ a)|by apply (case_body_commit _ a)].
Qed.

(** The writer's own step: the record reached the log, or the change is to be undone. *)
Lemma sim_logged c old a w ls b :
  is_old c old a →
  let s := relogged w ls (unlogged c a) in
  sim (LogWritten c old b) s (if b : bool then s else undone c old s).
Proof. intros Hold. destruct b; cbn; done. Qed.

Lemma keeps_txns_logged c old t a w ls b :
  call_txn c = Some t →
  let s := relogged w ls (unlogged c a) in
  keeps_txns (Some t) a (if b : bool then s else undone c old s).
Proof.
  intros Et. destruct c; cbn in Et; try done; injection Et as ->; destruct b; cbn; try done.
  all: split; [intros u Hu|intros u tx Hu E].
  all: rewrite <- ?over_relogged; repeat apply current_over; try done.
  all: rewrite ?lookup_over_ne; done.
Qed.

Lemma opened_logged c old a p' l l' w b :
  p_logs a !! p' = Some l → log_idle l' → opened a p' →
  let s := relogged w (<[p' := l']> (p_logs a)) (unlogged c a) in
  opened (if b : bool then s else undone c old s) p'.
Proof.
  intros El Hl Ho. pose proof (opened_relogged a p' l l' w El Hl Ho) as [].
  destruct c, b; cbn; by split.
Qed.

Lemma case_log st a i c old :
  explained s0 p st a → th_pcs st !! i = Some (LogLocked c old) →
  ∃ ok s a', log_body c (th_shared st) = (Val ok, s) ∧
    explained s0 p (happens (Effected i c (logged_reply ok))
                      (goto i (LogWritten c old ok) (set_shared s st))) a'.
Proof.
  intros H Hi. pose proof (pc_at_lookup _ _ _ Hi) as Epc. pose proof (ex_opened _ _ _ _ H) as Ho.
  pose proof (ex_sim _ _ _ _ H) as Hs. destruct (sim_db _ _ _ Hs) as (Ew & Els & _).
  pose proof (ct_shape _ (ex_control _ _ _ _ H) i) as Hlogs. rewrite Epc in Hlogs. cbn in Hlogs.
  assert (∃ t, call_txn c = Some t) as [t Et] by (destruct c; try done; eauto).
  destruct (txn_explained _ _ _ _ t _ H Hi eq_refl Et) as (tx & l & Hat & Hl).
  destruct (append_record_any (log_record c (tx_id_ tx)) (p_world a) l Hl)
    as (b & w' & l' & _ & Ea & Hsame & _).
  destruct (sim_txn_at _ _ _ _ _ _ _ Hs Hat) as (tx' & Hat' & Eid).
  pose proof (log_body_step c t (th_shared st) tx' p l b w' l' Et Hat') as Eb.
  rewrite Eid, Ew in Eb. specialize (Eb Ea). rewrite Els in Eb.
  set (s := relogged w' (<[p:=l']> (p_logs a)) (unlogged c a)).
  assert (is_old c old a) as Hold.
  { destruct c; try done. by apply (sim_writer _ _ _ _ H Hi). }
  assert (c = CallCommit t → tx_has_writes_ tx = true) as Hh.
  { intros ->. pose proof (ex_commits _ _ _ _ H i) as Hc. rewrite Epc in Hc.
    destruct Hc as (tx2 & E2 & Hh). rewrite (ta_txn _ _ _ _ _ Hat) in E2. by injection E2 as ->. }
  pose proof (call_logged c old t a tx p l b w' l' Hlogs Et (op_mutex _ _ Ho) Hat Hold Hh Ea) as Ec.
  assert (locks_ok (th_locks st) (upd i (LogWritten c old b) (pc_at st))) as Hk by here H Hi.
  exists b, (relogged w' (<[p:=l']> (p_logs a)) (th_shared st)), (if b then s else undone c old s).
  split; [exact Eb|].
  change (explained s0 p (stepped i (LogWritten c old b) (th_locks st)
    (relogged w' (<[p:=l']> (p_logs a)) (th_shared st)) [Effected i c (logged_reply b)] st)
    (if b then s else undone c old s)).
  assert (control (stepped i (LogWritten c old b) (th_locks st)
    (relogged w' (<[p:=l']> (p_logs a)) (th_shared st)) [Effected i c (logged_reply b)] st)) as Hct.
  { eapply control_stepped; try done; [apply H|by right|phases]. }
  assert (opened (if b then s else undone c old s) p) as Ho'
    by (apply (opened_logged c old a p l l' w' b); [apply Hat|by eapply same_log_idle|done]).
  assert (keeps_txns (pc_txn (LogLocked c old)) a (if b then s else undone c old s)) as Hkt.
  { unfold pc_txn. cbn. rewrite Et. by apply keeps_txns_logged. }
  destruct (decide (lock_mode c = LockedExclusive)) as [D|D].
  - destruct (sim_writer _ _ _ _ H Hi D) as [Ef _]. rewrite Ef in *.
    eapply explained_writer; try done; [by right; eexists _, _|by apply sim_logged].
  - eapply explained_effect; try done.
    destruct c; try done. subst s. destruct b; cbn; by apply sim_relogged.
Qed.

Lemma case_undo st a i c old ok :
  explained s0 p st a → th_pcs st !! i = Some (LogUnlocked c old ok) →
  ∃ s, (if ok : bool then mret tt else undo c old) (th_shared st) = (Val tt, s) ∧
    explained s0 p (goto i (Finished c (logged_reply ok)) (set_shared s st)) a.
Proof.
  intros H Hi. pose proof (pc_at_lookup _ _ _ Hi) as Epc.
  pose proof (ct_shape _ (ex_control _ _ _ _ H) i) as Hlogs. rewrite Epc in Hlogs. cbn in Hlogs.
  assert (∃ t, call_txn c = Some t) as [t Et] by (destruct c; try done; eauto).
  exists (if ok then th_shared st else undone c old (th_shared st)).
  split; [destruct ok; [done|by apply (undo_step _ _ t)]|]. rewrite shared_stepped.
  assert (locks_ok (th_locks st) (upd i (Finished c (logged_reply ok)) (pc_at st))) as Hk
    by here H Hi.
  assert (∀ s, control (stepped i (Finished c (logged_reply ok)) (th_locks st) s [] st)) as Hct.
  { intros s. eapply control_stepped; try done; [apply H|by right|phases]. }
  destruct (decide (lock_mode c = LockedExclusive)) as [D|D].
  - pose proof (sim_writer _ _ _ _ H Hi D) as Ef.
    eapply explained_writer; try done; [apply H|by left|]. destruct ok; cbn in *; congruence.
  - replace (if ok then _ else _) with (th_shared st) by (destruct c, ok; done).
    apply (explained_silent st a i _ (LogUnlocked c old ok)); try done; cbn. auto.
Qed.

(** ** Reachable states *)

Lemma explained_step st a st' :
  explained s0 p st a → threads_step st st' → ∃ a', explained s0 p st' a'.
Proof.
  intros H Hst. destruct Hst as [i c st Hi Hm|i st st' E].
  { eexists. by apply case_call. }
  unfold thread_step in E.
  destruct (th_pcs st !! i) as [[|c|c|c old|c old|c old ok|c old ok|c r|c r]|] eqn:Hi; try done.
  - destruct (acquire _ _ _) eqn:Ea; [|done]. injection E as <-. eexists. by eapply case_acquire.
  - destruct (case_body st a i c H Hi) as (x & s & a' & Eb & H'). rewrite Eb in E. exists a'.
    destruct x; injection E as <-; exact H'.
  - destruct (lk_log _) eqn:El; [done|]. injection E as <-. eexists. by eapply case_log_lock.
  - destruct (case_log st a i c old H Hi) as (ok & s & a' & Eb & H'). rewrite Eb in E.
    injection E as <-. by exists a'.
  - injection E as <-. eexists. by eapply case_log_unlock.
  - destruct (case_undo st a i c old ok H Hi) as (s & Eb & H'). rewrite Eb in E.
    injection E as <-. by exists a.
  - injection E as <-. eexists. by eapply case_release.
  - injection E as <-. eexists. by eapply case_return.
Qed.
End Steps.

Lemma explained_start n s p : opened s p → explained s p (threads_start n s) s.
Proof.
  intros Ho. assert (∀ i, pc_at (threads_start n s) i = Idle) as E.
  { intros i. unfold pc_at. cbn. destruct (replicate n Idle !! i) eqn:E; [|done].
    by apply lookup_replicate in E as [-> _]. }
  split; [apply control_start|done..| |]; intros; rewrite ?E in *; done.
Qed.

Lemma explained_reachable n s p st :
  opened s p → rtc threads_step (threads_start n s) st → ∃ a, explained s p st a.
Proof.
  intros Ho Hst. assert (∃ a, explained s p (threads_start n s) a) as Hex
    by (eexists; by apply explained_start).
  clear Ho. induction Hst as [|st1 st2 st3 H1 _ IH]; [done|]. apply IH.
  destruct Hex as [a Ha]. by eapply explained_step.
Qed.

(** Between the calls the shared process is the one that the effects give. *)
Lemma explained_quiet s p st a :
  explained s p st a → Forall (λ pc, pc = Idle) (th_pcs st) → th_shared st = a.
Proof.
  intros H Hq. pose proof (ex_sim _ _ _ _ H) as Hs. unfold writer_at in Hs.
  destruct (lk_writer (th_locks st)) as [i|]; [|done]. cbn in Hs.
  unfold pc_at in Hs. destruct (th_pcs st !! i) as [pc|] eqn:Hi; [|done].
  by rewrite (proj1 (Forall_lookup _ _) Hq _ _ Hi) in Hs.
Qed.
