(* ===== verification/LockingTheorems.v ===== *)
(** * What the locks guarantee

    Of the executions of [Locking.v], by the invariant of [LockingInvariant.v]: linearizability,
    the absence of data races and of deadlocks, the end of every call, and the recovery of the
    effects from the log at any moment. *)

From stdpp Require Import base gmap list strings relations.
From Stdlib Require Import ZArith Lia.
From S2P Require Import Prelude.
From S2P Require Import Framing.
From S2P Require Import WalRecord.
From S2P Require Import Effects.
From S2P Require Import Wal.
From S2P Require Import Interface.
From S2P Require Import Database.
From S2P Require Import Locking.
From S2P Require Import LockingInvariant.

(** ** Progress *)

(** What a thread has left to do. *)
Definition rank (pc : Pc) : nat :=
  match pc with
  | Idle => 0
  | Returning _ _ => 1
  | Finished _ _ => 2
  | LogUnlocked _ _ _ => 3
  | LogWritten _ _ _ => 4
  | LogLocked _ _ => 5
  | Logging _ _ => 6
  | Inside _ => 7
  | Entered _ => 8
  end%nat.
Definition work (st : Threads) : nat := sum_list_with rank (th_pcs st).

(** The threads run, and nobody makes a new call. *)
Definition runs (st st' : Threads) : Prop := ∃ i, thread_step i st = Some st'.

Definition quiet (st : Threads) : Prop := Forall (λ pc, pc = Idle) (th_pcs st).

Section Progress.
Implicit Types (st : Threads).

Lemma work_goto st i pc pc0 k s es :
  th_pcs st !! i = Some pc0 → (rank pc < rank pc0)%nat →
  (work (mkThreads s k (<[i := pc]> (th_pcs st)) es) < work st)%nat.
Proof.
  intros Hi Hr. unfold work. cbn. pose proof (sum_list_with_insert rank _ _ _ pc Hi). lia.
Qed.

Lemma runs_work st st' : runs st st' → (work st' < work st)%nat.
Proof.
  intros [i E]. unfold thread_step in E.
  destruct (th_pcs st !! i) as [[]|] eqn:Hi; try done; repeat case_match; try done;
    injection E as <-; apply (work_goto _ _ _ _ _ _ _ Hi); cbn; lia.
Qed.

Lemma runs_bounded n st st' : nsteps runs n st st' → (n + work st' <= work st)%nat.
Proof. induction 1 as [|n st1 st2 st3 H _ IH]; [lia|]. apply runs_work in H. lia. Qed.

Lemma work_bound st : (work st <= 8 * length (th_pcs st))%nat.
Proof.
  unfold work. induction (th_pcs st) as [|pc pcs IH]; [done|]. cbn [sum_list_with length].
  assert (rank pc <= 8)%nat by (destruct pc; cbn; lia). lia.
Qed.

(** Who waits, waits for a mutex; and who holds one the others may be waiting for, does not
    wait, or waits for the log's only, whose owner does not. *)
Lemma stuck_quiet s0 p st a :
  explained s0 p st a → (∀ i, thread_step i st = None) → quiet st.
Proof.
  intros H Hn. pose proof (ct_locks _ (ex_control _ _ _ _ H)) as Hk.
  assert (∀ i, pc_at st i = Idle ∨ (∃ c, pc_at st i = Entered c) ∨
               (∃ c old, pc_at st i = Logging c old)) as H3.
  { intros i. specialize (Hn i). unfold thread_step in Hn.
    destruct (th_pcs st !! i) as [pc|] eqn:Hi; [|left; unfold pc_at; by rewrite Hi].
    rewrite (pc_at_lookup _ _ _ Hi). destruct pc as [|c|c|c old|c old|c old ok|c old ok|c r|c r]; eauto.
    - destruct (case_body s0 p st a i c H Hi) as ([] & s & a' & Eb & _); by rewrite Eb in Hn.
    - destruct (case_log s0 p st a i c old H Hi) as (ok & s & a' & Eb & _). by rewrite Eb in Hn.
    - done.
    - destruct (case_undo s0 p st a i c old ok H Hi) as (s & Eb & _). by rewrite Eb in Hn.
    - done.
    - done. }
  assert (∀ i, pc_at st i = Idle ∨ ∃ c, pc_at st i = Entered c) as H2.
  { intros i. destruct (H3 i) as [|[|(c & old & E)]]; auto. exfalso.
    specialize (Hn i). unfold thread_step, pc_at in *. destruct (th_pcs st !! i) as [pc|]; cbn in E; [|done].
    subst pc. destruct (lk_log (th_locks st)) as [j|] eqn:El; [|done].
    apply (lo_log _ _ Hk) in El. unfold pc_at in El.
    destruct (H3 j) as [E|[[? E]|(? & ? & E)]]; unfold pc_at in E; by rewrite E in El. }
  assert (th_locks st = mkLocks None ∅ (lk_log (th_locks st))) as El.
  { destruct (th_locks st) as [w rs l]; cbn in *. f_equal.
    - destruct w as [j|]; [|done]. pose proof (proj1 (lo_writer _ _ Hk j) eq_refl) as E.
      destruct (H2 j) as [E'|[? E']]; by rewrite E' in E.
    - apply set_eq. intros j. pose proof (lo_readers _ _ Hk j) as E. cbn in E. rewrite E.
      destruct (H2 j) as [E'|[? E']]; rewrite E'; cbn; set_solver. }
  apply Forall_lookup. intros i pc Hi. destruct (H2 i) as [E|[c E]]; rewrite (pc_at_lookup _ _ _ Hi) in E; [done|].
  subst pc. specialize (Hn i). unfold thread_step in Hn. rewrite Hi, El in Hn. cbn in Hn.
  by destruct (lock_mode c).
Qed.

Lemma explained_runs s0 p st st' a :
  explained s0 p st a → rtc runs st st' → ∃ a', explained s0 p st' a'.
Proof.
  intros H Hst. revert a H. induction Hst as [|st1 st2 st3 [i Hi] _ IH]; intros a H; [by exists a|].
  destruct (explained_step s0 p st1 a st2 H) as [a' H']; [by eapply thread_runs|]. by eapply IH.
Qed.

(** The threads can finish what they have begun. *)
Lemma runs_or_stuck st : (∃ st', runs st st') ∨ ∀ i, thread_step i st = None.
Proof.
  destruct (decide (Forall (λ i, thread_step i st = None) (seq 0 (length (th_pcs st))))) as [D|D].
  - right. intros i. destruct (decide (i < length (th_pcs st))%nat) as [Hi|Hi].
    + rewrite Forall_forall in D. apply D, elem_of_seq. lia.
    + unfold thread_step. by rewrite lookup_ge_None_2 by lia.
  - left. apply not_Forall_Exists in D; [|apply _]. apply Exists_exists in D as (i & _ & Hi).
    destruct (thread_step i st) as [st'|] eqn:E; [|by destruct Hi]. by exists st', i.
Qed.

Lemma finish n s0 p st a :
  (work st <= n)%nat → explained s0 p st a → ∃ st', rtc runs st st' ∧ quiet st'.
Proof.
  revert st a. induction n as [|n IH]; intros st a Hn H;
    (destruct (runs_or_stuck st) as [[st1 H1]|Hs]; [|exists st; split; [done|by eapply stuck_quiet]]).
  - apply runs_work in H1. lia.
  - destruct H1 as [i Hi].
    destruct (explained_step s0 p st a st1 H) as [a1 Ha1]; [by eapply thread_runs|].
    destruct (IH st1 a1) as (st' & Hst & Hq); [|done|].
    + assert (work st1 < work st)%nat by (apply runs_work; by exists i). lia.
    + exists st'. split; [|done]. eapply rtc_l; [by exists i|done].
Qed.
End Progress.

(** ** Data races *)

(** What the threads share and change without an atomic type: the map, the log object with its
    stream and totals, and the flag of a transaction. *)
Inductive Location := AtData | AtLog | AtHasWrites (t : nat).
Inductive Access := Reads (x : Location) | Writes (x : Location).

(** What the next step of a thread accesses. *)
Definition accesses (pc : Pc) : list Access :=
  match pc with
  | Inside (CallGet _ _) | Inside (CallScan _ _ _ _) => [Reads AtData]
  | Inside (CallPut t _ _) => [Writes AtData; Writes (AtHasWrites t)]
  | Inside (CallDel t _) => [Reads AtData; Writes AtData; Writes (AtHasWrites t)]
  | Inside (CallCommit t) => [Reads (AtHasWrites t)]
  | LogLocked _ _ => [Reads AtLog; Writes AtLog]
  | LogUnlocked (CallPut t _ _) _ false | LogUnlocked (CallDel t _) _ false =>
      [Writes AtData; Writes (AtHasWrites t)]
  | _ => []
  end.

(** Two threads about to access the same location, one to write it. *)
Definition race_on (x : Location) (pc pc' : Pc) : Prop :=
  Writes x ∈ accesses pc ∧ (Reads x ∈ accesses pc' ∨ Writes x ∈ accesses pc').
Definition race (pc pc' : Pc) : Prop := ∃ x, race_on x pc pc'.

(** The steps of the threads when nothing limits who calls what: [threads_step] without
    [may_call]. *)
Inductive free_step : Threads → Threads → Prop :=
  | free_calls i c st :
      th_pcs st !! i = Some Idle → free_step st (happens (Called i c) (goto i (Entered c) st))
  | free_runs i st st' :
      thread_step i st = Some st' → free_step st st'.

Section Races.
Implicit Types (st : Threads) (pc : Pc).

Lemma access_data pc :
  (Writes AtData ∈ accesses pc → held pc = LockedExclusive) ∧
  (Reads AtData ∈ accesses pc → held pc ≠ Unlocked).
Proof.
  destruct pc as [|c|c|c old|c old|c old ok|c old []|c r|c r]; try destruct c; cbn;
    (split; [intros H|intros H]); try done; exfalso; set_solver.
Qed.

Lemma access_log pc : Reads AtLog ∈ accesses pc ∨ Writes AtLog ∈ accesses pc → holds_log pc = true.
Proof.
  destruct pc as [|c|c|c old|c old|c old ok|c old []|c r|c r]; try destruct c; cbn;
    intros H; try done; exfalso; set_solver.
Qed.

Lemma access_flag pc t :
  Reads (AtHasWrites t) ∈ accesses pc ∨ Writes (AtHasWrites t) ∈ accesses pc → pc_txn pc = Some t.
Proof.
  destruct pc as [|c|c|c old|c old|c old ok|c old []|c r|c r]; try destruct c; cbn;
    intros H; set_solver.
Qed.

Lemma threads_free st st' : rtc threads_step st st' → rtc free_step st st'.
Proof.
  induction 1 as [|st1 st2 st3 H _ IH]; [done|]. eapply rtc_l; [|exact IH].
  destruct H; [by apply free_calls|by eapply free_runs].
Qed.

(** Whoever calls what, the mutexes are held by those who have locked them. *)
Lemma locks_free st st' :
  free_step st st' → locks_ok (th_locks st) (pc_at st) → locks_ok (th_locks st') (pc_at st').
Proof.
  assert (Hgoto : ∀ st i pc pc0 s k es, th_pcs st !! i = Some pc0 → locks_ok k (upd i pc (pc_at st)) →
    locks_ok k (pc_at (mkThreads s k (<[i := pc]> (th_pcs st)) es))).
  { intros st0 i pc pc0 s k es Hi. apply locks_ok_ext. intros j. by apply (pc_at_goto st0 i j pc pc0). }
  intros [i c st1 Hi|i st1 st2 E] H.
  { eapply (Hgoto st1); [done|]. apply locks_same; [by rewrite (pc_at_lookup _ _ _ Hi)..|done]. }
  unfold thread_step in E. destruct (th_pcs st1 !! i) as [pc|] eqn:Hi; [|done].
  pose proof (pc_at_lookup _ _ _ Hi) as Epc. destruct pc as [|c|c|c old|c old|c old ok|c old ok|c r|c r]; [done|..].
  - destruct (acquire _ _ _) as [k|] eqn:Ea; [|done]. injection E as <-. eapply (Hgoto st1); [done|].
    apply (locks_acquire (th_locks st1) k (pc_at st1) i (Inside c) (lock_mode c)); [by rewrite Epc|done|by rewrite Epc|done|done].
  - destruct (body c (th_shared st1)) as [[[rp|old]|?|?] s]; [..|done|done]; injection E as <-;
      (eapply (Hgoto st1); [done|]); (apply locks_same; [by rewrite Epc..|done]).
  - destruct (lk_log _) eqn:El; [done|]. injection E as <-. eapply (Hgoto st1); [done|].
    apply locks_log_taken; [done|by rewrite Epc|done|done].
  - destruct (log_body c (th_shared st1)) as [[ok|?|?] s]; [|done|done]. injection E as <-. eapply (Hgoto st1); [done|].
    apply locks_same; [by rewrite Epc..|done].
  - injection E as <-. eapply (Hgoto st1); [done|]. apply locks_log_released; [by rewrite Epc..|done|done].
  - destruct ((if ok then mret tt else undo c old) (th_shared st1)) as [[[]|?|?] s]; [|done|done]. injection E as <-. eapply (Hgoto st1); [done|].
    apply locks_same; [by rewrite Epc..|done].
  - injection E as <-. eapply (Hgoto st1); [done|].
    replace (lock_mode c) with (held (pc_at st1 i)) by (by rewrite Epc).
    apply locks_release; [done|by rewrite Epc|done].
  - injection E as <-. eapply (Hgoto st1); [done|]. apply locks_same; [by rewrite Epc..|done].
Qed.

Lemma locks_reached n s st : rtc free_step (threads_start n s) st → locks_ok (th_locks st) (pc_at st).
Proof.
  intros H. assert (∀ st0, rtc free_step st0 st → locks_ok (th_locks st0) (pc_at st0) → locks_ok (th_locks st) (pc_at st)) as Hall.
  { clear H. induction 1 as [|st1 st2 st3 H1 _ IH]; [done|]. intros H0. by eapply IH, locks_free. }
  apply (Hall _ H), (control_start n s).
Qed.

(** The map and the log are raced on by nobody, and a flag only by two calls on its
    transaction. *)
Lemma locks_race_free st i j x :
  locks_ok (th_locks st) (pc_at st) → i ≠ j → race_on x (pc_at st i) (pc_at st j) →
  ∃ t, x = AtHasWrites t ∧ pc_txn (pc_at st i) = Some t ∧ pc_txn (pc_at st j) = Some t.
Proof.
  intros [Hw Hr Hl Hx] Hne (Hi & Hj). destruct x as [| |t].
  - exfalso. apply Hne. apply access_data in Hi. apply Hw in Hi.
    assert (held (pc_at st j) ≠ Unlocked) as Hu.
    { destruct Hj as [Hj|Hj]; apply access_data in Hj; [done|by rewrite Hj]. }
    destruct (held (pc_at st j)) eqn:Ej; [done| |].
    + apply Hr in Ej. rewrite Hx in Ej by by eexists. set_solver.
    + apply Hw in Ej. congruence.
  - exfalso. apply Hne. assert (holds_log (pc_at st i) = true) as Ei by (apply access_log; by right).
    apply access_log in Hj. apply Hl in Ei, Hj. congruence.
  - exists t. split; [done|]. split; apply access_flag; [by right|done].
Qed.

(** The accesses are those of the code: a step that changes a location writes it. *)
Definition changed (s s' : Process) (x : Location) : Prop :=
  match x with
  | AtData => data_ (p_db s') ≠ data_ (p_db s)
  | AtLog => p_logs s' ≠ p_logs s
  | AtHasWrites t => ∃ tx, p_txns s !! t = Some tx ∧ p_txns s' !! t ≠ Some tx
  end.

Lemma changed_refl s x : ¬ changed s s x.
Proof. destruct x; cbn; [congruence..|]. intros (tx & E & Hne). congruence. Qed.

Lemma changed_over d t b s x : changed s (over d t b s) x → x = AtData ∨ x = AtHasWrites t.
Proof.
  destruct x as [| |u]; cbn [changed]; [by left|done|]. intros (tx & E & Hne).
  destruct (decide (u = t)) as [->|D]; [by right|]. by rewrite lookup_over_ne in Hne by congruence.
Qed.

Lemma body_changed c s x s' e :
  body c s = (Val e, s') → changed s s' x → Writes x ∈ accesses (Inside c).
Proof.
  intros E Hx. destruct c as [|t k|t k v|t k|t k1 k2 lim|t].
  - cbn [body] in E. unfold mbind, M_bind, PersistentDatabase_begin_transaction in E.
    dbsimpl. destruct (initialized_ (p_db s)); mcbn; injection E as _ <-;
      [|by apply changed_refl in Hx]. destruct x as [| |u]; try done.
    destruct Hx as (tx & E & Hne). destruct Hne. by apply lookup_app_l_Some.
  - cbn in E. injection E as _ <-. by apply changed_refl in Hx.
  - destruct (p_txns s !! t) as [tx|] eqn:Et.
    + rewrite (body_put _ _ _ _ _ Et) in E. injection E as _ <-.
      apply changed_over in Hx as [-> | ->]; cbn; set_solver.
    + cbn [body] in E. unfold mbind, M_bind, deref in E. by rewrite Et in E.
  - destruct (p_txns s !! t) as [tx|] eqn:Et.
    + rewrite (body_del _ _ _ _ Et) in E. destruct (_ !! k); injection E as _ <-;
        [|by apply changed_refl in Hx].
      apply changed_over in Hx as [-> | ->]; cbn; set_solver.
    + cbn [body] in E. unfold mbind, M_bind, deref in E. by rewrite Et in E.
  - cbn [body] in E. dbsimpl. injection E as _ <-. destruct x as [| |u]; try done.
    destruct Hx as (tx & E & Hne). by destruct Hne.
  - destruct (p_txns s !! t) as [tx|] eqn:Et.
    + rewrite (body_commit _ _ _ Et) in E. injection E as _ <-. by apply changed_refl in Hx.
    + cbn [body] in E. unfold mbind, M_bind, deref in E. by rewrite Et in E.
Qed.

Lemma log_body_changed c old s x s' b :
  log_body c s = (Val b, s') → changed s s' x → Writes x ∈ accesses (LogLocked c old).
Proof.
  unfold log_body. destruct (call_txn c) as [t|]; [|done]. unfold mbind, M_bind, deref.
  destruct (p_txns s !! t) as [tx|]; [|done]. unfold on_wal. destruct (tx_wal_ tx) as [p|]; [|done].
  destruct (p_logs s !! p) as [l|]; [|done]. destruct (append_record _ _) as [r [w l']].
  intros E Hx. injection E as _ <-. destruct x as [| |u]; cbn in *; [done|set_solver|].
  destruct Hx as (tx' & E & Hne). congruence.
Qed.

Lemma undo_changed c old s x s' :
  undo c old s = (Val tt, s') → changed s s' x → Writes x ∈ accesses (LogUnlocked c old false).
Proof.
  intros E Hx. destruct c as [|t k|t k v|t k|t k1 k2 lim|t];
    try (injection E as <-; by apply changed_refl in Hx).
  - rewrite (undo_step _ _ t) in E by done. injection E as <-.
    apply changed_over in Hx as [-> | ->]; cbn; set_solver.
  - rewrite (undo_step _ _ t) in E by done. injection E as <-.
    apply changed_over in Hx as [-> | ->]; cbn; set_solver.
Qed.

Lemma step_changed i st st' x :
  thread_step i st = Some st' → changed (th_shared st) (th_shared st') x →
  Writes x ∈ accesses (pc_at st i).
Proof.
  intros E Hx. unfold thread_step, pc_at in *.
  destruct (th_pcs st !! i) as [[|c|c|c old|c old|c old ok|c old ok|c r|c r]|] eqn:Hi; try done; cbn [default from_option id].
  all: repeat case_match; try done; injection E as <-; cbn [th_shared happens goto set_shared set_locks] in Hx;
    try (by apply changed_refl in Hx).
  - by eapply body_changed.
  - by eapply body_changed.
  - by eapply log_body_changed.
  - unfold mret, M_ret in H. injection H as _ <-. by apply changed_refl in Hx.
  - match goal with x : unit |- _ => destruct x end. by eapply undo_changed.
Qed.
End Races.

(** ** Histories and the log *)

Section Histories.
Implicit Types (es : list Event) (st : Threads).

Lemma phase_effected i es c r :
  (phase i es = Some (Done c r) → Effected i c r ∈ es) ∧
  (is_Some (phase i es) → Returned i c r ∈ es → Effected i c r ∈ es).
Proof.
  revert c r. induction es as [|e es IH] using rev_ind; intros c r; [split; [done|set_solver]|].
  rewrite phase_snoc, !elem_of_app, !list_elem_of_singleton.
  destruct (decide (event_thread e = i)) as [<-|Hne].
  2:{ rewrite next_phase_other by done. split.
      - intros H. left. by apply (proj1 (IH c r)).
      - intros Hs [H|E]; [left; by apply (proj2 (IH c r))|]. by rewrite <- E in Hne. }
  destruct e as [i c'|i c' r'|i c' r']; cbn [event_thread next_phase] in *;
    rewrite decide_True by done; destruct (phase i es) as [[|c2|c2 r2]|] eqn:Ep;
    split; try done; try (by intros []).
  - intros _ [H|H]; [left; by apply (proj2 (IH c r))|done].
  - case_decide; [|done]. intros [= -> ->]. by right.
  - intros _ [H|H]; [left; by apply (proj2 (IH c r))|done].
  - by case_decide.
  - case_decide as D; [|by intros []]. injection D as -> ->.
    intros _ [H|[= -> ->]]; left; [by apply (proj2 (IH c r))|by apply (proj1 (IH _ _))].
Qed.

Lemma returned_effects i c r es :
  is_Some (phase i es) → Returned i c r ∈ es → (c, r) ∈ effects es.
Proof.
  intros Hs H. apply (phase_effected i es c r) in H; [|done].
  apply list_elem_of_omap. by exists (Effected i c r).
Qed.
End Histories.

(** The sizes that a reader of the log accepts. *)
Definition call_fits (c : Call) : Prop :=
  match c with
  | CallPut _ key value => slen key + slen value <= MAX_FRAME - 25
  | CallDel _ key => slen key <= MAX_FRAME - 25
  | _ => True
  end.

Section Durability.
Implicit Types (s a : Process).

Lemma call_runs_step c s r a : call_fits c → call_runs c s r a → db_step s a.
Proof.
  intros Hf [Ht E]. destruct c; cbn [call_op] in E; unfold mbind, M_bind in E;
    match type of E with
    | match ?m with _ => _ end = _ => destruct m as [[x|?|?] s1] eqn:E1; try done
    end; injection E as _ <-.
  - by eapply step_begin.
  - by eapply step_get.
  - by eapply step_put; [apply Ht| |].
  - by eapply step_del; [apply Ht| |].
  - by eapply step_scan.
  - by eapply step_commit; [apply Ht|].
Qed.

Lemma atomically_steps s es a :
  Forall (λ e, call_fits e.1) es → atomically s es a → rtc db_step s a.
Proof.
  revert s. induction es as [|[c r] es IH]; intros s Hf; cbn.
  - intros ->. done.
  - intros (s1 & H1 & H). inv Hf. eapply rtc_l; [by eapply call_runs_step|by apply IH].
Qed.

Lemma logged_opened s rs p : logged s rs → wal_ (p_db s) = Some p → opened s p.
Proof.
  intros [(p' & l & [Hm Hi Hw Hlog Hr _ _]) _ _ _ _] Hp. rewrite Hw in Hp. injection Hp as ->.
  split; try done. exists l. split; [done|]. apply Hr.
Qed.

(** A process that is initialised on the log has what the effects give. *)
Lemma explained_recovers s rs p st a l w dir :
  logged s rs → explained s p st a → Forall (λ e, call_fits e.1) (effects (th_events st)) →
  p_logs (th_shared st) !! p = Some l → healthy w → fair_order w →
  file_bytes w (log_name_now dir w) = file_bytes (p_world (th_shared st)) (current_log_file_ l) →
  ∃ s', PersistentDatabase_initialize dir (create_database w) = (Val OperationResult.SUCCESS, s') ∧
    data_ (p_db s') = data_ (p_db a) ∧ ∃ new, logged s' (rs ++ new).
Proof.
  intros Hlg H Hf Hl Hw Hfair Hb.
  destruct (logged_steps _ _ _ Hlg (atomically_steps _ _ _ Hf (ex_effects _ _ _ _ H))) as [new Hlga].
  destruct (sim_db _ _ _ (ex_sim _ _ _ _ H)) as (Ew & Els & _). rewrite Ew in Hb. rewrite Els in Hl.
  destruct (lg_ready _ _ Hlga) as (p' & l' & Hr).
  assert (p' = p) as -> by (pose proof (op_wal _ _ (ex_opened _ _ _ _ H)); destruct Hr; congruence).
  assert (l' = l) as -> by (destruct Hr; congruence).
  destruct (recovers a p l (rs ++ new) w dir Hlga Hr Hw Hfair Hb) as (s' & E & Hd & Hlg'). exists s'. by eauto.
Qed.
End Durability.

(** ** Theorems *)

(** C8.  The database is linearizable under its locks: whatever I/O does and however the threads are
    interrupted, the calls that have taken effect, executed one after the other as the whole
    operations of [Database.v] from the initial process, give the same replies; every thread's
    calls take effect between their beginning and their end, once and with the reply that they
    return; and when no call is under way the shared process is the one that the calls give. *)
Theorem threads_linearizable (n : nat) (s : Process) (p : nat) (st : Threads) :
  opened s p → rtc threads_step (threads_start n s) st →
  ∃ a, atomically s (effects (th_events st)) a ∧
    (∀ i, is_Some (phase i (th_events st))) ∧
    (quiet st → th_shared st = a).
Proof.
  intros Ho Hst. destruct (explained_reachable n s p st Ho Hst) as [a H]. exists a.
  split; [apply H|]. split.
  - intros i. rewrite (ct_phases _ (ex_control _ _ _ _ H)). by eexists.
  - by eapply explained_quiet.
Qed.

(** The log describes the effects at any moment: as long as I/O works and the records fit the
    reader's limit, a process that is initialised on the log file that a concurrent execution
    has written so far, at whatever points its threads are stopped, has the map that the calls
    that took effect give; the calls that have returned are among them. *)
Theorem threads_recover (n : nat) (s : Process) (rs : list WALRecord) (p : nat) (st : Threads)
    (l : WriteAheadLog) (w : World) (dir : string) :
  logged s rs → wal_ (p_db s) = Some p → rtc threads_step (threads_start n s) st →
  Forall (λ e, call_fits e.1) (effects (th_events st)) → p_logs (th_shared st) !! p = Some l →
  healthy w → fair_order w →
  file_bytes w (log_name_now dir w) = file_bytes (p_world (th_shared st)) (current_log_file_ l) →
  ∃ a s', atomically s (effects (th_events st)) a ∧
    (∀ i c r, Returned i c r ∈ th_events st → (c, r) ∈ effects (th_events st)) ∧
    PersistentDatabase_initialize dir (create_database w) = (Val OperationResult.SUCCESS, s') ∧
    data_ (p_db s') = data_ (p_db a).
Proof.
  intros Hlg Hp Hst Hf Hl Hw Hfair Hb. pose proof (logged_opened s rs p Hlg Hp) as Ho.
  destruct (explained_reachable n s p st Ho Hst) as [a H].
  destruct (explained_recovers s rs p st a l w dir Hlg H Hf Hl Hw Hfair Hb) as (s' & E & Hd & _).
  exists a, s'. split; [apply H|]. split; [|done].
  intros i c r. apply returned_effects. rewrite (ct_phases _ (ex_control _ _ _ _ H)). by eexists.
Qed.

(** C15.  Data races.  Whatever the threads call and however they interleave, two threads are
    never about to access the map or the log at the same time, one of them to write; two threads
    can be about to access the flag [has_writes_] of a transaction so only by calls on this same
    transaction, and never when a transaction is used by one thread at a time.  And what a step
    changes is what it is said to write. *)
Theorem threads_race_free (n : nat) (s : Process) (st : Threads) :
  rtc free_step (threads_start n s) st →
  (∀ i j x, i ≠ j → race_on x (pc_at st i) (pc_at st j) →
     ∃ t, x = AtHasWrites t ∧ pc_txn (pc_at st i) = Some t ∧ pc_txn (pc_at st j) = Some t) ∧
  (∀ p, opened s p → rtc threads_step (threads_start n s) st →
     ∀ i j, i ≠ j → ¬ race (pc_at st i) (pc_at st j)) ∧
  (∀ i st' x, thread_step i st = Some st' → changed (th_shared st) (th_shared st') x →
     Writes x ∈ accesses (pc_at st i)).
Proof.
  intros Hst. pose proof (locks_reached n s st Hst) as Hl.
  split; [intros i j x; by apply locks_race_free|]. split; [|intros *; apply step_changed].
  intros p Ho Hst' i j Hne [x Hx]. destruct (explained_reachable n s p st Ho Hst') as [a H].
  destruct (locks_race_free st i j x Hl Hne Hx) as (t & _ & Ei & Ej).
  by apply Hne, (ct_txns _ (ex_control _ _ _ _ H) i j t).
Qed.

(** C16.  There is no deadlock and every call ends: without new calls, the threads take at most eight
    steps each, whatever the scheduler does, and they can only be all stuck when every call
    has returned. *)
Theorem threads_finish (n : nat) (s : Process) (p : nat) (st : Threads) :
  opened s p → rtc threads_step (threads_start n s) st →
  (∀ k st', nsteps runs k st st' → (k <= 8 * length (th_pcs st))%nat) ∧
  (∀ st', rtc runs st st' → (∀ i, thread_step i st' = None) → quiet st') ∧
  ∃ st', rtc runs st st' ∧ quiet st'.
Proof.
  intros Ho Hst. destruct (explained_reachable n s p st Ho Hst) as [a H]. split_and!.
  - intros k st' Hk. apply runs_bounded in Hk. pose proof (work_bound st). lia.
  - intros st' Hst' Hn. destruct (explained_runs s p st st' a H Hst') as [a' H'].
    by eapply stuck_quiet.
  - by eapply finish.
Qed.

(** Two threads on two transactions: the second begins another transaction, and waits to read,
    while the first is putting. *)
Definition demo_schedule : list (nat * option Call) :=
  [(0, Some (CallPut 0 "k" "v")); (0, None); (0, None); (1, Some CallBegin); (1, None);
   (1, None); (0, None); (1, None); (0, None); (1, None); (1, Some (CallGet 1 "k")); (0, None);
   (0, None); (0, None); (1, None); (0, None); (1, None)]%nat.

Definition demo_events : list Event :=
  [Called 0 (CallPut 0 "k" "v"); Called 1 CallBegin;
   Effected 1 CallBegin (ReplyTxn (Some 2%nat));
   Effected 0 (CallPut 0 "k" "v") (ReplyResult OperationResult.SUCCESS);
   Returned 1 CallBegin (ReplyTxn (Some 2%nat)); Called 1 (CallGet 1 "k");
   Returned 0 (CallPut 0 "k" "v") (ReplyResult OperationResult.SUCCESS);
   Effected 1 (CallGet 1 "k") (ReplyValue "v")].

Lemma demo_schedule_runs :
  th_events <$> run_schedule demo_schedule (threads_start 2 demo_begun) = Some demo_events.
Proof. vm_compute. reflexivity. Qed.

Lemma demo_opened : opened demo_begun 0.
Proof. apply (logged_opened _ [] _ demo_begun_logged). vm_compute. reflexivity. Qed.

Lemma demo_execution :
  ∃ st, rtc threads_step (threads_start 2 demo_begun) st ∧ th_events st = demo_events.
Proof.
  pose proof demo_schedule_runs as E.
  destruct (run_schedule demo_schedule (threads_start 2 demo_begun)) as [st|] eqn:Er; [|done].
  cbn in E. injection E as E. exists st. split; [by eapply run_schedule_steps|done].
Qed.

(** Of the demo's calls, the put and the reading that waited for it. *)
Lemma threads_linearizable_witness :
  ∃ st a, rtc threads_step (threads_start 2 demo_begun) st ∧
    atomically demo_begun
      [(CallBegin, ReplyTxn (Some 2%nat));
       (CallPut 0 "k" "v", ReplyResult OperationResult.SUCCESS);
       (CallGet 1 "k", ReplyValue "v")] a.
Proof.
  destruct demo_execution as (st & Hst & He).
  destruct (threads_linearizable 2 demo_begun 0 st demo_opened Hst) as (a & Ha & _).
  exists st, a. rewrite He in Ha. exact (conj Hst Ha).
Defined.

Lemma threads_race_free_witness :
  ∃ st, rtc free_step (threads_start 2 demo_begun) st ∧ th_events st = demo_events ∧
    ¬ race (pc_at st 0) (pc_at st 1).
Proof.
  destruct demo_execution as (st & Hst & He). exists st. split; [exact (threads_free _ _ Hst)|]. split; [exact He|].
  apply (proj1 (proj2 (threads_race_free 2 demo_begun st (threads_free _ _ Hst))) 0%nat demo_opened Hst).
  discriminate.
Defined.

(** Nothing in the code keeps two threads from sharing a transaction: one can be about to write
    the flag in [put], with [mutex_] locked, and the other to read it in [commit], which locks
    nothing. *)
Theorem shared_transaction_races :
  ∃ st, rtc free_step (threads_start 2 demo_begun) st ∧
    race_on (AtHasWrites 0) (pc_at st 0) (pc_at st 1).
Proof.
  eexists. split.
  - eapply rtc_l; [by apply (free_calls 0 (CallPut 0 "k" "v"))|].
    eapply rtc_l; [by apply (free_calls 1 (CallCommit 0))|].
    eapply rtc_l; [by apply (free_runs 0)|]. eapply rtc_l; [by apply (free_runs 1)|]. apply rtc_refl.
  - split; [|left]; cbn; set_solver.
Qed.

Lemma threads_finish_witness :
  ∃ st st', rtc threads_step (threads_start 2 demo_begun) st ∧ th_events st = demo_events ∧
    rtc runs st st' ∧ quiet st'.
Proof.
  destruct demo_execution as (st & Hst & He).
  destruct (threads_finish 2 demo_begun 0 st demo_opened Hst) as (_ & _ & st' & H & Hq).
  exists st, st'. exact (conj Hst (conj He (conj H Hq))).
Defined.

(** The files of the demo's execution, as a process finds them that starts in the millisecond
    of the first. *)
Definition crash_world (st : Threads) : World :=
  mkWorld (w_files (p_world (th_shared st))) (w_clock demo_world) 0 (w_io demo_world) 0
    (w_order demo_world) 0.

Lemma demo_log_name :
  (λ st, current_log_file_ <$> p_logs (th_shared st) !! 0%nat) <$>
    run_schedule demo_schedule (threads_start 2 demo_begun)
  = Some (Some (log_name_now "data" demo_world)).
Proof. vm_compute. reflexivity. Qed.

Lemma demo_crash :
  ∃ st l, rtc threads_step (threads_start 2 demo_begun) st ∧ th_events st = demo_events ∧
    p_logs (th_shared st) !! 0%nat = Some l ∧
    log_name_now "data" (crash_world st) = current_log_file_ l.
Proof.
  pose proof demo_schedule_runs as E. pose proof demo_log_name as El.
  destruct (run_schedule demo_schedule (threads_start 2 demo_begun)) as [st|] eqn:Er; [|done].
  cbn [fmap option_fmap option_map] in E, El. injection E as E. injection El as El.
  apply fmap_Some in El as (l & El & En). exists st, l.
  split; [by eapply run_schedule_steps|]. split; [done|]. split; [done|exact En].
Qed.

(** The demo stopped between the effect of the reading and its return. *)
Lemma threads_recover_witness :
  ∃ st w a s', rtc threads_step (threads_start 2 demo_begun) st ∧
    atomically demo_begun
      [(CallBegin, ReplyTxn (Some 2%nat));
       (CallPut 0 "k" "v", ReplyResult OperationResult.SUCCESS);
       (CallGet 1 "k", ReplyValue "v")] a ∧
    PersistentDatabase_initialize "data" (create_database w) = (Val OperationResult.SUCCESS, s') ∧
    data_ (p_db s') = data_ (p_db a).
Proof.
  destruct demo_crash as (st & l & Hst & He & Hl & Hn).
  destruct (threads_recover 2 demo_begun [] 0 st l (crash_world st) "data") as (a & s' & Ha & _ & E & Hd).
  - exact demo_begun_logged.
  - vm_compute. reflexivity.
  - exact Hst.
  - rewrite He. cbn. repeat constructor; cbv; discriminate.
  - exact Hl.
  - exact demo_world_healthy.
  - exact demo_world_fair.
  - rewrite Hn. reflexivity.
  - rewrite He in Ha. exists st, (crash_world st), a, s'. exact (conj Hst (conj Ha (conj E Hd))).
Defined.
