(* ===== verification/Concurrency.v ===== *)
(** * Requests of several connections

    The [io_context] runs in several threads, so the requests of different connections are
    processed at the same time.  [process_request_sync] ([src/network/server.cpp]) reaches the
    database in up to three calls, each of which holds the database's mutex or the log's for
    its effects; here its body is cut at these calls, and the calls of any number of requests
    are interleaved.  Every request still takes effect at one point, its call of [get], [put],
    [del] or [scan]. *)

From stdpp Require Import base gmap list strings relations.
From Stdlib Require Import ZArith Lia.
From S2P Require Import Prelude.
From S2P Require Import Protocol.
From S2P Require Import Effects.
From S2P Require Import Interface.
From S2P Require Import ScanFormat.
From S2P Require Import Database.
From S2P Require Import Server.

(** How far the processing of a request has come. *)
Inductive Progress (T : Type) :=
  | Received (request : Message)
  | Begun (request : Message) (txn : T)
  | Committing (request : Message) (txn : T) (type : MessageType.t) (value : string)
  | Answered (request response : Message).
Arguments Received {T}.
Arguments Begun {T}.
Arguments Committing {T}.
Arguments Answered {T}.

Definition request_of {T} (p : Progress T) : Message :=
  match p with
  | Received request | Begun request _ | Committing request _ _ _ | Answered request _ => request
  end.

Section Interleaving.
Context {S T : Type} `{!Database S T}.

Definition answer (request : Message) (type : MessageType.t) (value : string) : M S (Progress T) :=
  mret (Answered request (make_response request type value)).

(** [process_request_sync] up to its next call on the database, and that call. *)
Definition advance (p : Progress T) : M S (Progress T) :=
  try_catch
    (match p with
     | Received request =>
         match msg_type request with
         | MessageType.GET | MessageType.PUT | MessageType.DELETE | MessageType.SCAN =>
             txn ← begin_transaction;
             match txn with
             | Some txn => mret (Begun request txn)
             | None => answer request MessageType.ERROR "Failed to begin transaction"
             end
         | MessageType.PING => answer request MessageType.PONG "PONG"
         | _ => answer request MessageType.ERROR "Unsupported operation"
         end
     | Begun request txn =>
         match msg_type request with
         | MessageType.GET =>
             value ← txn_get txn (msg_key request);
             if negb (string_empty value) then answer request MessageType.SUCCESS value
             else answer request MessageType.ERROR "Key not found"
         | MessageType.PUT =>
             result ← txn_put txn (msg_key request) (msg_value request);
             if decide (result = OperationResult.SUCCESS) then
               mret (Committing request txn MessageType.SUCCESS "OK")
             else answer request MessageType.ERROR "Failed to put value"
         | MessageType.DELETE =>
             result ← txn_del txn (msg_key request);
             if decide (result = OperationResult.SUCCESS) then
               mret (Committing request txn MessageType.SUCCESS "OK")
             else answer request MessageType.ERROR "Failed to delete key"
         | MessageType.SCAN =>
             results ← txn_scan txn (msg_key request) (msg_value request) 1000;
             answer request MessageType.SUCCESS (scan_text results)
         | _ => answer request MessageType.ERROR "Unsupported operation"
         end
     | Committing request txn type value =>
         _ ← txn_commit txn;
         answer request type value
     | Answered request response => mret p
     end)
    (λ what, answer (request_of p) MessageType.ERROR ("Server error: " +:+ what)).

(** Without interruption. *)
Definition advance3 (request : Message) : M S (Progress T) :=
  p ← advance (Received request);
  p ← advance p;
  advance p.

(** ** Interleavings *)

(** The database, the requests under way, and the requests that have taken effect, with their
    responses, in the order in which they did. *)
Record Requests := mkRequests {
  rq_store : S;
  rq_progress : list (Progress T);
  rq_effects : list (Message * Message);
}.

(** The response is determined. *)
Definition effect (p : Progress T) : option (Message * Message) :=
  match p with
  | Received _ | Begun _ _ => None
  | Committing request _ type value => Some (request, make_response request type value)
  | Answered request response => Some (request, response)
  end.

(** What a step adds to the effects. *)
Definition new_effect (p p' : Progress T) : list (Message * Message) :=
  match effect p, effect p' with None, Some e => [e] | _, _ => [] end.

Inductive requests_step : Requests → Requests → Prop :=
  (** a request is read from some connection *)
  | request_arrives s ps es request :
      requests_step (mkRequests s ps es) (mkRequests s (ps ++ [Received request]) es)
  (** a thread goes on with a request *)
  | request_advances s ps es i p p' s' :
      ps !! i = Some p → advance p s = (Val p', s') →
      requests_step (mkRequests s ps es) (mkRequests s' (<[i := p']> ps) (es ++ new_effect p p')).
End Interleaving.

Arguments Requests S T : clear implicits.

(** ** Lemmas *)

Section Uninterrupted.
Context {S T : Type} `{!Database S T}.

(** The cut is faithful: put together again, the pieces are [process_request_sync]. *)
Lemma advance3_process request (s : S) :
  advance3 request s =
  match process_request_sync request s with
  | (Val response, s') => (Val (Answered request response), s')
  | (Exn what, s') => (Exn what, s')
  | (UB why, s') => (UB why, s')
  end.
Proof.
  unfold advance3, process_request_sync, advance, answer, try_catch, mbind, M_bind.
  destruct (msg_type request) eqn:Ht; try done; cbn;
    (destruct (begin_transaction s) as [[[t|]|what|why] s1]; cbn; [|done..]); rewrite Ht.
  - destruct (txn_get t (msg_key request) s1) as [[v|what|why] s2]; cbn; [|done..].
    by destruct (string_empty v).
  - destruct (txn_put t (msg_key request) (msg_value request) s1) as [[r|what|why] s2]; cbn; [|done..].
    destruct (decide (r = OperationResult.SUCCESS)); cbn; [|done].
    by destruct (txn_commit t s2) as [[]].
  - destruct (txn_del t (msg_key request) s1) as [[r|what|why] s2]; cbn; [|done..].
    destruct (decide (r = OperationResult.SUCCESS)); cbn; [|done].
    by destruct (txn_commit t s2) as [[]].
  - by destruct (txn_scan t (msg_key request) (msg_value request) 1000 s1) as [[v|what|why] s2].
Qed.
End Uninterrupted.

Section Linearization.
Context {S T : Type} `{!Database S T} `{!DatabaseContract S T}.
Implicit Types (s : S) (p : Progress T) (st : Requests S T).

(** The requests that need a transaction. *)
Definition transactional (type : MessageType.t) : bool :=
  match type with
  | MessageType.GET | MessageType.PUT | MessageType.DELETE | MessageType.SCAN => true
  | _ => false
  end.

(** The transaction a request holds is one. *)
Definition progress_ok s p : Prop :=
  match p with
  | Begun request t => is_txn s t ∧ transactional (msg_type request) = true
  | Committing _ t _ _ => is_txn s t
  | _ => True
  end.

Lemma progress_ok_mono s s' p :
  (∀ u, is_txn s u → is_txn s' u) → progress_ok s p → progress_ok s' p.
Proof. intros H. destruct p; cbn; [done| |auto|done]. intros []. auto. Qed.

(** What one step of a request means for the contents. *)
Definition step_meaning (m m' : gmap string string) p p' : Prop :=
  match effect p, effect p' with
  | None, Some (request, response) => served m request response m'
  | None, None => m' = m
  | Some e, Some e' => e' = e ∧ m' = m
  | Some _, None => False
  end.

Lemma advance_received request s :
  db_ok s →
  ∃ p' s', advance (Received request) s = (Val p', s') ∧ db_ok s' ∧ progress_ok s' p' ∧
    (∀ u, is_txn s u → is_txn s' u) ∧
    step_meaning (contents s) (contents s') (Received request) p'.
Proof.
  intros Hs. destruct (begin_ok s Hs) as (t & s1 & E1 & Hs1 & Ht & Hu & C1).
  unfold advance, step_meaning, served, try_catch, mbind, M_bind.
  destruct (msg_type request) eqn:Hty; rewrite ?E1; cbn; eexists _, _; (split; [reflexivity|]);
    cbn; rewrite ?Hty; by split_and!.
Qed.

Lemma advance_begun request t s :
  db_ok s → progress_ok s (Begun request t) →
  ∃ p' s', advance (Begun request t) s = (Val p', s') ∧ db_ok s' ∧ progress_ok s' p' ∧
    (∀ u, is_txn s u → is_txn s' u) ∧
    step_meaning (contents s) (contents s') (Begun request t) p'.
Proof.
  intros Hs [Ht Hty]. unfold advance, step_meaning, served, try_catch, mbind, M_bind.
  destruct (msg_type request) eqn:Hm; try done.
  - destruct (get_ok s t (msg_key request) Hs Ht) as (s' & -> & Hs' & Hu & C).
    destruct (contents s !! msg_key request) as [v|] eqn:Hk; cbn.
    + destruct (string_empty v) eqn:Hv; cbn; eexists _, _; (split; [reflexivity|]);
        cbn; rewrite Hm, Hk, Hv; by split_and!.
    + eexists _, _. split; [reflexivity|]. cbn. rewrite Hm, Hk. by split_and!.
  - destruct (put_ok s t (msg_key request) (msg_value request) Hs Ht) as (s' & -> & Hs' & Hu & C).
    cbn. rewrite decide_True by done. eexists _, _. split; [reflexivity|]. cbn. rewrite Hm.
    split_and!; auto.
  - destruct (del_ok s t (msg_key request) Hs Ht) as (s' & -> & Hs' & Hu & C).
    destruct (contents s !! msg_key request) as [v|] eqn:Hk; cbn.
    + rewrite decide_True by done. eexists _, _. split; [reflexivity|]. cbn. rewrite Hm, Hk.
      split_and!; auto.
    + rewrite decide_False by done. eexists _, _. split; [reflexivity|]. cbn. rewrite Hm, Hk.
      split_and!; auto. rewrite C. by apply delete_id.
  - destruct (scan_ok s t (msg_key request) (msg_value request) 1000 Hs Ht)
      as (s' & results & -> & Ha & Hs' & Hu & C).
    cbn. eexists _, _. split; [reflexivity|]. cbn. rewrite Hm. split_and!; try done. by exists results.
Qed.

Lemma advance_request p p' s s' : advance p s = (Val p', s') → request_of p' = request_of p.
Proof.
  unfold advance, answer, try_catch, mbind, M_bind, mret, M_ret.
  destruct p as [rq|rq t|rq t ty v|rq rp]; repeat (case_match; simplify_eq/=; try done);
    intros; by simplify_eq/=.
Qed.

Lemma advance_ok p s :
  db_ok s → progress_ok s p →
  ∃ p' s', advance p s = (Val p', s') ∧ db_ok s' ∧ progress_ok s' p' ∧
    (∀ u, is_txn s u → is_txn s' u) ∧ step_meaning (contents s) (contents s') p p'.
Proof.
  intros Hs Hp. destruct p as [request|request t|request t type value|request response].
  - by apply advance_received.
  - by apply advance_begun.
  - destruct (commit_ok s t Hs Hp) as (s' & E & Hs' & Hu & C).
    unfold advance, try_catch, mbind, M_bind. rewrite E. cbn. by eexists _, _.
  - by eexists _, s.
Qed.

(** The effects so far are a sequential execution, and those of the requests under way. *)
Record linearized (m : gmap string string) st : Prop := {
  li_ok : db_ok (rq_store st);
  li_progress : Forall (progress_ok (rq_store st)) (rq_progress st);
  li_served : served_all m (rq_effects st).*1 (rq_effects st).*2 (contents (rq_store st));
  li_effects : rq_effects st ≡ₚ omap effect (rq_progress st);
}.

Lemma served_all_step m es e m1 m2 :
  served_all m es.*1 es.*2 m1 → served m1 e.1 e.2 m2 →
  served_all m (es ++ [e]).*1 (es ++ [e]).*2 m2.
Proof. intros H He. rewrite !fmap_app. by eapply served_all_snoc. Qed.

Lemma omap_insert (ps : list (Progress T)) i p p' es :
  ps !! i = Some p → es ≡ₚ omap effect ps →
  (effect p = None ∨ effect p' = effect p) →
  es ++ new_effect p p' ≡ₚ omap effect (<[i := p']> ps).
Proof.
  intros Hi He Hp. rewrite (insert_take_drop ps i p' (lookup_lt_Some _ _ _ Hi)).
  etrans; [apply Permutation_app_tail, He|]. rewrite <- (take_drop_middle ps i p Hi) at 1.
  rewrite !omap_app. cbn. unfold new_effect.
  destruct Hp as [->| ->]; [destruct (effect p') as [e|]|destruct (effect p) as [e|]];
    rewrite ?app_nil_r; try done.
  rewrite <- app_assoc. apply Permutation_app_head. symmetry. apply Permutation_cons_append.
Qed.

Lemma linearized_step m st st' : linearized m st → requests_step st st' → linearized m st'.
Proof.
  intros [Hok Hp Hs He] Hstep. destruct Hstep as [s ps es request|s ps es i p p' s' Hi E]; cbn in *.
  - split; cbn; try done.
    + apply Forall_app. by split; [|constructor].
    + by rewrite omap_app, app_nil_r.
  - destruct (advance_ok p s Hok) as (p1 & s1 & E1 & Hok1 & Hp1 & Hu & Hm).
    { by eapply (proj1 (Forall_lookup _ _) Hp). }
    rewrite E in E1. injection E1 as <- <-.
    assert (Forall (progress_ok s') ps) as Hps.
    { eapply Forall_impl; [exact Hp|]. intros q. by apply progress_ok_mono. }
    unfold step_meaning in Hm. split; cbn; [done|by apply Forall_insert| |].
    + unfold new_effect. destruct (effect p) as [e|]; destruct (effect p') as [[rq rp]|].
      * destruct Hm as [_ ->]. by rewrite app_nil_r.
      * done.
      * by eapply (served_all_step _ _ (rq, rp)).
      * by rewrite Hm, app_nil_r.
    + apply (omap_insert ps i p p' es Hi He).
      destruct (effect p) as [e|]; [right|by left].
      destruct (effect p'); [|done]. by destruct Hm as [-> _].
Qed.

Lemma linearized_steps m st st' : linearized m st → rtc requests_step st st' → linearized m st'.
Proof. intros Hl H. induction H; eauto using linearized_step. Qed.

Lemma effects_grow st st' : rtc requests_step st st' → rq_effects st `prefix_of` rq_effects st'.
Proof.
  induction 1 as [|st1 st2 st3 Hs _ IH]; [done|]. etrans; [|exact IH].
  destruct Hs; [done|]. by apply prefix_app_r.
Qed.
End Linearization.

(** ** Theorems *)

(** Concurrent requests are linearizable: interleave the database calls of any number of
    requests in any way; there is an order of the requests that have taken effect (those
    whose response is determined, each of them once) in which they are a sequential
    execution, with these very responses, that leads to the present contents. *)
Theorem requests_linearizable {S T : Type} `{!Database S T} `{!DatabaseContract S T}
    (s : S) (st : Requests S T) :
  db_ok s → rtc requests_step (mkRequests s [] []) st →
  served_all (contents s) (rq_effects st).*1 (rq_effects st).*2 (contents (rq_store st)) ∧
  rq_effects st ≡ₚ omap effect (rq_progress st).
Proof.
  intros Hs H. assert (linearized (contents s) (mkRequests s [] [] : Requests S T)) as Hl.
  { split; cbn; [done|constructor|constructor|done]. }
  by destruct (linearized_steps _ _ _ Hl H).
Qed.

(** The order respects real time, and no request waits for another: effects are only
    added at the end, so a request that was answered before another arrived comes before it;
    and every request that is not answered yet can take its next step. *)
Theorem requests_real_time {S T : Type} `{!Database S T} `{!DatabaseContract S T}
    (s : S) (st st' : Requests S T) (i : nat) (p : Progress T) :
  db_ok s → rtc requests_step (mkRequests s [] []) st → rtc requests_step st st' →
  rq_progress st' !! i = Some p →
  rq_effects st `prefix_of` rq_effects st' ∧
  ∃ p' s', advance p (rq_store st') = (Val p', s') ∧
    requests_step st' (mkRequests s' (<[i := p']> (rq_progress st')) (rq_effects st' ++ new_effect p p')).
Proof.
  intros Hs H H' Hi. split; [by apply effects_grow|].
  assert (linearized (contents s) (mkRequests s [] [] : Requests S T)) as Hl.
  { split; cbn; [done|constructor|constructor|done]. }
  pose proof (linearized_steps _ _ _ (linearized_steps _ _ _ Hl H) H') as [Hok Hp _ _].
  destruct (advance_ok p (rq_store st') Hok) as (p' & s' & E & _).
  { by eapply (proj1 (Forall_lookup _ _) Hp). }
  exists p', s'. split; [done|]. destruct st' as [s1 ps es]. by apply request_advances.
Qed.

(** The cut is faithful: a request that runs without interruption does exactly what
    [process_request_sync] does, on every database. *)
Theorem advance_is_process_request {S T : Type} `{!Database S T} (request : Message) (s : S) :
  advance3 request s =
  match process_request_sync request s with
  | (Val response, s') => (Val (Answered request response), s')
  | (Exn what, s') => (Exn what, s')
  | (UB why, s') => (UB why, s')
  end.
Proof. apply advance3_process. Qed.

(** ** Witnesses *)

(** Two requests have arrived, and the first has put its value but not committed. *)
Definition demo_two : Requests Process nat :=
  let put := put_request 1 "k" "v" in
  let '(_, s1) := advance (Received put) demo_process in
  let '(_, s2) := advance (Begun put 0%nat) s1 in
  mkRequests s2 [Committing put 0%nat MessageType.SUCCESS "OK"; Received (get_request 2 "k")]
    [(put, make_response put MessageType.SUCCESS "OK")].

Lemma demo_two_reached : rtc requests_step (mkRequests demo_process [] []) demo_two.
Proof.
  unfold demo_two. set (put := put_request 1 "k" "v"). set (get := get_request 2 "k").
  destruct (advance (Received put) demo_process) as [o1 s1] eqn:E1.
  assert (o1 = Val (Begun put 0%nat)) as ->.
  { change o1 with ((o1, s1).1). rewrite <- E1. vm_compute. reflexivity. }
  assert (s1 = (advance (Received put) demo_process).2) as F1 by (rewrite E1; reflexivity).
  destruct (advance (Begun put 0%nat) s1) as [o2 s2] eqn:E2.
  assert (o2 = Val (Committing put 0%nat MessageType.SUCCESS "OK")) as ->.
  { change o2 with ((o2, s2).1). rewrite <- E2, F1. vm_compute. reflexivity. }
  eapply rtc_l; [exact (request_arrives demo_process [] [] put)|].
  eapply rtc_l; [exact (request_arrives demo_process [Received put] [] get)|].
  eapply rtc_l; [exact (request_advances _ [Received put; Received get] [] 0%nat _ _ _ eq_refl E1)|].
  eapply rtc_l; [exact (request_advances _ [Begun put 0%nat; Received get] [] 0%nat _ _ _ eq_refl E2)|].
  apply rtc_refl.
Qed.

Lemma requests_linearizable_witness :
  served_all (contents demo_process) (rq_effects demo_two).*1 (rq_effects demo_two).*2
    (contents (rq_store demo_two)) ∧
  rq_effects demo_two ≡ₚ omap effect (rq_progress demo_two).
Proof.
  apply (requests_linearizable demo_process demo_two).
  - exact demo_ok.
  - exact demo_two_reached.
Defined.

Lemma requests_real_time_witness :
  ∃ p' s', advance (Received (get_request 2 "k")) (rq_store demo_two) = (Val p', s').
Proof.
  destruct (requests_real_time demo_process demo_two demo_two 1%nat (Received (get_request 2 "k")))
    as (_ & p' & s' & E & _).
  - exact demo_ok.
  - exact demo_two_reached.
  - apply rtc_refl.
  - vm_compute. reflexivity.
  - exists p', s'. exact E.
Defined.
