(* ===== verification/Serving.v ===== *)
(** * Requests served under the locks

    The threads of the [io_context] ([src/network/server.cpp]) process requests by
    [process_request_sync], whose calls on the database ([Concurrency.v]) are executed under
    the mutexes, interruptible at every lock ([Locking.v]).  Every such execution is one of
    [Concurrency.v], where a call is one step: what is proved there of the requests holds of
    the threads. *)

From stdpp Require Import base gmap list strings relations.
From Stdlib Require Import ZArith Lia.
From S2P Require Import Prelude.
From S2P Require Import Protocol.
From S2P Require Import Effects.
From S2P Require Import Wal.
From S2P Require Import Interface.
From S2P Require Import Database.
From S2P Require Import ScanFormat.
From S2P Require Import Server.
From S2P Require Import Locking.
From S2P Require Import LockingInvariant.
From S2P Require Import LockingTheorems.
From S2P Require Import Concurrency.

(** The call of the database that a request makes next, and how it goes on with the reply. *)
Definition next_call (p : Progress nat) : option Call :=
  match p with
  | Received request =>
      match msg_type request with
      | MessageType.GET | MessageType.PUT | MessageType.DELETE | MessageType.SCAN => Some CallBegin
      | _ => None
      end
  | Begun request t =>
      match msg_type request with
      | MessageType.GET => Some (CallGet t (msg_key request))
      | MessageType.PUT => Some (CallPut t (msg_key request) (msg_value request))
      | MessageType.DELETE => Some (CallDel t (msg_key request))
      | MessageType.SCAN => Some (CallScan t (msg_key request) (msg_value request) 1000)
      | _ => None
      end
  | Committing _ t _ _ => Some (CallCommit t)
  | Answered _ _ => None
  end.

Definition answered (request : Message) (type : MessageType.t) (value : string) : Progress nat :=
  Answered request (make_response request type value).

Definition resume (p : Progress nat) (r : Reply) : Progress nat :=
  match p, r with
  | Received request, ReplyTxn (Some t) => Begun request t
  | Received request, ReplyTxn None =>
      answered request MessageType.ERROR "Failed to begin transaction"
  | Begun request _, ReplyValue value =>
      if negb (string_empty value) then answered request MessageType.SUCCESS value
      else answered request MessageType.ERROR "Key not found"
  | Begun request t, ReplyResult result =>
      if decide (result = OperationResult.SUCCESS) then Committing request t MessageType.SUCCESS "OK"
      else answered request MessageType.ERROR
             (match msg_type request with
              | MessageType.PUT => "Failed to put value" | _ => "Failed to delete key" end)
  | Begun request _, ReplyPairs results => answered request MessageType.SUCCESS (scan_text results)
  | Committing request _ type value, _ => answered request type value
  | _, _ => p
  end.

(** Where no call is made. *)
Definition local_answer (p : Progress nat) : Progress nat :=
  match p with
  | Received request =>
      match msg_type request with
      | MessageType.PING => answered request MessageType.PONG "PONG"
      | _ => answered request MessageType.ERROR "Unsupported operation"
      end
  | Begun request _ => answered request MessageType.ERROR "Unsupported operation"
  | _ => p
  end.

(** The threads, the requests that were received, and the one that each thread processes. *)
Record Serving := mkServing {
  sv_threads : Threads;
  sv_requests : list (Progress nat);
  sv_current : list (option nat);
}.

Definition serving_start (n : nat) (s : Process) : Serving :=
  {| sv_threads := threads_start n s; sv_requests := []; sv_current := replicate n None |}.

Definition current_of (sv : Serving) (i : nat) : option nat := default None (sv_current sv !! i).

(** A thread that takes a step of its call; when the call returns its request goes on. *)
Definition after_step (i : nat) (sv : Serving) : list (Progress nat) :=
  match pc_at (sv_threads sv) i, current_of sv i with
  | Returning _ r, Some k => alter (λ p, resume p r) k (sv_requests sv)
  | _, _ => sv_requests sv
  end.

Inductive serving_step : Serving → Serving → Prop :=
  (** a thread without a request receives one *)
  | serving_receives th rqs cs i request :
      cs !! i = Some None →
      serving_step (mkServing th rqs cs)
        (mkServing th (rqs ++ [Received request]) (<[i := Some (length rqs)]> cs))
  (** it calls the database *)
  | serving_calls th rqs cs i k p c :
      cs !! i = Some (Some k) → rqs !! k = Some p → next_call p = Some c →
      th_pcs th !! i = Some Idle →
      serving_step (mkServing th rqs cs)
        (mkServing (happens (Called i c) (goto i (Entered c) th)) rqs cs)
  (** it answers without *)
  | serving_answers th rqs cs i k p :
      cs !! i = Some (Some k) → rqs !! k = Some p → next_call p = None → effect p = None →
      th_pcs th !! i = Some Idle →
      serving_step (mkServing th rqs cs) (mkServing th (<[k := local_answer p]> rqs) cs)
  (** a step of its call *)
  | serving_runs th rqs cs i th' :
      thread_step i th = Some th' →
      serving_step (mkServing th rqs cs)
        (mkServing th' (after_step i (mkServing th rqs cs)) cs)
  (** it is done with its request *)
  | serving_done th rqs cs i k request response :
      cs !! i = Some (Some k) → rqs !! k = Some (Answered request response) →
      th_pcs th !! i = Some Idle →
      serving_step (mkServing th rqs cs) (mkServing th rqs (<[i := None]> cs)).

(** ** The pieces of a request *)

(** The transaction that a request holds. *)
Definition progress_txn (p : Progress nat) : option nat :=
  match p with Begun _ t | Committing _ t _ _ => Some t | _ => None end.

Section Pieces.
Implicit Types (s a : Process) (p : Progress nat).

Lemma advance_call p c s r s' :
  next_call p = Some c → call_op c s = (Val r, s') → advance p s = (Val (resume p r), s').
Proof.
  unfold advance, answer, try_catch, mbind, M_bind, mret, M_ret.
  destruct p as [rq|rq t|rq t ty v|rq rp]; cbn [next_call]; [| | |done].
  - destruct (msg_type rq) eqn:Hm; try done; intros [= <-]; cbn [call_op];
      unfold mbind, M_bind, mret, M_ret; cbn [begin_transaction PersistentDatabase_iface];
      destruct (PersistentDatabase_begin_transaction s) as [[[t|]|?|?] s1]; try done; by intros [= <- <-].
  - destruct (msg_type rq) eqn:Hm; try done; intros [= <-]; cbn [call_op];
      unfold mbind, M_bind, mret, M_ret; cbn [txn_get txn_put txn_del txn_scan PersistentDatabase_iface].
    + destruct (PersistentTransaction_get _ _ s) as [[v|?|?] s1]; try done. intros [= <- <-].
      cbn [resume]. by destruct (string_empty v).
    + destruct (PersistentTransaction_put _ _ _ s) as [[v|?|?] s1]; try done. intros [= <- <-].
      cbn [resume]. rewrite Hm. by destruct (decide (v = OperationResult.SUCCESS)).
    + destruct (PersistentTransaction_del _ _ s) as [[v|?|?] s1]; try done. intros [= <- <-].
      cbn [resume]. rewrite Hm. by destruct (decide (v = OperationResult.SUCCESS)).
    + destruct (PersistentTransaction_scan _ _ _ _ s) as [[v|?|?] s1]; try done. by intros [= <- <-].
  - intros [= <-]. cbn [call_op]. unfold mbind, M_bind, mret, M_ret.
    cbn [txn_commit PersistentDatabase_iface].
    destruct (PersistentTransaction_commit t s) as [[w|?|?] s1]; try done. by intros [= <- <-].
Qed.

Lemma advance_local p s : next_call p = None → advance p s = (Val (local_answer p), s).
Proof.
  unfold advance, answer, try_catch, mbind, M_bind, mret, M_ret.
  destruct p as [rq|rq t|rq t ty v|rq rp]; cbn [next_call local_answer]; [| |done|done];
    by destruct (msg_type rq).
Qed.

Lemma next_call_txn p c t :
  next_call p = Some c → call_txn c = Some t → progress_txn p = Some t.
Proof.
  destruct p as [rq|rq u|rq u ty v|rq rp]; cbn; try done; try destruct (msg_type rq);
    intros [= <-]; done.
Qed.

Lemma resume_txn p r t :
  progress_txn (resume p r) = Some t →
  progress_txn p = Some t ∨ ∃ rq, p = Received rq ∧ r = ReplyTxn (Some t).
Proof.
  destruct p as [rq|rq u|rq u ty v|rq rp], r as [[w|]|w|w|w]; cbn; try done;
    repeat case_match; try done; try (by left); intros [= ->]; right; eauto.
Qed.

Lemma local_txn p : next_call p = None → progress_txn (local_answer p) = None.
Proof. destruct p as [rq|rq u|rq u ty v|rq rp]; cbn; try done; by destruct (msg_type rq). Qed.

(** A call keeps the transactions, and [begin_transaction] makes a new one. *)
Lemma call_runs_current c (p : nat) a r a' :
  opened a p → call_runs c a r a' →
  (∀ t, current_txn a t → current_txn a' t) ∧
  (∀ t, r = ReplyTxn (Some t) → t = length (p_txns a) ∧ current_txn a' t).
Proof.
  intros Ho [Ht E]. pose proof (op_mutex _ _ Ho) as Hm.
  destruct (decide (lock_mode c = LockedShared)) as [D|D].
  { destruct (body_read c a D Hm) as (r' & w & _ & E'). rewrite E in E'. injection E' as <- ->.
    split; [done|]. intros t ->. destruct c; try done; cbn [call_op] in E;
      unfold mbind, M_bind in E;
      match type of E with
      | match ?m with _ => _ end = _ => by destruct m as [[?|?|?] ?]
      end. }
  destruct (call_txn c) as [t|] eqn:Et.
  2:{ destruct c; try done. rewrite call_begin in E by apply Ho. injection E as <- <-.
      split; [apply (keeps_txns_begun None)|]. intros t [= <-]. split; [done|].
      eexists. cbn. rewrite list_lookup_middle by done. by split. }
  destruct (opened_txn a p t Ho (Ht t eq_refl)) as (tx & l & Hat & Hl).
  assert (logs c = true) as Hlogs by (by destruct c).
  destruct (append_record_any (log_record c (tx_id_ tx)) (p_world a) l Hl) as (b & w' & l' & _ & Ea & _).
  assert (∀ old, is_old c old a → (c = CallCommit t → tx_has_writes_ tx = true) →
    (∀ u, current_txn a u → current_txn a' u) ∧ ∀ u, r = ReplyTxn (Some u) → u = length (p_txns a) ∧ current_txn a' u) as Hlog.
  { intros old Hold Hh. rewrite (call_logged c old t a tx p l b w' l' Hlogs Et Hm Hat Hold Hh Ea) in E.
    injection E as <- <-. split; [|done]. by apply (keeps_txns_logged c old t a). }
  destruct c; try done; cbn in Et; injection Et as ->.
  - by apply (Hlog "").
  - destruct (data_ (p_db a) !! key) as [old|] eqn:Hold; [by apply (Hlog old)|].
    rewrite (call_del_missing t key a tx p l Hm Hat Hold) in E. by injection E as <- <-.
  - destruct (tx_has_writes_ tx) eqn:Hh; [by apply (Hlog "")|].
    cbn [call_op] in E. unfold mbind, M_bind in E.
    rewrite (commit_step_readonly t a tx (ta_txn _ _ _ _ _ Hat) Hh) in E. by injection E as <- <-.
Qed.

(** The explanation is determined by the effects. *)
Lemma atomically_app s es es' a' :
  atomically s (es ++ es') a' ↔ ∃ a, atomically s es a ∧ atomically a es' a'.
Proof.
  revert s. induction es as [|[c r] es IH]; intros s; cbn.
  - split; [by eauto|]. by intros (? & -> & ?).
  - split.
    + intros (s1 & H1 & H). apply IH in H as (a & Ha & H). eauto 6.
    + intros (a & (s1 & H1 & Ha) & H). exists s1. split; [done|]. apply IH. eauto.
Qed.

Lemma atomically_det s es a a' : atomically s es a → atomically s es a' → a' = a.
Proof.
  revert s. induction es as [|[c r] es IH]; intros s; cbn; [by intros -> ->|].
  intros (s1 & [_ E1] & H1) (s2 & [_ E2] & H2). rewrite E1 in E2. injection E2 as <-. eauto.
Qed.
End Pieces.

(** ** The simulation *)

(** A thread's step: towards the effect of its call or from it, the effect, or the return. *)
Inductive step_kind (i : nat) (st st' : Threads) : Prop :=
  | kind_silent pc pc' :
      th_pcs st !! i = Some pc → th_pcs st' = <[i := pc']> (th_pcs st) →
      pc_call pc' = pc_call pc → pc_phase pc' = pc_phase pc → (∀ c r, pc ≠ Returning c r) →
      effects (th_events st') = effects (th_events st) → step_kind i st st'
  | kind_effect pc pc' c r :
      th_pcs st !! i = Some pc → th_pcs st' = <[i := pc']> (th_pcs st) →
      pc_call pc = Some c → pc_call pc' = Some c → (∀ c r, pc ≠ Returning c r) →
      pc_phase pc = Pending c → pc_phase pc' = Done c r →
      effects (th_events st') = effects (th_events st) ++ [(c, r)] → step_kind i st st'
  | kind_return c r :
      th_pcs st !! i = Some (Returning c r) → th_pcs st' = <[i := Idle]> (th_pcs st) →
      effects (th_events st') = effects (th_events st) → step_kind i st st'.

Lemma thread_step_kind i st st' : thread_step i st = Some st' → step_kind i st st'.
Proof.
  unfold thread_step. intros E.
  destruct (th_pcs st !! i) as [[|c|c|c old|c old|c old ok|c old ok|c r|c r]|] eqn:Hi; try done;
    repeat case_match; try done; injection E as <-;
    first [ by eapply kind_silent; [exact Hi|reflexivity|..]
          | by eapply kind_effect; [exact Hi|reflexivity|..]; cbn; rewrite ?effects_snoc
          | by eapply kind_return; [exact Hi|reflexivity|]; cbn; rewrite effects_snoc, app_nil_r ].
Qed.

(** The request as it will be when the call whose effect has happened returns. *)
Definition ahead (pc : Pc) (p : Progress nat) : Progress nat :=
  match pc_phase pc with Done _ r => resume p r | _ => p end.

(** The execution of [Concurrency.v] that [sv] stands for has come to [rq]. *)
Record serves (s0 : Process) (q : nat) (sv : Serving) (a : Process) (rq : Requests Process nat)
    : Prop := {
  sx_explained : explained s0 q (sv_threads sv) a;
  sx_store : rq_store rq = a;
  sx_len : length (rq_progress rq) = length (sv_requests sv);
  sx_mine : ∀ i k p, current_of sv i = Some k → sv_requests sv !! k = Some p →
    rq_progress rq !! k = Some (ahead (pc_at (sv_threads sv) i) p);
  sx_rest : ∀ k, (∀ i, current_of sv i ≠ Some k) → rq_progress rq !! k = sv_requests sv !! k;
  sx_inj : ∀ i j k, current_of sv i = Some k → current_of sv j = Some k → i = j;
  sx_bound : ∀ i k, current_of sv i = Some k → (k < length (sv_requests sv))%nat;
  sx_call : ∀ i c, pc_call (pc_at (sv_threads sv) i) = Some c →
    ∃ k p, current_of sv i = Some k ∧ sv_requests sv !! k = Some p ∧ next_call p = Some c;
  sx_txns : ∀ k p t, rq_progress rq !! k = Some p → progress_txn p = Some t → current_txn a t;
  sx_distinct : ∀ k k' p p' t, rq_progress rq !! k = Some p → rq_progress rq !! k' = Some p' →
    progress_txn p = Some t → progress_txn p' = Some t → k = k';
  sx_pc : ∀ i t k p, pc_txn (pc_at (sv_threads sv) i) = Some t → rq_progress rq !! k = Some p →
    progress_txn p = Some t → current_of sv i = Some k;
}.

Section Simulation.
Context (s0 : Process) (q : nat).
Implicit Types (a : Process) (sv : Serving) (rq : Requests Process nat) (p : Progress nat).

Lemma current_txn_lt a t : current_txn a t → (t < length (p_txns a))%nat.
Proof. intros (tx & E & _). by eapply lookup_lt_Some. Qed.

(** The transactions of the requests, when one of them goes on. *)
Lemma txns_advance sv a rq k p p' a' es :
  serves s0 q sv a rq → rq_progress rq !! k = Some p →
  (∀ t, current_txn a t → current_txn a' t) →
  (∀ t, progress_txn p' = Some t → progress_txn p = Some t ∨ t = length (p_txns a) ∧ current_txn a' t) →
  let rq' := mkRequests a' (<[k := p']> (rq_progress rq)) es in
  (∀ k p t, rq_progress rq' !! k = Some p → progress_txn p = Some t → current_txn a' t) ∧
  (∀ k k' p p' t, rq_progress rq' !! k = Some p → rq_progress rq' !! k' = Some p' →
    progress_txn p = Some t → progress_txn p' = Some t → k = k') ∧
  (∀ i t k p, pc_txn (pc_at (sv_threads sv) i) = Some t → rq_progress rq' !! k = Some p →
    progress_txn p = Some t → current_of sv i = Some k).
Proof.
  intros H Hk Hmono Hp' rq'. cbn.
  assert (∀ j pj, <[k := p']> (rq_progress rq) !! j = Some pj →
    j = k ∧ pj = p' ∨ j ≠ k ∧ rq_progress rq !! j = Some pj) as Hl.
  { intros j pj Hj. destruct (decide (j = k)) as [->|]; [left|right].
    - rewrite list_lookup_insert_eq in Hj by (by eapply lookup_lt_Some). by injection Hj.
    - by rewrite list_lookup_insert_ne in Hj. }
  assert (∀ j pj, rq_progress rq !! j = Some pj → progress_txn pj ≠ Some (length (p_txns a))) as Hfresh.
  { intros j pj Hj Et. pose proof (current_txn_lt _ _ (sx_txns _ _ _ _ _ H _ _ _ Hj Et)). lia. }
  split_and!.
  - intros j pj t [[-> ->]|[_ Hj]]%Hl Et.
    + destruct (Hp' t Et) as [E|[_ E]]; [|done]. apply Hmono. by eapply sx_txns.
    + apply Hmono. by eapply sx_txns.
  - intros j j' pj pj' t [[-> ->]|[Hne Hj]]%Hl [[-> ->]|[Hne' Hj']]%Hl E E'; [done|..].
    + exfalso. destruct (Hp' t E) as [E0|[-> _]]; [|by eapply Hfresh].
      apply Hne'. by eapply (sx_distinct _ _ _ _ _ H).
    + exfalso. destruct (Hp' t E') as [E0|[-> _]]; [|by eapply Hfresh].
      apply Hne. by eapply (sx_distinct _ _ _ _ _ H).
    + by eapply (sx_distinct _ _ _ _ _ H).
  - intros i t j pj Ei [[-> ->]|[_ Hj]]%Hl Et; [|by eapply sx_pc].
    destruct (Hp' t Et) as [E0|[-> _]]; [by eapply sx_pc|].
    exfalso. pose proof (current_txn_lt _ _ (ex_txns _ _ _ _ (sx_explained _ _ _ _ _ H) _ _ Ei)). lia.
Qed.

(** A call by a request is one that may be made. *)
Lemma serves_may_call sv a rq i k p c :
  serves s0 q sv a rq → current_of sv i = Some k → sv_requests sv !! k = Some p →
  next_call p = Some c → th_pcs (sv_threads sv) !! i = Some Idle → may_call c (sv_threads sv).
Proof.
  intros H Hi Hk Hc Hpc t Et.
  pose proof (sx_mine _ _ _ _ _ H i k p Hi Hk) as Hr. rewrite (pc_at_lookup _ _ _ Hpc) in Hr. cbn in Hr.
  pose proof (next_call_txn _ _ _ Hc Et) as Hp. split.
  - eapply sim_current; [apply H|]. by eapply sx_txns.
  - apply Forall_lookup. intros j pc Hj E.
    rewrite <- (pc_at_lookup _ _ _ Hj) in E.
    pose proof (sx_pc _ _ _ _ _ H j t k p E Hr Hp) as Hjk.
    rewrite (sx_inj _ _ _ _ _ H j i k Hjk Hi), (pc_at_lookup _ _ _ Hpc) in E. done.
Qed.

Lemma explained_same st a st' a' :
  explained s0 q st a → explained s0 q st' a' →
  effects (th_events st') = effects (th_events st) → a' = a.
Proof.
  intros H H' E. eapply atomically_det; [apply H|]. rewrite <- E. apply H'.
Qed.

Lemma explained_next st a st' a' c r :
  explained s0 q st a → explained s0 q st' a' →
  effects (th_events st') = effects (th_events st) ++ [(c, r)] → call_runs c a r a'.
Proof.
  intros H H' E. pose proof (ex_effects _ _ _ _ H') as Ha. rewrite E in Ha.
  apply atomically_app in Ha as (a1 & Ha1 & a2 & Hr & E2). cbn in E2. subst a2.
  by rewrite (atomically_det _ _ _ _ (ex_effects _ _ _ _ H) Ha1) in Hr.
Qed.

(** The threads of [sv] go on, with the same requests under way. *)
Lemma serves_quietly sv a rq th' i pc pc' :
  serves s0 q sv a rq → explained s0 q th' a →
  th_pcs (sv_threads sv) !! i = Some pc → th_pcs th' = <[i := pc']> (th_pcs (sv_threads sv)) →
  pc_call pc' = pc_call pc → (∀ p, ahead pc' p = ahead pc p) →
  serves s0 q (mkServing th' (sv_requests sv) (sv_current sv)) a rq.
Proof.
  intros H He Hi Hth Hc Ha. pose proof (pc_at_lookup _ _ _ Hi) as Epc.
  assert (∀ j, pc_at th' j = upd i pc' (pc_at (sv_threads sv)) j) as Hat.
  { intros j. unfold pc_at at 1. rewrite Hth. exact (pc_at_goto (sv_threads sv) i j pc' pc Hi). }
  assert (∀ j, pc_call (pc_at th' j) = pc_call (pc_at (sv_threads sv) j)) as Hcall.
  { intros j. rewrite Hat. unfold upd. case_decide; [|done]. subst j. by rewrite Epc. }
  assert (∀ j p, ahead (pc_at th' j) p = ahead (pc_at (sv_threads sv) j) p) as Hah.
  { intros j p. rewrite Hat. unfold upd. case_decide; [|done]. subst j. by rewrite Epc. }
  destruct H. split; cbn; try done.
  - intros j k p Hj Hk. rewrite Hah. by apply sx_mine0.
  - intros j c. rewrite Hcall. apply sx_call0.
  - intros j t k p. unfold pc_txn. rewrite Hcall. apply sx_pc0.
Qed.

(** A call takes effect: its request goes on. *)
Lemma serves_effect sv a rq th' a' i pc pc' c r :
  serves s0 q sv a rq → explained s0 q th' a' → call_runs c a r a' →
  th_pcs (sv_threads sv) !! i = Some pc → th_pcs th' = <[i := pc']> (th_pcs (sv_threads sv)) →
  pc_call pc = Some c → pc_call pc' = Some c → pc_phase pc = Pending c → pc_phase pc' = Done c r →
  ∃ rq', serves s0 q (mkServing th' (sv_requests sv) (sv_current sv)) a' rq' ∧
    requests_step rq rq'.
Proof.
  intros H He Hr Hi Hth Hc Hc' Hp Hp'. pose proof (pc_at_lookup _ _ _ Hi) as Epc.
  assert (∀ j, pc_at th' j = upd i pc' (pc_at (sv_threads sv)) j) as Hat.
  { intros j. unfold pc_at at 1. rewrite Hth. exact (pc_at_goto (sv_threads sv) i j pc' pc Hi). }
  assert (∀ j, pc_call (pc_at th' j) = pc_call (pc_at (sv_threads sv) j)) as Hcall.
  { intros j. rewrite Hat. unfold upd. case_decide; [|done]. subst j. by rewrite Epc, Hc, Hc'. }
  destruct (sx_call _ _ _ _ _ H i c) as (k & p & Hik & Hk & Hn); [by rewrite Epc|].
  pose proof (sx_mine _ _ _ _ _ H i k p Hik Hk) as Hrk. rewrite Epc in Hrk.
  unfold ahead in Hrk. rewrite Hp in Hrk.
  destruct (call_runs_current c q a r a' (ex_opened _ _ _ _ (sx_explained _ _ _ _ _ H)) Hr)
    as [Hmono Hnew].
  destruct rq as [s ps es]. cbn in *. pose proof (sx_store _ _ _ _ _ H) as Es. cbn in Es. subst s.
  pose proof (advance_call p c a r a' Hn (proj2 Hr)) as Ea.
  exists (mkRequests a' (<[k := resume p r]> ps) (es ++ new_effect p (resume p r))).
  split; [|by eapply request_advances].
  destruct (txns_advance sv a (mkRequests a ps es) k p (resume p r) a' (es ++ new_effect p (resume p r)) H Hrk Hmono)
    as (T1 & T2 & T3).
  { intros t [E|(rq & -> & ->)]%resume_txn; [by left|right]. by apply Hnew. }
  pose proof H as [H1 H2 H3 H4 H5 H6 H7 H8 _ _ _]. split; cbn in *; try done.
  - by rewrite length_insert.
  - intros j k' p' Hj Hk'. destruct (decide (k' = k)) as [->|Hne].
    + rewrite list_lookup_insert_eq by (by eapply lookup_lt_Some).
      rewrite (H6 j i k Hj Hik), Hat, upd_eq. unfold ahead. rewrite Hp'. rewrite Hk in Hk'.
      by injection Hk' as <-.
    + rewrite list_lookup_insert_ne by done. rewrite Hat, upd_ne; [by apply H4|].
      intros <-. unfold current_of in *. cbn in Hj. congruence.
  - intros k' Hk'. rewrite list_lookup_insert_ne; [by apply H5|]. intros <-. by apply (Hk' i).
  - intros j c2. rewrite Hcall. apply H8.
  - intros j t k' p'. unfold pc_txn. rewrite Hcall. apply T3.
Qed.

(** A call returns: the request has gone on already. *)
Lemma serves_return sv a rq th' i c r :
  serves s0 q sv a rq → explained s0 q th' a →
  th_pcs (sv_threads sv) !! i = Some (Returning c r) →
  th_pcs th' = <[i := Idle]> (th_pcs (sv_threads sv)) →
  serves s0 q (mkServing th' (after_step i sv) (sv_current sv)) a rq.
Proof.
  intros H He Hi Hth. pose proof (pc_at_lookup _ _ _ Hi) as Epc.
  assert (∀ j, pc_at th' j = upd i Idle (pc_at (sv_threads sv)) j) as Hat.
  { intros j. unfold pc_at at 1. rewrite Hth. exact (pc_at_goto (sv_threads sv) i j Idle _ Hi). }
  pose proof H as [H1 H2 H3 H4 H5 H6 H7 H8 H9 H10 H11].
  destruct (H8 i c) as (k & p & Hik & Hk & Hn); [by rewrite Epc|].
  unfold after_step. rewrite Epc, Hik.
  split; cbn in *; try done.
  - by rewrite length_alter.
  - intros j k' p' Hj Hk'. destruct (decide (k' = k)) as [->|Hne].
    + rewrite list_lookup_alter_eq, Hk in Hk'. injection Hk' as <-.
      rewrite (H6 j i k Hj Hik), Hat, upd_eq, (H4 i k p Hik Hk), Epc. done.
    + rewrite list_lookup_alter_ne in Hk' by done. rewrite Hat, upd_ne; [by apply H4|].
      intros <-. unfold current_of in *. cbn in Hj. congruence.
  - intros k' Hk'. rewrite list_lookup_alter_ne; [by apply H5|]. intros <-. by apply (Hk' i).
  - intros j k'. rewrite length_alter. apply H7.
  - intros j c2. rewrite Hat. unfold upd. case_decide as D; [done|]. intros E.
    destruct (H8 j c2 E) as (k2 & p2 & Hj2 & Hk2 & Hn2). exists k2, p2. split; [done|].
    split; [|done]. rewrite list_lookup_alter_ne; [done|]. intros <-. by apply D, (H6 i j k).
  - intros j t k' p'. rewrite Hat. unfold upd. case_decide; [done|]. apply H11.
Qed.

Lemma serves_runs sv a rq i th' :
  serves s0 q sv a rq → thread_step i (sv_threads sv) = Some th' →
  ∃ a' rq', serves s0 q (mkServing th' (after_step i sv) (sv_current sv)) a' rq' ∧
    rtc requests_step rq rq'.
Proof.
  intros H E. pose proof (sx_explained _ _ _ _ _ H) as He.
  destruct (explained_step s0 q _ a th' He) as [a' He']; [by eapply thread_runs|].
  destruct (thread_step_kind _ _ _ E) as [pc pc' Hi Hth Hc Hp Hnr Hef|pc pc' c r Hi Hth Hc Hc' Hnr Hp Hp' Hef|c r Hi Hth Hef].
  - pose proof (explained_same _ _ _ _ He He' Hef) as ->. exists a, rq. split; [|done].
    replace (after_step i sv) with (sv_requests sv).
    { eapply serves_quietly; try done. intros p. unfold ahead. by rewrite Hp. }
    unfold after_step. rewrite (pc_at_lookup _ _ _ Hi). destruct pc; try done. by edestruct Hnr.
  - pose proof (explained_next _ _ _ _ _ _ He He' Hef) as Hr.
    destruct (serves_effect sv a rq th' a' i pc pc' c r) as (rq' & Hs & Hst); try done.
    exists a', rq'. split; [|by apply rtc_once].
    replace (after_step i sv) with (sv_requests sv); [done|].
    unfold after_step. rewrite (pc_at_lookup _ _ _ Hi). destruct pc; try done.
  - pose proof (explained_same _ _ _ _ He He' Hef) as ->. exists a, rq. split; [|done].
    by eapply serves_return.
Qed.

Lemma serves_calls sv a rq i k p c :
  serves s0 q sv a rq → current_of sv i = Some k → sv_requests sv !! k = Some p →
  next_call p = Some c → th_pcs (sv_threads sv) !! i = Some Idle →
  serves s0 q (mkServing (happens (Called i c) (goto i (Entered c) (sv_threads sv)))
                 (sv_requests sv) (sv_current sv)) a rq.
Proof.
  intros H Hi Hk Hn Hpc. pose proof (serves_may_call _ _ _ _ _ _ _ H Hi Hk Hn Hpc) as Hm.
  pose proof (pc_at_lookup _ _ _ Hpc) as Epc.
  set (th' := happens (Called i c) (goto i (Entered c) (sv_threads sv))).
  assert (explained s0 q th' a) as He' by (apply case_call; [apply H|done..]).
  assert (∀ j, pc_at th' j = upd i (Entered c) (pc_at (sv_threads sv)) j) as Hat.
  { intros j. exact (pc_at_goto (sv_threads sv) i j (Entered c) _ Hpc). }
  pose proof H as [H1 H2 H3 H4 H5 H6 H7 H8 H9 H10 H11].
  split; cbn -[th'] in *; try done.
  - intros j k' p' Hj Hk'. rewrite Hat. unfold upd. case_decide as D; [|by apply H4].
    subst j. rewrite (H4 i k' p' Hj Hk'), Epc. done.
  - intros j c2. rewrite Hat. unfold upd. case_decide as D; [|apply H8]. subst j.
    intros [= <-]. by exists k, p.
  - intros j t k' p'. rewrite Hat. unfold upd. case_decide as D; [|apply H11]. subst j.
    intros Et Hk' Hp'. pose proof (H4 i k p Hi Hk) as Hr. rewrite Epc in Hr.
    rewrite (H10 k' k p' p t Hk' Hr Hp' (next_call_txn _ _ _ Hn Et)). done.
Qed.

Lemma serves_answers sv a rq i k p :
  serves s0 q sv a rq → current_of sv i = Some k → sv_requests sv !! k = Some p →
  next_call p = None → th_pcs (sv_threads sv) !! i = Some Idle →
  ∃ rq', serves s0 q (mkServing (sv_threads sv) (<[k := local_answer p]> (sv_requests sv))
                        (sv_current sv)) a rq' ∧ requests_step rq rq'.
Proof.
  intros H Hi Hk Hn Hpc. pose proof (pc_at_lookup _ _ _ Hpc) as Epc.
  pose proof (sx_mine _ _ _ _ _ H i k p Hi Hk) as Hrk. rewrite Epc in Hrk.
  destruct rq as [s ps es]. pose proof (sx_store _ _ _ _ _ H) as Es. cbn in Es, Hrk. subst s.
  exists (mkRequests a (<[k := local_answer p]> ps) (es ++ new_effect p (local_answer p))).
  split; [|by eapply request_advances, advance_local].
  destruct (txns_advance sv a (mkRequests a ps es) k p (local_answer p) a
    (es ++ new_effect p (local_answer p)) H Hrk) as (T1 & T2 & T3); [done| |].
  { intros t E. by rewrite local_txn in E. }
  pose proof H as [H1 H2 H3 H4 H5 H6 H7 H8 _ _ _]. split; cbn in *; try done.
  - by rewrite !length_insert.
  - intros j k' p' Hj Hk'. destruct (decide (k' = k)) as [->|Hne].
    + rewrite list_lookup_insert_eq in Hk' |- * by (by eapply lookup_lt_Some).
      injection Hk' as <-. rewrite (H6 j i k Hj Hi), Epc. done.
    + rewrite list_lookup_insert_ne in Hk' |- * by done. by apply H4.
  - intros k' Hk'. rewrite !list_lookup_insert_ne; [by apply H5|intros <-; by apply (Hk' i)..].
  - intros j k'. rewrite length_insert. apply H7.
  - intros j c2 E. destruct (H8 j c2 E) as (k2 & p2 & Hj2 & Hk2 & Hn2). exists k2, p2. split; [done|].
    split; [|done]. rewrite list_lookup_insert_ne; [done|]. intros <-.
    rewrite (H6 j i k Hj2 Hi), Epc in E. done.
Qed.

Lemma current_of_insert th rqs cs i o j :
  (i < length cs)%nat →
  current_of (mkServing th rqs (<[i := o]> cs)) j = if decide (i = j) then o else current_of (mkServing th rqs cs) j.
Proof.
  intros Hi. unfold current_of. cbn. case_decide; subst.
  - by rewrite list_lookup_insert_eq.
  - by rewrite list_lookup_insert_ne.
Qed.

Lemma serves_receives th rqs cs a rq i request :
  serves s0 q (mkServing th rqs cs) a rq → cs !! i = Some None →
  serves s0 q (mkServing th (rqs ++ [Received request]) (<[i := Some (length rqs)]> cs)) a
    (mkRequests (rq_store rq) (rq_progress rq ++ [Received request]) (rq_effects rq)).
Proof.
  intros H Hi. pose proof (lookup_lt_Some _ _ _ Hi) as Hlt.
  assert (current_of (mkServing th rqs cs) i = None) as Hnone by (unfold current_of; cbn; by rewrite Hi).
  destruct rq as [s ps es]. pose proof H as [H1 H2 H3 H4 H5 H6 H7 H8 H9 H10 H11]. cbn in *.
  assert (∀ k p t, (ps ++ [Received request]) !! k = Some p → progress_txn p = Some t →
    ps !! k = Some p) as Hl.
  { intros k p t [Hk|[_ Hk]]%lookup_app_Some Et; [done|].
    apply list_lookup_singleton_Some in Hk as [_ <-]. done. }
  assert (∀ i, pc_call (pc_at th i) = None ∨ ∃ k p, current_of (mkServing th rqs cs) i = Some k ∧ rqs !! k = Some p) as Hc.
  { intros j. destruct (pc_call (pc_at th j)) as [c|] eqn:E; [right|by left].
    destruct (H8 j c E) as (k & p & ? & ? & _). eauto. }
  assert (pc_call (pc_at th i) = None) as Hidle.
  { destruct (Hc i) as [|(k & p & E & _)]; [done|]. congruence. }
  split; cbn; try done.
  - rewrite !length_app. cbn. lia.
  - intros j k p. rewrite current_of_insert by done. case_decide as D.
    + intros [= <-] Hk. subst j. rewrite list_lookup_middle in Hk by done. injection Hk as <-.
      rewrite <- H3, list_lookup_middle by done. f_equal. symmetry. unfold ahead.
      destruct (pc_at th i); try done.
    + intros Hj Hk. rewrite lookup_app_l in Hk by (by eapply H7).
      apply lookup_app_l_Some. by apply H4.
  - intros k Hk. specialize (Hk i) as Hki. rewrite current_of_insert, decide_True in Hki by done.
    assert (∀ j, current_of (mkServing th rqs cs) j ≠ Some k) as Hold.
    { intros j. specialize (Hk j). rewrite current_of_insert in Hk by done.
      case_decide; [subst j; by rewrite Hnone|done]. }
    specialize (H5 k Hold). destruct (decide (k < length rqs)%nat).
    + by rewrite !lookup_app_l by lia.
    + rewrite !lookup_ge_None_2; [done|rewrite length_app; cbn..]; destruct (decide (k = length rqs)); subst; try done; lia.
  - intros j j' k. rewrite !current_of_insert by done. repeat case_decide; subst; try done.
    + intros [= <-] E%H7. lia.
    + intros E%H7 [= <-]. lia.
    + apply H6.
  - intros j k. rewrite current_of_insert by done. rewrite length_app. cbn. case_decide.
    + intros [= <-]. lia.
    + intros E%H7. lia.
  - intros j c E. destruct (H8 j c E) as (k & p & Hj & Hk & Hn). exists k, p.
    rewrite current_of_insert by done. rewrite decide_False by (intros <-; congruence).
    split; [done|]. split; [by apply lookup_app_l_Some|done].
  - intros k p t Hk Et. eapply H9; [by eapply Hl|done].
  - intros k k' p p' t Hk Hk' Et Et'. eapply H10; [by eapply Hl|by eapply Hl|done|done].
  - intros j t k p Ej Hk Et. rewrite current_of_insert by done. case_decide as D.
    + subst j. unfold pc_txn in Ej. by rewrite Hidle in Ej.
    + eapply H11; [done|by eapply Hl|done].
Qed.

Lemma serves_done th rqs cs a rq i k request response :
  serves s0 q (mkServing th rqs cs) a rq → cs !! i = Some (Some k) →
  rqs !! k = Some (Answered request response) → th_pcs th !! i = Some Idle →
  serves s0 q (mkServing th rqs (<[i := None]> cs)) a rq.
Proof.
  intros H Hi Hk Hpc. pose proof (lookup_lt_Some _ _ _ Hi) as Hlt.
  pose proof (pc_at_lookup _ _ _ Hpc) as Epc.
  assert (current_of (mkServing th rqs cs) i = Some k) as Hik by (unfold current_of; cbn; by rewrite Hi).
  pose proof H as [H1 H2 H3 H4 H5 H6 H7 H8 H9 H10 H11]. cbn in *.
  assert (∀ j k', current_of (mkServing th rqs (<[i := None]> cs)) j = Some k' →
    current_of (mkServing th rqs cs) j = Some k') as Hsub.
  { intros j k'. rewrite current_of_insert by done. by case_decide. }
  split; cbn; try done.
  - intros j k' p Hj. by apply H4, Hsub.
  - intros k' Hk'. destruct (decide (k' = k)) as [->|Hne].
    + rewrite (H4 i k _ Hik Hk), Epc. by rewrite Hk.
    + apply H5. intros j Hj. apply (Hk' j). rewrite current_of_insert by done.
      rewrite decide_False; [done|]. intros <-. congruence.
  - intros j j' k' E E'. by eapply H6; apply Hsub.
  - intros j k' E. by eapply H7, Hsub.
  - intros j c E. destruct (H8 j c E) as (k' & p & Hj & Hk' & Hn). exists k', p.
    rewrite current_of_insert by done. rewrite decide_False; [done|]. intros <-.
    by rewrite Epc in E.
  - intros j t k' p Ej Hk' Et. rewrite current_of_insert by done. case_decide as D.
    + subst j. by rewrite Epc in Ej.
    + by eapply H11.
Qed.

Lemma current_of_lookup th rqs cs i o : cs !! i = Some o → current_of (mkServing th rqs cs) i = o.
Proof. intros E. unfold current_of. cbn. by rewrite E. Qed.

Lemma serves_step sv sv' a rq :
  serves s0 q sv a rq → serving_step sv sv' →
  ∃ a' rq', serves s0 q sv' a' rq' ∧ rtc requests_step rq rq'.
Proof.
  intros H Hst. destruct Hst as [th rqs cs i request Hi|th rqs cs i k p c Hi Hk Hn Hpc
    |th rqs cs i k p Hi Hk Hn He Hpc|th rqs cs i th' E|th rqs cs i k request response Hi Hk Hpc].
  - eexists a, _. split; [by apply serves_receives|]. apply rtc_once. destruct rq. constructor.
  - exists a, rq. split; [|done].
    by apply (serves_calls _ _ _ i k p c H (current_of_lookup _ _ _ _ _ Hi) Hk Hn Hpc).
  - destruct (serves_answers _ _ _ i k p H (current_of_lookup _ _ _ _ _ Hi) Hk Hn Hpc) as (rq' & H' & Hs).
    exists a, rq'. split; [done|by apply rtc_once].
  - destruct (serves_runs _ _ _ i th' H E) as (a' & rq' & H' & Hs). by exists a', rq'.
  - exists a, rq. split; [|done]. by eapply serves_done.
Qed.

Lemma serves_steps sv sv' a rq :
  serves s0 q sv a rq → rtc serving_step sv sv' →
  ∃ a' rq', serves s0 q sv' a' rq' ∧ rtc requests_step rq rq'.
Proof.
  intros H Hst. revert a rq H. induction Hst as [|sv1 sv2 sv3 H1 _ IH]; intros a rq H; [by exists a, rq|].
  destruct (serves_step _ _ _ _ H H1) as (a1 & rq1 & Ha1 & Hr1).
  destruct (IH _ _ Ha1) as (a2 & rq2 & Ha2 & Hr2). exists a2, rq2. split; [done|by etrans].
Qed.

Lemma serves_start n : opened s0 q → serves s0 q (serving_start n s0) s0 (mkRequests s0 [] []).
Proof.
  intros Ho. assert (∀ i, pc_at (threads_start n s0) i = Idle) as E.
  { intros i. unfold pc_at. cbn. destruct (replicate n Idle !! i) eqn:E; [|done].
    by apply lookup_replicate in E as [-> _]. }
  assert (∀ i, current_of (serving_start n s0) i = None) as Ec.
  { intros i. unfold current_of. cbn. destruct (replicate n None !! i) eqn:Ei; [|done].
    by apply lookup_replicate in Ei as [-> _]. }
  split; cbn -[threads_start]; try done; intros *; rewrite ?Ec, ?E; try done.
  by apply explained_start.
Qed.

Lemma serves_reachable n sv :
  opened s0 q → rtc serving_step (serving_start n s0) sv →
  ∃ a rq, serves s0 q sv a rq ∧ rtc requests_step (mkRequests s0 [] []) rq.
Proof. intros Ho. eapply serves_steps, serves_start, Ho. Qed.
End Simulation.

Lemma serves_lookup s0 q sv a rq k p :
  serves s0 q sv a rq → sv_requests sv !! k = Some p →
  (∃ i, current_of sv i = Some k ∧ rq_progress rq !! k = Some (ahead (pc_at (sv_threads sv) i) p)) ∨
  (∀ i, current_of sv i ≠ Some k) ∧ rq_progress rq !! k = Some p.
Proof.
  intros H Hk.
  destruct (decide (Exists (λ i, current_of sv i = Some k) (seq 0 (length (sv_current sv))))) as [D|D].
  - left. apply Exists_exists in D as (i & _ & Hi). exists i. split; [done|]. by eapply sx_mine.
  - right. assert (∀ i, current_of sv i ≠ Some k) as Hn; [|by rewrite (sx_rest _ _ _ _ _ H k Hn)].
    intros i Hi. apply D, Exists_exists. exists i. split; [|done]. apply elem_of_seq.
    unfold current_of in Hi. destruct (sv_current sv !! i) eqn:E; [|done].
    apply lookup_lt_Some in E. lia.
Qed.

(** ** Every request is answered *)

Definition is_answered (p : Progress nat) : Prop := ∃ request response, p = Answered request response.
Definition all_answered (sv : Serving) : Prop := Forall is_answered (sv_requests sv).

(** The threads go on with the requests they have: none is received, none is given up. *)
Definition busy_step (sv sv' : Serving) : Prop :=
  serving_step sv sv' ∧ length (sv_requests sv') = length (sv_requests sv) ∧
  sv_current sv' = sv_current sv.

(** The calls that a request may still make, and the steps that a thread may still take
    before it can make another. *)
Definition weight (p : Progress nat) : nat :=
  match p with Received _ => 3 | Begun _ _ => 2 | Committing _ _ _ _ => 1 | Answered _ _ => 0 end.
Definition slot (pc : Pc) : nat := match pc with Idle => 9 | _ => rank pc end.
Definition load (sv : Serving) : nat :=
  10 * sum_list_with weight (sv_requests sv) + sum_list_with slot (th_pcs (sv_threads sv)).

Section Answers.
Context (s0 : Process) (q : nat).
Implicit Types (a : Process) (sv : Serving) (rq : Requests Process nat) (p : Progress nat).

Lemma resume_weight c p s r s' :
  next_call p = Some c → call_op c s = (Val r, s') → (weight (resume p r) < weight p)%nat.
Proof.
  intros Hn E. destruct c; cbn [call_op] in E; unfold mbind, M_bind in E;
    match type of E with
    | match ?m with _ => _ end = _ => destruct m as [[x|?|?] s1]; try done
    end; injection E as <- _;
    destruct p as [rq|rq u|rq u ty v|rq rp]; cbn [next_call] in Hn; try done;
    try (destruct (msg_type rq) eqn:Hm; done); cbn [resume].
  all: try (destruct x; cbn; lia); try (cbn; lia); repeat case_match; cbn; lia.
Qed.

Lemma atomically_elem s es a c r :
  atomically s es a → (c, r) ∈ es → ∃ s1 s2, call_op c s1 = (Val r, s2).
Proof.
  revert s. induction es as [|[c' r'] es IH]; intros s; cbn; [set_solver|].
  intros (s1 & [_ E] & H) [[= <- <-]|Hin]%elem_of_cons; [eauto|by eapply IH].
Qed.

(** The reply that a thread returns is one that its call has. *)
Lemma returning_reply st a i c r :
  explained s0 q st a → pc_at st i = Returning c r → ∃ s1 s2, call_op c s1 = (Val r, s2).
Proof.
  intros H E. eapply atomically_elem; [apply H|].
  pose proof (ct_phases _ (ex_control _ _ _ _ H) i) as Hp. rewrite E in Hp. cbn in Hp.
  apply phase_effected in Hp. apply list_elem_of_omap. by exists (Effected i c r).
Qed.

Lemma thread_step_slot i st st' :
  thread_step i st = Some st' →
  ∃ pc pc', th_pcs st !! i = Some pc ∧ th_pcs st' = <[i := pc']> (th_pcs st) ∧
    ((slot pc' < slot pc)%nat ∧ (∀ c r, pc ≠ Returning c r) ∨ ∃ c r, pc = Returning c r ∧ pc' = Idle).
Proof.
  unfold thread_step. intros E.
  destruct (th_pcs st !! i) as [[|c|c|c old|c old|c old ok|c old ok|c r|c r]|] eqn:Hi; try done;
    repeat case_match; try done; injection E as <-; eexists _, _; (split; [done|]);
    (split; [reflexivity|]); try (left; split; [cbn; lia|done]). right. eauto.
Qed.

Lemma sum_alter (f : Progress nat → nat) g k l p :
  l !! k = Some p → sum_list_with f (alter g k l) = sum_list_with f (<[k := g p]> l).
Proof.
  intros E. f_equal. apply list_eq. intros j. destruct (decide (j = k)) as [->|Hne].
  - rewrite list_lookup_alter_eq, E, list_lookup_insert_eq; [done|]. by eapply lookup_lt_Some.
  - by rewrite list_lookup_alter_ne, list_lookup_insert_ne.
Qed.

Lemma busy_load sv sv' a rq :
  serves s0 q sv a rq → busy_step sv sv' → (load sv' < load sv)%nat.
Proof.
  intros H (Hst & Hlen & Hcur). destruct Hst as [th rqs cs i request Hi|th rqs cs i k p c Hi Hk Hn Hpc
    |th rqs cs i k p Hi Hk Hn He Hpc|th rqs cs i th' E|th rqs cs i k request response Hi Hk Hpc];
    unfold load; cbn in *.
  - rewrite length_app in Hlen. cbn in Hlen. lia.
  - pose proof (sum_list_with_insert slot _ _ _ (Entered c) Hpc). cbn in *. lia.
  - pose proof (sum_list_with_insert weight _ _ _ (local_answer p) Hk).
    assert (weight (local_answer p) < weight p)%nat; [|lia].
    destruct p as [rq1|rq1 u|rq1 u ty v|rq1 rp]; try done; cbn; destruct (msg_type rq1); cbn; lia.
  - destruct (thread_step_slot _ _ _ E) as (pc & pc' & Hpc & -> & Hs).
    pose proof (sum_list_with_insert slot _ _ _ pc' Hpc) as Hsum. unfold after_step. cbn.
    rewrite (pc_at_lookup _ _ _ Hpc). destruct Hs as [[Hs Hnr]|(c & r & -> & ->)].
    + destruct pc; try lia. by edestruct Hnr.
    + destruct (sx_call _ _ _ _ _ H i c) as (k & p & Hik & Hk & Hn).
      { cbn. by rewrite (pc_at_lookup _ _ _ Hpc). }
      rewrite Hik. cbn in Hk. rewrite (sum_alter _ _ _ _ _ Hk).
      pose proof (sum_list_with_insert weight _ _ _ (resume p r) Hk).
      destruct (returning_reply _ _ i c r (sx_explained _ _ _ _ _ H)) as (s1 & s2 & Ec);
        [by apply pc_at_lookup|].
      pose proof (resume_weight c p s1 r s2 Hn Ec). cbn in Hsum. lia.
  - exfalso. assert (i < length cs)%nat by (by eapply lookup_lt_Some).
    apply (f_equal (.!! i)) in Hcur. rewrite list_lookup_insert_eq, Hi in Hcur by done. done.
Qed.

(** A request that no thread has is answered. *)
Definition rested sv : Prop :=
  length (sv_current sv) = length (th_pcs (sv_threads sv)) ∧
  ∀ k p, sv_requests sv !! k = Some p → (∃ i, current_of sv i = Some k) ∨ is_answered p.

Lemma resume_answered p r : is_answered p → is_answered (resume p r).
Proof. intros (rq & rp & ->). by exists rq, rp. Qed.

Lemma rested_step sv sv' : rested sv → serving_step sv sv' → rested sv'.
Proof.
  intros [Hlen H] Hst. destruct Hst as [th rqs cs i request Hi|th rqs cs i k p c Hi Hk Hn Hpc
    |th rqs cs i k p Hi Hk Hn He Hpc|th rqs cs i th' E|th rqs cs i k request response Hi Hk Hpc];
    (split; [cbn in *; rewrite ?length_insert; try done|intros j pj; cbn in *]).
  4:{ destruct (thread_step_slot _ _ _ E) as (pc & pc' & _ & -> & _). by rewrite length_insert. }
  - pose proof (lookup_lt_Some _ _ _ Hi) as Hlt.
    intros [Hj|[Hge Hj]]%lookup_app_Some.
    + destruct (H j pj Hj) as [[i' Hi']|]; [left|by right]. exists i'.
      rewrite current_of_insert by done. rewrite decide_False; [done|]. intros <-.
      unfold current_of in Hi'. cbn in Hi'. by rewrite Hi in Hi'.
    + left. exists i. rewrite current_of_insert, decide_True by done. f_equal.
      apply lookup_lt_Some in Hj. cbn in Hj. lia.
  - apply H.
  - destruct (decide (j = k)) as [->|Hne].
    + intros _. left. exists i. unfold current_of. cbn. by rewrite Hi.
    + rewrite list_lookup_insert_ne by done. apply H.
  - unfold after_step. cbn. intros Hj. revert Hj.
    destruct (pc_at th i); try apply H. destruct (current_of _ i) as [k|]; [|apply H].
    destruct (decide (j = k)) as [->|Hne].
    + rewrite list_lookup_alter_eq. intros (p & Hk & ->)%fmap_Some.
      destruct (H k p Hk) as [|Ha]; [by left|right]. by apply resume_answered.
    + rewrite list_lookup_alter_ne by done. apply H.
  - pose proof (lookup_lt_Some _ _ _ Hi) as Hlt. intros Hj.
    destruct (decide (j = k)) as [->|Hne].
    + right. rewrite Hk in Hj. injection Hj as <-. by eexists _, _.
    + destruct (H j pj Hj) as [[i' Hi']|]; [left|by right]. exists i'.
      rewrite current_of_insert by done. rewrite decide_False; [done|]. intros <-.
      unfold current_of in Hi'. cbn in Hi'. rewrite Hi in Hi'. cbn in Hi'. congruence.
Qed.

Lemma rested_steps sv sv' : rested sv → rtc serving_step sv sv' → rested sv'.
Proof. intros H Hst. induction Hst; eauto using rested_step. Qed.

(** Whoever has a request that is not answered can go on. *)
Lemma busy_or_answered sv a rq :
  serves s0 q sv a rq → rested sv → (∃ sv', busy_step sv sv') ∨ all_answered sv.
Proof.
  intros H [Hlen Hr]. destruct sv as [th rqs cs].
  destruct (runs_or_stuck th) as [[th' [i Hi]]|Hstuck].
  { left. eexists. split; [by apply serving_runs|]. split; [|done]. unfold after_step. cbn.
    repeat case_match; by rewrite ?length_alter. }
  pose proof (stuck_quiet _ _ _ _ (sx_explained _ _ _ _ _ H) Hstuck) as Hq.
  destruct (decide (Forall (λ p, weight p = 0%nat) rqs)) as [D|D].
  { right. apply Forall_forall. intros p Hp. rewrite Forall_forall in D. specialize (D p Hp).
    destruct p; try done. by eexists _, _. }
  left. apply not_Forall_Exists in D; [|apply _].
  apply Exists_exists in D as (p & Hp & Hw). apply list_elem_of_lookup in Hp as [k Hk].
  destruct (Hr k p Hk) as [[i Hi]|(x & y & ->)]; [|by destruct Hw].
  assert (cs !! i = Some (Some k)) as Hci.
  { unfold current_of in Hi. cbn in Hi. destruct (cs !! i) as [o|]; [|done]. cbn in Hi. by subst. }
  cbn in Hlen. destruct (lookup_lt_is_Some_2 (th_pcs th) i) as [pc Hpc].
  { rewrite <- Hlen. by eapply lookup_lt_Some. }
  assert (pc = Idle) as -> by exact (proj1 (Forall_lookup _ _) Hq _ _ Hpc).
  destruct (next_call p) as [c|] eqn:Hn.
  - eexists. split; [by eapply serving_calls|done].
  - eexists. split; [apply (serving_answers _ _ _ i k p); [done..| |done]; destruct p; (done || by destruct Hw)|]. cbn. by rewrite length_insert.
Qed.

Lemma busy_bounded n sv sv' a rq :
  serves s0 q sv a rq → nsteps busy_step n sv sv' → (n + load sv' <= load sv)%nat.
Proof.
  intros H Hst. revert a rq H. induction Hst as [|n sv1 sv2 sv3 H1 _ IH]; intros a rq H; [lia|].
  destruct (serves_step _ _ _ _ _ _ H (proj1 H1)) as (a' & rq' & H' & _).
  specialize (IH _ _ H'). pose proof (busy_load _ _ _ _ H H1). lia.
Qed.

Lemma busy_serving sv sv' : rtc busy_step sv sv' → rtc serving_step sv sv'.
Proof. induction 1 as [|sv1 sv2 sv3 [H1 _] _ IH]; [done|]. by eapply rtc_l. Qed.

Lemma answers n sv a rq :
  (load sv <= n)%nat → serves s0 q sv a rq → rested sv →
  ∃ sv', rtc busy_step sv sv' ∧ all_answered sv'.
Proof.
  revert sv a rq. induction n as [|n IH]; intros sv a rq Hn H Hr;
    (destruct (busy_or_answered sv a rq H Hr) as [[sv1 H1]|Ha]; [|by exists sv]);
    pose proof (busy_load _ _ _ _ H H1); [lia|].
  destruct (serves_step _ _ _ _ _ _ H (proj1 H1)) as (a' & rq' & H' & _).
  destruct (IH sv1 a' rq') as (sv' & Hst & Ha); [lia|done|by eapply rested_step, H1|].
  exists sv'. split; [by eapply rtc_l|done].
Qed.

Lemma rested_start n : rested (serving_start n s0).
Proof. split; [cbn; by rewrite !length_replicate|]. by intros k p Hk. Qed.
End Answers.

(** What a state shows of the execution it stands for. *)
Lemma serves_answered s0 q sv a rq k p :
  serves s0 q sv a rq → sv_requests sv !! k = Some p → is_answered p → rq_progress rq !! k = Some p.
Proof.
  intros H Hk (x & y & ->). destruct (serves_lookup _ _ _ _ _ k _ H Hk) as [(i & Hi & ->)|[_ ->]]; [|done].
  unfold ahead. by destruct (pc_phase _).
Qed.

Lemma serves_quiet s0 q sv a rq :
  serves s0 q sv a rq → quiet (sv_threads sv) →
  th_shared (sv_threads sv) = rq_store rq ∧ rq_progress rq = sv_requests sv.
Proof.
  intros H Hq. split.
  - rewrite (sx_store _ _ _ _ _ H). eapply explained_quiet; [apply H|done].
  - apply list_eq. intros k. destruct (sv_requests sv !! k) as [p|] eqn:Hk.
    + destruct (serves_lookup _ _ _ _ _ k _ H Hk) as [(i & Hi & ->)|[_ ->]]; [|done].
      unfold pc_at. destruct (th_pcs (sv_threads sv) !! i) as [pc|] eqn:Hpc; [|done].
      by rewrite (proj1 (Forall_lookup _ _) Hq _ _ Hpc).
    + apply lookup_ge_None. apply lookup_ge_None in Hk. by rewrite (sx_len _ _ _ _ _ H).
Qed.

Lemma db_ok_opened (s : Process) : db_ok s → ∃ q, opened s q.
Proof.
  intros (q & l & bs & [Hm Hi Hw Hlog Hr _ _]). exists q. split; try done. exists l.
  split; [done|]. apply Hr.
Qed.

(** ** Theorems *)

(** The threads refine the interleaved requests: whatever I/O does and however the threads are
    interrupted inside their calls of the database, an execution in which a call is one step
    ([requests_step]) receives the same requests and gives each the same response, and has the
    same database when no call is under way. *)
Theorem serving_refines (n : nat) (s : Process) (q : nat) (sv : Serving) :
  opened s q → rtc serving_step (serving_start n s) sv →
  ∃ rq, rtc requests_step (mkRequests s [] []) rq ∧
    length (rq_progress rq) = length (sv_requests sv) ∧
    (∀ k p, sv_requests sv !! k = Some p → is_answered p → rq_progress rq !! k = Some p) ∧
    (quiet (sv_threads sv) → th_shared (sv_threads sv) = rq_store rq ∧ rq_progress rq = sv_requests sv).
Proof.
  intros Ho Hst. destruct (serves_reachable s q n sv Ho Hst) as (a & rq & H & Hrq).
  exists rq. split; [done|]. split; [apply H|]. split.
  - intros k p. by eapply serves_answered.
  - by eapply serves_quiet.
Qed.

(** The threads are linearizable: however they are interrupted inside their calls of the
    database, there is an order of the requests that have taken effect in which they are a
    sequential execution from the first contents, with the responses that the threads return;
    every answered request is among them, and when no call is under way they have led to the
    contents of the database. *)
Theorem serving_linearizable (n : nat) (s : Process) (sv : Serving) :
  db_ok s → rtc serving_step (serving_start n s) sv →
  ∃ (es : list (Message * Message)) m,
    served_all (contents s) es.*1 es.*2 m ∧
    (∀ k request response, sv_requests sv !! k = Some (Answered request response) →
       (request, response) ∈ es) ∧
    (quiet (sv_threads sv) →
       m = contents (th_shared (sv_threads sv)) ∧ es ≡ₚ omap effect (sv_requests sv)).
Proof.
  intros Hs Hst. destruct (db_ok_opened s Hs) as [q Ho].
  destruct (serves_reachable s q n sv Ho Hst) as (a & rq & H & Hrq).
  assert (linearized (contents s) (mkRequests s [] [] : Requests Process nat)) as Hl.
  { split; cbn; [done|constructor|constructor|done]. }
  destruct (linearized_steps _ _ _ Hl Hrq) as [_ _ Hsv Hes].
  exists (rq_effects rq), (contents (rq_store rq)). split; [done|]. split.
  - intros k x y Hk. rewrite Hes. apply list_elem_of_omap. exists (Answered x y). split; [|done].
    apply (list_elem_of_lookup_2 _ k). eapply serves_answered; [done|done|by exists x, y].
  - intros Hq. destruct (serves_quiet _ _ _ _ _ H Hq) as [-> Hp]. by rewrite <- Hp.
Qed.

(** And they answer: whatever the scheduler does, the threads can take only so many steps
    without a request being received or given up, they cannot all be stuck before every
    request that was received is answered, and so all are. *)
Theorem serving_answers_all (n : nat) (s : Process) (q : nat) (sv : Serving) :
  opened s q → rtc serving_step (serving_start n s) sv →
  (∀ k sv', nsteps busy_step k sv sv' → (k <= load sv)%nat) ∧
  (∀ sv', rtc busy_step sv sv' → (∀ sv'', ¬ busy_step sv' sv'') → all_answered sv') ∧
  ∃ sv', rtc busy_step sv sv' ∧ all_answered sv'.
Proof.
  intros Ho Hst. destruct (serves_reachable s q n sv Ho Hst) as (a & rq & H & _).
  pose proof (rested_steps _ _ (rested_start s n) Hst) as Hr. split_and!.
  - intros k sv' Hk. pose proof (busy_bounded _ _ _ _ _ _ _ H Hk). lia.
  - intros sv' Hst' Hn. apply busy_serving in Hst'.
    destruct (serves_steps _ _ _ _ _ _ H Hst') as (a' & rq' & H' & _).
    destruct (busy_or_answered _ _ _ _ _ H') as [[sv'' Hb]|]; [by eapply rested_steps| |done].
    by destruct (Hn sv'').
  - by eapply answers.
Qed.

(** ** Witnesses *)

(** Two threads, and a request for each of them. *)
Definition demo_serving : Serving :=
  mkServing (threads_start 2 demo_process)
    [Received (put_request 1 "k" "v"); Received (get_request 2 "k")] [Some 0%nat; Some 1%nat].

Lemma demo_serving_reached : rtc serving_step (serving_start 2 demo_process) demo_serving.
Proof.
  eapply rtc_l; [exact (serving_receives (threads_start 2 demo_process) [] [None; None] 0%nat
                          (put_request 1 "k" "v") eq_refl)|].
  eapply rtc_l; [exact (serving_receives (threads_start 2 demo_process)
                          [Received (put_request 1 "k" "v")] [Some 0%nat; None] 1%nat
                          (get_request 2 "k") eq_refl)|].
  apply rtc_refl.
Qed.

Lemma demo_process_opened : opened demo_process 0.
Proof. apply (logged_opened _ [] _ demo_process_logged). vm_compute. reflexivity. Qed.

(** ... both answered. *)
Lemma demo_served :
  ∃ sv, rtc serving_step (serving_start 2 demo_process) sv ∧ all_answered sv ∧
    length (sv_requests sv) = 2%nat.
Proof.
  destruct (serves_reachable demo_process 0 2 demo_serving demo_process_opened demo_serving_reached)
    as (a & rq & H & _).
  destruct (answers demo_process 0 (load demo_serving) demo_serving a rq (le_n _) H) as (sv & Hst & Ha).
  { apply (rested_steps _ _ (rested_start demo_process 2) demo_serving_reached). }
  exists sv. split; [etrans; [exact demo_serving_reached|by apply busy_serving]|]. split; [done|].
  assert (∀ sv0 sv1, rtc busy_step sv0 sv1 → length (sv_requests sv1) = length (sv_requests sv0)) as Hlen.
  { induction 1 as [|sv0 sv1 sv2 (_ & E & _) _ IH]; [done|]. by rewrite IH. }
  exact (Hlen _ _ Hst).
Qed.

Lemma serving_refines_witness :
  ∃ sv rq, rtc serving_step (serving_start 2 demo_process) sv ∧
    rtc requests_step (mkRequests demo_process [] []) rq ∧
    length (rq_progress rq) = 2%nat ∧
    ∀ k p, sv_requests sv !! k = Some p → rq_progress rq !! k = Some p.
Proof.
  destruct demo_served as (sv & Hst & Ha & Hlen).
  destruct (serving_refines 2 demo_process 0 sv demo_process_opened Hst) as (rq & Hrq & Hl & Hp & _).
  exists sv, rq. split; [exact Hst|]. split; [exact Hrq|]. split; [rewrite Hl; exact Hlen|].
  intros k p Hk. apply Hp; [exact Hk|]. exact (proj1 (Forall_lookup _ _) Ha _ _ Hk).
Defined.

Lemma serving_linearizable_witness :
  ∃ sv (es : list (Message * Message)) m, rtc serving_step (serving_start 2 demo_process) sv ∧
    length (sv_requests sv) = 2%nat ∧ served_all (contents demo_process) es.*1 es.*2 m ∧
    ∀ k p, sv_requests sv !! k = Some p → ∃ request response,
      p = Answered request response ∧ (request, response) ∈ es.
Proof.
  destruct demo_served as (sv & Hst & Ha & Hlen).
  destruct (serving_linearizable 2 demo_process sv demo_ok Hst) as (es & m & Hs & Hes & _).
  exists sv, es, m. split; [exact Hst|]. split; [exact Hlen|]. split; [exact Hs|].
  intros k p Hk. destruct (proj1 (Forall_lookup _ _) Ha _ _ Hk) as (x & y & E).
  exists x, y. split; [exact E|]. apply (Hes k). rewrite <- E. exact Hk.
Defined.

Lemma serving_answers_all_witness :
  ∃ sv, rtc busy_step demo_serving sv ∧ all_answered sv.
Proof.
  apply (serving_answers_all 2 demo_process 0 demo_serving demo_process_opened demo_serving_reached).
Defined.
