(* ===== verification/Connection.v ===== *)
(** * Connection handlers

    [src/network/server.cpp], [class ConnectionHandler]: one object per client, driven by the
    completions of the asynchronous operations it starts.  Boost.Asio is not part of the
    program; what the model has of it is its documented contract: an operation started on the
    socket completes once, with an error code; a read completes without error when its whole
    buffer was filled, in stream order; a write takes its bytes from the caller's buffers
    between its start and its completion, so these have to live that long. *)

From stdpp Require Import base gmap list strings.
From Stdlib Require Import ZArith Lia.
From Stdlib Require Import Strings.Byte.
From S2P Require Import Prelude.
From S2P Require Import Bytes.
From S2P Require Import Framing.
From S2P Require Import Protocol.
From S2P Require Import Effects.
From S2P Require Import Interface.
From S2P Require Import Database.
From S2P Require Import Server.

(** [boost::system::error_code], as far as the handlers distinguish it. *)
Inductive error_code := NoError | OperationAborted | OtherError.

#[global] Instance error_code_eq_dec : EqDecision error_code.
Proof. solve_decision. Defined.

(** The operation that is under way.  A write knows how many bytes it has yet to fetch from
    the buffers it was given. *)
Inductive AsyncOp := AsyncReadHeader | AsyncReadBody | AsyncWrite (unfetched : nat).

(** [class ConnectionHandler]; [h_database_] tells whether [database_] is set. *)
Record ConnectionHandler := mkConnectionHandler {
  socket_open : bool;
  h_database_ : bool;
  header_buffer_ : list byte;
  body_buffer_ : list byte;
  active_ : bool;
}.

(** The handler and what it acts on. *)
Record Connection (S : Type) := mkConnection {
  handler : ConnectionHandler;
  pending : option AsyncOp;
  disconnects : nat;           (** calls of [on_disconnect_] *)
  inbox : list byte;           (** arrived, not yet read *)
  outbox : list byte;          (** written *)
  fetched : nat → nat → nat;   (** of the [n] bytes of the [i]-th write, those fetched at its start *)
  writes_started : nat;
  store : S;                   (** the database *)
}.
Arguments mkConnection {S}.
Arguments handler {S}.
Arguments pending {S}.
Arguments disconnects {S}.
Arguments inbox {S}.
Arguments outbox {S}.
Arguments fetched {S}.
Arguments writes_started {S}.
Arguments store {S}.

Section Handler.
Context {S T : Type} `{!Database S T}.

Abbreviation ConnM := (M (Connection S)).

Definition on_handler (f : ConnectionHandler → ConnectionHandler) (c : Connection S) : Connection S :=
  mkConnection (f (handler c)) (pending c) (disconnects c) (inbox c) (outbox c) (fetched c)
    (writes_started c) (store c).

Definition is_active : ConnM bool := gets (active_ ∘ handler).

(** Starts an operation. *)
Definition start_op (op : AsyncOp) : ConnM unit := modify (λ c,
  mkConnection (handler c) (Some op) (disconnects c) (inbox c) (outbox c) (fetched c)
    (writes_started c) (store c)).

(** [on_disconnect_()]. *)
Definition on_disconnect_ : ConnM unit := modify (λ c,
  mkConnection (handler c) (pending c) (1 + disconnects c) (inbox c) (outbox c) (fetched c)
    (writes_started c) (store c)).

Definition on_store {A} (m : M S A) : ConnM A :=
  zoom store (λ s c, mkConnection (handler c) (pending c) (disconnects c) (inbox c) (outbox c)
                       (fetched c) (writes_started c) s) m.

(** [boost::asio::async_write(socket_, buffers, ...)]: some bytes are fetched at once. *)
Definition async_write (bytes : list byte) : ConnM unit := modify (λ c,
  let n := fetched c (writes_started c) (length bytes) in
  mkConnection (handler c) (Some (AsyncWrite (length bytes - n))) (disconnects c) (inbox c)
    (outbox c ++ take n bytes) (fetched c) (1 + writes_started c) (store c)).

(** [read_header]: up to the start of the operation. *)
Definition read_header : ConnM unit :=
  active ← is_active;
  if negb active then mret tt else
  start_op AsyncReadHeader.

(** [read_body]: up to the start of the operation. *)
Definition read_body (message_length : Z) : ConnM unit :=
  active ← is_active;
  if negb active then mret tt else
  modify (on_handler (λ h, mkConnectionHandler (socket_open h) (h_database_ h) (header_buffer_ h)
                             (resize (Z.to_nat message_length) x00 (body_buffer_ h)) (active_ h)));;
  start_op AsyncReadBody.

(** [write_response]: up to the start of the operation.  [buffers] refers to the local
    variables [response_length] and [response_data]. *)
Definition write_response (response : Message) : ConnM unit :=
  active ← is_active;
  if negb active then mret tt else
  let response_data := Message_serialize response in
  let response_length := u32 (zlen response_data) in
  async_write (le_bytes 4 response_length ++ response_data).

(** [handle_request]. *)
Definition handle_request (request : Message) : ConnM unit :=
  database ← gets (h_database_ ∘ handler);
  if negb database then
    let value := "Database not initialized" in
    let error_response :=
      {| msg_type := MessageType.ERROR; msg_id := msg_id request; msg_key_length := 0;
         msg_value_length := u32 (slen value); msg_key := ""; msg_value := value |} in
    write_response error_response
  else
    response ← on_store (process_request_sync request);
    write_response response.

(** The completion handler of [read_header]. *)
Definition header_read (ec : error_code) : ConnM unit :=
  active ← is_active;
  if bool_decide (ec = NoError) && active then
    header ← gets (header_buffer_ ∘ handler);
    let message_length := le_value header in
    if message_length >? MAX_MESSAGE_SIZE then on_disconnect_
    else read_body message_length
  else if bool_decide (ec ≠ OperationAborted) then on_disconnect_ else mret tt.

(** The completion handler of [read_body]. *)
Definition body_read (ec : error_code) : ConnM unit :=
  active ← is_active;
  if bool_decide (ec = NoError) && active then
    try_catch
      (body ← gets (body_buffer_ ∘ handler);
       request ← of_result (Message_deserialize body);
       handle_request request)
      (λ _, on_disconnect_)
  else if bool_decide (ec ≠ OperationAborted) then on_disconnect_ else mret tt.

(** The completion handler of [write_response]. *)
Definition response_written (ec : error_code) : ConnM unit :=
  active ← is_active;
  if bool_decide (ec = NoError) && active then read_header
  else if bool_decide (ec ≠ OperationAborted) then on_disconnect_ else mret tt.

(** [start]. *)
Definition handler_start : ConnM unit := read_header.

(** [stop]; what is under way will complete with [operation_aborted]. *)
Definition handler_stop : ConnM unit :=
  modify (on_handler (λ h, mkConnectionHandler (socket_open h) (h_database_ h) (header_buffer_ h)
                             (body_buffer_ h) false));;
  modify (on_handler (λ h, mkConnectionHandler false (h_database_ h) (header_buffer_ h)
                             (body_buffer_ h) (active_ h))).

(** ** Events *)

(** Bytes arrive; the operation under way completes; [stop] is called. *)
Inductive event := Arrive (bytes : list byte) | Complete (ec : error_code) | Stop.

(** Ends the operation under way, with [header] and [body] for the buffers and [n] bytes
    of the inbox used up. *)
Definition end_op (header body : list byte) (n : nat) : ConnM unit := modify (λ c,
  let h := handler c in
  mkConnection (mkConnectionHandler (socket_open h) (h_database_ h) header body (active_ h))
    None (disconnects c) (drop n (inbox c)) (outbox c) (fetched c) (writes_started c) (store c)).

(** Asio at a completion: a read without an error has to wait for all its bytes; a write
    that fetches bytes now finds buffers that ceased to exist when [write_response]
    returned. *)
Definition on_event (e : event) : ConnM unit := λ c,
  let h := handler c in
  match e with
  | Arrive bytes =>
      (Val tt, mkConnection h (pending c) (disconnects c) (inbox c ++ bytes) (outbox c)
                 (fetched c) (writes_started c) (store c))
  | Stop => handler_stop c
  | Complete ec =>
      match pending c with
      | None => (Val tt, c)
      | Some AsyncReadHeader =>
          if bool_decide (ec = NoError) then
            if zlen (inbox c) <? 4 then (Val tt, c) else
            (end_op (take 4 (inbox c)) (body_buffer_ h) 4;; header_read ec) c
          else (end_op (header_buffer_ h) (body_buffer_ h) 0;; header_read ec) c
      | Some AsyncReadBody =>
          let n := length (body_buffer_ h) in
          if bool_decide (ec = NoError) then
            if zlen (inbox c) <? Z.of_nat n then (Val tt, c) else
            (end_op (header_buffer_ h) (take n (inbox c)) n;; body_read ec) c
          else (end_op (header_buffer_ h) (body_buffer_ h) 0;; body_read ec) c
      | Some (AsyncWrite unfetched) =>
          if bool_decide (ec = NoError) && (0 <? Z.of_nat unfetched) then
            (UB "async_write reads a buffer that was destroyed", c)
          else (end_op (header_buffer_ h) (body_buffer_ h) 0;; response_written ec) c
      end
  end.

Fixpoint on_events (es : list event) : ConnM unit :=
  match es with
  | [] => mret tt
  | e :: es => on_event e;; on_events es
  end.

(** [std::make_shared<ConnectionHandler>(socket, database_, on_disconnect)]. *)
Definition ConnectionHandler_new (database : bool) : ConnectionHandler :=
  {| socket_open := true; h_database_ := database; header_buffer_ := replicate 4 x00;
     body_buffer_ := []; active_ := true |}.

Definition accepted_connection (oracle : nat → nat → nat) (s : S) : Connection S :=
  mkConnection (ConnectionHandler_new true) None 0 [] [] oracle 0 s.
End Handler.

(** ** Lemmas *)

Ltac connsimpl :=
  unfold is_active, start_op, on_disconnect_, on_store, async_write, end_op, handler_stop,
    of_result, try_catch, mbind, M_bind, mret, M_ret, on_handler, gets, modify, zoom in *;
  cbn -[MAX_MESSAGE_SIZE zlen le_value le_bytes Message_deserialize Message_serialize
        process_request_sync u32 drop take resize frame] in *.

Section Accounting.
Context {S T : Type} `{!Database S T}.
Implicit Types (c : Connection S).

(** One disconnect at most, after which nothing is under way; buffers within bounds. *)
Record conn_inv c : Prop := {
  ci_once : (disconnects c <= 1)%nat;
  ci_over : disconnects c = 1%nat → pending c = None;
  ci_header : length (header_buffer_ (handler c)) = 4%nat;
  ci_body : zlen (body_buffer_ (handler c)) <= MAX_MESSAGE_SIZE;
}.

(** Nothing is under way, and no disconnect was reported. *)
Record quiet c : Prop := {
  qu_pending : pending c = None;
  qu_disconnects : disconnects c = 0%nat;
  qu_header : length (header_buffer_ (handler c)) = 4%nat;
  qu_body : zlen (body_buffer_ (handler c)) <= MAX_MESSAGE_SIZE;
}.

Lemma quiet_inv c : quiet c → conn_inv c.
Proof. intros []. split; rewrite ?qu_disconnects0; done || lia. Qed.

Lemma quiet_disconnect c : quiet c → conn_inv (on_disconnect_ c).2.
Proof. intros []. split; cbn; rewrite ?qu_disconnects0; done || lia. Qed.

Lemma quiet_start op c : quiet c → conn_inv (start_op op c).2.
Proof. intros []. split; cbn; rewrite ?qu_disconnects0; done || lia. Qed.

Lemma quiet_read_header c : quiet c → conn_inv (read_header c).2.
Proof.
  intros Hq. unfold read_header. connsimpl. destruct (active_ (handler c)); cbn.
  - by apply (quiet_start AsyncReadHeader).
  - by apply quiet_inv.
Qed.

Lemma quiet_read_body n c :
  quiet c → 0 <= n <= MAX_MESSAGE_SIZE → conn_inv (read_body n c).2.
Proof.
  intros Hq Hn. unfold read_body. connsimpl.
  destruct (active_ (handler c)) eqn:Ha; cbn -[MAX_MESSAGE_SIZE resize]; [|by apply quiet_inv].
  destruct Hq. split; cbn -[MAX_MESSAGE_SIZE resize]; rewrite ?qu_disconnects0; try done; [lia|].
  unfold zlen. rewrite length_resize. lia.
Qed.

Lemma quiet_write_response r c : quiet c → conn_inv (write_response r c).2.
Proof.
  intros Hq. unfold write_response. connsimpl. destruct (active_ (handler c)); cbn -[MAX_MESSAGE_SIZE].
  - destruct Hq. split; cbn -[MAX_MESSAGE_SIZE]; rewrite ?qu_disconnects0; done || lia.
  - by apply quiet_inv.
Qed.

Lemma handle_request_no_throw r c what : (handle_request r c).1 ≠ Exn what.
Proof.
  unfold handle_request, write_response. connsimpl.
  destruct (h_database_ (handler c)); cbn -[Message_serialize].
  - pose proof (process_request_sync_shape r (store c)) as Hs.
    destruct (process_request_sync r (store c)) as [[]]; [|done..]. connsimpl.
    by destruct (active_ (handler c)).
  - by destruct (active_ (handler c)).
Qed.

Lemma quiet_handle_request r c : quiet c → conn_inv (handle_request r c).2.
Proof.
  intros Hq. unfold handle_request. connsimpl. destruct (h_database_ (handler c)); cbn [negb].
  - destruct (process_request_sync r (store c)) as [[resp|what|why] s'] eqn:E;
      [by apply quiet_write_response; destruct Hq|by apply quiet_inv; destruct Hq..].
  - by apply quiet_write_response.
Qed.

(** The tail of every completion handler. *)
Lemma quiet_on_error ec c :
  quiet c → conn_inv ((if bool_decide (ec ≠ OperationAborted) then on_disconnect_ else mret tt) c).2.
Proof. intros Hq. case_bool_decide; [by apply quiet_disconnect|by apply quiet_inv]. Qed.

Lemma quiet_header_read ec c : quiet c → conn_inv (header_read ec c).2.
Proof.
  intros Hq. unfold header_read. unfold mbind at 1, M_bind at 1. cbn [is_active gets].
  destruct (bool_decide (ec = NoError) && _); [|by apply quiet_on_error].
  unfold mbind, M_bind, gets, compose. rewrite Z.gtb_ltb. zcase; [by apply quiet_disconnect|].
  apply quiet_read_body; [done|]. split; [|done]. apply le_value_u32. by rewrite (qu_header c).
Qed.

Lemma quiet_body_read ec c : quiet c → conn_inv (body_read ec c).2.
Proof.
  intros Hq. unfold body_read. unfold mbind at 1, M_bind at 1. cbn [is_active gets].
  destruct (bool_decide (ec = NoError) && _); [|by apply quiet_on_error].
  unfold try_catch, mbind, M_bind, gets, compose, of_result.
  destruct (Message_deserialize _) as [r|what]; cbn; [|by apply quiet_disconnect].
  pose proof (quiet_handle_request r c Hq) as Hi. pose proof (handle_request_no_throw r c) as He.
  destruct (handle_request r c) as [[]]; [done|by edestruct He|done].
Qed.

Lemma quiet_response_written ec c : quiet c → conn_inv (response_written ec c).2.
Proof.
  intros Hq. unfold response_written. unfold mbind at 1, M_bind at 1. cbn [is_active gets].
  destruct (bool_decide (ec = NoError) && _); [by apply quiet_read_header|by apply quiet_on_error].
Qed.

Lemma inv_end_op c header body n op :
  conn_inv c → pending c = Some op → length header = 4%nat → zlen body <= MAX_MESSAGE_SIZE →
  quiet (end_op header body n c).2.
Proof.
  intros [] Hp Hh Hb. split; cbn; try done.
  destruct (disconnects c) as [|[]]; [done| |lia]. rewrite ci_over0 in Hp; done.
Qed.

Lemma on_event_inv e c : conn_inv c → conn_inv (on_event e c).2.
Proof.
  intros Hi. pose proof Hi as [H1 H2 H3 H4]. destruct e as [bytes|ec|]; cbn [on_event].
  - by split.
  - destruct (pending c) as [[| |n]|] eqn:Hp; [| | |done].
    + unfold mbind, M_bind. case_bool_decide.
      * destruct (zlen (inbox c) <? 4) eqn:Hz; [done|].
        apply quiet_header_read. eapply inv_end_op; [done..| |done].
        apply Z.ltb_ge in Hz. unfold zlen in Hz. rewrite length_take. lia.
      * apply quiet_header_read. by eapply inv_end_op.
    + unfold mbind, M_bind. case_bool_decide.
      * destruct (zlen (inbox c) <? _) eqn:Hz; [done|].
        apply quiet_body_read. eapply inv_end_op; [done..|].
        unfold zlen in *. rewrite length_take. lia.
      * apply quiet_body_read. by eapply inv_end_op.
    + destruct (bool_decide _ && _); [done|]. unfold mbind, M_bind.
      apply quiet_response_written. by eapply inv_end_op.
  - by split.
Qed.

Lemma on_events_inv es c : conn_inv c → conn_inv (on_events es c).2.
Proof.
  revert c. induction es as [|e es IH]; intros c Hi; [done|].
  cbn [on_events]. unfold mbind, M_bind. pose proof (on_event_inv e c Hi) as H.
  destruct (on_event e c) as [[[]|?|?] c']; [by apply IH|done..].
Qed.
End Accounting.

(** ** Sessions *)

Definition arrived_by (es : list event) : list byte :=
  concat (map (λ e, match e with Arrive bytes => bytes | _ => [] end) es).

Section Session.
Context {S T : Type} `{!Database S T} `{!DatabaseContract S T}.
Implicit Types (c : Connection S) (m : gmap string string) (arrived consumed : list byte).

(** The bytes that the write under way has yet to fetch. *)
Definition unfetched c : nat :=
  match pending c with Some (AsyncWrite n) => n | _ => 0 end.

(** The completion of a write with bytes to fetch: [write_response] has returned. *)
Definition dangles (e : event) c : Prop := e = Complete NoError ∧ unfetched c ≠ 0%nat.

#[global] Instance dangles_dec e c : Decision (dangles e c).
Proof.
  destruct e as [|ec|]; [by right; intros [? _]| |by right; intros [? _]].
  destruct (decide (ec = NoError)) as [->|Hec]; [|right; by intros [[= ->] _]].
  destruct (decide (unfetched c = 0%nat)) as [Hu|Hu]; [right; by intros [_ ?]|by left].
Defined.

Lemma on_event_dangles e c : dangles e c → ∃ why, on_event e c = (UB why, c).
Proof.
  intros [-> Hn]. unfold unfetched in Hn. cbn [on_event]. destruct (pending c) as [[| |n]|]; try done.
  rewrite (bool_decide_eq_true_2 (NoError = NoError)), (proj2 (Z.ltb_lt 0 _)) by (done || lia). by eexists.
Qed.

Lemma on_event_fetched e c r : on_event e c = (Val tt, r) → ¬ dangles e c.
Proof. intros E H. destruct (on_event_dangles e c H) as [why E1]. rewrite E1 in E. done. Qed.

(** What writing [responses] one after the other puts on the wire: each write but the last
    came to its end, and the last has brought out what it fetched at its start. *)
Definition written (fetch : nat → nat → nat) (responses : list Message) : list byte :=
  match last responses with
  | None => []
  | Some r =>
      let bytes := frame (encode r) in
      frames (take (length responses - 1) responses)
        ++ take (fetch (length responses - 1)%nat (length bytes)) bytes
  end.

Lemma written_snoc fetch responses r :
  written fetch (responses ++ [r]) =
    frames responses ++ take (fetch (length responses) (length (frame (encode r)))) (frame (encode r)).
Proof.
  unfold written. rewrite last_snoc, length_app. cbn zeta. cbn [length].
  replace (length responses + 1 - 1)%nat with (length responses) by lia. by rewrite take_app_length.
Qed.

Lemma written_prefix fetch responses : written fetch responses `prefix_of` frames responses.
Proof.
  destruct responses as [|r rs _] using rev_ind; [done|]. rewrite written_snoc, frames_snoc.
  apply prefix_app. eexists. symmetry. apply take_drop.
Qed.

(** With all bytes on the wire, it is the frames of all responses; so it is when every write
    fetches all its bytes at its start. *)
Lemma written_all fetch responses :
  (length (frames responses) <= length (written fetch responses))%nat → written fetch responses = frames responses.
Proof.
  intros Hl. destruct (written_prefix fetch responses) as [rest E]. rewrite E in Hl |- *.
  rewrite length_app in Hl. destruct rest; [by rewrite app_nil_r|cbn in Hl; lia].
Qed.

Lemma written_fetched fetch responses :
  (∀ i n, (n <= fetch i n)%nat) → written fetch responses = frames responses.
Proof.
  intros Hf. destruct responses as [|r rs _] using rev_ind; [done|].
  by rewrite written_snoc, frames_snoc, take_ge.
Qed.

(** The responses written on a connection, and what the write under way has left of them. *)
Definition writes (responses : list Message) c : Prop :=
  outbox c = written (fetched c) responses ∧
  writes_started c = length responses ∧
  (pending c ≠ None → (length (outbox c) + unfetched c = length (frames responses))%nat).

Lemma writes_whole responses c :
  (∀ i n, (n <= fetched c i n)%nat) → writes responses c → unfetched c = 0%nat.
Proof.
  intros Hf (Ho & _ & Hr). destruct (pending c) as [op|] eqn:Hp; [|by unfold unfetched; rewrite Hp].
  assert (outbox c = frames responses) as E; [|rewrite E in Hr; specialize (Hr ltac:(done)); lia].
  rewrite Ho. destruct responses as [|r rs _] using rev_ind; [done|].
  rewrite written_snoc, frames_snoc. f_equal. by apply take_ge, Hf.
Qed.

Lemma writes_all responses c :
  writes responses c → pending c ≠ None → unfetched c = 0%nat → outbox c = frames responses.
Proof.
  intros (Ho & _ & Hr) Hp Hu. specialize (Hr Hp). rewrite Ho in Hr |- *. apply written_all. lia.
Qed.

(** Where the handler is in the stream: of the bytes that arrived, [consumed] are the
    frames of the requests that were answered. *)
Definition at_stream c arrived consumed : Prop :=
  (active_ (handler c) = true ∧
   match pending c with
   | Some AsyncReadHeader => arrived = consumed ++ inbox c
   | Some AsyncReadBody =>
       arrived = consumed ++ le_bytes 4 (u32 (zlen (body_buffer_ (handler c)))) ++ inbox c ∧
       zlen (body_buffer_ (handler c)) <= MAX_MESSAGE_SIZE
   | Some (AsyncWrite _) => arrived = consumed ++ inbox c
   | None => False
   end) ∨
  (pending c = None ∨ active_ (handler c) = false) ∧ consumed `prefix_of` arrived.

(** [data] is the body of a frame that holds [request]. *)
Definition carries (data : list byte) (request : Message) : Prop :=
  Message_deserialize data = Ok request ∧ zlen data <= MAX_MESSAGE_SIZE.

(** The requests that were consumed, in stream order, and the responses that were written in
    that order. *)
Definition dialogue (es : list (Message * Message)) c arrived : Prop :=
  ∃ datas,
    Forall2 carries datas es.*1 ∧ writes es.*2 c ∧
    at_stream c arrived (concat (map frame datas)) ∧ h_database_ (handler c) = true.

(** What an event added to the dialogue: nothing, or one request that was served. *)
Definition extends es c es' c' : Prop :=
  es' = es ∧ store c' = store c ∨
  ∃ request response, es' = es ++ [(request, response)] ∧
    served (contents (store c)) request response (contents (store c')) ∧ db_ok (store c').

(** A dialogue that had the database for itself. *)
Definition session m c arrived : Prop :=
  ∃ es, dialogue es c arrived ∧ served_all m es.*1 es.*2 (contents (store c)) ∧ db_ok (store c).

Lemma concat_frame_snoc (datas : list (list byte)) data :
  concat (map frame (datas ++ [data])) = concat (map frame datas) ++ frame data.
Proof. rewrite map_app, concat_app. cbn. by rewrite app_nil_r. Qed.

Lemma prefix_arrive consumed arrived (bytes : list byte) :
  consumed `prefix_of` arrived → consumed `prefix_of` arrived ++ bytes.
Proof. intros H. by apply prefix_app_r. Qed.

(** [c'] differs from [c] in what does not matter to a connection that is over. *)
Record closes c c' : Prop := {
  cl_pending : pending c' = None;
  cl_outbox : outbox c' = outbox c;
  cl_store : store c' = store c;
  cl_fetched : fetched c' = fetched c;
  cl_started : writes_started c' = writes_started c;
  cl_database : h_database_ (handler c') = h_database_ (handler c);
}.

Lemma at_stream_prefix c arrived consumed :
  at_stream c arrived consumed → consumed `prefix_of` arrived.
Proof.
  intros [[_ H]|[_ ?]]; [|done]. destruct (pending c) as [[]|]; [| | |done].
  - rewrite H. by apply prefix_app_r.
  - destruct H as [-> _]. by apply prefix_app_r.
  - rewrite H. by apply prefix_app_r.
Qed.

Lemma dialogue_close es c c' arrived :
  dialogue es c arrived → closes c c' → dialogue es c' arrived ∧ extends es c es c'.
Proof.
  intros (ds & H1 & (Ho & Hw & _) & H4 & H6) []. split; [|by left].
  exists ds. split_and!; [done|unfold writes; split_and!; congruence| |congruence].
  right. split; [by left|]. by eapply at_stream_prefix.
Qed.

(** Completion handlers on an error, and on a stopped connection. *)
Lemma error_closes header body n ec c :
  ∃ c', (end_op header body n;;
         if bool_decide (ec ≠ OperationAborted) then on_disconnect_ else mret tt) c = (Val tt, c') ∧
    closes c c'.
Proof. connsimpl. case_bool_decide; eexists; (split; [done|by split]). Qed.

Lemma bad_guard ec (active : bool) :
  ec ≠ NoError ∨ active = false → bool_decide (ec = NoError) && active = false.
Proof. case_bool_decide; intros [| ->]; done. Qed.

Lemma header_read_bad header body n ec c :
  ec ≠ NoError ∨ active_ (handler c) = false →
  ∃ c', (end_op header body n;; header_read ec) c = (Val tt, c') ∧ closes c c'.
Proof.
  intros Hbad%bad_guard. destruct (error_closes header body n ec c) as (c' & E & Hc).
  exists c'. split; [|done]. rewrite <- E. unfold header_read, mbind, M_bind. cbn [end_op modify is_active gets compose].
  cbn [handler active_]. by rewrite Hbad.
Qed.

Lemma body_read_bad header body n ec c :
  ec ≠ NoError ∨ active_ (handler c) = false →
  ∃ c', (end_op header body n;; body_read ec) c = (Val tt, c') ∧ closes c c'.
Proof.
  intros Hbad%bad_guard. destruct (error_closes header body n ec c) as (c' & E & Hc).
  exists c'. split; [|done]. rewrite <- E. unfold body_read, mbind, M_bind. cbn [end_op modify is_active gets compose].
  cbn [handler active_]. by rewrite Hbad.
Qed.

Lemma response_written_bad header body n ec c :
  ec ≠ NoError ∨ active_ (handler c) = false →
  ∃ c', (end_op header body n;; response_written ec) c = (Val tt, c') ∧ closes c c'.
Proof.
  intros Hbad%bad_guard. destruct (error_closes header body n ec c) as (c' & E & Hc).
  exists c'. split; [|done]. rewrite <- E. unfold response_written, mbind, M_bind. cbn [end_op modify is_active gets compose].
  cbn [handler active_]. by rewrite Hbad.
Qed.

(** A header: the connection ends, or the body is read next. *)
Lemma header_arrives c :
  active_ (handler c) = true → (4 <= length (inbox c))%nat →
  ∃ c', (end_op (take 4 (inbox c)) (body_buffer_ (handler c)) 4;; header_read NoError) c = (Val tt, c') ∧
    (MAX_MESSAGE_SIZE < le_value (take 4 (inbox c)) ∧ closes c c' ∨
     active_ (handler c') = true ∧ pending c' = Some AsyncReadBody ∧ disconnects c' = disconnects c ∧
     inbox c = le_bytes 4 (u32 (zlen (body_buffer_ (handler c')))) ++ inbox c' ∧
     zlen (body_buffer_ (handler c')) <= MAX_MESSAGE_SIZE ∧
     outbox c' = outbox c ∧ store c' = store c ∧ fetched c' = fetched c ∧
     writes_started c' = writes_started c ∧ h_database_ (handler c') = h_database_ (handler c)).
Proof.
  intros Ha Hlen. unfold header_read, read_body. connsimpl.
  rewrite (bool_decide_eq_true_2 (NoError = NoError)), Ha by done. connsimpl.
  rewrite Z.gtb_ltb. zcase; [eexists; split; [done|left; split; [done|by split]]|].
  eexists. split; [done|]. right. cbn -[MAX_MESSAGE_SIZE u32 zlen resize le_bytes].
  assert (is_u32 (le_value (take 4 (inbox c)))) as Hr by (apply le_value_u32; rewrite length_take; lia).
  assert (zlen (resize (Z.to_nat (le_value (take 4 (inbox c)))) x00 (body_buffer_ (handler c)))
          = le_value (take 4 (inbox c))) as Hz.
  { unfold zlen. rewrite length_resize. destruct Hr. lia. }
  split_and!; try done; [|lia]. rewrite Hz, u32_small by done.
  rewrite le_bytes_value by (rewrite length_take; lia). by rewrite take_drop.
Qed.

(** A body: the connection ends, or the request is answered with what its write fetches at
    its start. *)
Lemma body_arrives c :
  active_ (handler c) = true → h_database_ (handler c) = true → db_ok (store c) →
  let n := length (body_buffer_ (handler c)) in
  (n <= length (inbox c))%nat →
  ∃ c', (end_op (header_buffer_ (handler c)) (take n (inbox c)) n;; body_read NoError) c = (Val tt, c') ∧
    ((∃ what, Message_deserialize (take n (inbox c)) = Throw what) ∧ closes c c' ∨
     ∃ request response,
       Message_deserialize (take n (inbox c)) = Ok request ∧
       served (contents (store c)) request response (contents (store c')) ∧ db_ok (store c') ∧
       let bytes := frame (encode response) in
       let now := fetched c (writes_started c) (length bytes) in
       active_ (handler c') = true ∧ pending c' = Some (AsyncWrite (length bytes - now)) ∧
       disconnects c' = disconnects c ∧
       inbox c' = drop n (inbox c) ∧ outbox c' = outbox c ++ take now bytes ∧
       fetched c' = fetched c ∧ writes_started c' = Datatypes.S (writes_started c) ∧
       h_database_ (handler c') = true).
Proof.
  intros Ha Hd Hs n Hlen. unfold body_read, handle_request. connsimpl.
  rewrite (bool_decide_eq_true_2 (NoError = NoError)), Ha by done. connsimpl. destruct (Message_deserialize (take n (inbox c))) as [request|what] eqn:Hm;
    [|eexists; split; [done|left; split; [by exists what|by split]]].
  connsimpl. rewrite Hd. cbn [negb]. connsimpl.
  destruct (serve_ok request (store c) Hs) as (response & s' & E & Hs' & Hserved).
  rewrite E. unfold write_response. connsimpl.
  eexists. split; [done|]. right. exists request, response.
  fold (frame (Message_serialize response)).
  by cbn -[frame Message_serialize].
Qed.

(** A completion with an error, or on a stopped connection, ends it. *)
Lemma dialogue_bad es c arrived ec :
  dialogue es c arrived → ec ≠ NoError ∨ active_ (handler c) = false → ¬ dangles (Complete ec) c →
  ∃ c', on_event (Complete ec) c = (Val tt, c') ∧ dialogue es c' arrived ∧ extends es c es c'.
Proof.
  intros H Hbad Hn. cbn [on_event].
  assert (Hsame : ∃ c', (Val tt, c) = (Val tt, c') ∧ dialogue es c' arrived ∧ extends es c es c').
  { exists c. split; [done|]. split; [done|]. by left. }
  assert (Hclose : ∀ r, (∃ c', r = (Val tt, c') ∧ closes c c') →
    ∃ c', r = (Val tt, c') ∧ dialogue es c' arrived ∧ extends es c es c').
  { intros r (c' & -> & Hc). exists c'. split; [done|by eapply dialogue_close]. }
  destruct (pending c) as [[| |n]|] eqn:Hp; [| | |done].
  - case_bool_decide; [destruct (zlen (inbox c) <? 4); [done|]|];
      by apply Hclose, header_read_bad.
  - case_bool_decide; [destruct (zlen (inbox c) <? _); [done|]|];
      by apply Hclose, body_read_bad.
  - replace (bool_decide (ec = NoError) && (0 <? Z.of_nat n)) with false; [by apply Hclose, response_written_bad|].
    symmetry. apply andb_false_iff. destruct (decide (ec = NoError)) as [->|];
      [right|left; by apply bool_decide_eq_false_2].
    apply Z.ltb_ge. unfold dangles, unfetched in Hn. rewrite Hp in Hn.
    destruct n; [done|]. by destruct Hn.
Qed.

(** A completion without an error continues the dialogue. *)
Lemma dialogue_good es c arrived :
  dialogue es c arrived → db_ok (store c) → active_ (handler c) = true → unfetched c = 0%nat →
  ∃ c' es', on_event (Complete NoError) c = (Val tt, c') ∧ dialogue es' c' arrived ∧
    extends es c es' c'.
Proof.
  intros H H7 Ha Hu. cbn [on_event]. rewrite bool_decide_eq_true_2 by done.
  assert (Hsame : ∃ c' es', (Val tt, c) = (Val tt, c') ∧ dialogue es' c' arrived ∧ extends es c es' c').
  { exists c, es. split; [done|]. split; [done|]. by left. }
  pose proof H as (ds & H1 & H3 & H4 & H6).
  destruct H4 as [[_ H4]|[[H4|?] _]]; [|by rewrite H4|congruence].
  assert (Hw : pending c ≠ None → outbox c = frames es.*2) by (intros; by apply writes_all).
  pose proof H3 as (Hwr & Hst & _). unfold unfetched in Hu.
  destruct (pending c) as [[| |[]]|] eqn:Hp; try done.
  - destruct (Z.ltb_spec (zlen (inbox c)) 4) as [|Hz]; [done|]. unfold zlen in Hz.
    destruct (header_arrives c Ha ltac:(lia))
      as (c' & E & [[_ Hc]|(A & P & _ & I & B & O & St & F & W & D)]); exists c', es; (split; [exact E|]).
    { by eapply dialogue_close. }
    split; [|by left]. exists ds. rewrite D. split_and!; try done.
    + unfold writes. rewrite O, F, W. split_and!; [done..|]. intros _. unfold unfetched. rewrite P, Hw by done. lia.
    + left. split; [done|]. rewrite P. split; [|done]. by rewrite H4, I.
  - destruct H4 as [H4 Hmax].
    destruct (Z.ltb_spec (zlen (inbox c)) (Z.of_nat (length (body_buffer_ (handler c))))) as [|Hz];
      [done|]. unfold zlen in Hz.
    destruct (body_arrives c Ha H6 H7 ltac:(lia))
      as (c' & E & [[_ Hc]|(rq & rp & M & Sv & Ok' & A & P & _ & I & O & F & W & D)]); exists c'.
    { exists es. split; [exact E|]. by eapply dialogue_close. }
    set (n := length (body_buffer_ (handler c))) in *.
    assert (zlen (take n (inbox c)) = zlen (body_buffer_ (handler c))) as Hlen.
    { unfold zlen. rewrite length_take. fold n. lia. }
    exists (es ++ [(rq, rp)]). split; [exact E|]. split; [|right; by exists rq, rp].
    exists (ds ++ [take n (inbox c)]). rewrite D. split_and!; try done.
    + rewrite fmap_app. apply Forall2_app; [done|]. constructor; [|done]. split; [done|by rewrite Hlen].
    + rewrite fmap_app. change ([(rq, rp)].*2) with [rp]. rewrite Hw in O by done.
      unfold writes. rewrite O, F, W, Hst. split_and!.
      * by rewrite written_snoc.
      * rewrite length_app. cbn. lia.
      * intros _. unfold unfetched. rewrite P, frames_snoc, !length_app, length_take, Hst. lia.
    + left. split; [done|]. rewrite P, I, H4, concat_frame_snoc.
      change (frame (take n (inbox c)))
        with (le_bytes 4 (u32 (zlen (take n (inbox c)))) ++ take n (inbox c)).
      rewrite Hlen, <- !app_assoc. by rewrite take_drop.
  - rewrite andb_false_r. unfold response_written, read_header. connsimpl.
    rewrite (bool_decide_eq_true_2 (NoError = NoError)), Ha by done. cbn. eexists _, es. split; [done|].
    split; [|by left]. exists ds. split_and!; try done.
    + split_and!; [done..|]. intros _. cbn. rewrite Hw by done. lia.
    + left. split; [done|]. cbn. by rewrite drop_0.
Qed.

Lemma dialogue_step es c arrived e :
  dialogue es c arrived → db_ok (store c) → ¬ dangles e c →
  ∃ c' es', on_event e c = (Val tt, c') ∧
    dialogue es' c' (arrived ++ match e with Arrive bytes => bytes | _ => [] end) ∧
    extends es c es' c'.
Proof.
  intros H Hok Hn. destruct e as [bytes|ec|].
  - eexists _, es. split; [done|]. split; [|by left]. destruct H as (ds & H1 & H3 & H4 & H6).
    exists ds. split_and!; try done.
    destruct H4 as [[Ha H4]|[Hc H4]]; [left|right; split; [done|by apply prefix_arrive]].
    split; [done|]. cbn. destruct (pending c) as [[| |]|]; try done.
    + by rewrite H4, app_assoc.
    + destruct H4 as [-> ?]. by rewrite <- !app_assoc.
    + by rewrite H4, app_assoc.
  - rewrite app_nil_r.
    destruct (decide (ec ≠ NoError ∨ active_ (handler c) = false)) as [Hbad|Hgood].
    { destruct (dialogue_bad es c arrived ec H Hbad Hn) as (c' & E & Hd). by exists c', es. }
    assert (ec = NoError) as -> by (destruct (decide (ec = NoError)); tauto).
    assert (active_ (handler c) = true) as Ha by (destruct (active_ (handler c)); tauto).
    apply dialogue_good; try done. destruct (decide (unfetched c = 0%nat)); [done|]. by destruct Hn.
  - eexists _, es. split; [done|]. split; [|by left]. rewrite app_nil_r.
    destruct H as (ds & H1 & H3 & H4 & H6). exists ds. split_and!; try done.
    right. split; [by right|]. by apply at_stream_prefix in H4.
Qed.

Lemma extends_ok es c es' c' : extends es c es' c' → db_ok (store c) → db_ok (store c').
Proof. intros [[_ ->]|(? & ? & _ & _ & ?)]; done. Qed.

Lemma session_step m c arrived e :
  session m c arrived → ¬ dangles e c →
  ∃ c', on_event e c = (Val tt, c') ∧
    session m c' (arrived ++ match e with Arrive bytes => bytes | _ => [] end).
Proof.
  intros (es & Hd & Hs & Hok) Hn.
  destruct (dialogue_step es c arrived e Hd Hok Hn) as (c' & es' & E & Hd' & Hx).
  exists c'. split; [exact E|]. exists es'. split; [done|]. split; [|by eapply extends_ok].
  destruct Hx as [[-> ->]|(rq & rp & -> & Sv & _)]; [done|].
  rewrite !fmap_app. by eapply served_all_snoc.
Qed.

(** A session goes on to the last event, or up to the completion of a write that dangles. *)
Lemma session_steps m c arrived es :
  session m c arrived →
  ∃ es1 es2 c', es = es1 ++ es2 ∧ on_events es1 c = (Val tt, c') ∧ session m c' (arrived ++ arrived_by es1) ∧
    (es2 = [] ∨ ∃ rest, es2 = Complete NoError :: rest ∧ unfetched c' ≠ 0%nat).
Proof.
  revert c arrived. induction es as [|e es IH]; intros c arrived H.
  - exists [], [], c. unfold arrived_by. cbn. rewrite app_nil_r. by split_and!; try left.
  - destruct (decide (dangles e c)) as [[-> Hn]|Hn].
    { exists [], (Complete NoError :: es), c. unfold arrived_by. cbn. rewrite app_nil_r.
      split_and!; try done. right. by exists es. }
    destruct (session_step m c arrived e H Hn) as (c1 & E1 & H1).
    destruct (IH c1 _ H1) as (es1 & es2 & c2 & -> & E2 & H2 & Hd). exists (e :: es1), es2, c2.
    cbn [on_events app]. unfold mbind, M_bind. rewrite E1. split_and!; try done.
    unfold arrived_by in *. cbn. by rewrite app_assoc.
Qed.

Lemma session_start s oracle :
  db_ok s →
  ∃ c, handler_start (accepted_connection oracle s) = (Val tt, c) ∧ session (contents s) c [] ∧
    fetched c = oracle.
Proof.
  intros Hs. eexists. split; [reflexivity|]. split; [|done].
  exists []. split; [|by split; [constructor|]].
  exists []. split_and!; try done. by left.
Qed.

(** What the writes fetch at their start is nothing that a handler decides. *)
Lemma keeps_on_store {A} (m : M S A) : keeps fetched (on_store m).
Proof. intros c. unfold on_store, zoom. by destruct (m (store c)). Qed.

Lemma keeps_read_header_fetched : keeps fetched (read_header (S:=S)).
Proof.
  apply keeps_bind; [apply keeps_gets|intros a]. apply keeps_if; [apply keeps_ret|by apply keeps_modify].
Qed.

Lemma keeps_error_fetched ec :
  keeps fetched ((if bool_decide (ec ≠ OperationAborted) then on_disconnect_ else mret tt) : M (Connection S) unit).
Proof. apply keeps_if; [by apply keeps_modify|apply keeps_ret]. Qed.

Lemma keeps_write_fetched response : keeps fetched (write_response (S:=S) response).
Proof.
  apply keeps_bind; [apply keeps_gets|intros a]. apply keeps_if; [apply keeps_ret|by apply keeps_modify].
Qed.

Lemma keeps_handle_fetched request : keeps fetched (handle_request request).
Proof.
  apply keeps_bind; [apply keeps_gets|intros d]. apply keeps_if; [apply keeps_write_fetched|].
  apply keeps_bind; [apply keeps_on_store|intros r; apply keeps_write_fetched].
Qed.

Lemma on_event_oracle e c : fetched (on_event e c).2 = fetched c.
Proof.
  assert (He : ∀ header body n ec, keeps fetched (end_op header body n;; header_read (S:=S) ec)).
  { intros. apply keeps_bind; [by apply keeps_modify|intros _].
    apply keeps_bind; [apply keeps_gets|intros a]. apply keeps_if; [|apply keeps_error_fetched].
    apply keeps_bind; [apply keeps_gets|intros bytes]. cbn zeta. apply keeps_if; [by apply keeps_modify|].
    apply keeps_bind; [apply keeps_gets|intros b]. apply keeps_if; [apply keeps_ret|].
    by apply keeps_bind; [apply keeps_modify|intros []; apply keeps_modify]. }
  assert (Hb : ∀ header body n ec, keeps fetched (end_op header body n;; body_read (S:=S) ec)).
  { intros. apply keeps_bind; [by apply keeps_modify|intros _].
    apply keeps_bind; [apply keeps_gets|intros a]. apply keeps_if; [|apply keeps_error_fetched].
    intros c0. connsimpl. destruct (Message_deserialize _) as [r|]; connsimpl; [|done].
    pose proof (keeps_handle_fetched r c0) as Hk.
    by destruct (handle_request r c0) as [[[]|?|?] c1]. }
  assert (Hw : ∀ header body n ec, keeps fetched (end_op header body n;; response_written (S:=S) ec)).
  { intros. apply keeps_bind; [by apply keeps_modify|intros _].
    apply keeps_bind; [apply keeps_gets|intros a]. apply keeps_if; [|apply keeps_error_fetched].
    apply keeps_read_header_fetched. }
  destruct e as [bytes|ec|]; [done| |done]. cbn [on_event].
  destruct (pending c) as [[| |n]|]; [| | |done].
  - case_bool_decide; [destruct (_ <? _); [done|]|]; apply He.
  - case_bool_decide; [destruct (_ <? _); [done|]|]; apply Hb.
  - destruct (bool_decide _ && _); [done|apply Hw].
Qed.

Lemma on_events_oracle es c : fetched (on_events es c).2 = fetched c.
Proof.
  revert c. induction es as [|e es IH]; intros c; [done|]. cbn [on_events]. unfold mbind, M_bind.
  pose proof (on_event_oracle e c) as H. destruct (on_event e c) as [[[]|?|?] c1]; [|done..].
  by rewrite IH.
Qed.

Lemma on_events_cons e es c c1 :
  on_event e c = (Val tt, c1) → on_events (e :: es) c = on_events es c1.
Proof. intros E. cbn [on_events]. unfold mbind, M_bind. by rewrite E. Qed.

Lemma frameable_carries (request : Message) :
  frameable request → carries (encode request) request.
Proof. intros [Hw Hl]. split; [exact (decode_encode _ Hw)|done]. Qed.
End Session.

Section NeverForgotten.
Context {S T : Type} `{!Database S T}.
Implicit Types (c : Connection S).

(** An operation is under way, or the disconnect was reported: one of them. *)
Definition accounted c : Prop :=
  active_ (handler c) = true ∧
  (is_Some (pending c) ∧ disconnects c = 0%nat ∨ pending c = None ∧ disconnects c = 1%nat).

(** Between the end of one operation and the start of the next. *)
Definition between c : Prop :=
  active_ (handler c) = true ∧ pending c = None ∧ disconnects c = 0%nat.

(** The events of a connection that nobody aborts. *)
Definition undisturbed (e : event) : Prop :=
  match e with Arrive _ => True | Complete ec => ec ≠ OperationAborted | Stop => False end.

Lemma between_disconnect c : between c → accounted (on_disconnect_ c).2.
Proof. intros (Ha & Hp & Hd). split; [done|right]. cbn. by rewrite Hd. Qed.

Lemma between_handle_request r c c' :
  between c → handle_request r c = (Val tt, c') → accounted c'.
Proof.
  intros (Ha & Hp & Hd). unfold handle_request, write_response. connsimpl.
  destruct (h_database_ (handler c)); cbn -[Message_serialize].
  - destruct (process_request_sync r (store c)) as [[]]; [|done..].
    connsimpl. rewrite Ha. cbn -[Message_serialize]. intros [= <-]. split; [done|]. left. by split; [eexists|].
  - rewrite Ha. cbn. intros [= <-]. split; [done|]. left. by split; [eexists|].
Qed.

Lemma between_header_read ec c c' :
  between c → ec ≠ OperationAborted → header_read ec c = (Val tt, c') → accounted c'.
Proof.
  intros Hb Hec. pose proof Hb as (Ha & Hp & Hd). unfold header_read, read_body.
  unfold mbind, M_bind, is_active, gets, compose, modify, start_op, on_disconnect_.
  rewrite Ha, andb_true_r. case_bool_decide.
  - destruct (_ >? _).
    + intros [= <-]. by apply (between_disconnect c).
    + unfold modify. cbn -[resize]. rewrite Ha. cbn -[resize]. intros [= <-]. split; [done|].
      left. by split; [eexists|].
  - rewrite bool_decide_eq_true_2 by done. intros [= <-]. by apply (between_disconnect c).
Qed.

Lemma between_body_read ec c c' :
  between c → ec ≠ OperationAborted → body_read ec c = (Val tt, c') → accounted c'.
Proof.
  intros Hb Hec. pose proof Hb as (Ha & Hp & Hd). unfold body_read.
  unfold try_catch, mbind, M_bind, is_active, gets, compose, of_result.
  rewrite Ha, andb_true_r. case_bool_decide.
  - destruct (Message_deserialize _) as [r|what]; cbn.
    + destruct (handle_request r c) as [[[]|what|why] c1] eqn:E; [|exfalso|done].
      * intros [= <-]. by eapply between_handle_request.
      * apply (handle_request_no_throw r c what). by rewrite E.
    + intros [= <-]. by apply (between_disconnect c).
  - rewrite bool_decide_eq_true_2 by done. intros [= <-]. by apply (between_disconnect c).
Qed.

Lemma between_response_written ec c c' :
  between c → ec ≠ OperationAborted → response_written ec c = (Val tt, c') → accounted c'.
Proof.
  intros Hb Hec. pose proof Hb as (Ha & Hp & Hd). unfold response_written, read_header.
  unfold mbind, M_bind, is_active, gets, compose.
  rewrite Ha, andb_true_r. case_bool_decide.
  - rewrite ?Ha. cbn. intros [= <-]. split; [done|]. left. by split; [eexists|].
  - rewrite bool_decide_eq_true_2 by done. intros [= <-]. by apply (between_disconnect c).
Qed.

Lemma accounted_step e c c' :
  accounted c → undisturbed e → on_event e c = (Val tt, c') → accounted c'.
Proof.
  intros [Ha Hc] He. destruct e as [bytes|ec|]; cbn [on_event]; [| |done].
  { intros [= <-]. by split. }
  destruct (pending c) as [op|] eqn:Hp; [|intros [= <-]; split; [done|by rewrite Hp]].
  destruct Hc as [[_ Hd]|[? _]]; [|done].
  assert (∀ header body n, between (end_op header body n c).2) as Hb by (intros; done).
  assert (accounted c) as Hsame by (split; [done|left; by rewrite Hp]).
  unfold mbind, M_bind. destruct op as [| |n].
  - case_bool_decide; [destruct (_ <? _); [by intros [= <-]|]|];
      intros E; exact (between_header_read _ _ _ (Hb _ _ _) He E).
  - case_bool_decide; [destruct (_ <? _); [by intros [= <-]|]|];
      intros E; exact (between_body_read _ _ _ (Hb _ _ _) He E).
  - destruct (bool_decide _ && _); [done|]. intros E. exact (between_response_written _ _ _ (Hb _ _ _) He E).
Qed.

Lemma accounted_steps es c c' :
  accounted c → Forall undisturbed es → on_events es c = (Val tt, c') → accounted c'.
Proof.
  intros Hc Hes. revert c Hc. induction Hes as [|e es He Hes IH]; intros c Hc; cbn [on_events].
  - by intros [= <-].
  - unfold mbind, M_bind. destruct (on_event e c) as [[[]|?|?] c1] eqn:E1; [|done..].
    apply IH. by eapply accounted_step.
Qed.
End NeverForgotten.

(** ** Theorems *)

(** A handler over its whole life, under any events and on any database: [on_disconnect_]
    is called at most once, nothing is under way after that, and the buffer for a message
    never exceeds the size limit. *)
Theorem connection_disconnects_once {S T : Type} `{!Database S T} (oracle : nat → nat → nat) (s : S)
    (es : list event) :
  let c := ((handler_start;; on_events es) (accepted_connection oracle s)).2 in
  (disconnects c <= 1)%nat ∧ (disconnects c = 1%nat → pending c = None) ∧
  zlen (body_buffer_ (handler c)) <= MAX_MESSAGE_SIZE.
Proof.
  cbn zeta. unfold mbind, M_bind, handler_start.
  assert (conn_inv (read_header (accepted_connection oracle s)).2) as H.
  { apply quiet_read_header. by split. }
  apply (on_events_inv es) in H. by destruct H.
Qed.

(** No connection is forgotten: as long as nobody aborts it, it has an operation under
    way or its disconnect was reported, and never both. *)
Theorem connection_accounted {S T : Type} `{!Database S T} (oracle : nat → nat → nat) (s : S)
    (es : list event) (c : Connection S) :
  Forall undisturbed es →
  (handler_start;; on_events es) (accepted_connection oracle s) = (Val tt, c) →
  (pending c = None ↔ disconnects c = 1%nat).
Proof.
  intros Hes E.
  assert (accounted c) as [_ [[[op ->] ->]|[-> ->]]]; [|done..].
  apply (accounted_steps es (handler_start (accepted_connection oracle s)).2); [|done|exact E].
  split; [done|]. left. split; [by eexists|done].
Qed.

(** C18.  The stream protocol, under any events and for writes that fetch whatever they
    fetch: however the bytes arrive and whatever they are, the requests answered are the ones
    carried by the leading frames, each was answered once and in order, as the contents say,
    and what was written is the frames of the responses, of the last one what its write
    fetched at its start.  The events are gone through to the end, or up to the completion of
    a write whose bytes were not all fetched then, which is undefined behaviour
    ([write_response_dangles]). *)
Theorem connection_serves_stream {S T : Type} `{!Database S T} `{!DatabaseContract S T}
    (oracle : nat → nat → nat) (s : S) (es : list event) :
  db_ok s →
  ∃ es1 es2 c datas requests responses,
    es = es1 ++ es2 ∧
    (handler_start;; on_events es1) (accepted_connection oracle s) = (Val tt, c) ∧
    concat (map frame datas) `prefix_of` arrived_by es1 ∧
    Forall2 carries datas requests ∧
    served_all (contents s) requests responses (contents (store c)) ∧
    outbox c = written oracle responses ∧
    (pending c ≠ None → unfetched c = 0%nat → outbox c = frames responses) ∧
    (es2 = [] ∨ ∃ rest, es2 = Complete NoError :: rest ∧ unfetched c ≠ 0%nat ∧
       ∃ why, (on_event (Complete NoError) c).1 = UB why).
Proof.
  intros Hs. destruct (session_start s oracle Hs) as (c0 & E0 & H0 & Hf).
  destruct (session_steps _ c0 _ es H0) as (es1 & es2 & c & -> & E & (rs & (ds & H1 & H3 & H4 & _) & H2 & _) & Hd).
  exists es1, es2, c, ds, rs.*1, rs.*2. unfold mbind, M_bind. rewrite E0. split_and!; try done.
  - by apply at_stream_prefix in H4.
  - rewrite (proj1 H3). pose proof (on_events_oracle es1 c0) as Ho. rewrite E in Ho. cbn in Ho.
    by rewrite Ho, Hf.
  - intros. by apply writes_all.
  - destruct Hd as [->|(rest & -> & Hu)]; [by left|right]. exists rest. split_and!; try done.
    destruct (on_event_dangles (Complete NoError) c) as [why ->]; [done|by exists why].
Qed.

(** [write_response] hands its local variables to an operation that outlives them: unless
    the whole response was fetched when the write started, its completion has to read
    buffers that no longer exist. *)
Theorem write_response_dangles {S T : Type} `{!Database S T} (c : Connection S) (response : Message) :
  active_ (handler c) = true →
  let n := length (frame (encode response)) in
  (fetched c (writes_started c) n < n)%nat →
  ∃ c' why, write_response response c = (Val tt, c') ∧ (on_event (Complete NoError) c').1 = UB why.
Proof.
  intros Ha n Hn. unfold write_response. connsimpl. rewrite Ha. cbn [negb]. eexists _, _.
  split; [reflexivity|]. fold (frame (Message_serialize response)).
  change (length (frame (Message_serialize response))) with n. cbn -[n Z.of_nat Nat.sub].
  rewrite (bool_decide_eq_true_2 (NoError = NoError)) by done.
  rewrite (proj2 (Z.ltb_lt _ _)) by lia. reflexivity.
Qed.

(** ** Witnesses *)

(** Writes that fetch everything, and writes that fetch nothing when they start. *)
Definition fetch_all (i n : nat) : nat := n.
Definition fetch_none (i n : nat) : nat := 0.

Lemma connection_accounted_witness :
  disconnects (S:=Process)
    ((handler_start;; on_events [Complete OtherError]) (accepted_connection fetch_all demo_process)).2 = 1%nat.
Proof.
  apply (connection_accounted fetch_all demo_process [Complete OtherError]).
  - constructor; [discriminate|constructor].
  - reflexivity.
  - reflexivity.
Defined.

Definition demo_requests : list Message := [put_request 1 "k" "v"; get_request 2 "k"].

Lemma demo_requests_frameable : Forall frameable demo_requests.
Proof. repeat constructor; vm_compute; congruence. Qed.

Lemma connection_serves_stream_witness :
  ∃ es1 es2 c datas requests responses,
    [Arrive (frames demo_requests); Complete NoError; Complete NoError; Complete NoError] = es1 ++ es2 ∧
    (handler_start;; on_events es1) (accepted_connection fetch_none demo_process) = (Val tt, c) ∧
    concat (map frame datas) `prefix_of` arrived_by es1 ∧
    Forall2 carries datas requests ∧
    served_all (contents demo_process) requests responses (contents (store c)) ∧
    outbox c = written fetch_none responses ∧
    (pending c ≠ None → unfetched c = 0%nat → outbox c = frames responses) ∧
    (es2 = [] ∨ ∃ rest, es2 = Complete NoError :: rest ∧ unfetched c ≠ 0%nat ∧
       ∃ why, (on_event (Complete NoError) c).1 = UB why).
Proof.
  apply (connection_serves_stream fetch_none demo_process
    [Arrive (frames demo_requests); Complete NoError; Complete NoError; Complete NoError]).
  exact demo_ok.
Defined.

Lemma write_response_dangles_witness :
  ∃ c' why, write_response (S:=Process) sample_put (accepted_connection fetch_none demo_process) = (Val tt, c') ∧
    (on_event (Complete NoError) c').1 = UB why.
Proof.
  apply (write_response_dangles (accepted_connection fetch_none demo_process) sample_put).
  - reflexivity.
  - vm_compute. lia.
Defined.
