(* ===== verification/Client.v ===== *)
(** * The client

    [src/network/client.cpp], [class DatabaseClient]: blocking requests over one socket.  The
    socket is Boost.Asio's and a parameter of the model, the class [Socket] of the operations
    the client calls. *)

From stdpp Require Import base gmap list strings.
From Stdlib Require Import ZArith Lia.
From Stdlib Require Import Strings.Byte.
From S2P Require Import Prelude.
From S2P Require Import Bytes.
From S2P Require Import Framing.
From S2P Require Import Protocol.
From S2P Require Import Effects.
From S2P Require Import Wal.
From S2P Require Import ScanFormat.

(** [boost::asio::ip::tcp::socket] with [connect], [write] and [read]; [N] is the state of the
    connection and of what is behind it.  The operations throw on an error. *)
Class Socket (N : Type) := {
  sock_is_open : N → bool;
  sock_connect : string → string → M N unit;
  sock_close : M N unit;
  sock_write : list byte → M N unit;
  sock_read : nat → M N (list byte);
}.

(** [class DatabaseClient]. *)
Record DatabaseClient := mkDatabaseClient {
  host_ : string;
  port_ : Z;
  connected_ : bool;
  request_id_ : Z;
}.

(** [DatabaseClient::DatabaseClient(host, port)]. *)
Definition DatabaseClient_new (host : string) (port : Z) : DatabaseClient :=
  {| host_ := host; port_ := port; connected_ := false; request_id_ := 0 |}.

Definition set_connected (b : bool) (cl : DatabaseClient) : DatabaseClient :=
  mkDatabaseClient (host_ cl) (port_ cl) b (request_id_ cl).
Definition set_request_id (i : Z) (cl : DatabaseClient) : DatabaseClient :=
  mkDatabaseClient (host_ cl) (port_ cl) (connected_ cl) i.

Section Client.
Context {N : Type} `{!Socket N}.

Abbreviation ClientM := (M (DatabaseClient * N)).

Definition on_socket {A} (m : M N A) : ClientM A := zoom snd (λ n st, (fst st, n)) m.
Definition cl_modify (f : DatabaseClient → DatabaseClient) : ClientM unit :=
  modify (λ '(cl, n), (f cl, n)).

(** [connect]. *)
Definition client_connect : ClientM bool :=
  try_catch
    (cl ← gets fst;
     on_socket (sock_connect (host_ cl) (to_string (port_ cl)));;
     cl_modify (set_connected true);;
     mret true)
    (λ _, mret false).

(** [disconnect]. *)
Definition client_disconnect : ClientM unit :=
  '(cl, n) ← get_state;
  if connected_ cl && sock_is_open n then
    on_socket sock_close;;
    cl_modify (set_connected false)
  else mret tt.

(** [DatabaseClient::~DatabaseClient()]. *)
Definition DatabaseClient_delete : ClientM unit := client_disconnect.

(** [is_connected]. *)
Definition is_connected : ClientM bool :=
  gets (λ '(cl, n), connected_ cl && sock_is_open n).

(** [send_message]. *)
Definition send_message (message : Message) : ClientM bool :=
  try_catch
    (let data := Message_serialize message in
     let length := u32 (zlen data) in
     on_socket (sock_write (le_bytes 4 length));;
     on_socket (sock_write data);;
     mret true)
    (λ _, mret false).

(** [receive_message]. *)
Definition receive_message : ClientM Message :=
  try_catch
    (header ← on_socket (sock_read 4);
     let message_length := le_value header in
     if message_length >? MAX_MESSAGE_SIZE then
       throw ("Message too large: " +:+ to_string message_length +:+ " bytes")
     else
       data ← on_socket (sock_read (Z.to_nat message_length));
       of_result (Message_deserialize data))
    (λ what, throw ("Receive error: " +:+ what)).

(** [send_request]. *)
Definition send_request (request : Message) : ClientM Message :=
  connected ← is_connected;
  if negb connected then throw "Not connected to server" else
  sent ← send_message request;
  if negb sent then throw "Failed to send message" else
  receive_message.

(** [++request_id_]. *)
Definition next_request_id : ClientM Z :=
  cl_modify (λ cl, set_request_id (u32 (request_id_ cl + 1)) cl);;
  gets (request_id_ ∘ fst).

(** [get]. *)
Definition client_get (key : string) : ClientM string :=
  id ← next_request_id;
  let request :=
    {| msg_type := MessageType.GET; msg_id := id; msg_key_length := u32 (slen key);
       msg_value_length := 0; msg_key := key; msg_value := "" |} in
  response ← send_request request;
  if decide (msg_type response = MessageType.SUCCESS) then mret (msg_value response)
  else throw ("GET failed: " +:+ msg_value response).

(** [put]. *)
Definition client_put (key value : string) : ClientM bool :=
  id ← next_request_id;
  let request :=
    {| msg_type := MessageType.PUT; msg_id := id; msg_key_length := u32 (slen key);
       msg_value_length := u32 (slen value); msg_key := key; msg_value := value |} in
  response ← send_request request;
  mret (bool_decide (msg_type response = MessageType.SUCCESS)).

(** [del]. *)
Definition client_del (key : string) : ClientM bool :=
  id ← next_request_id;
  let request :=
    {| msg_type := MessageType.DELETE; msg_id := id; msg_key_length := u32 (slen key);
       msg_value_length := 0; msg_key := key; msg_value := "" |} in
  response ← send_request request;
  mret (bool_decide (msg_type response = MessageType.SUCCESS)).

(** [scan]. *)
Definition client_scan (start_key end_key : string) (limit : Z)
    : ClientM (list (string * string)) :=
  id ← next_request_id;
  let request :=
    {| msg_type := MessageType.SCAN; msg_id := id; msg_key_length := u32 (slen start_key);
       msg_value_length := u32 (slen end_key); msg_key := start_key; msg_value := end_key |} in
  response ← send_request request;
  if decide (msg_type response = MessageType.SUCCESS) then
    match scan_parse (msg_value response) limit with
    | Some results => mret results
    | None => undefined "the parsing loop does not end"
    end
  else throw ("SCAN failed: " +:+ msg_value response).

(** [ping]. *)
Definition client_ping : ClientM bool :=
  id ← next_request_id;
  let request :=
    {| msg_type := MessageType.PING; msg_id := id; msg_key_length := 0;
       msg_value_length := 0; msg_key := ""; msg_value := "" |} in
  response ← send_request request;
  mret (bool_decide (msg_type response = MessageType.PONG)).
End Client.
