(* ===== verification/Acceptor.v ===== *)
(** * Accepting connections

    [src/network/server.cpp], the accept chain of [class DatabaseServer]: [start],
    [start_accept], [handle_accept], [on_client_disconnect] and [stop], as the threads that
    run the [io_context] interleave them.  A step is one access to an atomic member or one
    call; the completion handler of an accept is the only one that starts the next accept, so
    there is one chain, but disconnects and [stop] come in between any two of its steps. *)

From stdpp Require Import base list relations.
From Stdlib Require Import ZArith Lia.
From S2P Require Import Prelude.
From S2P Require Import Server.

Definition MAX_CONNECTIONS : Z := 50000.

(** Where the accept chain is. *)
Inductive AcceptState :=
  | NotAccepting              (** no [async_accept] under way *)
  | Accepting                 (** [async_accept] under way *)
  | UnderLimit                (** in [handle_accept], past the test of [connection_count_] *)
  | Counted                   (** in [handle_accept], past [connection_count_++] *)
  | AcceptHandled.            (** in [handle_accept], before the last test of [running_] *)

(** The server, its accept chain, and its connections: [open] have a handler that did not
    report a disconnect, [aborted] ended with [operation_aborted], which is not reported. *)
Record Acceptor := mkAcceptor {
  server : DatabaseServer;
  acceptor_open : bool;
  chain : AcceptState;
  open : nat;
  aborted : nat;
}.

Definition set_running (b : bool) (srv : DatabaseServer) : DatabaseServer :=
  mkDatabaseServer (srv_database_ srv) b (connection_count_ srv) (total_requests_ srv)
    (request_queue_ srv).
Definition set_connection_count (n : Z) (srv : DatabaseServer) : DatabaseServer :=
  mkDatabaseServer (srv_database_ srv) (running_ srv) n (total_requests_ srv)
    (request_queue_ srv).

(** [on_client_disconnect]: the counter is an [std::atomic<uint32_t>]. *)
Definition on_client_disconnect (srv : DatabaseServer) : DatabaseServer :=
  set_connection_count (u32 (connection_count_ srv - 1)) srv.

(** [start] (the worker threads are in [Workers.v]). *)
Definition server_start (srv : DatabaseServer) : Acceptor :=
  {| server := set_running true srv; acceptor_open := true; chain := Accepting;
     open := 0; aborted := 0 |}.

Inductive accept_step : Acceptor → Acceptor → Prop :=
  (** [handle_accept] with an error, or when the server no longer runs *)
  | accept_failed srv ao o ab :
      accept_step (mkAcceptor srv ao Accepting o ab) (mkAcceptor srv ao AcceptHandled o ab)
  (** [connection_count_.load() >= MAX_CONNECTIONS]: the socket is closed *)
  | accept_rejected srv ao o ab :
      running_ srv = true → connection_count_ srv >= MAX_CONNECTIONS →
      accept_step (mkAcceptor srv ao Accepting o ab) (mkAcceptor srv ao AcceptHandled o ab)
  | accept_admitted srv ao o ab :
      running_ srv = true → connection_count_ srv < MAX_CONNECTIONS →
      accept_step (mkAcceptor srv ao Accepting o ab) (mkAcceptor srv ao UnderLimit o ab)
  (** [connection_count_++] *)
  | accept_counted srv ao o ab :
      accept_step (mkAcceptor srv ao UnderLimit o ab)
        (mkAcceptor (set_connection_count (u32 (connection_count_ srv + 1)) srv) ao Counted o ab)
  (** the handler is made and started *)
  | accept_handler srv ao o ab :
      accept_step (mkAcceptor srv ao Counted o ab) (mkAcceptor srv ao AcceptHandled (S o) ab)
  (** [if (running_) start_accept();] *)
  | accept_again srv ao o ab :
      running_ srv = true →
      accept_step (mkAcceptor srv ao AcceptHandled o ab) (mkAcceptor srv ao Accepting o ab)
  | accept_over srv ao o ab :
      running_ srv = false →
      accept_step (mkAcceptor srv ao AcceptHandled o ab) (mkAcceptor srv ao NotAccepting o ab)
  (** a handler calls [on_disconnect_], which it does at most once *)
  | accept_disconnect srv ao ch o ab :
      accept_step (mkAcceptor srv ao ch (S o) ab) (mkAcceptor (on_client_disconnect srv) ao ch o ab)
  (** a handler's operation ends with [operation_aborted] *)
  | accept_abort srv ao ch o ab :
      accept_step (mkAcceptor srv ao ch (S o) ab) (mkAcceptor srv ao ch o (S ab))
  (** [stop]: [running_ = false], then [acceptor_.close()] *)
  | accept_stop srv ao ch o ab :
      accept_step (mkAcceptor srv ao ch o ab) (mkAcceptor (set_running false srv) ao ch o ab)
  | accept_close srv ao ch o ab :
      running_ srv = false →
      accept_step (mkAcceptor srv ao ch o ab) (mkAcceptor srv false ch o ab).

(** ** The invariant *)

(** The connections that were counted: the one being set up, the open ones, the aborted. *)
Definition counted_connections (a : Acceptor) : Z :=
  (match chain a with Counted => 1 | _ => 0 end) + Z.of_nat (open a) + Z.of_nat (aborted a).

Record accept_inv (a : Acceptor) : Prop := {
  av_exact : connection_count_ (server a) = counted_connections a;
  av_limit : counted_connections a + (match chain a with UnderLimit => 1 | _ => 0 end) <= MAX_CONNECTIONS;
}.

Section Acceptors.
Implicit Types a : Acceptor.

Lemma accept_start_inv srv : connection_count_ srv = 0 → accept_inv (server_start srv).
Proof. intros H. split; [exact H|]. unfold counted_connections, MAX_CONNECTIONS. cbn. lia. Qed.

Lemma u32_count z : 0 <= z <= MAX_CONNECTIONS → u32 z = z.
Proof. unfold MAX_CONNECTIONS. intros. apply u32_small. unfold is_u32. lia. Qed.

Lemma accept_step_inv a a' : accept_inv a → accept_step a a' → accept_inv a'.
Proof.
  intros [He Hl] H.
  destruct H; split; unfold counted_connections, on_client_disconnect, set_connection_count in *;
    cbn in *; try lia; rewrite u32_count; destruct ch || idtac; lia.
Qed.

Lemma accept_steps_inv a a' : accept_inv a → rtc accept_step a a' → accept_inv a'.
Proof. intros Hi H. induction H; [done|]. eauto using accept_step_inv. Qed.
End Acceptors.

(** ** Theorems *)

(** The connection counter under any interleaving of accepts, disconnects and [stop]: it
    never exceeds the limit, never wraps below zero, and is exactly the number of connections
    that were set up and not yet reported as disconnected. *)
Theorem connection_count_exact (srv : DatabaseServer) (a : Acceptor) :
  connection_count_ srv = 0 → rtc accept_step (server_start srv) a →
  connection_count_ (server a) = counted_connections a ∧
  0 <= connection_count_ (server a) <= MAX_CONNECTIONS.
Proof.
  intros H0 Hsteps. destruct (accept_steps_inv _ _ (accept_start_inv srv H0) Hsteps) as [He Hl].
  split; [done|]. rewrite He. unfold counted_connections in *. destruct (chain a); lia.
Qed.

(** ** Witnesses *)

(** One connection accepted. *)
Definition demo_acceptor : Acceptor :=
  {| server := set_connection_count 1 (set_running true DatabaseServer_new);
     acceptor_open := true; chain := Accepting; open := 1; aborted := 0 |}.

Lemma demo_acceptor_reached : rtc accept_step (server_start DatabaseServer_new) demo_acceptor.
Proof.
  eapply rtc_l; [by apply accept_admitted|]. eapply rtc_l; [apply accept_counted|].
  eapply rtc_l; [apply accept_handler|]. eapply rtc_l; [by apply accept_again|]. apply rtc_refl.
Qed.

Lemma connection_count_exact_witness :
  connection_count_ (server demo_acceptor) = counted_connections demo_acceptor ∧
  0 <= connection_count_ (server demo_acceptor) <= MAX_CONNECTIONS.
Proof.
  apply (connection_count_exact DatabaseServer_new demo_acceptor).
  - reflexivity.
  - exact demo_acceptor_reached.
Defined.
