(* ===== verification/Workers.v ===== *)
(** * The worker threads

    [src/network/server.cpp], the thread pool of [class DatabaseServer]:
    [worker_thread_function], [process_request_async] and the end of [stop], as interleaved
    steps of the threads.  [queue_condition_.wait(lock, pred)] is
    [while (!pred()) queue_condition_.wait(lock)]; the inner wait gives up the mutex and falls
    asleep in one step, and takes the mutex again after a notification.  A wait may also
    return without a notification: [pool_step] has only the steps that the program can rely
    on, [any_step] has these too. *)

From stdpp Require Import base list relations.
From Stdlib Require Import ZArith Lia.
From S2P Require Import Prelude.
From S2P Require Import Protocol.
From S2P Require Import Server.

Definition MAX_WORKER_THREADS : nat := 8.

(** Where a worker is. *)
Inductive Worker :=
  | AtLoop                        (** before [while (running_)] *)
  | Locking                       (** before [unique_lock lock(queue_mutex_)] *)
  | Testing                       (** with the mutex, before the predicate *)
  | FallingAsleep                 (** with the mutex; the predicate was false *)
  | Asleep                        (** in the wait *)
  | Notified                      (** woken, about to take the mutex again *)
  | Awake                         (** with the mutex, after the wait *)
  | Processing (task : RequestTask) (** without the mutex *)
  | Finished.

(** Where the thread that called [stop] is. *)
Inductive Stopper := NotStopping | Cleared | WokenAll | Joined.

Record Pool := mkPool {
  p_running : bool;
  p_queue : list RequestTask;
  p_mutex : option nat;            (** the worker that holds [queue_mutex_] *)
  p_workers : list Worker;
  p_stopper : Stopper;
  p_notices : nat;                 (** calls of [notify_one] still to be made *)
  p_submitted : list RequestTask;  (** every task that was pushed, in order *)
  p_taken : list RequestTask;      (** every task that was popped, in order *)
  p_answered : list RequestTask;   (** every task whose callback was called *)
}.

(** [start]: eight workers. *)
Definition pool_start : Pool :=
  {| p_running := true; p_queue := []; p_mutex := None;
     p_workers := replicate MAX_WORKER_THREADS AtLoop; p_stopper := NotStopping; p_notices := 0;
     p_submitted := []; p_taken := []; p_answered := [] |}.

(** Worker [i] moves on to [w], and the mutex to [m]. *)
Definition move (i : nat) (w : Worker) (m : option nat) (p : Pool) : Pool :=
  mkPool (p_running p) (p_queue p) m (<[i := w]> (p_workers p)) (p_stopper p) (p_notices p)
    (p_submitted p) (p_taken p) (p_answered p).

(** [task = std::move(request_queue_.front()); request_queue_.pop(); lock.unlock();] *)
Definition take_task (i : nat) (task : RequestTask) (rest : list RequestTask) (p : Pool) : Pool :=
  mkPool (p_running p) rest None (<[i := Processing task]> (p_workers p)) (p_stopper p) (p_notices p)
    (p_submitted p) (p_taken p ++ [task]) (p_answered p).

(** [response = process_request(task.request); task.callback(response);] *)
Definition answer_task (i : nat) (task : RequestTask) (p : Pool) : Pool :=
  mkPool (p_running p) (p_queue p) (p_mutex p) (<[i := AtLoop]> (p_workers p)) (p_stopper p) (p_notices p)
    (p_submitted p) (p_taken p) (p_answered p ++ [task]).

(** The predicate of the wait. *)
Definition wait_over (p : Pool) : bool :=
  negb (bool_decide (p_queue p = [])) || negb (p_running p).

(** [process_request_async], its locked part; the call of [notify_one] comes next. *)
Definition push_task (task : RequestTask) (p : Pool) : Pool :=
  mkPool (p_running p) (p_queue p ++ [task]) (p_mutex p) (p_workers p) (p_stopper p) (S (p_notices p))
    (p_submitted p ++ [task]) (p_taken p) (p_answered p).

Definition wake (w : Worker) : Worker :=
  match w with Asleep => Notified | w => w end.

Definition set_stopper (st : Stopper) (p : Pool) : Pool :=
  mkPool (p_running p) (p_queue p) (p_mutex p) (p_workers p) st (p_notices p)
    (p_submitted p) (p_taken p) (p_answered p).

Definition set_notices (n : nat) (p : Pool) : Pool :=
  mkPool (p_running p) (p_queue p) (p_mutex p) (p_workers p) (p_stopper p) n
    (p_submitted p) (p_taken p) (p_answered p).

(** [running_ = false] in [stop]: without the mutex. *)
Definition clear_running (p : Pool) : Pool :=
  mkPool false (p_queue p) (p_mutex p) (p_workers p) Cleared (p_notices p)
    (p_submitted p) (p_taken p) (p_answered p).

(** [queue_condition_.notify_all()] in [stop]. *)
Definition notify_all (p : Pool) : Pool :=
  mkPool (p_running p) (p_queue p) (p_mutex p) (wake <$> p_workers p) WokenAll (p_notices p)
    (p_submitted p) (p_taken p) (p_answered p).

(** The steps of worker [i]: [worker_thread_function]. *)
Inductive worker_step (i : nat) (p : Pool) : Pool → Prop :=
  | worker_leaves :
      p_workers p !! i = Some AtLoop → p_running p = false →
      worker_step i p (move i Finished (p_mutex p) p)
  | worker_enters :
      p_workers p !! i = Some AtLoop → p_running p = true →
      worker_step i p (move i Locking (p_mutex p) p)
  | worker_locks :
      p_workers p !! i = Some Locking → p_mutex p = None →
      worker_step i p (move i Testing (Some i) p)
  | worker_goes_on :
      p_workers p !! i = Some Testing → wait_over p = true →
      worker_step i p (move i Awake (Some i) p)
  | worker_must_wait :
      p_workers p !! i = Some Testing → wait_over p = false →
      worker_step i p (move i FallingAsleep (Some i) p)
  | worker_sleeps :
      p_workers p !! i = Some FallingAsleep →
      worker_step i p (move i Asleep None p)
  | worker_relocks :
      p_workers p !! i = Some Notified → p_mutex p = None →
      worker_step i p (move i Testing (Some i) p)
  | worker_breaks :
      p_workers p !! i = Some Awake → p_running p = false → p_queue p = [] →
      worker_step i p (move i Finished None p)
  | worker_idles :
      p_workers p !! i = Some Awake → p_running p = true → p_queue p = [] →
      worker_step i p (move i AtLoop None p)
  | worker_takes task rest :
      p_workers p !! i = Some Awake → p_queue p = task :: rest →
      worker_step i p (take_task i task rest p)
  | worker_answers task :
      p_workers p !! i = Some (Processing task) →
      worker_step i p (answer_task i task p).

Inductive pool_step : Pool → Pool → Prop :=
  | step_worker i p p' : worker_step i p p' → pool_step p p'
  (** [process_request_async]: the push, under the mutex *)
  | step_push task p : p_mutex p = None → pool_step p (push_task task p)
  (** ... and [notify_one()]: one sleeper wakes up, if there is one *)
  | step_notify_one i n p :
      p_notices p = S n → p_workers p !! i = Some Asleep →
      pool_step p (set_notices n (move i Notified (p_mutex p) p))
  | step_notify_none n p :
      p_notices p = S n → Forall (λ w, w ≠ Asleep) (p_workers p) →
      pool_step p (set_notices n p)
  (** [stop] *)
  | step_clear p : p_stopper p = NotStopping → pool_step p (clear_running p)
  | step_notify_all p : p_stopper p = Cleared → pool_step p (notify_all p)
  | step_joined p :
      p_stopper p = WokenAll → Forall (λ w, w = Finished) (p_workers p) →
      pool_step p (set_stopper Joined p).

(** Also with waits that return for no reason. *)
Inductive any_step : Pool → Pool → Prop :=
  | step_promised p p' : pool_step p p' → any_step p p'
  | step_spurious i p :
      p_workers p !! i = Some Asleep → any_step p (move i Notified (p_mutex p) p).

(** ** Invariants *)

(** The worker has the mutex. *)
Definition holds (w : Worker) : bool :=
  match w with Testing | FallingAsleep | Awake => true | _ => false end.

(** The task the worker is busy with. *)
Definition task_of (w : Worker) : list RequestTask :=
  match w with Processing task => [task] | _ => [] end.

Definition processing (p : Pool) : list RequestTask := concat (map task_of (p_workers p)).

Record pool_inv (p : Pool) : Prop := {
  pi_fifo : p_submitted p = p_taken p ++ p_queue p;
  pi_once : p_taken p ≡ₚ p_answered p ++ processing p;
  pi_mutex : ∀ i w, p_workers p !! i = Some w → (holds w = true ↔ p_mutex p = Some i);
  pi_awake : ∀ i, p_workers p !! i = Some Awake → wait_over p = true;
}.

Section Pools.
Implicit Types (p : Pool) (w : Worker).

Lemma pool_start_inv : pool_inv pool_start.
Proof.
  split; [done|done|..].
  - intros i w. cbn [pool_start p_workers]. rewrite lookup_replicate. intros [-> _]. done.
  - intros i. cbn [pool_start p_workers]. rewrite lookup_replicate. by intros [? _].
Qed.

(** Tasks in hand, when worker [i] moves. *)
Lemma processing_insert (ws : list Worker) i w w' :
  ws !! i = Some w →
  ∃ before after, concat (map task_of ws) = before ++ task_of w ++ after ∧
    concat (map task_of (<[i := w']> ws)) = before ++ task_of w' ++ after.
Proof.
  intros Hi. pose proof (lookup_lt_Some _ _ _ Hi) as Hlt.
  exists (concat (map task_of (take i ws))), (concat (map task_of (drop (S i) ws))). split.
  - transitivity (concat (map task_of (take i ws ++ w :: drop (S i) ws))).
    + by rewrite (take_drop_middle ws i w Hi).
    + by rewrite map_app, concat_app.
  - by rewrite (insert_take_drop ws i w' Hlt), map_app, concat_app.
Qed.

Lemma processing_move p i w w' m :
  p_workers p !! i = Some w → task_of w = task_of w' → processing (move i w' m p) = processing p.
Proof.
  intros Hi Ht. destruct (processing_insert _ i w w' Hi) as (b & a & E & E').
  unfold processing, move. cbn. by rewrite E, E', Ht.
Qed.

(** The mutex, when worker [i] moves: it was free or [i]'s, and is as [w'] says. *)
Lemma mutex_move p i w w' m :
  pool_inv p → p_workers p !! i = Some w → (holds w = true ∨ p_mutex p = None ∨ m = p_mutex p) →
  (holds w' = true → m = Some i) →
  (holds w' = false → m = (if holds w then None else p_mutex p)) →
  ∀ j v, <[i := w']> (p_workers p) !! j = Some v → (holds v = true ↔ m = Some j).
Proof.
  intros Hp Hi Hold Hnew Hfree j v Hj. pose proof (pi_mutex _ Hp) as Hm.
  pose proof (Hm _ _ Hi) as Hmi. destruct (decide (i = j)) as [<-|Hne].
  - rewrite list_lookup_insert_eq in Hj by (by eapply lookup_lt_Some). injection Hj as <-.
    destruct (holds w') eqn:E; [by split; auto|]. rewrite Hfree by done.
    split; [done|]. destruct (holds w); [done|]. intros Hx. apply Hmi in Hx. done.
  - rewrite list_lookup_insert_ne in Hj by done. rewrite (Hm _ _ Hj).
    destruct (holds w') eqn:E.
    + rewrite (Hnew eq_refl). destruct Hold as [Hw|[Hw|Hw]].
      * apply Hmi in Hw. rewrite Hw. done.
      * rewrite Hw. by split; [|intros [= ->]].
      * by rewrite <- Hw, (Hnew eq_refl).
    + rewrite Hfree by done. destruct (holds w); [|done].
      rewrite (proj1 Hmi eq_refl). by split; [intros [= ->]|].
Qed.

(** A move that takes or answers no task. *)
Lemma inv_move p i w w' m :
  pool_inv p → p_workers p !! i = Some w → task_of w = task_of w' →
  (holds w = true ∨ p_mutex p = None ∨ m = p_mutex p) →
  (holds w' = true → m = Some i) →
  (holds w' = false → m = (if holds w then None else p_mutex p)) →
  (w' = Awake → wait_over p = true) →
  pool_inv (move i w' m p).
Proof.
  intros Hp Hi Ht H1 H2 H3 Ha. split.
  - apply Hp.
  - rewrite (processing_move p i w w' m Hi Ht). apply Hp.
  - by eapply mutex_move.
  - intros j Hj. change (wait_over (move i w' m p)) with (wait_over p). cbn in Hj.
    destruct (decide (i = j)) as [<-|Hne].
    + rewrite list_lookup_insert_eq in Hj by (by eapply lookup_lt_Some). injection Hj as ->. auto.
    + rewrite list_lookup_insert_ne in Hj by done. by eapply pi_awake.
Qed.

Lemma inv_notices p n : pool_inv p → pool_inv (set_notices n p).
Proof. by intros []. Qed.

Lemma inv_take p i task rest :
  pool_inv p → p_workers p !! i = Some Awake → p_queue p = task :: rest →
  pool_inv (take_task i task rest p).
Proof.
  intros Hp Hi Hq. split; cbn.
  - by rewrite (pi_fifo _ Hp), Hq, <- app_assoc.
  - destruct (processing_insert _ i Awake (Processing task) Hi) as (b & a & E & E').
    unfold processing. cbn. rewrite E'. etrans; [apply Permutation_app_tail, Hp|].
    unfold processing. rewrite E. cbn. rewrite <- !app_assoc.
    do 2 apply Permutation_app_head. symmetry. apply Permutation_cons_append.
  - eapply (mutex_move p i Awake (Processing task) None); try done. by left.
  - intros j Hj. exfalso. destruct (decide (i = j)) as [<-|Hne].
    + rewrite list_lookup_insert_eq in Hj by (by eapply lookup_lt_Some). done.
    + rewrite list_lookup_insert_ne in Hj by done.
      pose proof (proj1 (pi_mutex _ Hp _ _ Hi) eq_refl). pose proof (proj1 (pi_mutex _ Hp _ _ Hj) eq_refl).
      congruence.
Qed.

Lemma inv_answer p i task :
  pool_inv p → p_workers p !! i = Some (Processing task) → pool_inv (answer_task i task p).
Proof.
  intros Hp Hi. split; cbn.
  - apply Hp.
  - destruct (processing_insert _ i (Processing task) AtLoop Hi) as (b & a & E & E').
    unfold processing. cbn. rewrite E'. etrans; [apply Hp|].
    unfold processing. rewrite E. cbn. rewrite <- !app_assoc.
    apply Permutation_app_head. exact (Permutation_sym (Permutation_middle b a task)).
  - eapply (mutex_move p i (Processing task) AtLoop); try done. by right; right.
  - intros j Hj. change (wait_over p = true). destruct (decide (i = j)) as [<-|Hne].
    + rewrite list_lookup_insert_eq in Hj by (by eapply lookup_lt_Some). done.
    + rewrite list_lookup_insert_ne in Hj by done. by eapply pi_awake.
Qed.

Lemma inv_push p task : pool_inv p → pool_inv (push_task task p).
Proof.
  intros []. split; cbn; try done.
  - by rewrite pi_fifo0, <- app_assoc.
  - intros i _. unfold wait_over. cbn. rewrite bool_decide_eq_false_2; [done|]. by destruct (p_queue p).
Qed.

Lemma inv_clear p : pool_inv p → pool_inv (clear_running p).
Proof.
  intros []. split; cbn; try done. intros i _. unfold wait_over. cbn. apply orb_true_r.
Qed.

Lemma inv_notify_all p : pool_inv p → pool_inv (notify_all p).
Proof.
  intros []. split; cbn; try done.
  - etrans; [apply pi_once0|]. apply Permutation_app_head. unfold processing. cbn.
    replace (map task_of (wake <$> p_workers p)) with (map task_of (p_workers p)); [done|].
    symmetry. etrans; [apply map_map|]. apply map_ext. by intros [].
  - intros i w. rewrite list_lookup_fmap. destruct (p_workers p !! i) as [v|] eqn:E; [|done].
    intros [= <-]. rewrite <- (pi_mutex0 _ _ E). by destruct v.
  - intros i. rewrite list_lookup_fmap. destruct (p_workers p !! i) as [v|] eqn:E; [|done].
    intros [= Hv]. apply (pi_awake0 i). by destruct v.
Qed.

Lemma worker_step_inv i p p' : pool_inv p → worker_step i p p' → pool_inv p'.
Proof.
  intros Hp H. destruct H; try (by apply inv_take); try (by apply inv_answer);
    (eapply inv_move; [done|done|done|..]); cbn; try done; auto.
  all: pose proof (pi_mutex _ Hp _ _ H) as Hm; cbn in Hm; intuition congruence.
Qed.

Lemma any_step_inv p p' : pool_inv p → any_step p p' → pool_inv p'.
Proof.
  intros Hp Hstep. revert Hp. destruct Hstep as [p p' H|i p Hi]; intros Hp.
  - revert Hp. destruct H as [j p p' Hw|task p _|j n p _ Hj|n p _ _|p _|p _|p _ _]; intros Hp.
    + exact (worker_step_inv _ _ _ Hp Hw).
    + by apply inv_push.
    + apply inv_notices. eapply inv_move; try done. by right; right.
    + by apply inv_notices.
    + by apply inv_clear.
    + by apply inv_notify_all.
    + by destruct Hp.
  - eapply inv_move; try done. by right; right.
Qed.
End Pools.

Lemma any_steps_inv (p p' : Pool) : pool_inv p → rtc any_step p p' → pool_inv p'.
Proof. intros Hi H. induction H; [done|]. eauto using any_step_inv. Qed.

(** ** The end of [stop] *)

(** What is left of the pool's work once [running_] is false. *)
Definition worker_rank (w : Worker) : nat :=
  match w with
  | Finished => 0
  | AtLoop => 1
  | Processing _ => 2
  | Awake => 3
  | Testing => 4
  | Locking | Notified => 5
  | Asleep => 6
  | FallingAsleep => 7
  end.
Definition pool_rank (p : Pool) : nat :=
  sum_list_with worker_rank (p_workers p) + p_notices p +
  match p_stopper p with WokenAll => 1 | _ => 0 end.

Definition is_finished (w : Worker) : bool := match w with Finished => true | _ => false end.

(** The pool without new requests. *)
Definition wind_down (p p' : Pool) : Prop :=
  pool_step p p' ∧ p_submitted p' = p_submitted p.

(** [stop] is past [notify_all]. *)
Record stopping (p : Pool) : Prop := {
  sg_inv : pool_inv p;
  sg_running : p_running p = false;
  sg_stopper : p_stopper p = WokenAll ∨ p_stopper p = Joined;
  sg_owner : ∀ i, p_mutex p = Some i → is_Some (p_workers p !! i);
}.

(** A worker that is in the wait, or about to be. *)
Definition late (w : Worker) : bool := match w with Asleep | FallingAsleep => true | _ => false end.

Section Stopping.
Implicit Types (p : Pool) (w : Worker).

Lemma worker_owner i p p' :
  (∀ j, p_mutex p = Some j → is_Some (p_workers p !! j)) → worker_step i p p' →
  ∀ j, p_mutex p' = Some j → is_Some (p_workers p' !! j).
Proof.
  intros H Hst j. destruct Hst; cbn; try done;
    try (intros [= <-]; rewrite list_lookup_insert_is_Some; by eexists);
    (intros Hj; rewrite list_lookup_insert_is_Some; by apply H).
Qed.

Lemma pool_owner p p' :
  (∀ j, p_mutex p = Some j → is_Some (p_workers p !! j)) → pool_step p p' →
  ∀ j, p_mutex p' = Some j → is_Some (p_workers p' !! j).
Proof.
  intros H Hst. destruct Hst as [i p p' Hw|task p _|i n p _ Hi|n p _ _|p _|p _|p _ _]; try done.
  - by eapply worker_owner.
  - intros j Hj. cbn. rewrite list_lookup_insert_is_Some. by apply H.
  - intros j Hj. cbn. rewrite list_lookup_fmap. destruct (H j Hj) as [w ->]. by eexists.
Qed.

Lemma pool_step_shut p p' :
  pool_step p p' → (p_stopper p ≠ NotStopping → p_running p = false) →
  (p_stopper p' ≠ NotStopping → p_running p' = false).
Proof.
  intros Hst H. destruct Hst as [i p p' Hw|task p _|i n p _ Hi|n p _ _|p _|p Hs|p Hs _]; cbn in *; try done.
  - by destruct Hw.
  - intros _. apply H. by rewrite Hs.
  - intros _. apply H. by rewrite Hs.
Qed.

Lemma stopping_reached p : rtc pool_step pool_start p → p_stopper p = WokenAll → stopping p.
Proof.
  intros Hst Hs.
  assert (pool_inv p ∧ (p_stopper p ≠ NotStopping → p_running p = false) ∧
    ∀ i, p_mutex p = Some i → is_Some (p_workers p !! i)) as (Hi & Hr & Ho).
  { assert (∀ p0, rtc pool_step p0 p → pool_inv p0 ∧ (p_stopper p0 ≠ NotStopping → p_running p0 = false) ∧
      (∀ i, p_mutex p0 = Some i → is_Some (p_workers p0 !! i)) →
      pool_inv p ∧ (p_stopper p ≠ NotStopping → p_running p = false) ∧
      ∀ i, p_mutex p = Some i → is_Some (p_workers p !! i)) as H.
    { clear. induction 1 as [|p0 p1 p2 H1 _ IH]; [done|]. intros (Hi & Hr & Ho). apply IH. split_and!.
      - by eapply any_step_inv, step_promised.
      - by eapply pool_step_shut.
      - by eapply pool_owner. }
    apply (H pool_start Hst). split_and!; [apply pool_start_inv|done..]. }
  split; [done| |by left|done]. apply Hr. by rewrite Hs.
Qed.

Lemma stopping_wait p : stopping p → wait_over p = true.
Proof. intros H. unfold wait_over. rewrite (sg_running _ H). by rewrite orb_true_r. Qed.

Lemma stopping_step p p' : stopping p → pool_step p p' → stopping p'.
Proof.
  intros H Hst. split.
  - eapply any_step_inv; [apply H|by apply step_promised].
  - eapply pool_step_shut; [done|intros _; apply H|].
    destruct Hst as [i p p' Hw|task p _|i n p _ Hi|n p _ _|p Hs|p Hs|p Hs _]; cbn; try done;
      pose proof (sg_stopper _ H) as Hd; try (by destruct Hd as [-> | ->]).
    destruct Hw; cbn; by destruct Hd as [-> | ->].
  - pose proof (sg_stopper _ H) as Hd.
    destruct Hst as [i p p' Hw|task p _|i n p _ Hi|n p _ _|p Hs|p Hs|p Hs _]; cbn; auto;
      [by destruct Hw|rewrite Hs in Hd; by destruct Hd..].
  - eapply pool_owner; [apply H|done].
Qed.

Lemma rank_insert (ws : list Worker) i w w' :
  ws !! i = Some w → (worker_rank w' < worker_rank w)%nat →
  (sum_list_with worker_rank (<[i := w']> ws) < sum_list_with worker_rank ws)%nat.
Proof. intros Hi Hr. pose proof (sum_list_with_insert worker_rank ws i w w' Hi). lia. Qed.

Lemma worker_step_rank i p p' :
  p_running p = false → worker_step i p p' →
  (sum_list_with worker_rank (p_workers p') < sum_list_with worker_rank (p_workers p))%nat ∧
  p_notices p' = p_notices p ∧ p_stopper p' = p_stopper p.
Proof.
  intros Hr Hst. assert (wait_over p = true) as Hw by (unfold wait_over; by rewrite Hr, orb_true_r).
  destruct Hst; try congruence; (split; [|done]); (eapply rank_insert; [done|cbn; lia]).
Qed.

Lemma wind_down_rank p p' : stopping p → wind_down p p' → (pool_rank p' < pool_rank p)%nat.
Proof.
  intros H [Hst Hsub]. unfold pool_rank. pose proof (sg_stopper _ H) as Hd.
  destruct Hst as [i p p' Hw|task p _|i n p Hn Hi|n p Hn _|p Hs|p Hs|p Hs _]; cbn in *.
  - destruct (worker_step_rank i p p' (sg_running _ H) Hw) as (Hlt & -> & ->). lia.
  - apply (f_equal length) in Hsub. rewrite length_app in Hsub. cbn in Hsub. lia.
  - pose proof (rank_insert (p_workers p) i Asleep Notified Hi ltac:(cbn; lia)). lia.
  - lia.
  - rewrite Hs in Hd. by destruct Hd.
  - rewrite Hs in Hd. by destruct Hd.
  - rewrite Hs. lia.
Qed.

(** Nobody falls asleep any more. *)
Lemma late_step p p' :
  stopping p → pool_step p p' → Forall (λ w, late w = false) (p_workers p) →
  Forall (λ w, late w = false) (p_workers p').
Proof.
  intros H Hst Hl. pose proof (stopping_wait _ H) as Hw.
  destruct Hst as [i p p' Hst|task p _|i n p Hn Hi|n p Hn _|p Hs|p Hs|p Hs _]; cbn; try done.
  - destruct Hst; try congruence; cbn; try (by apply Forall_insert).
    pose proof (Forall_lookup_1 _ _ _ _ Hl H0). done.
  - by apply Forall_insert.
  - apply Forall_fmap. eapply Forall_impl; [exact Hl|]. by intros [].
Qed.

(** The worker that has the mutex can go on. *)
Lemma holder_goes p i w :
  stopping p → p_workers p !! i = Some w → holds w = true → ∃ p', worker_step i p p' ∧ p_submitted p' = p_submitted p.
Proof.
  intros H Hi Hh. pose proof (stopping_wait _ H) as Hw. destruct w; try done.
  - eexists. split; [by apply worker_goes_on|done].
  - eexists. split; [by apply worker_sleeps|done].
  - destruct (p_queue p) as [|task rest] eqn:Hq.
    + eexists. split; [by apply worker_breaks; [|apply H|]|done].
    + eexists. split; [by eapply worker_takes|done].
Qed.

Lemma worker_goes p i w :
  stopping p → p_workers p !! i = Some w → w ≠ Finished → w ≠ Asleep → ∃ p', wind_down p p'.
Proof.
  intros H Hi Hf Ha.
  assert (∀ j p', worker_step j p p' → p_submitted p' = p_submitted p → ∃ p', wind_down p p') as Hgo.
  { intros j p' Hst Hs. exists p'. split; [by eapply step_worker|done]. }
  assert (w = Locking ∨ w = Notified → ∃ p', wind_down p p') as Hlock.
  { intros Hw. destruct (p_mutex p) as [j|] eqn:Hm.
    - destruct (sg_owner _ H j Hm) as [v Hj].
      destruct (holder_goes p j v H Hj) as (p' & Hst & Hs); [by apply (pi_mutex _ (sg_inv _ H) j v Hj)|by eapply Hgo].
    - destruct Hw as [-> | ->].
      + eapply Hgo; [by apply worker_locks|done].
      + eapply Hgo; [by apply worker_relocks|done]. }
  destruct (holds w) eqn:Hh.
  { destruct (holder_goes p i w H Hi Hh) as (p' & Hst & Hs). by eapply Hgo. }
  destruct w; try done; auto.
  - eapply Hgo; [by apply worker_leaves; [|apply H]|done].
  - eapply Hgo; [by eapply worker_answers|done].
Qed.

(** Only a sleeping worker can keep [stop] from returning. *)
Lemma stopping_stuck p :
  stopping p → (∀ p', ¬ wind_down p p') → p_stopper p = Joined ∨ ∃ i, p_workers p !! i = Some Asleep.
Proof.
  intros H Hn. destruct (sg_stopper _ H) as [Hs|]; [|by left].
  destruct (decide (Forall (λ w, is_finished w = true) (p_workers p))) as [D|D].
  { exfalso. eapply Hn. split; [apply step_joined; [done|]|done]. eapply Forall_impl; [exact D|]. by intros []. }
  right. apply not_Forall_Exists in D; [|apply _]. apply Exists_exists in D as (w & Hw & Hf).
  apply list_elem_of_lookup in Hw as [i Hi]. exists i.
  assert (w = Asleep ∨ w ≠ Asleep) as [->|Ha] by (destruct w; auto; by right); [done|].
  destruct (worker_goes p i w H Hi) as [p' Hp]; [intros ->; by destruct Hf|done|]. by destruct (Hn p').
Qed.

Lemma wind_down_bounded n p p' : stopping p → nsteps wind_down n p p' → (n + pool_rank p' <= pool_rank p)%nat.
Proof.
  intros H Hst. induction Hst as [|n p1 p2 p3 H1 _ IH]; [lia|].
  pose proof (wind_down_rank _ _ H H1). specialize (IH (stopping_step _ _ H (proj1 H1))). lia.
Qed.

Lemma wind_down_steps p p' :
  stopping p → rtc wind_down p p' → stopping p' ∧
  (Forall (λ w, late w = false) (p_workers p) → Forall (λ w, late w = false) (p_workers p')).
Proof.
  intros H Hst. induction Hst as [|p1 p2 p3 [H1 _] _ IH]; [done|].
  destruct (IH (stopping_step _ _ H H1)) as [Hs Hl]. split; [done|].
  intros Hf. apply Hl. exact (late_step _ _ H H1 Hf).
Qed.
End Stopping.

(** ** Theorems *)

(** C26.  The pool under any interleaving, spurious wake-ups included: tasks are taken in the
    order in which they were submitted, every task taken is answered once or still being
    processed, at most one worker has the mutex, and a worker past the wait has something to
    do. *)
Theorem pool_fifo_once (p : Pool) :
  rtc any_step pool_start p →
  p_submitted p = p_taken p ++ p_queue p ∧
  p_taken p ≡ₚ p_answered p ++ processing p ∧
  (∀ i j v w, p_workers p !! i = Some v → p_workers p !! j = Some w →
     holds v = true → holds w = true → i = j) ∧
  (∀ i, p_workers p !! i = Some Awake → ∃ p', worker_step i p p').
Proof.
  intros H. pose proof (any_steps_inv _ _ pool_start_inv H) as [Hf Ho Hm Ha].
  split_and!; [done|done| |].
  - intros i j v w Hi Hj Hv Hw. apply (Hm _ _ Hi) in Hv. apply (Hm _ _ Hj) in Hw. congruence.
  - intros i Hi. specialize (Ha i Hi). destruct (p_queue p) as [|task rest] eqn:Hq.
    + eexists. apply worker_breaks; [done| |done]. unfold wait_over in Ha. rewrite Hq in Ha. cbn in Ha.
      by destruct (p_running p).
    + eexists. by eapply worker_takes.
Qed.

(** Worker 0 sleeps, the others have left; [stop] is about to join them. *)
Definition slept_through : Pool :=
  {| p_running := false; p_queue := []; p_mutex := None;
     p_workers := Asleep :: replicate 7 Finished; p_stopper := WokenAll; p_notices := 0;
     p_submitted := []; p_taken := []; p_answered := [] |}.

(** In an execution, worker [i] leaves its loop. *)
Ltac leave i := eapply rtc_l; [by apply (step_worker i), worker_leaves|].

(** The worker tests the predicate, [stop] clears [running_] and notifies, the worker falls
    asleep; the other workers leave their loops. *)
Lemma slept_through_reached : rtc pool_step pool_start slept_through.
Proof.
  eapply rtc_l; [by apply (step_worker 0), worker_enters|].
  eapply rtc_l; [by apply (step_worker 0), worker_locks|].
  eapply rtc_l; [by apply (step_worker 0), worker_must_wait|].
  eapply rtc_l; [by apply step_clear|].
  eapply rtc_l; [by apply step_notify_all|].
  eapply rtc_l; [by apply (step_worker 0), worker_sleeps|].
  leave 1%nat; leave 2%nat; leave 3%nat; leave 4%nat; leave 5%nat; leave 6%nat; leave 7%nat.
  apply rtc_refl.
Qed.

Lemma slept_through_worker i w :
  p_workers slept_through !! i = Some w → w = Asleep ∨ w = Finished.
Proof. do 8 (destruct i as [|i]; [intros [= <-]; auto|]). done. Qed.

Lemma slept_through_stuck p' : pool_step slept_through p' → ∃ task, p' = push_task task slept_through.
Proof.
  intros H. inversion H as [i ? ? Hw|task ? _|? ? ? Hn|? ? Hn|? Hs|? Hs|? ? Hall]; subst; try done.
  - exfalso. inversion Hw as [Hi|Hi|Hi|Hi|Hi|Hi|Hi|Hi|Hi|? ? Hi|? Hi]; subst;
      apply slept_through_worker in Hi as [|]; done.
  - by eexists.
  - exfalso. by inversion Hall.
Qed.

(** C39.  [stop] can hang: it changes [running_] and notifies without the mutex, so both can
    happen between a worker's test of the predicate and its falling asleep.  Then the worker
    sleeps, [stop] waits for it in [join], and nothing the program does on its own will end
    this; only a new request could. *)
Theorem stop_lost_wakeup :
  ∃ p, rtc pool_step pool_start p ∧ p_stopper p = WokenAll ∧ p_workers p !! 0%nat = Some Asleep ∧
    ∀ p', pool_step p p' → ∃ task, p' = push_task task p.
Proof.
  exists slept_through. split; [exact slept_through_reached|]. split; [done|]. split; [done|].
  exact slept_through_stuck.
Qed.

(** C27.  That is the only way: once [stop] has notified, and without new requests, the pool takes
    boundedly many steps under any scheduler; and when it can take none, [stop] has joined all
    threads, unless some worker is asleep, which can only be one that was falling asleep (or
    slept already) when [stop] had notified. *)
Theorem stop_returns (p : Pool) :
  rtc pool_step pool_start p → p_stopper p = WokenAll →
  (∀ n p', nsteps wind_down n p p' → (n <= pool_rank p)%nat) ∧
  (∀ p', rtc wind_down p p' → (∀ p'', ¬ wind_down p' p'') →
     p_stopper p' = Joined ∨ ∃ i, p_workers p' !! i = Some Asleep) ∧
  (Forall (λ w, late w = false) (p_workers p) →
     ∀ p', rtc wind_down p p' → (∀ p'', ¬ wind_down p' p'') → p_stopper p' = Joined).
Proof.
  intros Hst Hs. pose proof (stopping_reached p Hst Hs) as H. split_and!.
  - intros n p' Hn. pose proof (wind_down_bounded n p p' H Hn). lia.
  - intros p' Hst' Hn. by apply stopping_stuck; [apply (wind_down_steps p p' H Hst')|].
  - intros Hl p' Hst' Hn. destruct (wind_down_steps p p' H Hst') as [H' Hl'].
    destruct (stopping_stuck p' H' Hn) as [|[i Hi]]; [done|].
    by pose proof (Forall_lookup_1 _ _ _ _ (Hl' Hl) Hi).
Qed.

(** [stop] drops requests: a worker leaves its loop as soon as [running_] is false, so
    that the pool can end with submitted tasks that no one will ever answer. *)
Theorem stop_drops_tasks (task : RequestTask) :
  ∃ p, rtc pool_step pool_start p ∧ p_stopper p = Joined ∧ p_queue p = [task] ∧ p_answered p = [].
Proof.
  eexists. split.
  - eapply rtc_l; [by apply (step_push task)|].
    eapply rtc_l; [apply (step_notify_none 0); [done|by repeat constructor]|].
    eapply rtc_l; [by apply step_clear|].
    eapply rtc_l; [by apply step_notify_all|].
    leave 0%nat; leave 1%nat; leave 2%nat; leave 3%nat; leave 4%nat; leave 5%nat; leave 6%nat; leave 7%nat.
    eapply rtc_l; [apply step_joined; [done|by repeat constructor]|].
    apply rtc_refl.
  - done.
Qed.

(** ** Witnesses *)

(** One task submitted. *)
Definition demo_task : RequestTask := mkRequestTask Message_default 0.
Definition demo_pool : Pool := push_task demo_task pool_start.

Lemma pool_fifo_once_witness :
  p_submitted demo_pool = [demo_task] ∧
  p_submitted demo_pool = p_taken demo_pool ++ p_queue demo_pool.
Proof.
  split; [reflexivity|]. apply (pool_fifo_once demo_pool). apply rtc_once, step_promised, step_push.
  reflexivity.
Defined.

Lemma stop_returns_witness :
  let p := notify_all (clear_running pool_start) in
  (∀ n p', nsteps wind_down n p p' → (n <= 9)%nat) ∧
  ∀ p', rtc wind_down p p' → (∀ p'', ¬ wind_down p' p'') → p_stopper p' = Joined.
Proof.
  cbv zeta. destruct (stop_returns (notify_all (clear_running pool_start))) as (Hb & _ & Hj).
  - eapply rtc_l; [apply step_clear; reflexivity|]. apply rtc_once, step_notify_all. reflexivity.
  - reflexivity.
  - split; [exact Hb|]. apply Hj. repeat constructor.
Defined.
