(* ===== verification/System.v ===== *)
(** * The server as one system

    [src/network/server.cpp], put together: the accept chain of [Acceptor.v], the connections it
    makes, each a handler of [Connection.v] driven by its own events, and the one database
    they all serve from.  Steps of the chain and events of the connections interleave in any
    way; an event, with the requests' calls on the database inside, is one step here, and cut
    further in [Parallel.v] and [IoThreads.v].  The system refines the accept chain with its counters, and
    serves all connections from one sequential history. *)

From stdpp Require Import base gmap list strings relations.
From Stdlib Require Import ZArith Lia.
From Stdlib Require Import Strings.Byte.
From S2P Require Import Prelude.
From S2P Require Import Framing.
From S2P Require Import Protocol.
From S2P Require Import Effects.
From S2P Require Import Interface.
From S2P Require Import Database.
From S2P Require Import Server.
From S2P Require Import Connection.
From S2P Require Import Acceptor.

(** A connection and the bytes that arrived on it so far. *)
Record Peer (S : Type) := mkPeer {
  p_conn : Connection S;
  p_arrived : list byte;
}.
Arguments mkPeer {S}.
Arguments p_conn {S}.
Arguments p_arrived {S}.

Record System (S : Type) := mkSystem {
  sys_server : DatabaseServer;
  sys_acceptor_open : bool;
  sys_chain : AcceptState;
  sys_peers : list (Peer S);   (** in the order in which they were accepted *)
  sys_store : S;               (** the database, shared *)
}.
Arguments mkSystem {S}.
Arguments sys_server {S}.
Arguments sys_acceptor_open {S}.
Arguments sys_chain {S}.
Arguments sys_peers {S}.
Arguments sys_store {S}.

Definition with_store {S} (s : S) (c : Connection S) : Connection S :=
  mkConnection (handler c) (pending c) (disconnects c) (inbox c) (outbox c) (fetched c)
    (writes_started c) s.

Definition bytes_of (e : event) : list byte :=
  match e with Arrive bytes => bytes | _ => [] end.

Section Steps.
Context {S T : Type} `{!Database S T}.

(** What [start] leaves. *)
Definition system_start (srv : DatabaseServer) (s : S) : System S :=
  let a := server_start srv in mkSystem (server a) (acceptor_open a) (chain a) [] s.

(** The handler that [handle_accept] makes and starts, with what its writes will fetch. *)
Definition new_peer (srv : DatabaseServer) (fetch : nat → nat → nat) (s : S) : Peer S :=
  mkPeer (handler_start (mkConnection (ConnectionHandler_new (srv_database_ srv)) None 0 [] [] fetch 0 s)).2 [].

(** [fetch i] is what the writes of the [i]-th connection fetch at their start. *)
Inductive system_step (fetch : nat → nat → nat → nat) : System S → System S → Prop :=
  (** the chain, and [stop] *)
  | sys_accept srv ao ch srv' ao' ch' o ab ps s :
      accept_step (mkAcceptor srv ao ch o ab) (mkAcceptor srv' ao' ch' o ab) →
      system_step fetch (mkSystem srv ao ch ps s) (mkSystem srv' ao' ch' ps s)
  (** [make_shared<ConnectionHandler>(...)] and [handler->start()] *)
  | sys_connect srv ao ps s :
      system_step fetch (mkSystem srv ao Counted ps s)
        (mkSystem srv ao AcceptHandled (ps ++ [new_peer srv (fetch (length ps)) s]) s)
  (** an event of a connection; [on_disconnect_] is [on_client_disconnect] *)
  | sys_event srv ao ch ps s i p e c' :
      ps !! i = Some p →
      on_event e (with_store s (p_conn p)) = (Val tt, c') →
      system_step fetch (mkSystem srv ao ch ps s)
        (mkSystem (Nat.iter (disconnects c' - disconnects (p_conn p)) on_client_disconnect srv) ao ch
           (<[i := mkPeer c' (p_arrived p ++ bytes_of e)]> ps) (store c')).

(** [get_connection_count] and [get_total_requests]. *)
Definition get_connection_count (sys : System S) : Z := connection_count_ (sys_server sys).
Definition get_total_requests (sys : System S) : Z := total_requests_ (sys_server sys).

(** ** The counters *)

(** The connections that did not report a disconnect. *)
Definition unreported (p : Peer S) : bool := bool_decide (disconnects (p_conn p) = 0%nat).
Definition open_peers (ps : list (Peer S)) : nat := length (filter unreported ps).

(** The accept chain that a system stands for. *)
Definition acceptor_of (sys : System S) : Acceptor :=
  mkAcceptor (sys_server sys) (sys_acceptor_open sys) (sys_chain sys) (open_peers (sys_peers sys)) 0.

Definition peers_ok (sys : System S) : Prop := Forall (λ p, conn_inv (p_conn p)) (sys_peers sys).

(** An event reports at most one disconnect, and none after the first. *)
Lemma on_event_reports e (c c' : Connection S) :
  conn_inv c → on_event e c = (Val tt, c') →
  disconnects c' = disconnects c ∨ disconnects c = 0%nat ∧ disconnects c' = 1%nat.
Proof.
  intros Hi E. pose proof (on_event_inv e c Hi) as [H1 _ _ _]. rewrite E in H1. cbn in H1.
  destruct Hi as [H2 H3 _ _]. destruct (disconnects c) as [|[]] eqn:Hd; [lia| |lia].
  left. specialize (H3 eq_refl). revert E. destruct e; cbn [on_event]; rewrite ?H3.
  - by intros [= <-].
  - by intros [= <-].
  - by intros [= <-].
Qed.

Lemma open_peers_app ps (p : Peer S) : unreported p = true → open_peers (ps ++ [p]) = Datatypes.S (open_peers ps).
Proof.
  intros H. unfold open_peers. rewrite filter_app, length_app. rewrite filter_cons_True by (by rewrite H).
  cbn. lia.
Qed.

Lemma open_peers_cons (p : Peer S) ps :
  open_peers (p :: ps) = (Nat.b2n (unreported p) + open_peers ps)%nat.
Proof.
  unfold open_peers. destruct (unreported p) eqn:E.
  - rewrite filter_cons_True; [done|]. by rewrite E.
  - rewrite filter_cons_False; [done|]. rewrite E. by intros [].
Qed.

Lemma open_peers_insert ps i (p p' : Peer S) :
  ps !! i = Some p →
  (open_peers (<[i := p']> ps) + Nat.b2n (unreported p) = open_peers ps + Nat.b2n (unreported p'))%nat.
Proof.
  revert i. induction ps as [|q ps IH]; intros [|i] Hi; [done|done|..]; cbn in Hi.
  - injection Hi as ->. change (<[0%nat := p']> (p :: ps)) with (p' :: ps).
    rewrite !open_peers_cons. lia.
  - specialize (IH i Hi).
    change (<[Datatypes.S i := p']> (q :: ps)) with (q :: <[i := p']> ps).
    rewrite !open_peers_cons. lia.
Qed.

Lemma new_peer_ok srv fetch (s : S) : conn_inv (p_conn (new_peer srv fetch s)) ∧ unreported (new_peer srv fetch s) = true.
Proof. split; [|done]. apply (quiet_read_header (mkConnection _ _ _ _ _ _ _ _)). by split. Qed.

Lemma with_store_inv (s : S) c : conn_inv c → conn_inv (with_store s c).
Proof. by intros []. Qed.

Lemma peers_ok_step fetch (sys sys' : System S) :
  peers_ok sys → system_step fetch sys sys' → peers_ok sys'.
Proof.
  unfold peers_ok. intros Hok H. destruct H as [| |srv ao ch ps s i p e c' Hi E]; cbn in *; [done|..].
  - apply Forall_app. split; [done|]. constructor; [apply new_peer_ok|done].
  - apply Forall_insert; [done|]. cbn.
    pose proof (on_event_inv e _ (with_store_inv s _ (Forall_lookup_1 _ _ _ _ Hok Hi))) as H.
    by rewrite E in H.
Qed.

(** A step of the system is a step of the chain with its counters, or none. *)
Lemma system_step_refines fetch (sys sys' : System S) :
  peers_ok sys → system_step fetch sys sys' → rtc accept_step (acceptor_of sys) (acceptor_of sys').
Proof.
  intros Hok H. destruct H as [srv ao ch srv' ao' ch' o ab ps s H| |srv ao ch ps s i p e c' Hi E];
    unfold acceptor_of; cbn -[open_peers new_peer app].
  - apply rtc_once. inversion H; subst; try lia; by constructor.
  - rewrite open_peers_app by apply new_peer_ok. apply rtc_once, accept_handler.
  - pose proof (Forall_lookup_1 _ _ _ _ Hok Hi) as Hp. cbn in Hp.
    pose proof (open_peers_insert ps i p (mkPeer c' (p_arrived p ++ bytes_of e)) Hi) as Hn.
    unfold unreported in Hn. cbn [p_conn] in Hn.
    destruct (on_event_reports e _ c' (with_store_inv s _ Hp) E) as [Hd|[H0 H1]];
      cbn [with_store disconnects] in *.
    + rewrite Hd, Nat.sub_diag. rewrite Hd in Hn. cbn [Nat.iter].
      replace (open_peers (<[_ := _]> ps)) with (open_peers ps) by lia. apply rtc_refl.
    + rewrite H0, H1 in *. change (Nat.b2n _) with 1%nat in Hn at 1.
      change (Nat.b2n _) with 0%nat in Hn. replace (open_peers ps) with
        (Datatypes.S (open_peers (<[i := mkPeer c' (p_arrived p ++ bytes_of e)]> ps))) by lia.
      apply rtc_once, accept_disconnect.
Qed.

Lemma system_steps_refine fetch (sys sys' : System S) :
  peers_ok sys → rtc (system_step fetch) sys sys' →
  rtc accept_step (acceptor_of sys) (acceptor_of sys') ∧ peers_ok sys'.
Proof.
  intros Hok H. induction H as [|sys sys1 sys' H1 _ IH]; [by split; [apply rtc_refl|]|].
  destruct (IH (peers_ok_step _ _ _ Hok H1)) as [IH1 IH2]. split; [|done].
  etrans; [by eapply system_step_refines|done].
Qed.

Lemma accept_steps_total a a' :
  rtc accept_step a a' → total_requests_ (server a') = total_requests_ (server a).
Proof. induction 1 as [|a a1 a' H _ IH]; [done|]. rewrite IH. by destruct H. Qed.
End Steps.

(** ** The common history *)

Section History.
Context {S T : Type} `{!Database S T} `{!DatabaseContract S T}.
Implicit Types (sys : System S) (m : gmap string string) (h : list (nat * (Message * Message))).

(** The requests and responses of the [i]-th connection. *)
Definition of_peer (i : nat) h : list (Message * Message) := (filter (λ x, x.1 = i) h).*2.

(** The history so far: it was served one request after the other, and what it has of each
    connection is that connection's dialogue. *)
Record explains m h sys : Prop := {
  ex_served : served_all m h.*2.*1 h.*2.*2 (contents (sys_store sys));
  ex_ok : db_ok (sys_store sys);
  ex_dialogues : ∀ i p, sys_peers sys !! i = Some p → dialogue (of_peer i h) (p_conn p) (p_arrived p);
  ex_peers : ∀ x, x ∈ h → (x.1 < length (sys_peers sys))%nat;
  ex_set : srv_database_ (sys_server sys) = true;
}.

Lemma of_peer_snoc i j h (e : Message * Message) :
  of_peer i (h ++ [(j, e)]) = if decide (j = i) then of_peer i h ++ [e] else of_peer i h.
Proof.
  unfold of_peer. rewrite filter_app, fmap_app. destruct (decide (j = i)) as [->|Hne].
  - by rewrite filter_cons_True.
  - rewrite filter_cons_False by done. by rewrite filter_nil, app_nil_r.
Qed.

Lemma of_peer_none i h : (∀ x, x ∈ h → x.1 ≠ i) → of_peer i h = [].
Proof.
  intros H. unfold of_peer. induction h as [|x h IH]; [done|].
  rewrite filter_cons_False by (apply H; left). apply IH. intros y Hy. apply H. by right.
Qed.

Lemma iter_disconnect_database n (srv : DatabaseServer) :
  srv_database_ (Nat.iter n on_client_disconnect srv) = srv_database_ srv.
Proof. induction n; [done|]. cbn. by rewrite <- IHn. Qed.

Lemma accept_step_database a a' :
  accept_step a a' → srv_database_ (server a') = srv_database_ (server a).
Proof. by destruct 1. Qed.

Lemma explains_step fetch m h sys sys' :
  explains m h sys → system_step fetch sys sys' →
  ∃ h', explains m h' sys'.
Proof.
  intros [H1 H2 H3 H4 H5] H.
  destruct H as [srv ao ch srv' ao' ch' o ab ps s H|srv ao ps s|srv ao ch ps s i p e c' Hi E]; cbn in *.
  - exists h. split; try done. cbn. apply accept_step_database in H. cbn in H. congruence.
  - exists h. split; cbn; try done.
    + intros i p Hi. apply lookup_app_Some in Hi as [Hi|[Hlen Hi]]; [by apply H3|].
      assert (i = length ps) as -> by (apply lookup_lt_Some in Hi; cbn in Hi; lia).
      rewrite Nat.sub_diag in Hi. injection Hi as <-.
      assert (of_peer (length ps) h = []) as ->.
      { apply of_peer_none. intros x Hx%H4. lia. }
      unfold new_peer. rewrite H5. exists []. split_and!; try done. by left.
    + intros x Hx%H4. rewrite length_app. lia.
  - destruct (dialogue_step (of_peer i h) (with_store s (p_conn p)) (p_arrived p) e (H3 i p Hi) H2
      (on_event_fetched _ _ _ E))
      as (c1 & es' & E1 & Hd & Hx). rewrite E in E1. injection E1 as <-. cbn in Hx.
    assert (Hothers : ∀ h' j q, (∀ j, j ≠ i → of_peer j h' = of_peer j h) → of_peer i h' = es' →
      <[i := mkPeer c' (p_arrived p ++ bytes_of e)]> ps !! j = Some q →
      dialogue (of_peer j h') (p_conn q) (p_arrived q)).
    { intros h' j q Hother Hself Hq. destruct (decide (j = i)) as [->|Hne].
      - rewrite list_lookup_insert_eq in Hq by (by eapply lookup_lt_Some). injection Hq as <-.
        by rewrite Hself.
      - rewrite list_lookup_insert_ne in Hq by done. rewrite Hother by done. by apply H3. }
    destruct Hx as [[-> Hs]|(rq & rp & -> & Sv & Ok')].
    + exists h. split; cbn; rewrite ?Hs, ?length_insert, ?iter_disconnect_database; try done.
      intros j q. by apply Hothers.
    + exists (h ++ [(i, (rq, rp))]). split; cbn; rewrite ?length_insert, ?iter_disconnect_database; try done.
      * rewrite !fmap_app. by eapply served_all_snoc.
      * intros j q. apply Hothers.
        -- intros j' Hne. by rewrite of_peer_snoc, decide_False by done.
        -- by rewrite of_peer_snoc, decide_True by done.
      * intros x [Hx|Hx]%elem_of_app; [by apply H4|]. apply list_elem_of_singleton in Hx as ->.
        cbn. by eapply lookup_lt_Some.
Qed.

Lemma explains_steps fetch m h sys sys' :
  explains m h sys → rtc (system_step fetch) sys sys' →
  ∃ h', explains m h' sys'.
Proof.
  intros H Hsteps. revert h H. induction Hsteps as [|sys sys1 sys' H1 _ IH]; intros h H; [by exists h|].
  destruct (explains_step fetch m h sys sys1 H H1) as [h1 Hh1]. by eapply IH.
Qed.

Lemma system_history fetch (srv : DatabaseServer) (s : S) (sys : System S) :
  db_ok s → srv_database_ srv = true →
  rtc (system_step fetch) (system_start srv s) sys →
  ∃ h, explains (contents s) h sys.
Proof.
  intros Hs Hd. apply (explains_steps fetch (contents s) []).
  split; cbn; try done; [constructor|]. intros x Hx. by apply elem_of_nil in Hx.
Qed.

(** What the history has of a connection is what was exchanged on it. *)
Lemma explains_peer m h sys i p :
  explains m h sys → sys_peers sys !! i = Some p →
  ∃ datas, concat (map frame datas) `prefix_of` p_arrived p ∧
    Forall2 carries datas (of_peer i h).*1 ∧ writes (of_peer i h).*2 (p_conn p).
Proof.
  intros H Hi. destruct (ex_dialogues _ _ _ H i p Hi) as (datas & Hc & Ho & Hat & _).
  exists datas. split; [|done]. by apply at_stream_prefix in Hat.
Qed.
End History.

(** ** Theorems *)

(** The server as a whole, under any interleaving of accepts, events of any number of
    connections and [stop]: there is one sequence of requests and responses that is a
    sequential execution from the database's first contents to its present ones, and every
    connection has been answered with exactly its share of that sequence, in the order of its
    stream, of the last response what its write fetched at its start.  The only event that is
    undefined behaviour is the completion of a write that did not fetch all its bytes then. *)
Theorem system_serves_all {S T : Type} `{!Database S T} `{!DatabaseContract S T}
    (fetch : nat → nat → nat → nat) (srv : DatabaseServer) (s : S) (sys : System S) :
  db_ok s → srv_database_ srv = true →
  rtc (system_step fetch) (system_start srv s) sys →
  (∃ h : list (nat * (Message * Message)),
     served_all (contents s) h.*2.*1 h.*2.*2 (contents (sys_store sys)) ∧
     ∀ i p, sys_peers sys !! i = Some p →
       ∃ datas, concat (map frame datas) `prefix_of` p_arrived p ∧
         Forall2 carries datas (of_peer i h).*1 ∧ writes (of_peer i h).*2 (p_conn p)) ∧
  ∀ i p e, sys_peers sys !! i = Some p → ¬ dangles e (p_conn p) →
    ∃ c', on_event e (with_store (sys_store sys) (p_conn p)) = (Val tt, c').
Proof.
  intros Hs Hd Hsteps. destruct (system_history fetch srv s sys Hs Hd Hsteps) as [h H].
  split.
  - exists h. split; [apply H|]. intros i p. by apply (explains_peer (contents s)) with (sys := sys).
  - intros i p e Hi Hn.
    destruct (dialogue_step _ (with_store (sys_store sys) (p_conn p)) _ e
      (ex_dialogues _ _ _ H i p Hi) (ex_ok _ _ _ H) Hn) as (c' & ? & E & _).
    by exists c'.
Qed.

(** The statistics of the server in any reachable state: the connection counter is the
    number of connections that were set up and did not report a disconnect, within 0 and the
    limit; the system refines the accept chain of [Acceptor.v].  The request counter does not
    move, however many requests the connections are answered. *)
Theorem system_counts {S T : Type} `{!Database S T}
    (fetch : nat → nat → nat → nat) (srv : DatabaseServer) (s : S) (sys : System S) :
  connection_count_ srv = 0 → rtc (system_step fetch) (system_start srv s) sys →
  rtc accept_step (server_start srv) (acceptor_of sys) ∧
  get_connection_count sys
    = Z.of_nat (open_peers (sys_peers sys)) + (match sys_chain sys with Counted => 1 | _ => 0 end) ∧
  0 <= get_connection_count sys <= MAX_CONNECTIONS ∧
  get_total_requests sys = total_requests_ srv.
Proof.
  intros H0 Hsteps. assert (peers_ok (system_start srv s)) as Hok by apply Forall_nil_2.
  destruct (system_steps_refine fetch _ _ Hok Hsteps) as [Hr _].
  split; [exact Hr|]. destruct (accept_steps_inv _ _ (accept_start_inv srv H0) Hr) as [He Hl].
  unfold get_connection_count, counted_connections in *. cbn in He, Hl.
  split; [lia|]. split; [destruct (sys_chain sys); lia|].
  exact (accept_steps_total _ _ Hr).
Qed.

(** ** Witnesses *)

Definition eager_fetch (i j n : nat) : nat := n.

Definition demo_srv : DatabaseServer := set_database DatabaseServer_new.

Lemma event_run e (c : Connection Process) :
  (on_event e c).1 = Val tt → on_event e c = (Val tt, (on_event e c).2).
Proof. destruct (on_event e c). cbn. by intros ->. Qed.

(** Two connections were accepted; the first one sent a request, which was answered. *)
Lemma demo_system_reached :
  ∃ sys, rtc (system_step eager_fetch) (system_start demo_srv demo_process) sys ∧
    length (sys_peers sys) = 2%nat ∧
    ((λ p, length (outbox (p_conn p))) <$> sys_peers sys) = [19%nat; 0%nat].
Proof.
  eexists. split; [|split].
  - eapply rtc_l; [by eapply (sys_accept _ _ _ _ _ _ _ 0 0), accept_admitted|].
    eapply rtc_l; [eapply (sys_accept _ _ _ _ _ _ _ 0 0), accept_counted|].
    eapply rtc_l; [apply sys_connect|].
    eapply rtc_l; [by eapply (sys_accept _ _ _ _ _ _ _ 0 0), accept_again|].
    eapply rtc_l; [by eapply (sys_accept _ _ _ _ _ _ _ 0 0), accept_admitted|].
    eapply rtc_l; [eapply (sys_accept _ _ _ _ _ _ _ 0 0), accept_counted|].
    eapply rtc_l; [apply sys_connect|].
    eapply rtc_l; [eapply (sys_event _ _ _ _ _ _ 0 _ (Arrive (frames [put_request 1 "k" "v"])));
      [reflexivity|apply event_run; vm_compute; reflexivity]|].
    do 2 (eapply rtc_l; [eapply (sys_event _ _ _ _ _ _ 0 _ (Complete NoError));
      [reflexivity|apply event_run; vm_compute; reflexivity]|]).
    apply rtc_refl.
  - vm_compute. reflexivity.
  - vm_compute. reflexivity.
Qed.

Lemma system_serves_all_witness :
  ∃ sys : System Process, length (sys_peers sys) = 2%nat ∧
    ∃ h : list (nat * (Message * Message)),
      served_all (contents demo_process) h.*2.*1 h.*2.*2 (contents (sys_store sys)) ∧
      ∀ i p, sys_peers sys !! i = Some p → writes (of_peer i h).*2 (p_conn p).
Proof.
  destruct demo_system_reached as (sys & Hsys & Hlen & _). exists sys. split; [exact Hlen|].
  destruct (system_serves_all eager_fetch demo_srv demo_process sys) as [(h & Hs & Hp) _].
  - exact demo_ok.
  - reflexivity.
  - exact Hsys.
  - exists h. split; [exact Hs|]. intros i p Hi. destruct (Hp i p Hi) as (_ & _ & _ & Ho). exact Ho.
Defined.

Lemma system_counts_witness :
  ∃ sys : System Process, get_connection_count sys
      = Z.of_nat (open_peers (sys_peers sys)) + (match sys_chain sys with Counted => 1 | _ => 0 end) ∧
    get_total_requests sys = 0 ∧ sys_peers sys ≠ [].
Proof.
  destruct demo_system_reached as (sys & Hsys & Hlen & _). exists sys.
  destruct (system_counts eager_fetch demo_srv demo_process sys) as (_ & Hc & _ & Ht).
  - reflexivity.
  - exact Hsys.
  - split; [exact Hc|]. split; [exact Ht|]. intros E. rewrite E in Hlen. discriminate.
Defined.
