(* ===== verification/EndToEnd.v ===== *)
(** * Client and server together

    The client of [Client.v] at one end of a connection whose other end is a handler of the
    server of [System.v].  The socket is instantiated with what is between the two: to connect
    is the accept chain's work, which makes a handler for the client, or rejects it at the
    limit; what the client writes arrives at its handler, whose operations then complete; what
    the handler wrote is what the client reads; when the client closes its end, its handler
    finds the end of the stream and reports the disconnect.  All of it is an execution of
    [System.v]; the client's calls are answered as the database's contents say, or the write of
    a response is one that did not fetch all its bytes at its start, whose completion is
    undefined behaviour. *)

From stdpp Require Import base gmap list strings relations.
From Stdlib Require Import ZArith Lia.
From Stdlib Require Import Strings.Byte.
From S2P Require Import Prelude.
From S2P Require Import Bytes.
From S2P Require Import Framing.
From S2P Require Import Protocol.
From S2P Require Import Effects.
From S2P Require Import Interface.
From S2P Require Import ScanFormat.
From S2P Require Import LogReader.
From S2P Require Import Database.
From S2P Require Import Server.
From S2P Require Import Connection.
From S2P Require Import Client.
From S2P Require Import Acceptor.
From S2P Require Import System.

(** A client's socket: its handler, by its place among the server's connections, if the server
    admitted it, and how much of what the handler wrote was read. *)
Record ClientSocket := mkClientSocket {
  cs_open : bool;
  cs_peer : option nat;
  cs_read : nat;
}.

(** The server and a client's socket; [fetch] is what the server's writes fetch at their start. *)
Record Link (fetch : nat → nat → nat → nat) (S : Type) := mkLink {
  link_system : System S;
  link_socket : ClientSocket;
}.
Arguments mkLink {fetch S}.
Arguments link_system {fetch S}.
Arguments link_socket {fetch S}.

Section Sockets.
Context {S T : Type} `{!Database S T}.

(** Events of the [i]-th connection, one after the other; [on_disconnect_] is
    [on_client_disconnect]. *)
Definition peer_events (i : nat) (es : list event) : M (System S) unit := λ sys,
  match sys_peers sys !! i with
  | None => (Val tt, sys)
  | Some p =>
      let '(r, c) := on_events es (with_store (sys_store sys) (p_conn p)) in
      (r, mkSystem (Nat.iter (disconnects c - disconnects (p_conn p)) on_client_disconnect (sys_server sys))
            (sys_acceptor_open sys) (sys_chain sys)
            (<[i := mkPeer c (p_arrived p ++ arrived_by es)]> (sys_peers sys)) (store c))
  end.

(** An accept is under way. *)
Definition accepting (sys : System S) : bool :=
  sys_acceptor_open sys && running_ (sys_server sys) &&
  match sys_chain sys with Accepting => true | _ => false end.

(** [handle_accept], and the next [start_accept]. *)
Definition accept_client (fetch : nat → nat → nat → nat) (sys : System S) : option nat * System S :=
  let srv := sys_server sys in
  let ps := sys_peers sys in
  if connection_count_ srv >=? MAX_CONNECTIONS then (None, sys) else
  let srv := set_connection_count (u32 (connection_count_ srv + 1)) srv in
  (Some (length ps),
   mkSystem srv (sys_acceptor_open sys) (sys_chain sys)
     (ps ++ [new_peer srv (fetch (length ps)) (sys_store sys)]) (sys_store sys)).
End Sockets.

(** Three completions are as many as one write of the client can cause: the body, the
    response, and a look at the next header.  A rejected client finds the end of the stream. *)
#[export] Instance Link_socket {fetch S T} `{!Database S T} : Socket (Link fetch S) := {|
  sock_is_open n := cs_open (link_socket n);
  sock_connect host port := λ n,
    if accepting (link_system n) then
      let '(peer, sys) := accept_client fetch (link_system n) in
      (Val tt, mkLink sys (mkClientSocket true peer 0))
    else (Exn "Connection refused", n);
  sock_close := λ n,
    match cs_peer (link_socket n) with
    | Some i =>
        let '(r, sys) := peer_events i [Complete OtherError] (link_system n) in
        (r, mkLink sys (mkClientSocket false None 0))
    | None => (Val tt, mkLink (link_system n) (mkClientSocket false None 0))
    end;
  sock_write bytes := λ n,
    if cs_open (link_socket n) then
      match cs_peer (link_socket n) with
      | Some i =>
          let '(r, sys) := peer_events i (Arrive bytes :: replicate 3 (Complete NoError)) (link_system n) in
          (r, mkLink sys (link_socket n))
      | None => (Val tt, n)
      end
    else (Exn "Bad file descriptor", n);
  sock_read count := λ n,
    if cs_open (link_socket n) then
      match p ← (cs_peer (link_socket n) ≫= (sys_peers (link_system n) !!.)); Some (p_conn p) with
      | Some c =>
          let rest := drop (cs_read (link_socket n)) (outbox c) in
          if (count <=? length rest)%nat then
            (Val (take count rest),
             mkLink (link_system n) (mkClientSocket true (cs_peer (link_socket n)) (cs_read (link_socket n) + count)))
          else if (disconnects c =? 0)%nat then (UB "blocked", n)
          else (Exn "End of file",
                mkLink (link_system n) (mkClientSocket true (cs_peer (link_socket n)) (length (outbox c))))
      | None => (Exn "End of file", n)
      end
    else (Exn "Bad file descriptor", n);
|}.

(** ** The socket's calls are executions of the server *)

Section Executions.
Context {S T : Type} `{!Database S T}.
Context (fetch : nat → nat → nat → nat).
Implicit Types (sys : System S) (c : Connection S).

Lemma with_store_own c : with_store (store c) c = c.
Proof. by destruct c. Qed.

Lemma on_events_reports es c c' :
  conn_inv c → on_events es c = (Val tt, c') → (disconnects c <= disconnects c')%nat.
Proof.
  revert c. induction es as [|e es IH]; intros c Hi; cbn [on_events]; [by intros [= <-]|].
  unfold mbind, M_bind. destruct (on_event e c) as [[[]|?|?] c1] eqn:E; [|done..]. intros E'.
  pose proof (on_event_inv e c Hi) as Hi1. rewrite E in Hi1. specialize (IH c1 Hi1 E').
  destruct (on_event_reports e c c1 Hi E) as [?|[? ?]]; lia.
Qed.

(** The events of a connection are events of the system. *)
Lemma peer_events_steps i e es sys sys' :
  peers_ok sys → peer_events i (e :: es) sys = (Val tt, sys') → rtc (system_step fetch) sys sys'.
Proof.
  revert e sys. induction es as [|e' es IH]; intros e [srv ao ch ps s] Hok; unfold peer_events at 1;
    cbn [sys_peers sys_store sys_server sys_acceptor_open sys_chain];
    (destruct (ps !! i) as [p|] eqn:Hi; [|intros [= <-]; apply rtc_refl]).
  - cbn [on_events]. unfold mbind, M_bind, mret, M_ret.
    destruct (on_event e (with_store s (p_conn p))) as [[[]|what|why] c] eqn:E; [|done..].
    unfold arrived_by. cbn [map concat]. rewrite app_nil_r. intros [= <-]. apply rtc_once.
    exact (sys_event fetch srv ao ch ps s i p e c Hi E).
  - assert (Hes : on_events (e :: e' :: es) (with_store s (p_conn p))
      = (on_event e;; on_events (e' :: es)) (with_store s (p_conn p))) by done.
    rewrite Hes. clear Hes. unfold mbind, M_bind.
    destruct (on_event e (with_store s (p_conn p))) as [[[]|what|why] c] eqn:E; [|intros E'; discriminate E'..].
    pose proof (sys_event fetch srv ao ch ps s i p e c Hi E) as Hstep.
    pose proof (Forall_lookup_1 _ _ _ _ Hok Hi) as Hp. cbn in Hp.
    pose proof (on_event_inv e _ (with_store_inv s _ Hp)) as Hc. rewrite E in Hc. cbn in Hc.
    destruct (on_events (e' :: es) c) as [r c'] eqn:E'. intros [= -> <-].
    eapply rtc_l; [exact Hstep|]. apply (IH e'); [by eapply peers_ok_step|].
    unfold peer_events. cbn [sys_peers sys_store sys_server sys_acceptor_open sys_chain].
    rewrite list_lookup_insert_eq by (by eapply lookup_lt_Some). cbn [p_conn p_arrived].
    rewrite with_store_own, E', list_insert_insert, decide_True by done.
    pose proof (on_events_reports _ _ _ Hc E') as H1.
    assert (disconnects (p_conn p) <= disconnects c)%nat as H0.
    { destruct (on_event_reports e _ c (with_store_inv s _ Hp) E) as [H|[H _]]; cbn in H; lia. }
    unfold arrived_by. cbn [map concat]. rewrite <- !app_assoc, <- Nat.iter_add.
    do 3 f_equal. f_equal. lia.
Qed.

(** To be accepted is the chain's work. *)
Lemma accept_client_steps sys peer sys' :
  accepting sys = true → accept_client fetch sys = (peer, sys') → rtc (system_step fetch) sys sys'.
Proof.
  destruct sys as [srv ao ch ps s]. unfold accepting, accept_client.
  cbn [sys_peers sys_store sys_server sys_acceptor_open sys_chain].
  intros [[_ Hr]%andb_true_iff Hch]%andb_true_iff. destruct ch; try done. rewrite Z.geb_leb.
  destruct (Z.leb_spec MAX_CONNECTIONS (connection_count_ srv)) as [|Hlt]; intros [= _ <-]; [done|].
  eapply rtc_l; [by eapply (sys_accept _ _ _ _ _ _ _ 0 0), accept_admitted|].
  eapply rtc_l; [eapply (sys_accept _ _ _ _ _ _ _ 0 0), accept_counted|].
  eapply rtc_l; [apply sys_connect|].
  apply rtc_once. by eapply (sys_accept _ _ _ _ _ _ _ 0 0), accept_again.
Qed.
End Executions.

Section Together.
Context {S T : Type} `{!Database S T} `{!DatabaseContract S T}.
Implicit Types (c : Connection S) (f : nat → nat → nat).

(** The handler waits for a request, and has read everything; [f] is what its writes fetch. *)
Record at_rest f c : Prop := {
  ar_pending : pending c = Some AsyncReadHeader;
  ar_inbox : inbox c = [];
  ar_disconnects : disconnects c = 0%nat;
  ar_active : active_ (handler c) = true;
  ar_database : h_database_ (handler c) = true;
  ar_fetched : fetched c = f;
}.

(** A read that lacks bytes waits. *)
Lemma header_waits c :
  pending c = Some AsyncReadHeader → (length (inbox c) < 4)%nat →
  on_event (Complete NoError) c = (Val tt, c).
Proof.
  intros Hp Hlen. cbn [on_event]. rewrite Hp, bool_decide_eq_true_2 by done.
  by rewrite (proj2 (Z.ltb_lt _ _)) by (unfold zlen; lia).
Qed.

Lemma body_waits c :
  pending c = Some AsyncReadBody → (length (inbox c) < length (body_buffer_ (handler c)))%nat →
  on_event (Complete NoError) c = (Val tt, c).
Proof.
  intros Hp Hlen. cbn [on_event]. rewrite Hp, bool_decide_eq_true_2 by done.
  by rewrite (proj2 (Z.ltb_lt _ _)) by (unfold zlen; lia).
Qed.

Definition arrive (bytes : list byte) c : Connection S :=
  mkConnection (handler c) (pending c) (disconnects c) (inbox c ++ bytes) (outbox c) (fetched c)
    (writes_started c) (store c).

(** The handler expects a body of [n] bytes. *)
Record expects f c (n : nat) : Prop := {
  ex_pending : pending c = Some AsyncReadBody;
  ex_inbox : inbox c = [];
  ex_disconnects : disconnects c = 0%nat;
  ex_body : length (body_buffer_ (handler c)) = n;
  ex_active : active_ (handler c) = true;
  ex_database : h_database_ (handler c) = true;
  ex_fetched : fetched c = f;
}.

(** A value as an [uint32_t] length field carries it. *)
Lemma le_value_length (data : list byte) :
  zlen data < 2 ^ 32 → le_value (le_bytes 4 (u32 (zlen data))) = zlen data.
Proof.
  intros H. pose proof (zlen_nonneg data). rewrite le_value_bytes4.
  rewrite !u32_small; unfold is_u32; rewrite ?u32_small; unfold is_u32; lia.
Qed.

Lemma link_header f c (data : list byte) :
  at_rest f c → (0 < length data)%nat → zlen data <= MAX_MESSAGE_SIZE →
  ∃ c', on_events (Arrive (le_bytes 4 (u32 (zlen data))) :: replicate 3 (Complete NoError)) c
      = (Val tt, c') ∧ expects f c' (length data) ∧ store c' = store c ∧ outbox c' = outbox c.
Proof.
  intros [] Hpos Hmax. set (header := le_bytes 4 (u32 (zlen data))).
  assert (length header = 4%nat) as Hlen by apply length_le_bytes.
  destruct (header_arrives (arrive header c)) as (c1 & E1 & H1).
  { done. } { cbn. rewrite ar_inbox0. cbn. lia. }
  cbn [arrive inbox disconnects handler fetched outbox store] in *. rewrite ar_inbox0, app_nil_l in *.
  assert (le_value (take 4 header) = zlen data) as Hv.
  { rewrite take_ge by lia. apply le_value_length. unfold MAX_MESSAGE_SIZE in *. lia. }
  destruct H1 as [[? _]|(A1 & P1 & N1 & I1 & B1 & O1 & S1 & F1 & W1 & D1)]; [lia|].
  assert (inbox c1 = []) as Hi.
  { apply (f_equal length) in I1. rewrite length_app, length_le_bytes, Hlen in I1.
    destruct (inbox c1); [done|]. cbn in I1. lia. }
  assert (length (body_buffer_ (handler c1)) = length data) as Hb.
  { rewrite Hi, app_nil_r in I1. unfold MAX_MESSAGE_SIZE in *.
    rewrite I1, take_ge, le_value_length in Hv by (rewrite ?length_le_bytes; lia). unfold zlen in *. lia. }
  exists c1. split; [|split; [split; congruence|by rewrite S1, O1]].
  rewrite (on_events_cons _ _ _ (arrive header c)) by done.
  change (replicate 3 ?e) with [e; e; e].
  rewrite (on_events_cons _ _ _ c1).
  2: { rewrite <- E1. cbn [on_event arrive pending]. rewrite ar_pending0.
       assert (inbox (arrive header c) = header) as -> by (cbn; by rewrite ar_inbox0).
       rewrite bool_decide_eq_true_2 by done.
       by rewrite (proj2 (Z.ltb_ge _ _)) by (cbn; unfold zlen; lia). }
  rewrite !(on_events_cons _ _ c1 c1); [done|apply body_waits; [done|]..];
    rewrite Hi, Hb; cbn; lia.
Qed.

(** The write of a response did not fetch all its bytes at its start, and has to go on. *)
Definition dangles_in f c : Prop :=
  unfetched c ≠ 0%nat ∧ ∃ i n, (f i n < n)%nat.

(** The request is answered, or its response's write dangles. *)
Lemma link_body f c (data : list byte) request :
  expects f c (length data) → carries data request → db_ok (store c) →
  ∃ c' response,
    served (contents (store c)) request response (contents (store c')) ∧
    db_ok (store c') ∧ disconnects c' = 0%nat ∧
    let ended := on_events (Arrive data :: replicate 3 (Complete NoError)) c in
    (ended = (Val tt, c') ∧ outbox c' = outbox c ++ frame (encode response) ∧ at_rest f c' ∨
     (∃ why, ended = (UB why, c')) ∧ dangles_in f c').
Proof.
  intros [] [Hdec Hmax] Hok.
  destruct (body_arrives (arrive data c)) as (c1 & E1 & H1); try done.
  { cbn. rewrite ex_inbox0. cbn. lia. }
  cbn [arrive inbox handler outbox store] in *. rewrite ex_inbox0, !app_nil_l in *.
  rewrite ex_body0 in *. rewrite firstn_all, drop_all in *.
  destruct H1 as [[[what ?] _]|(rq & rp & M & Sv & Hok1 & A1 & P1 & N1 & I1 & O1 & F1 & W1 & D1)]; [congruence|].
  rewrite Hdec in M. injection M as <-. cbn [arrive fetched writes_started disconnects] in *.
  set (bytes := frame (encode rp)) in *. set (now := fetched c (writes_started c) (length bytes)) in *.
  assert (Hrun : on_events (Arrive data :: replicate 3 (Complete NoError)) c
    = on_events [Complete NoError; Complete NoError] c1).
  { rewrite (on_events_cons _ _ _ (arrive data c)) by done.
    change (replicate 3 ?e) with [e; e; e]. apply on_events_cons.
    rewrite <- E1. cbn [on_event arrive pending]. rewrite ex_pending0.
    assert (inbox (arrive data c) = data) as -> by (cbn; by rewrite ex_inbox0).
    rewrite bool_decide_eq_true_2 by done. cbn [arrive handler]. rewrite ex_body0, firstn_all.
    by rewrite (proj2 (Z.ltb_ge _ _)) by (cbn; unfold zlen; lia). }
  destruct (decide (length bytes <= now)%nat) as [Hall|Hpart].
  - set (c2 := mkConnection (handler c1) (Some AsyncReadHeader) (disconnects c1) (inbox c1)
                 (outbox c1) (fetched c1) (writes_started c1) (store c1)).
    exists c2, rp. do 2 (split; [done|]). split; [cbn; congruence|]. left. split; [|split].
    + rewrite Hrun, (on_events_cons _ _ _ c2).
      2: { cbn [on_event]. rewrite P1. replace (length bytes - now)%nat with 0%nat by lia.
           rewrite andb_false_r. unfold response_written, read_header. connsimpl.
           rewrite (bool_decide_eq_true_2 (NoError = NoError)), A1 by done. cbn. subst c2.
           rewrite drop_0. destruct c1 as [[]]. cbn in *. by subst. }
      rewrite (on_events_cons _ _ c2 c2); [done|]. apply header_waits; [done|].
      cbn. rewrite I1. cbn. lia.
    + cbn. by rewrite O1, take_ge.
    + split; cbn; congruence.
  - exists c1, rp. do 2 (split; [done|]). split; [congruence|]. right. split.
    + destruct (on_event_dangles (Complete NoError) c1) as [why E].
      { split; [done|]. unfold unfetched. rewrite P1. lia. }
      exists why. rewrite Hrun. cbn [on_events]. unfold mbind, M_bind. by rewrite E.
    + split; [unfold unfetched; rewrite P1; lia|]. exists (writes_started c), (length bytes).
      rewrite <- ex_fetched0. fold now. lia.
Qed.
End Together.

Section Links.
Context {S T : Type} `{!Database S T} `{!DatabaseContract S T} {fetch : nat → nat → nat → nat}.
Implicit Types (c : Connection S) (cl : DatabaseClient) (sys : System S) (p : Peer S) (n : Link fetch S)
  (st : DatabaseClient * Link fetch S).

(** The client's handler is at such a write. *)
Definition dangling n : Prop :=
  ∃ i p, cs_peer (link_socket n) = Some i ∧ sys_peers (link_system n) !! i = Some p ∧
    dangles_in (fetch i) (p_conn p).

(** The client's socket at the [i]-th connection, of which [r] bytes were read. *)
Definition at_peer (i r : nat) sys : Link fetch S := mkLink sys (mkClientSocket true (Some i) r).

Definition replace_peer (i : nat) p sys : System S :=
  mkSystem (sys_server sys) (sys_acceptor_open sys) (sys_chain sys) (<[i := p]> (sys_peers sys))
    (store (p_conn p)).

Lemma replace_replace i p p' sys : replace_peer i p' (replace_peer i p sys) = replace_peer i p' sys.
Proof.
  unfold replace_peer. cbn [sys_server sys_acceptor_open sys_chain sys_peers].
  by rewrite list_insert_insert, decide_True.
Qed.

Lemma peer_events_run i p es sys r c :
  sys_peers sys !! i = Some p → on_events es (with_store (sys_store sys) (p_conn p)) = (r, c) →
  disconnects c = disconnects (p_conn p) →
  peer_events i es sys = (r, replace_peer i (mkPeer c (p_arrived p ++ arrived_by es)) sys).
Proof. intros Hi E Hd. unfold peer_events. by rewrite Hi, E, Hd, Nat.sub_diag. Qed.

Lemma at_rest_store f (s : S) c : at_rest f c → at_rest f (with_store s c).
Proof. by intros []. Qed.

Lemma sock_write_run i r p bytes sys o c :
  sys_peers sys !! i = Some p →
  on_events (Arrive bytes :: replicate 3 (Complete NoError)) (with_store (sys_store sys) (p_conn p)) = (o, c) →
  disconnects c = disconnects (p_conn p) →
  ∃ p', p_conn p' = c ∧
    sock_write bytes (at_peer i r sys) = (o, at_peer i r (replace_peer i p' sys)).
Proof.
  intros Hi E Hd. eexists (mkPeer c _). split; [done|].
  cbn [sock_write Link_socket at_peer link_socket link_system cs_open cs_peer].
  by rewrite (peer_events_run i p _ sys o c Hi E Hd).
Qed.

Lemma link_send cl i r sys p request :
  sys_peers sys !! i = Some p → at_rest (fetch i) (p_conn p) → db_ok (sys_store sys) → frameable request →
  ∃ p' response,
    served (contents (sys_store sys)) request response (contents (store (p_conn p'))) ∧
    db_ok (store (p_conn p')) ∧
    let sent := send_message request (cl, at_peer i r sys) in
    let n' := at_peer i r (replace_peer i p' sys) in
    (sent = (Val true, (cl, n')) ∧ outbox (p_conn p') = outbox (p_conn p) ++ frame (encode response) ∧
       at_rest (fetch i) (p_conn p') ∨
     (∃ why, sent = (UB why, (cl, n'))) ∧ dangles_in (fetch i) (p_conn p')).
Proof.
  intros Hi Hc Hok Hr. pose proof (frameable_carries request Hr) as [Hdec Hmax].
  assert (0 < length (encode request))%nat as Hpos.
  { pose proof (length_Message_serialize request) as H. unfold zlen, slen in H.
    unfold encode, Message_codec. lia. }
  destruct (link_header (fetch i) (with_store (sys_store sys) (p_conn p)) (encode request)
    (at_rest_store _ _ _ Hc) Hpos Hmax) as (c1 & E1 & H1 & S1 & O1).
  destruct (sock_write_run i r p _ sys _ c1 Hi E1) as (p1 & <- & W1).
  { rewrite (ex_disconnects _ _ _ H1). symmetry. apply Hc. }
  set (sys1 := replace_peer i p1 sys) in *.
  assert (sys_peers sys1 !! i = Some p1) as Hi1.
  { apply list_lookup_insert_eq. by eapply lookup_lt_Some. }
  destruct (link_body (fetch i) (p_conn p1) (encode request) request H1 (conj Hdec Hmax))
    as (c2 & response & Sv & Hok2 & D2 & Hend); [by rewrite S1|].
  cbn zeta in Hend. rewrite S1 in Sv.
  assert (Hwrite : ∀ o, on_events (Arrive (encode request) :: replicate 3 (Complete NoError)) (p_conn p1) = (o, c2) →
    ∃ p2, p_conn p2 = c2 ∧ sock_write (encode request) (at_peer i r sys1) = (o, at_peer i r (replace_peer i p2 sys))).
  { intros o E. destruct (sock_write_run i r p1 (encode request) sys1 o c2 Hi1) as (p2 & <- & W2).
    - change (sys_store sys1) with (store (p_conn p1)). by rewrite with_store_own.
    - by rewrite D2, (ex_disconnects _ _ _ H1).
    - exists p2. unfold sys1 in W2. by rewrite replace_replace in W2. }
  assert (Hsend : ∀ o n', sock_write (encode request) (at_peer i r sys1) = (o, n') →
    send_message request (cl, at_peer i r sys) =
      match o with Val _ => (Val true, (cl, n')) | Exn _ => (Val false, (cl, n')) | UB why => (UB why, (cl, n')) end).
  { intros o n' W2. unfold send_message, try_catch, on_socket, zoom, mbind, M_bind. cbn [snd].
    change (Message_serialize request) with (encode request). rewrite W1. cbn [fst snd]. rewrite W2. by destruct o. }
  destruct Hend as [(E & Ho & Hrest)|[[why E] Hd]]; destruct (Hwrite _ E) as (p2 & <- & W2);
    exists p2, response; (split; [done|]); (split; [done|]); cbn zeta; rewrite (Hsend _ _ W2).
  - left. by rewrite Ho, O1.
  - right. split; [by exists why|done].
Qed.

Lemma link_read cl i r sys p (count : nat) (bytes rest : list byte) :
  sys_peers sys !! i = Some p → drop r (outbox (p_conn p)) = bytes ++ rest → length bytes = count →
  on_socket (sock_read count) (cl, at_peer i r sys) = (Val bytes, (cl, at_peer i (r + count) sys)).
Proof.
  intros Hi Ho Hlen. unfold on_socket, zoom.
  cbn [sock_read Link_socket at_peer link_socket link_system cs_open cs_peer cs_read snd fst mbind option_bind].
  rewrite Hi. cbn [mbind option_bind]. rewrite Ho, (proj2 (Nat.leb_le _ _)) by (rewrite length_app; lia).
  by rewrite take_exact.
Qed.

Lemma link_receive cl i r sys p (response : Message) :
  sys_peers sys !! i = Some p → drop r (outbox (p_conn p)) = frame (encode response) → frameable response →
  receive_message (cl, at_peer i r sys)
  = (Val response, (cl, at_peer i (r + length (frame (encode response))) sys)).
Proof.
  intros Hi Ho [Hwf Hmax]. unfold receive_message, try_catch, mbind, M_bind.
  rewrite (link_read cl i r sys p 4 _ (encode response) Hi Ho) by apply length_le_bytes.
  rewrite le_value_length by (unfold MAX_FRAME in *; lia).
  rewrite Z.gtb_ltb, (proj2 (Z.ltb_ge _ _)) by done.
  rewrite (link_read cl i (r + 4) sys p _ (encode response) [] Hi).
  - unfold of_result. change (Message_deserialize (encode response)) with (decode (encode response)).
    rewrite decode_encode by done. rewrite length_frame. unfold zlen. by rewrite Nat2Z.id, Nat.add_assoc.
  - rewrite app_nil_r, <- drop_drop, Ho. apply drop_exact, length_le_bytes.
  - unfold zlen. lia.
Qed.

Lemma link_receive_large cl i r sys p (data : list byte) :
  sys_peers sys !! i = Some p → drop r (outbox (p_conn p)) = frame data → MAX_MESSAGE_SIZE < zlen data < 2 ^ 32 →
  ∃ what, receive_message (cl, at_peer i r sys) = (Exn what, (cl, at_peer i (r + 4) sys)).
Proof.
  intros Hi Ho [Hmin Hmax]. unfold receive_message, try_catch, mbind, M_bind.
  rewrite (link_read cl i r sys p 4 _ data Hi Ho) by apply length_le_bytes.
  rewrite le_value_length by done.
  rewrite Z.gtb_ltb, (proj2 (Z.ltb_lt _ _)) by done. by eexists.
Qed.

(** The handler's responses are well formed, and fit unless the value is too long. *)
Lemma response_frameable request type value :
  MessageType_canonical type → is_u32 (msg_id request) → slen value <= MAX_MESSAGE_SIZE - 13 →
  frameable (make_response request type value).
Proof.
  intros Ht Hid Hv. unfold slen, MAX_MESSAGE_SIZE in *. split.
  - unfold well_formed, Message_codec, Message_wf, make_response, slen, MAX_KEY_SIZE, MAX_VALUE_SIZE.
    cbn. rewrite (u32_small (Z.of_nat (String.length value))) by (unfold is_u32; lia).
    split_and!; try done; lia.
  - unfold encode, Message_codec, MAX_FRAME. rewrite length_Message_serialize. cbn. unfold slen. cbn. lia.
Qed.

(** ** Operations of a connected client *)

(** The client is connected to a handler that is at rest, and nothing is left over from earlier
    requests. *)
Definition online st : Prop :=
  connected_ st.1 = true ∧ cs_open (link_socket st.2) = true ∧ db_ok (sys_store (link_system st.2)) ∧
  ∃ i p, cs_peer (link_socket st.2) = Some i ∧ sys_peers (link_system st.2) !! i = Some p ∧
    cs_read (link_socket st.2) = length (outbox (p_conn p)) ∧ at_rest (fetch i) (p_conn p).

(** The server but for this connection and the database. *)
Definition same_server n n' : Prop :=
  sys_server (link_system n') = sys_server (link_system n) ∧
  sys_acceptor_open (link_system n') = sys_acceptor_open (link_system n) ∧
  sys_chain (link_system n') = sys_chain (link_system n) ∧
  cs_peer (link_socket n') = cs_peer (link_socket n) ∧
  length (sys_peers (link_system n')) = length (sys_peers (link_system n)) ∧
  ∀ j, cs_peer (link_socket n) ≠ Some j → sys_peers (link_system n') !! j = sys_peers (link_system n) !! j.

(** The client is connected as before. *)
Definition stays st st' : Prop := online st' ∧ same_server st.2 st'.2.

Lemma same_server_trans n1 n2 n3 : same_server n1 n2 → same_server n2 n3 → same_server n1 n3.
Proof.
  intros (A1 & A2 & A3 & A4 & A5 & A6) (B1 & B2 & B3 & B4 & B5 & B6). unfold same_server.
  split_and!; try congruence. intros j Hj. rewrite B6, A6; congruence.
Qed.

(** A call that the server's undefined behaviour ended. *)
Definition cut_off {A} (r : outcome A * (DatabaseClient * Link fetch S)) : Prop :=
  (∃ why, r.1 = UB why) ∧ dangling r.2.2.

(** What the server's database holds. *)
Definition remote st : gmap string string := contents (sys_store (link_system st.2)).

(** What the server wrote and the client has not read. *)
Definition unread n : list byte :=
  match cs_peer (link_socket n) ≫= (sys_peers (link_system n) !!.) with
  | Some p => drop (cs_read (link_socket n)) (outbox (p_conn p))
  | None => []
  end.

Definition next_id st : Z := u32 (request_id_ st.1 + 1).

Lemma next_id_range st : is_u32 (next_id st).
Proof. apply u32_range. Qed.

Lemma next_request_id_run st :
  next_request_id st = (Val (next_id st), (set_request_id (next_id st) st.1, st.2)).
Proof. by destruct st. Qed.

Lemma same_server_replace i r r' p p' sys :
  sys_peers sys !! i = Some p → same_server (at_peer i r sys) (at_peer i r' (replace_peer i p' sys)).
Proof.
  intros Hi. unfold same_server. cbn. split_and!; try done; [by rewrite length_insert|].
  intros j Hj. rewrite list_lookup_insert_ne; [done|]. congruence.
Qed.

(** A request of the client, made with the next identifier. *)
Lemma online_request st (request : Message) :
  online st → frameable request →
  ∃ response m', served (remote st) request response m' ∧
    let st1 := (set_request_id (next_id st) st.1, st.2) in
    (frameable response →
     (∃ st', send_request request st1 = (Val response, st') ∧ stays st st' ∧ remote st' = m') ∨
     cut_off (send_request request st1)) ∧
    (MAX_MESSAGE_SIZE < zlen (encode response) < 2 ^ 32 →
     (∃ what st', send_request request st1 = (Exn what, st') ∧ (is_connected st').1 = Val true ∧
        unread st'.2 = encode response) ∨
     cut_off (send_request request st1)).
Proof.
  destruct st as [cl [sys [o peer r]]].
  intros (Hconn & Ho & Hok & i & p & Hpeer & Hi & Hread & Hc) Hr. cbn in Hconn, Ho, Hok, Hpeer, Hi, Hread. subst o peer.
  set (cl' := set_request_id (next_id (cl, mkLink sys (mkClientSocket true (Some i) r))) cl).
  destruct (link_send cl' i r sys p request Hi Hc Hok Hr) as (p' & rp & Sv & Hok' & Hsent). cbn zeta in Hsent.
  exists rp, (contents (store (p_conn p'))). split; [exact Sv|]. cbn [fst snd]. fold cl'.
  change (mkLink sys (mkClientSocket true (Some i) r)) with (at_peer i r sys) in *.
  assert (Hconn' : connected_ cl' = true) by done.
  assert (Hi' : sys_peers (replace_peer i p' sys) !! i = Some p').
  { apply list_lookup_insert_eq. by eapply lookup_lt_Some. }
  assert (Hsend : send_request request (cl', at_peer i r sys) =
    (sent ← send_message request; if negb sent then throw "Failed to send message" else receive_message) (cl', at_peer i r sys)).
  { unfold send_request, is_connected, gets. unfold mbind at 1, M_bind at 1.
    cbn [sock_is_open Link_socket at_peer link_socket cs_open]. by rewrite Hconn'. }
  destruct Hsent as [(E & Hout & Hrest)|[[why E] Hd]].
  - assert (drop r (outbox (p_conn p')) = frame (encode rp)) as Hin by (rewrite Hout, Hread; apply drop_app_length).
    unfold mbind, M_bind in Hsend. rewrite E in Hsend. cbn [negb] in Hsend. split; intros Hf; left.
    + eexists. rewrite Hsend, (link_receive cl' i r _ p' rp Hi' Hin Hf). split; [done|].
      split; [split; [|by eapply same_server_replace]|done].
      split; [done|]. split; [done|]. split; [done|]. exists i, p'. do 2 (split; [done|]).
      split; [|done]. cbn. by rewrite Hout, length_app, Hread.
    + destruct (link_receive_large cl' i r _ p' _ Hi' Hin Hf) as (what & E').
      eexists what, _. rewrite Hsend, E'. split; [done|]. split.
      * unfold is_connected, gets. cbn. by rewrite Hconn.
      * unfold unread. cbn [snd at_peer link_socket link_system cs_peer cs_read mbind option_bind]. rewrite Hi'.
        rewrite <- drop_drop, Hin. apply drop_exact, length_le_bytes.
  - unfold mbind, M_bind in Hsend. rewrite E in Hsend.
    assert (cut_off (send_request request (cl', at_peer i r sys))); [|by split; right].
    rewrite Hsend. split; [by exists why|]. by exists i, p'.
Qed.

(** The requests the client builds. *)
Lemma request_frameable type id k v :
  MessageType_canonical type → is_u32 id → slen k <= MAX_KEY_SIZE →
  slen k + slen v <= MAX_MESSAGE_SIZE - 13 →
  frameable {| msg_type := type; msg_id := id; msg_key_length := u32 (slen k);
               msg_value_length := u32 (slen v); msg_key := k; msg_value := v |}.
Proof.
  intros Ht Hid Hk Hv. unfold slen, MAX_MESSAGE_SIZE, MAX_KEY_SIZE in *. split.
  - unfold well_formed, Message_codec, Message_wf, slen, MAX_KEY_SIZE, MAX_VALUE_SIZE.
    cbn. rewrite !u32_small by (unfold is_u32; lia). split_and!; try done; lia.
  - unfold encode, Message_codec, MAX_FRAME. rewrite length_Message_serialize. cbn.
    unfold slen. lia.
Qed.

(** A client operation that consumes one response. *)
Lemma client_op {A} (build : Z → Message) (finish : Message → M (DatabaseClient * Link fetch S) A) st r :
  send_request (build (next_id st)) (set_request_id (next_id st) st.1, st.2) = r →
  (id ← next_request_id; response ← send_request (build id); finish response) st
  = match r with
    | (Val response, st') => finish response st'
    | (Exn what, st') => (Exn what, st')
    | (UB why, st') => (UB why, st')
    end.
Proof. intros <-. unfold mbind, M_bind. by rewrite next_request_id_run. Qed.

Lemma client_op_cut {A} (build : Z → Message) (finish : Message → M (DatabaseClient * Link fetch S) A) st :
  cut_off (send_request (build (next_id st)) (set_request_id (next_id st) st.1, st.2)) →
  cut_off ((id ← next_request_id; response ← send_request (build id); finish response) st).
Proof.
  intros [[why E] Hd]. rewrite (client_op build finish st _ eq_refl).
  destruct (send_request _ _) as [r st']. cbn in E, Hd. subst r. split; [by exists why|done].
Qed.

(** What each operation does; shared by the theorems below and by the programs. *)
Lemma put_online st (k v : string) :
  online st → slen k <= MAX_KEY_SIZE → slen k + slen v <= MAX_MESSAGE_SIZE - 13 →
  (∃ st', client_put k v st = (Val true, st') ∧ stays st st' ∧ remote st' = <[k := v]> (remote st)) ∨
  cut_off (client_put k v st).
Proof.
  intros Hon Hk Hv.
  pose proof (request_frameable MessageType.PUT (next_id st) k v eq_refl (next_id_range st) Hk Hv) as Hf.
  destruct (online_request st _ Hon Hf) as (rp & m' & [-> ->] & Hok & _).
  destruct Hok as [(st' & E & Hon' & Hr)|Hcut].
  { apply response_frameable; [done|apply next_id_range|]. vm_compute. congruence. }
  - left. exists st'. split; [|done]. unfold client_put. by rewrite (client_op _ _ _ _ E).
  - right. by apply (client_op_cut (λ id, {| msg_id := id |})).
Qed.

Lemma get_online st (k : string) :
  online st → slen k <= MAX_KEY_SIZE →
  slen (default "" (remote st !! k)) <= MAX_MESSAGE_SIZE - 13 →
  (∃ st', client_get k st =
      (match remote st !! k with
       | Some (String c v) => Val (String c v)
       | _ => Exn "GET failed: Key not found"
       end, st') ∧ stays st st' ∧ remote st' = remote st) ∨
  cut_off (client_get k st).
Proof.
  intros Hon Hk Hv.
  assert (slen k + slen "" <= MAX_MESSAGE_SIZE - 13) as Hs.
  { unfold MAX_KEY_SIZE, MAX_MESSAGE_SIZE, slen in *. cbn. lia. }
  pose proof (request_frameable MessageType.GET (next_id st) k "" eq_refl (next_id_range st) Hk Hs) as Hf.
  destruct (online_request st _ Hon Hf) as (rp & m' & [-> Hrp] & Hok & _). cbn in Hrp.
  match type of Hf with frameable ?r => set (request := r) in * end.
  assert (Hfin : ∀ type value, rp = make_response request type value → MessageType_canonical type →
    slen value <= MAX_MESSAGE_SIZE - 13 →
    (∃ st', client_get k st =
      (if decide (type = MessageType.SUCCESS) then Val value else Exn ("GET failed: " +:+ value), st') ∧
      stays st st' ∧ remote st' = remote st) ∨ cut_off (client_get k st)).
  { intros type value -> Ht Hval. destruct Hok as [(st' & E & Hon' & Hr)|Hcut].
    { apply response_frameable; [done|apply next_id_range|done]. }
    - left. exists st'. split; [|done]. unfold client_get. subst request. rewrite (client_op _ _ _ _ E). cbn.
      by destruct (decide _).
    - right. by apply (client_op_cut (λ id, {| msg_id := id |})). }
  destruct (remote st !! k) as [[|c v]|]; cbn in Hrp, Hv.
  - by apply (Hfin _ _ Hrp); [|vm_compute; congruence].
  - by apply (Hfin _ _ Hrp).
  - by apply (Hfin _ _ Hrp); [|vm_compute; congruence].
Qed.

Lemma del_online st (k : string) :
  online st → slen k <= MAX_KEY_SIZE →
  (∃ st', client_del k st = (Val (bool_decide (is_Some (remote st !! k))), st') ∧
    stays st st' ∧ remote st' = delete k (remote st)) ∨
  cut_off (client_del k st).
Proof.
  intros Hon Hk.
  assert (slen k + slen "" <= MAX_MESSAGE_SIZE - 13) as Hs.
  { unfold MAX_KEY_SIZE, MAX_MESSAGE_SIZE, slen in *. cbn. lia. }
  pose proof (request_frameable MessageType.DELETE (next_id st) k "" eq_refl (next_id_range st) Hk Hs) as Hf.
  destruct (online_request st _ Hon Hf) as (rp & m' & Hrp & Hok & _). cbn in Hrp.
  destruct (remote st !! k) eqn:Hm; destruct Hrp as [-> ->];
    (destruct Hok as [(st' & E & Hon' & Hr)|Hcut];
      [apply response_frameable; [done|apply next_id_range|vm_compute; congruence]|
       |right; by apply (client_op_cut (λ id, {| msg_id := id |}))]);
    left; exists st'; unfold client_del; rewrite (client_op _ _ _ _ E), Hr; (split; [done|split; [done|]]).
  - done.
  - symmetry. by apply delete_id.
Qed.

Lemma scan_online st (a b : string) (limit : Z) :
  online st → slen a <= MAX_KEY_SIZE → slen a + slen b <= MAX_MESSAGE_SIZE - 13 →
  map_Forall (λ k v, quote_free k ∧ quote_free v) (remote st) →
  (∀ answer, scan_answer (remote st) a b 1000 answer →
     slen (scan_text answer) <= MAX_MESSAGE_SIZE - 13) →
  (∃ st' answer, client_scan a b limit st = (Val (take (Nat.max 1 (Z.to_nat limit)) answer), st') ∧
    scan_answer (remote st) a b 1000 answer ∧ stays st st' ∧ remote st' = remote st) ∨
  cut_off (client_scan a b limit st).
Proof.
  intros Hon Ha Hb Hq Hfit.
  pose proof (request_frameable MessageType.SCAN (next_id st) a b eq_refl (next_id_range st) Ha Hb) as Hf.
  destruct (online_request st _ Hon Hf) as (rp & m' & (-> & answer & Hans & ->) & Hok & _).
  destruct Hok as [(st' & E & Hon' & Hr)|Hcut].
  { apply response_frameable; [done|apply next_id_range|by apply Hfit]. }
  - left. exists st', answer. split; [|done]. unfold client_scan. rewrite (client_op _ _ _ _ E).
    cbn -[scan_parse scan_text decide]. rewrite decide_True by done.
    rewrite parse_text; [done|]. apply Forall_forall. intros [k v] Hin.
    by apply (map_Forall_lookup_1 _ _ _ _ Hq), (scan_answer_sound _ _ _ _ _ _ _ Hans Hin).
  - right. by apply (client_op_cut (λ id, {| msg_id := id |})).
Qed.

Lemma ping_online st :
  online st →
  (∃ st', client_ping st = (Val true, st') ∧ stays st st' ∧ remote st' = remote st) ∨ cut_off (client_ping st).
Proof.
  intros Hon.
  pose proof (request_frameable MessageType.PING (next_id st) "" "" eq_refl (next_id_range st)
    ltac:(done) ltac:(done)) as Hf.
  destruct (online_request st _ Hon Hf) as (rp & m' & [-> ->] & Hok & _).
  destruct Hok as [(st' & E & Hon' & Hr)|Hcut].
  { apply response_frameable; [done|apply next_id_range|]. vm_compute. congruence. }
  - left. exists st'. split; [|done]. unfold client_ping. by rewrite (client_op _ _ _ _ E).
  - right. by apply (client_op_cut (λ id, {| msg_id := id |})).
Qed.

(** ** Coming and going *)

(** The server can take another client: no client is at the other end of this socket, and an
    accept is under way below the limit. *)
Definition awaits n : Prop :=
  cs_open (link_socket n) = false ∧ accepting (link_system n) = true ∧
  srv_database_ (sys_server (link_system n)) = true ∧
  0 <= connection_count_ (sys_server (link_system n)) < MAX_CONNECTIONS ∧
  db_ok (sys_store (link_system n)).

(** The server with one connection more. *)
Definition with_client_count (srv : DatabaseServer) : DatabaseServer :=
  set_connection_count (u32 (connection_count_ srv + 1)) srv.

Definition admitted n : Link fetch S :=
  mkLink (accept_client fetch (link_system n)).2
    (mkClientSocket true (Some (length (sys_peers (link_system n)))) 0).

Lemma connect_admitted n host port :
  awaits n → sock_connect host port n = (Val tt, admitted n).
Proof.
  intros (_ & Ha & _ & Hc & _). cbn [sock_connect Link_socket]. rewrite Ha. unfold admitted, accept_client.
  by rewrite Z.geb_leb, (proj2 (Z.leb_gt _ _)) by lia.
Qed.

Lemma admitted_online n cl :
  awaits n → connected_ cl = true → online (cl, admitted n) ∧
  sys_server (link_system (admitted n)) = with_client_count (sys_server (link_system n)) ∧
  remote (cl, admitted n) = contents (sys_store (link_system n)).
Proof.
  intros (_ & Ha & Hd & Hc & Hok) Hcl. unfold admitted, accept_client, remote.
  rewrite Z.geb_leb, (proj2 (Z.leb_gt _ _)) by lia. cbn [link_system snd].
  split; [|done]. split; [done|]. split; [done|]. split; [done|].
  exists (length (sys_peers (link_system n))), (new_peer (with_client_count (sys_server (link_system n)))
    (fetch (length (sys_peers (link_system n)))) (sys_store (link_system n))).
  split; [done|]. split; [by apply list_lookup_middle|]. split; [done|].
  by split.
Qed.

(** The counter is exact: who comes and goes leaves it as it was. *)
Lemma count_back srv :
  0 <= connection_count_ srv < MAX_CONNECTIONS → on_client_disconnect (with_client_count srv) = srv.
Proof.
  intros Hc. unfold on_client_disconnect, with_client_count, set_connection_count. cbn.
  rewrite (u32_count (connection_count_ srv + 1)), u32_count by lia. destruct srv. cbn. f_equal. lia.
Qed.

(** The client closes its end, and its handler reports the disconnect. *)
Lemma close_online cl n :
  online (cl, n) →
  ∃ n', sock_close n = (Val tt, n') ∧ cs_open (link_socket n') = false ∧
    sys_server (link_system n') = on_client_disconnect (sys_server (link_system n)) ∧
    sys_acceptor_open (link_system n') = sys_acceptor_open (link_system n) ∧
    sys_chain (link_system n') = sys_chain (link_system n) ∧
    sys_store (link_system n') = sys_store (link_system n) ∧
    length (sys_peers (link_system n')) = length (sys_peers (link_system n)) ∧
    ∀ j, cs_peer (link_socket n) ≠ Some j → sys_peers (link_system n') !! j = sys_peers (link_system n) !! j.
Proof.
  destruct n as [sys [o peer r]]. intros (_ & _ & _ & i & p & Hpeer & Hi & _ & []). cbn in Hpeer, Hi. subst peer.
  cbn [sock_close Link_socket link_socket link_system cs_peer]. unfold peer_events. rewrite Hi.
  destruct (header_read_bad (header_buffer_ (handler (p_conn p))) (body_buffer_ (handler (p_conn p))) 0 OtherError
    (with_store (sys_store sys) (p_conn p))) as (c' & E & Hcl); [by left|].
  assert (on_events [Complete OtherError] (with_store (sys_store sys) (p_conn p)) = (Val tt, c')) as E'.
  { rewrite (on_events_cons _ _ _ c'); [done|]. rewrite <- E. cbn [on_event].
    change (pending (with_store _ _)) with (pending (p_conn p)). rewrite ar_pending0.
    by rewrite bool_decide_eq_false_2 by done. }
  assert (disconnects c' = 1%nat) as Hdis.
  { revert E. unfold header_read. connsimpl. rewrite (bool_decide_eq_false_2 (OtherError = NoError)) by done.
    connsimpl. rewrite (bool_decide_eq_true_2 (OtherError ≠ OperationAborted)) by done. cbn. intros [= <-].
    cbn. by rewrite ar_disconnects0. }
  rewrite E', Hdis, ar_disconnects0. eexists. split; [done|].
  cbn [link_socket link_system cs_open cs_peer sys_server sys_acceptor_open sys_chain sys_store sys_peers].
  split_and!; try done.
  - apply Hcl.
  - by rewrite length_insert.
  - intros j Hj. rewrite list_lookup_insert_ne; [done|congruence].
Qed.
End Links.

(** ** Theorems *)


(** The client's [put] against the server: it returns [true], and the server's contents
    have the value; the connection is ready for the next request. *)
Theorem client_put_correct {S T : Type} `{!Database S T} `{!DatabaseContract S T} {fetch : nat → nat → nat → nat}
    (st : DatabaseClient * Link fetch S) (k v : string) :
  online st → slen k <= MAX_KEY_SIZE → slen k + slen v <= MAX_MESSAGE_SIZE - 13 →
  (∃ st', client_put k v st = (Val true, st') ∧ stays st st' ∧ remote st' = <[k := v]> (remote st)) ∨
  cut_off (client_put k v st).
Proof. apply put_online. Qed.

(** C22.  The client's [get], of a key within the protocol's limit whose value, if there is one,
    fits into a message: the value that the server's contents have, if it is not empty; for
    a missing key, and for an empty value, the exception "GET failed: Key not found".  The
    connection stays ready, and the server as it was.  Or the call is cut off by the undefined
    behaviour of the server's write of the response, which did not fetch all its bytes at its
    start. *)
Theorem client_get_correct {S T : Type} `{!Database S T} `{!DatabaseContract S T} {fetch : nat → nat → nat → nat}
    (st : DatabaseClient * Link fetch S) (k : string) :
  online st → slen k <= MAX_KEY_SIZE →
  slen (default "" (remote st !! k)) <= MAX_MESSAGE_SIZE - 13 →
  (∃ st', client_get k st =
      (match remote st !! k with
       | Some (String c v) => Val (String c v)
       | _ => Exn "GET failed: Key not found"
       end, st') ∧ stays st st' ∧ remote st' = remote st) ∨
  cut_off (client_get k st).
Proof. apply get_online. Qed.

(** The client's [del]: [true] exactly when the key was there; afterwards it is not. *)
Theorem client_del_correct {S T : Type} `{!Database S T} `{!DatabaseContract S T} {fetch : nat → nat → nat → nat}
    (st : DatabaseClient * Link fetch S) (k : string) :
  online st → slen k <= MAX_KEY_SIZE →
  (∃ st', client_del k st = (Val (bool_decide (is_Some (remote st !! k))), st') ∧
    stays st st' ∧ remote st' = delete k (remote st)) ∨
  cut_off (client_del k st).
Proof. apply del_online. Qed.

(** C23.  The client's [scan], when the bounds are within the protocol's limits, the stored keys
    and values have no quotes and the text of the answer fits into a message: the pairs of a scan
    answer of the server's contents (at most 1000), cut to the client's limit; the connection
    stays ready, and the server as it was.  Or the call is cut off by the undefined behaviour of
    the server's write of the response, which did not fetch all its bytes at its start. *)
Theorem client_scan_correct {S T : Type} `{!Database S T} `{!DatabaseContract S T} {fetch : nat → nat → nat → nat}
    (st : DatabaseClient * Link fetch S) (a b : string) (limit : Z) :
  online st → slen a <= MAX_KEY_SIZE → slen a + slen b <= MAX_MESSAGE_SIZE - 13 →
  map_Forall (λ k v, quote_free k ∧ quote_free v) (remote st) →
  (∀ answer, scan_answer (remote st) a b 1000 answer →
     slen (scan_text answer) <= MAX_MESSAGE_SIZE - 13) →
  (∃ st' answer, client_scan a b limit st = (Val (take (Nat.max 1 (Z.to_nat limit)) answer), st') ∧
    scan_answer (remote st) a b 1000 answer ∧ stays st st' ∧ remote st' = remote st) ∨
  cut_off (client_scan a b limit st).
Proof. apply scan_online. Qed.

(** A response above the size limit puts the client out of step: the request fails, but
    the body of the response stays in the stream, [is_connected] still holds, and the next
    response the client reads is made of those bytes. *)
Theorem client_scan_desync {S T : Type} `{!Database S T} `{!DatabaseContract S T} {fetch : nat → nat → nat → nat}
    (st : DatabaseClient * Link fetch S) (a b : string) (limit : Z) :
  online st → slen a <= MAX_KEY_SIZE → slen a + slen b <= MAX_MESSAGE_SIZE - 13 →
  (∀ answer, scan_answer (remote st) a b 1000 answer →
     MAX_MESSAGE_SIZE - 13 < slen (scan_text answer) < 2 ^ 31) →
  (∃ what st' answer, client_scan a b limit st = (Exn what, st') ∧
    (is_connected st').1 = Val true ∧ scan_answer (remote st) a b 1000 answer ∧
    slen (scan_text answer) < zlen (unread st'.2)) ∨
  cut_off (client_scan a b limit st).
Proof.
  intros Hon Ha Hb Hbig.
  pose proof (request_frameable MessageType.SCAN (next_id st) a b eq_refl (next_id_range st) Ha Hb) as Hf.
  destruct (online_request st _ Hon Hf) as (rp & m' & (-> & answer & Hans & ->) & _ & Hlarge).
  specialize (Hbig _ Hans).
  destruct Hlarge as [(what & st' & E & Hc & Ho)|Hcut].
  { change (encode ?m) with (Message_serialize m). rewrite length_Message_serialize. cbn.
    unfold slen in *. cbn. lia. }
  - left. exists what, st', answer. split; [|split; [done|split; [done|]]].
    + unfold client_scan. by rewrite (client_op _ _ _ _ E).
    + rewrite Ho. change (encode ?m) with (Message_serialize m). rewrite length_Message_serialize. cbn.
      unfold slen. cbn. lia.
  - right. by apply (client_op_cut (λ id, {| msg_id := id |})).
Qed.

(** ** Witnesses *)

(** A server whose database is in the state [s], and a client connected to it. *)
Definition demo_server_link (fetch : nat → nat → nat → nat) (s : Process) : Link fetch Process :=
  mkLink (system_start demo_srv s) (mkClientSocket false None 0).

Definition demo_client (fetch : nat → nat → nat → nat) (s : Process) : DatabaseClient * Link fetch Process :=
  (set_connected true (DatabaseClient_new "localhost" 8080), admitted (demo_server_link fetch s)).

Lemma demo_server_awaits fetch s : db_ok s → awaits (demo_server_link fetch s).
Proof. intros Hs. by split_and!. Qed.

Lemma demo_client_online fetch s : db_ok s → online (demo_client fetch s).
Proof. intros Hs. by apply admitted_online; [apply demo_server_awaits|]. Qed.

Lemma demo_put_ok : db_ok demo_put.
Proof.
  destruct demo_put_logged as [rs H]. destruct (lg_ready _ _ H) as (p & l & Hr).
  exists p, l. eexists. exact Hr.
Qed.

(** With writes that fetch everything at their start no call is cut off. *)
Lemma eager_not_cut_off {A} (r : outcome A * (DatabaseClient * Link eager_fetch Process)) : ¬ cut_off r.
Proof. intros (_ & i & p & _ & _ & _ & j & n & Hn). unfold eager_fetch in Hn. lia. Qed.

(** With writes that fetch nothing at their start the first one is. *)
Example fetch_none_cut_off : cut_off (client_get "k" (demo_client (λ _, fetch_none) demo_put)).
Proof.
  set (r := client_get "k" (demo_client (λ _, fetch_none) demo_put)).
  assert (match r.1 with UB _ => true | _ => false end = true) as H1 by (vm_compute; reflexivity).
  assert (cs_peer (link_socket r.2.2) = Some 0%nat) as H2 by (vm_compute; reflexivity).
  assert (match sys_peers (link_system r.2.2) !! 0%nat with
          | Some p => negb (unfetched (p_conn p) =? 0)%nat | None => false end = true) as H3 by (vm_compute; reflexivity).
  clearbody r. split; [destruct r.1 as [| |why]; [discriminate..|by exists why]|]. exists 0%nat.
  destruct (sys_peers (link_system r.2.2) !! 0%nat) as [p|] eqn:Hp; [|done]. exists p. split; [done|]. split; [done|].
  split; [by apply Nat.eqb_neq, negb_true_iff|]. exists 0%nat, 1%nat. unfold fetch_none. lia.
Qed.


Lemma client_put_correct_witness :
  ∃ st', client_put "user:1" "John" (demo_client eager_fetch demo_put) = (Val true, st') ∧
    stays (demo_client eager_fetch demo_put) st' ∧
    remote st' = <["user:1" := "John"]> (remote (demo_client eager_fetch demo_put)).
Proof.
  destruct (client_put_correct (demo_client eager_fetch demo_put) "user:1" "John") as [H|H].
  - apply demo_client_online, demo_put_ok.
  - vm_compute. congruence.
  - vm_compute. congruence.
  - exact H.
  - destruct (eager_not_cut_off _ H).
Defined.

Lemma remote_demo_put fetch : remote (demo_client fetch demo_put) = {["k" := "old"]}.
Proof. vm_compute. reflexivity. Qed.

Lemma client_get_correct_witness :
  ∃ st', client_get "k" (demo_client eager_fetch demo_put) = (Val "old", st') ∧
    stays (demo_client eager_fetch demo_put) st'.
Proof.
  destruct (client_get_correct (demo_client eager_fetch demo_put) "k") as [(st' & E & Hon & _)|H].
  - apply demo_client_online, demo_put_ok.
  - vm_compute. congruence.
  - rewrite remote_demo_put. vm_compute. congruence.
  - exists st'. split; [|exact Hon]. rewrite E, remote_demo_put. reflexivity.
  - destruct (eager_not_cut_off _ H).
Defined.

Lemma client_del_correct_witness :
  ∃ st', client_del "k" (demo_client eager_fetch demo_put) = (Val true, st') ∧
    stays (demo_client eager_fetch demo_put) st'.
Proof.
  destruct (client_del_correct (demo_client eager_fetch demo_put) "k") as [(st' & E & Hon & _)|H].
  - apply demo_client_online, demo_put_ok.
  - vm_compute. congruence.
  - exists st'. split; [|exact Hon]. rewrite E, remote_demo_put. reflexivity.
  - destruct (eager_not_cut_off _ H).
Defined.

(** The only scan answer when the only key is in range. *)
Lemma scan_answer_singleton k v a b answer :
  in_range a b k = true → scan_answer {[k := v]} a b 1000 answer → answer = [(k, v)].
Proof.
  intros Hk (order & Hp & ->). rewrite map_to_list_singleton in Hp.
  apply Permutation_singleton_r in Hp as ->. rewrite filter_cons_True by done.
  rewrite filter_nil. done.
Qed.

Lemma client_scan_correct_witness :
  ∃ st', client_scan "a" "z" 10 (demo_client eager_fetch demo_put) = (Val [("k", "old")], st') ∧
    stays (demo_client eager_fetch demo_put) st'.
Proof.
  destruct (client_scan_correct (demo_client eager_fetch demo_put) "a" "z" 10) as [(st' & answer & E & Ha & Hon & _)|H].
  - apply demo_client_online, demo_put_ok.
  - vm_compute. congruence.
  - vm_compute. congruence.
  - rewrite remote_demo_put. apply map_Forall_singleton. split; repeat split; discriminate.
  - intros answer Ha. rewrite remote_demo_put in Ha.
    rewrite (scan_answer_singleton "k" "old" "a" "z" answer eq_refl Ha). vm_compute. congruence.
  - exists st'. split; [|exact Hon]. rewrite E. rewrite remote_demo_put in Ha.
    rewrite (scan_answer_singleton "k" "old" "a" "z" answer eq_refl Ha). reflexivity.
  - destruct (eager_not_cut_off _ H).
Defined.

(** The database with one value of a megabyte, put there in the server's process. *)
Lemma demo_large :
  ∃ s, db_ok (S:=Process) s ∧ contents s = {["k" := large_value]}.
Proof.
  destruct (lg_ready _ _ demo_begun_logged) as (p & l & Hr).
  assert (db_ok demo_begun) as Hok by (exists p, l; eexists; exact Hr).
  destruct (put_ok demo_begun 0%nat "k" large_value Hok (demo_txn 0%nat ltac:(lia)))
    as (s & _ & Hs & _ & Hc).
  exists s. split; [exact Hs|]. rewrite Hc.
  replace (contents demo_begun) with (∅ : gmap string string) by (vm_compute; reflexivity).
  apply insert_empty.
Qed.

Lemma client_scan_desync_witness :
  ∃ (s : Process) what st', client_scan "a" "z" 1000 (demo_client eager_fetch s) = (Exn what, st') ∧
    (is_connected st').1 = Val true ∧ unread st'.2 ≠ [].
Proof.
  destruct demo_large as (s & Hs & Hc). exists s.
  assert (remote (demo_client eager_fetch s) = {["k" := large_value]}) as Hr by exact Hc.
  destruct (client_scan_desync (demo_client eager_fetch s) "a" "z" 1000)
    as [(what & st' & answer & E & Hconn & Ha & Hlen)|H].
  - apply demo_client_online, Hs.
  - vm_compute. congruence.
  - vm_compute. congruence.
  - intros answer Ha. rewrite Hr in Ha.
    rewrite (scan_answer_singleton "k" large_value "a" "z" answer eq_refl Ha).
    rewrite scan_text_elems. cbn [scan_elems]. rewrite !slen_app, slen_large_value.
    vm_compute. split; reflexivity.
  - exists what, st'. split; [exact E|]. split; [exact Hconn|]. intros Ho. rewrite Ho in Hlen.
    unfold slen, zlen in Hlen. cbn in Hlen. lia.
  - destruct (eager_not_cut_off _ H).
Defined.
