(* ===== verification/Parallel.v ===== *)
(** * The server as one system, request by request

    [src/network/server.cpp], put together as in [System.v], but with the threads of the
    [io_context] visible: the completion handler of a body decodes the request and starts to
    process it, its calls on the database are steps of their own ([Concurrency.v]), and
    between any two of them other threads run other connections, the accept chain and
    [stop]; then the response is written. *)

From stdpp Require Import base gmap list strings relations.
From Stdlib Require Import ZArith Lia.
From Stdlib Require Import Strings.Byte.
From S2P Require Import Prelude.
From S2P Require Import Bytes.
From S2P Require Import Framing.
From S2P Require Import Protocol.
From S2P Require Import Effects.
From S2P Require Import Interface.
From S2P Require Import Database.
From S2P Require Import Server.
From S2P Require Import Concurrency.
From S2P Require Import Connection.
From S2P Require Import Acceptor.
From S2P Require Import System.

(** A connection, the bytes that arrived on it so far, and the request that a thread is
    processing for it. *)
Record Line (S T : Type) := mkLine {
  l_conn : Connection S;
  l_arrived : list byte;
  l_work : option (Progress T);
}.
Arguments mkLine {S T}.
Arguments l_conn {S T}.
Arguments l_arrived {S T}.
Arguments l_work {S T}.

Record Parallel (S T : Type) := mkParallel {
  pa_server : DatabaseServer;
  pa_acceptor_open : bool;
  pa_chain : AcceptState;
  pa_lines : list (Line S T);   (** in the order in which they were accepted *)
  pa_store : S;                 (** the database, shared *)
}.
Arguments mkParallel {S T}.
Arguments pa_server {S T}.
Arguments pa_acceptor_open {S T}.
Arguments pa_chain {S T}.
Arguments pa_lines {S T}.
Arguments pa_store {S T}.

(** The completion of [read_body], where it gets as far as [handle_request]'s call of
    [process_request_sync]: the request, and the connection at that point. *)
Definition request_arrived {S} (e : event) (c : Connection S) : option (Message * Connection S) :=
  let h := handler c in
  let n := length (body_buffer_ h) in
  match e, pending c with
  | Complete NoError, Some AsyncReadBody =>
      if (zlen (inbox c) <? Z.of_nat n) || negb (active_ h) || negb (h_database_ h) then None else
      match Message_deserialize (take n (inbox c)) with
      | Ok request => Some (request, (end_op (header_buffer_ h) (take n (inbox c)) n c).2)
      | Throw _ => None
      end
  | _, _ => None
  end.

(** What a step is: of the accept chain, the start of a connection's handler, an event of a
    connection, the arrival of a request, one call of it on the database, its response. *)
Inductive label :=
  | LAccept | LConnect | LEvent (i : nat) (e : event) | LRequest (i : nat) | LAdvance (i : nat)
  | LRespond (i : nat).

Section Steps.
Context {S T : Type} `{!Database S T}.

Definition parallel_start (srv : DatabaseServer) (s : S) : Parallel S T :=
  let a := server_start srv in mkParallel (server a) (acceptor_open a) (chain a) [] s.

Definition new_line (srv : DatabaseServer) (fetch : nat → nat → nat) (s : S) : Line S T :=
  mkLine (p_conn (new_peer srv fetch s)) [] None.

(** [fetch i] is what the writes of the [i]-th connection fetch at their start.  Nobody calls
    [ConnectionHandler::stop], so the events are [undisturbed]. *)
Inductive par_step (fetch : nat → nat → nat → nat) : label → Parallel S T → Parallel S T → Prop :=
  | par_accept srv ao ch srv' ao' ch' o ab ls s :
      accept_step (mkAcceptor srv ao ch o ab) (mkAcceptor srv' ao' ch' o ab) →
      par_step fetch LAccept (mkParallel srv ao ch ls s) (mkParallel srv' ao' ch' ls s)
  | par_connect srv ao ls s :
      par_step fetch LConnect (mkParallel srv ao Counted ls s)
        (mkParallel srv ao AcceptHandled (ls ++ [new_line srv (fetch (length ls)) s]) s)
  | par_event srv ao ch ls s i l e c' :
      ls !! i = Some l → undisturbed e → request_arrived e (with_store s (l_conn l)) = None →
      on_event e (with_store s (l_conn l)) = (Val tt, c') →
      par_step fetch (LEvent i e) (mkParallel srv ao ch ls s)
        (mkParallel (Nat.iter (disconnects c' - disconnects (l_conn l)) on_client_disconnect srv) ao ch
           (<[i := mkLine c' (l_arrived l ++ bytes_of e) (l_work l)]> ls) (store c'))
  | par_request srv ao ch ls s i l request c' :
      ls !! i = Some l → request_arrived (Complete NoError) (with_store s (l_conn l)) = Some (request, c') →
      par_step fetch (LRequest i) (mkParallel srv ao ch ls s)
        (mkParallel srv ao ch (<[i := mkLine c' (l_arrived l) (Some (Received request))]> ls) s)
  | par_advance srv ao ch ls s i l p p' s' :
      ls !! i = Some l → l_work l = Some p → (∀ request response, p ≠ Answered request response) →
      advance p s = (Val p', s') →
      par_step fetch (LAdvance i) (mkParallel srv ao ch ls s)
        (mkParallel srv ao ch (<[i := mkLine (l_conn l) (l_arrived l) (Some p')]> ls) s')
  | par_respond srv ao ch ls s i l request response c' :
      ls !! i = Some l → l_work l = Some (Answered request response) →
      write_response response (with_store s (l_conn l)) = (Val tt, c') →
      par_step fetch (LRespond i) (mkParallel srv ao ch ls s)
        (mkParallel srv ao ch (<[i := mkLine c' (l_arrived l) None]> ls) s).

Definition par_steps (fetch : nat → nat → nat → nat) (sys sys' : Parallel S T) : Prop :=
  ∃ lab, par_step fetch lab sys sys'.

(** [get_connection_count] and [get_total_requests]. *)
Definition pa_connection_count (sys : Parallel S T) : Z := connection_count_ (pa_server sys).
Definition pa_total_requests (sys : Parallel S T) : Z := total_requests_ (pa_server sys).

(** The connections, without what the threads do for them. *)
Definition peer_of (l : Line S T) : Peer S := mkPeer (l_conn l) (l_arrived l).
Definition open_lines (ls : list (Line S T)) : nat := open_peers (peer_of <$> ls).

Definition pa_acceptor (sys : Parallel S T) : Acceptor :=
  mkAcceptor (pa_server sys) (pa_acceptor_open sys) (pa_chain sys) (open_lines (pa_lines sys)) 0.

End Steps.

(** ** A connection and its request *)

Section Lines.
Context {S T : Type} `{!Database S T} `{!DatabaseContract S T}.
Implicit Types (c : Connection S) (l : Line S T) (arrived : list byte).

(** What an event leaves that brings no request. *)
Definition untouched c : S * list byte * nat := (store c, outbox c, writes_started c).

Lemma keeps_end_op header body n : keeps untouched (end_op (S:=S) header body n).
Proof. by apply keeps_modify. Qed.

Lemma keeps_error ec :
  keeps untouched ((if bool_decide (ec ≠ OperationAborted) then on_disconnect_ else mret tt) : M (Connection S) unit).
Proof. apply keeps_if; [by apply keeps_modify|apply keeps_ret]. Qed.

Lemma keeps_read_header : keeps untouched (read_header (S:=S)).
Proof.
  apply keeps_bind; [apply keeps_gets|intros a]. apply keeps_if; [apply keeps_ret|by apply keeps_modify].
Qed.

Lemma keeps_header_read ec : keeps untouched (header_read (S:=S) ec).
Proof.
  apply keeps_bind; [apply keeps_gets|intros a]. apply keeps_if; [|apply keeps_error].
  apply keeps_bind; [apply keeps_gets|intros header]. cbn zeta.
  apply keeps_if; [by apply keeps_modify|].
  apply keeps_bind; [apply keeps_gets|intros b]. apply keeps_if; [apply keeps_ret|].
  by apply keeps_bind; [apply keeps_modify|intros []; apply keeps_modify].
Qed.

Lemma keeps_response_written ec : keeps untouched (response_written (S:=S) ec).
Proof.
  apply keeps_bind; [apply keeps_gets|intros a].
  apply keeps_if; [apply keeps_read_header|apply keeps_error].
Qed.

Lemma on_event_idle e c c' :
  h_database_ (handler c) = true → request_arrived e c = None → on_event e c = (Val tt, c') →
  untouched c' = untouched c.
Proof.
  intros Hd Hr E. change c' with ((Val tt, c').2). rewrite <- E. clear E.
  destruct e as [bytes|ec|]; [done| |done]. cbn [on_event].
  destruct (pending c) as [[| |n]|] eqn:Hp; [| | |done].
  - case_bool_decide; [destruct (_ <? _); [done|]|];
      by apply (keeps_bind untouched _ _ (keeps_end_op _ _ _)); intros; apply keeps_header_read.
  - unfold request_arrived in Hr. rewrite Hp in Hr. case_bool_decide as D.
    + subst ec. destruct (_ <? _); [done|].
      destruct (active_ (handler c)) eqn:Ha.
      * rewrite Hd in Hr. cbn [orb negb] in Hr.
        destruct (Message_deserialize _) as [rq|what] eqn:Hm; [done|].
        unfold body_read. connsimpl. rewrite (bool_decide_eq_true_2 (NoError = NoError)), Ha by done.
        connsimpl. by rewrite Hm.
      * destruct (body_read_bad (header_buffer_ (handler c)) (take (length (body_buffer_ (handler c))) (inbox c))
          (length (body_buffer_ (handler c))) NoError c) as (c1 & -> & []); [by right|].
        unfold untouched. cbn. congruence.
    + destruct (body_read_bad (header_buffer_ (handler c)) (body_buffer_ (handler c)) 0 ec c)
        as (c1 & -> & []); [by left|]. unfold untouched. cbn. congruence.
  - destruct (bool_decide _ && _); [done|].
    apply (keeps_bind untouched _ _ (keeps_end_op _ _ _)). intros. apply keeps_response_written.
Qed.

(** The line while a request is processed: the request's frame is consumed, its response not
    written. *)
Record processing (es : list (Message * Message)) (request : Message) c arrived : Prop := {
  pr_between : between c;
  pr_stream : ∃ datas data, Forall2 carries datas es.*1 ∧ carries data request ∧
    arrived = concat (map frame (datas ++ [data])) ++ inbox c;
  pr_writes : writes es.*2 c;
  pr_outbox : outbox c = frames es.*2;
  pr_database : h_database_ (handler c) = true;
}.

(** [es] is what the common history has of the line: the requests that were answered on it
    and, once it has taken effect, the one that is being processed. *)
Definition line_ok (es : list (Message * Message)) l s : Prop :=
  match l_work l with
  | None => dialogue es (l_conn l) (l_arrived l) ∧ accounted (l_conn l)
  | Some p => ∃ es0, es = es0 ++ option_list (effect p) ∧
      processing es0 (request_of p) (l_conn l) (l_arrived l) ∧ progress_ok s p
  end.

Lemma line_ok_mono es l s s' :
  (∀ u, is_txn s u → is_txn s' u) → line_ok es l s → line_ok es l s'.
Proof.
  intros Hu. unfold line_ok. destruct (l_work l) as [p|]; [|done].
  intros (es0 & ? & ? & ?). exists es0. split_and!; try done. by eapply progress_ok_mono.
Qed.

Lemma line_event es l s e c' :
  db_ok s → line_ok es l s → undisturbed e → request_arrived e (with_store s (l_conn l)) = None →
  on_event e (with_store s (l_conn l)) = (Val tt, c') →
  store c' = s ∧ line_ok es (mkLine c' (l_arrived l ++ bytes_of e) (l_work l)) s.
Proof.
  intros Hs Hl He Hr E. unfold line_ok in *. cbn. destruct (l_work l) as [p|].
  - destruct Hl as (es0 & -> & [(Ha & Hp & Hd) (datas & data & H1 & H2 & H3) H4 H5 H6] & Hok).
    destruct e as [bytes|ec|]; cbn [on_event] in E; [| |done].
    + injection E as <-. split; [done|]. exists es0. split_and!; try done. split; try done.
      exists datas, data. split_and!; try done. cbn. by rewrite H3, app_assoc.
    + cbn [with_store pending] in E. rewrite Hp in E. injection E as <-. split; [done|].
      exists es0. split_and!; try done. rewrite app_nil_r. split; try done. by exists datas, data.
  - destruct Hl as [Hd Ha].
    assert (h_database_ (handler (l_conn l)) = true) as Hdb by (destruct Hd as (? & _ & _ & _ & ?); done).
    pose proof (on_event_idle e (with_store s (l_conn l)) c' Hdb Hr E) as [= Es Eo Ew].
    destruct (dialogue_step es (with_store s (l_conn l)) (l_arrived l) e Hd Hs (on_event_fetched _ _ _ E))
      as (c1 & es' & E1 & Hd' & Hx).
    rewrite E in E1. injection E1 as <-. split; [done|]. split.
    + destruct Hx as [[-> _]|(rq & rp & -> & _)]; [done|exfalso].
      destruct Hd as (? & _ & (_ & Hw & _) & _). destruct Hd' as (? & _ & (_ & Hw' & _) & _).
      rewrite Ew, Hw, fmap_app, length_app in Hw'. cbn in Hw'. lia.
    + by eapply (accounted_step e (with_store s (l_conn l))).
Qed.

(** A request arrives. *)
Lemma line_request es l s request c' :
  line_ok es l s → request_arrived (Complete NoError) (with_store s (l_conn l)) = Some (request, c') →
  l_work l = None ∧ disconnects c' = disconnects (l_conn l) ∧
  line_ok es (mkLine c' (l_arrived l) (Some (Received request))) s.
Proof.
  intros Hl E. unfold request_arrived in E. cbn [with_store handler inbox pending] in E.
  destruct (pending (l_conn l)) as [[| |]|] eqn:Hp; try done.
  destruct (Z.ltb_spec (zlen (inbox (l_conn l))) (Z.of_nat (length (body_buffer_ (handler (l_conn l)))))) as [|Hz];
    [done|]. cbn [orb] in E.
  destruct (active_ (handler (l_conn l))) eqn:Ha; [|done].
  destruct (h_database_ (handler (l_conn l))) eqn:Hdb; [|done]. cbn [orb negb] in E.
  destruct (Message_deserialize _) as [rq|] eqn:Hm; [|done]. injection E as -> <-.
  unfold line_ok in *. destruct (l_work l) as [p|].
  { destruct Hl as (_ & _ & [(_ & Hn & _) _ _ _ _] & _). congruence. }
  destruct Hl as [(datas & H1 & H3 & H4 & H6) [_ [[_ Hd]|[? _]]]]; [|congruence].
  split; [done|]. split; [done|]. cbn.
  exists es. split; [by rewrite app_nil_r|]. split; [|done].
  assert (outbox (l_conn l) = frames es.*2) as Ho.
  { apply writes_all; [done|by rewrite Hp|]. unfold unfetched. by rewrite Hp. }
  destruct H4 as [[_ H4]|[[H4|?] _]]; [|congruence..]. rewrite Hp in H4. destruct H4 as [H4 Hmax].
  assert (zlen (take (length (body_buffer_ (handler (l_conn l)))) (inbox (l_conn l)))
          = zlen (body_buffer_ (handler (l_conn l)))) as Hlen.
  { unfold zlen in *. rewrite length_take. lia. }
  split; try done; [|by destruct H3 as (? & ? & _)].
  exists datas, (take (length (body_buffer_ (handler (l_conn l)))) (inbox (l_conn l))).
  split; [done|]. split; [split; [done|by rewrite Hlen]|].
  rewrite H4, concat_frame_snoc. cbn [inbox end_op modify snd with_store].
  unfold frame. rewrite Hlen, <- !app_assoc. by rewrite take_drop.
Qed.

(** A request takes its next step. *)
Lemma line_advance es l s p p' s' :
  db_ok s → line_ok es l s → l_work l = Some p → advance p s = (Val p', s') →
  db_ok s' ∧ (∀ u, is_txn s u → is_txn s' u) ∧ step_meaning (contents s) (contents s') p p' ∧
  line_ok (es ++ new_effect p p') (mkLine (l_conn l) (l_arrived l) (Some p')) s'.
Proof.
  intros Hs Hl Hw E. unfold line_ok in *. rewrite Hw in Hl.
  destruct Hl as (es0 & -> & Hpr & Hok).
  destruct (advance_ok p s Hs Hok) as (p1 & s1 & E1 & Hs1 & Hok1 & Hu & Hm).
  rewrite E in E1. injection E1 as <- <-. do 3 (split; [done|]). cbn.
  exists es0. rewrite <- app_assoc. split; [|split; [|done]].
  - f_equal. unfold new_effect, step_meaning in *.
    destruct (effect p) as [e|], (effect p') as [e'|]; try done. by destruct Hm as [-> _].
  - replace (request_of p') with (request_of p); [done|]. symmetry. by eapply advance_request.
Qed.

(** The response is written. *)
Lemma line_respond es l s request response :
  line_ok es l s → l_work l = Some (Answered request response) →
  ∃ c', write_response response (with_store s (l_conn l)) = (Val tt, c') ∧
    disconnects c' = disconnects (l_conn l) ∧ (∃ n, pending c' = Some (AsyncWrite n)) ∧
    inbox c' = inbox (l_conn l) ∧
    line_ok es (mkLine c' (l_arrived l) None) s.
Proof.
  intros Hl Hw. unfold line_ok in *. rewrite Hw in Hl. cbn in *.
  destruct Hl as (es0 & -> & [(Ha & Hp & Hd) (datas & data & H1 & H2 & H3) H4 H5 H6] & _).
  unfold write_response. connsimpl. rewrite Ha. cbn -[Message_serialize u32 le_bytes].
  fold (frame (Message_serialize response)). change (Message_serialize response) with (encode response).
  eexists. split; [done|]. split; [done|]. split; [by eexists|]. split; [done|]. split.
  - exists (datas ++ [data]). cbn -[frame encode]. split_and!; try done.
    + rewrite fmap_app. apply Forall2_app; [done|]. by constructor.
    + rewrite fmap_app. change ([(request, response)].*2) with [response]. destruct H4 as (_ & Hst & _).
      unfold writes, unfetched. cbn [outbox fetched writes_started pending].
      rewrite written_snoc, frames_snoc, Hst, H5. split_and!; [done|rewrite length_app; cbn; lia|].
      intros _. rewrite !length_app, length_take. lia.
    + by left.
  - split; [done|]. left. by split; [eexists|].
Qed.
End Lines.

(** ** The counters *)

Section Counters.
Context {S T : Type} `{!Database S T}.
Implicit Types (c : Connection S) (l : Line S T) (sys : Parallel S T).

(** Either an operation or a request is under way, or the disconnect was reported. *)
Definition line_counted l : Prop :=
  match l_work l with None => accounted (l_conn l) | Some _ => between (l_conn l) end.

Lemma line_counted_new srv fetch (s : S) : line_counted (new_line srv fetch s).
Proof. split; [done|]. left. by split; [eexists|]. Qed.

Lemma accounted_event e c c' :
  accounted c → undisturbed e → on_event e c = (Val tt, c') →
  disconnects c' = disconnects c ∨ disconnects c = 0%nat ∧ disconnects c' = 1%nat.
Proof.
  intros Hc He E. pose proof (accounted_step e c c' Hc He E) as [_ Hc'].
  destruct Hc as [_ [[_ Hd]|[Hp Hd]]].
  - destruct Hc' as [[_ Hd']|[_ Hd']]; [left|right]; by rewrite Hd, ?Hd'.
  - left. destruct e as [bytes|ec|]; cbn [on_event] in E; [by injection E as <-| |done].
    rewrite Hp in E. by injection E as <-.
Qed.

Lemma between_event e c c' :
  between c → undisturbed e → on_event e c = (Val tt, c') →
  between c' ∧ disconnects c' = disconnects c ∧ outbox c' = outbox c ∧
  inbox c' = inbox c ++ bytes_of e.
Proof.
  intros (Ha & Hp & Hd) He E. destruct e as [bytes|ec|]; cbn [on_event] in E; [by injection E as <-| |done].
  rewrite Hp in E. injection E as <-. cbn. by rewrite app_nil_r.
Qed.

Lemma counted_event s e l c' :
  line_counted l → undisturbed e → on_event e (with_store s (l_conn l)) = (Val tt, c') →
  (disconnects c' = disconnects (l_conn l) ∨ disconnects (l_conn l) = 0%nat ∧ disconnects c' = 1%nat) ∧
  line_counted (mkLine c' (l_arrived l ++ bytes_of e) (l_work l)).
Proof.
  unfold line_counted. cbn. intros Hl He E. destruct (l_work l) as [p|].
  - destruct (between_event e (with_store s (l_conn l)) c' Hl He E) as (H & Hd & _). split; [by left|done].
  - split; [by apply (accounted_event e (with_store s (l_conn l)))|].
    by apply (accounted_step e (with_store s (l_conn l))).
Qed.

Lemma counted_request s l request c' p :
  line_counted l → request_arrived (Complete NoError) (with_store s (l_conn l)) = Some (request, c') →
  disconnects c' = disconnects (l_conn l) ∧ line_counted (mkLine c' (l_arrived l) (Some p)).
Proof.
  unfold request_arrived, line_counted. cbn [with_store handler inbox pending l_work l_conn]. intros Hl E.
  destruct (pending (l_conn l)) as [[| |]|] eqn:Hp; try done.
  destruct (_ <? _); [done|]. cbn [orb] in E.
  destruct (active_ (handler (l_conn l))) eqn:Ha; [|done].
  destruct (h_database_ (handler (l_conn l))) eqn:Hdb; [|done]. cbn [orb negb] in E.
  destruct (Message_deserialize _) as [rq|] eqn:Hm; [|done]. injection E as -> <-. split; [done|].
  split; [done|]. split; [done|]. cbn. destruct (l_work l).
  - destruct Hl as (_ & ? & _). congruence.
  - destruct Hl as [_ [[_ Hd]|[? _]]]; [done|congruence].
Qed.

Lemma counted_respond s l p response c' :
  line_counted l → l_work l = Some p → write_response response (with_store s (l_conn l)) = (Val tt, c') →
  disconnects c' = disconnects (l_conn l) ∧ line_counted (mkLine c' (l_arrived l) None).
Proof.
  unfold line_counted. intros Hl Hw. rewrite Hw in Hl. destruct Hl as (Ha & Hp & Hd).
  unfold write_response. connsimpl. rewrite Ha. cbn -[Message_serialize]. intros [= <-].
  split; [done|]. split; [done|]. left. by split; [eexists|].
Qed.

Definition lines_counted sys : Prop := Forall line_counted (pa_lines sys).

Lemma open_lines_insert (ls : list (Line S T)) i l l' :
  ls !! i = Some l →
  (open_lines (<[i := l']> ls) + Nat.b2n (unreported (peer_of l))
   = open_lines ls + Nat.b2n (unreported (peer_of l')))%nat.
Proof.
  intros Hi. unfold open_lines. rewrite list_fmap_insert. apply open_peers_insert.
  by rewrite list_lookup_fmap, Hi.
Qed.

Lemma open_lines_same (ls : list (Line S T)) i l l' :
  ls !! i = Some l → disconnects (l_conn l') = disconnects (l_conn l) →
  open_lines (<[i := l']> ls) = open_lines ls.
Proof.
  intros Hi E. pose proof (open_lines_insert ls i l l' Hi) as H. unfold unreported in H.
  cbn in H. rewrite E in H. lia.
Qed.

(** A step is a step of the chain with its counters, or none. *)
Lemma par_step_refines fetch lab sys sys' :
  lines_counted sys → par_step fetch lab sys sys' →
  rtc accept_step (pa_acceptor sys) (pa_acceptor sys') ∧ lines_counted sys'.
Proof.
  intros Hok H. unfold lines_counted, pa_acceptor in *.
  destruct H as [srv ao ch srv' ao' ch' o ab ls s H|srv ao ls s|srv ao ch ls s i l e c' Hi He Hr E
    |srv ao ch ls s i l request c' Hi E|srv ao ch ls s i l p p' s' Hi Hw Hp E
    |srv ao ch ls s i l request response c' Hi Hw E]; cbn [pa_server pa_acceptor_open pa_chain pa_lines] in *;
    try (pose proof (Forall_lookup_1 _ _ _ _ Hok Hi) as Hl).
  - split; [|done]. apply rtc_once. inversion H; subst; try lia; by constructor.
  - split; [|apply Forall_app; split; [done|constructor; [apply line_counted_new|done]]].
    unfold open_lines. rewrite fmap_app. cbn [fmap list_fmap]. rewrite open_peers_app by done.
    apply rtc_once, accept_handler.
  - destruct (counted_event s e l c' Hl He E) as [Hd Hl']. split; [|by apply Forall_insert].
    pose proof (open_lines_insert ls i l (mkLine c' (l_arrived l ++ bytes_of e) (l_work l)) Hi) as Hn.
    unfold unreported in Hn. cbn [peer_of p_conn l_conn] in Hn. destruct Hd as [Hd|[H0 H1]].
    + rewrite Hd, Nat.sub_diag. rewrite Hd in Hn. cbn [Nat.iter].
      replace (open_lines (<[_ := _]> ls)) with (open_lines ls) by lia. apply rtc_refl.
    + rewrite H0, H1 in *. change (Nat.b2n _) with 1%nat in Hn at 1.
      change (Nat.b2n _) with 0%nat in Hn. replace (open_lines ls) with
        (Datatypes.S (open_lines (<[i := mkLine c' (l_arrived l ++ bytes_of e) (l_work l)]> ls))) by lia.
      apply rtc_once, accept_disconnect.
  - destruct (counted_request s l request c' (Received request) Hl E) as [Hd Hl'].
    rewrite (open_lines_same ls i l) by done. split; [apply rtc_refl|by apply Forall_insert].
  - rewrite (open_lines_same ls i l) by done. split; [apply rtc_refl|].
    apply Forall_insert; [done|]. unfold line_counted in *. cbn. by rewrite Hw in Hl.
  - destruct (counted_respond s l _ response c' Hl Hw E) as [Hd Hl'].
    rewrite (open_lines_same ls i l) by done. split; [apply rtc_refl|by apply Forall_insert].
Qed.

Lemma par_steps_refine fetch sys sys' :
  lines_counted sys → rtc (par_steps fetch) sys sys' →
  rtc accept_step (pa_acceptor sys) (pa_acceptor sys') ∧ lines_counted sys'.
Proof.
  intros Hok H. induction H as [|sys sys1 sys' [lab H1] _ IH]; [by split; [apply rtc_refl|]|].
  destruct (par_step_refines _ _ _ _ Hok H1) as [H1' Hok1]. destruct (IH Hok1) as [IH1 IH2].
  split; [by etrans|done].
Qed.
End Counters.

(** ** The common history *)

Section History.
Context {S T : Type} `{!Database S T} `{!DatabaseContract S T}.
Implicit Types (sys : Parallel S T) (l : Line S T) (m : gmap string string)
  (h : list (nat * (Message * Message))).

(** The history so far, in the order of the effects: a sequential execution, of which every
    line has its share. *)
Record shares m h sys : Prop := {
  sh_served : served_all m h.*2.*1 h.*2.*2 (contents (pa_store sys));
  sh_ok : db_ok (pa_store sys);
  sh_lines : ∀ i l, pa_lines sys !! i = Some l → line_ok (of_peer i h) l (pa_store sys);
  sh_bound : ∀ x, x ∈ h → (x.1 < length (pa_lines sys))%nat;
  sh_set : srv_database_ (pa_server sys) = true;
}.

Lemma of_peer_new i j (es : list (Message * Message)) :
  of_peer i (pair j <$> es) = if decide (j = i) then es else [].
Proof.
  unfold of_peer. destruct (decide (j = i)) as [->|Hne].
  - induction es as [|e es IH]; [done|]. cbn [fmap list_fmap]. rewrite filter_cons_True by done. cbn. by f_equal.
  - induction es as [|e es IH]; [done|]. cbn [fmap list_fmap]. by rewrite filter_cons_False.
Qed.

Lemma of_peer_app i h h' : of_peer i (h ++ h') = of_peer i h ++ of_peer i h'.
Proof. unfold of_peer. by rewrite filter_app, fmap_app. Qed.

(** Replacing one line. *)
Lemma lines_insert (ls : list (Line S T)) s s' h es i l' :
  (i < length ls)%nat → (∀ u, is_txn s u → is_txn s' u) →
  (∀ j l, ls !! j = Some l → line_ok (of_peer j h) l s) →
  line_ok (of_peer i h ++ es) l' s' →
  ∀ j l, <[i := l']> ls !! j = Some l → line_ok (of_peer j (h ++ (pair i <$> es))) l s'.
Proof.
  intros Hi Hu H Hl' j l Hj. rewrite of_peer_app, of_peer_new.
  destruct (decide (i = j)) as [->|Hne].
  - rewrite list_lookup_insert_eq in Hj by done. by injection Hj as <-.
  - rewrite list_lookup_insert_ne in Hj by done. rewrite app_nil_r.
    eapply line_ok_mono; [exact Hu|by apply H].
Qed.

Lemma lines_insert_same (ls : list (Line S T)) s h i l' :
  (i < length ls)%nat → (∀ j l, ls !! j = Some l → line_ok (of_peer j h) l s) →
  line_ok (of_peer i h) l' s → ∀ j l, <[i := l']> ls !! j = Some l → line_ok (of_peer j h) l s.
Proof.
  intros Hi H Hl' j l Hj. pose proof (lines_insert ls s s h [] i l' Hi) as H'.
  rewrite app_nil_r in H'. cbn in H'. rewrite app_nil_r in H'. by apply H'.
Qed.

Lemma new_line_ok srv fetch s :
  srv_database_ srv = true → line_ok [] (new_line srv fetch s) s.
Proof.
  intros Hd. split; [|split; [done|left; by split; [eexists|]]].
  unfold new_line, new_peer. rewrite Hd. exists []. split_and!; try done. by left.
Qed.

Lemma served_all_new m h i p p' s s' :
  served_all m h.*2.*1 h.*2.*2 (contents s) → step_meaning (contents s) (contents s') p p' →
  let h' := h ++ (pair i <$> new_effect (T:=T) p p') in
  served_all m h'.*2.*1 h'.*2.*2 (contents s').
Proof.
  intros Hs Hm h'. unfold h', new_effect, step_meaning in *.
  destruct (effect p) as [e|], (effect p') as [[rq rp]|]; cbn [fmap list_fmap]; rewrite ?app_nil_r; try done.
  - destruct Hm as [_ ->]. done.
  - rewrite !fmap_app. by eapply served_all_snoc.
  - by rewrite Hm.
Qed.

Lemma shares_step fetch lab m h sys sys' :
  shares m h sys → par_step fetch lab sys sys' →
  ∃ es, shares m (h ++ es) sys'.
Proof.
  intros [H1 H2 H3 H4 H5] H.
  destruct H as [srv ao ch srv' ao' ch' o ab ls s H|srv ao ls s|srv ao ch ls s i l e c' Hi He Hr E
    |srv ao ch ls s i l request c' Hi E|srv ao ch ls s i l p p' s' Hi Hw Hp E
    |srv ao ch ls s i l request response c' Hi Hw E]; cbn in *;
    try (pose proof (lookup_lt_Some _ _ _ Hi) as Hlt; pose proof (H3 i l Hi) as Hl).
  - exists []. rewrite app_nil_r. split; try done. cbn. apply accept_step_database in H. cbn in H. congruence.
  - exists []. rewrite app_nil_r. split; cbn; try done.
    + intros i l Hi. apply lookup_app_Some in Hi as [Hi|[Hlen Hi]]; [by apply H3|].
      apply list_lookup_singleton_Some in Hi as [Hi <-].
      assert (i = length ls) as -> by lia.
      assert (of_peer (length ls) h = []) as ->.
      { apply of_peer_none. intros x Hx%H4. lia. }
      by apply new_line_ok.
    + intros x Hx%H4. rewrite length_app. lia.
  - exists []. rewrite app_nil_r. destruct (line_event _ l s e c' H2 Hl He Hr E) as [Es Hl'].
    split; cbn; rewrite ?Es, ?length_insert, ?iter_disconnect_database; try done.
    by apply lines_insert_same.
  - exists []. rewrite app_nil_r. destruct (line_request _ l s request c' Hl E) as (_ & _ & Hl').
    split; cbn; rewrite ?length_insert; try done. by apply lines_insert_same.
  - exists (pair i <$> new_effect p p').
    destruct (line_advance _ l s p p' s' H2 Hl Hw E) as (Hs' & Hu & Hm & Hl').
    split; cbn; rewrite ?length_insert; try done.
    + by eapply served_all_new.
    + by eapply lines_insert.
    + intros x [Hx|Hx]%elem_of_app; [by apply H4|]. apply list_elem_of_fmap in Hx as (? & -> & _). done.
  - exists []. rewrite app_nil_r.
    destruct (line_respond _ l s request response Hl Hw) as (c1 & E1 & _ & _ & _ & Hl').
    rewrite E in E1. injection E1 as <-.
    split; cbn; rewrite ?length_insert; try done. by apply lines_insert_same.
Qed.

Lemma shares_steps fetch m h sys sys' :
  shares m h sys → rtc (par_steps fetch) sys sys' →
  ∃ es, shares m (h ++ es) sys'.
Proof.
  intros H Hsteps. revert h H. induction Hsteps as [|sys sys1 sys' [lab H1] _ IH]; intros h H.
  { exists []. by rewrite app_nil_r. }
  destruct (shares_step fetch lab m h sys sys1 H H1) as [es1 Hh1].
  destruct (IH _ Hh1) as [es2 Hh2]. exists (es1 ++ es2). by rewrite app_assoc.
Qed.

Lemma shares_start m (srv : DatabaseServer) (s : S) :
  db_ok s → srv_database_ srv = true → m = contents s → shares m [] (parallel_start srv s).
Proof. intros Hs Hd ->. split; cbn; try done; [constructor|]. intros x Hx. by apply elem_of_nil in Hx. Qed.

(** The share of a line, by what was exchanged on it. *)
Lemma line_share es l s :
  line_ok es l s →
  ∃ datas es0, es = es0 ++ option_list (l_work l ≫= effect) ∧
    concat (map frame datas) `prefix_of` l_arrived l ∧
    Forall2 carries datas (es0.*1 ++ option_list (request_of <$> l_work l)) ∧
    writes es0.*2 (l_conn l).
Proof.
  unfold line_ok. destruct (l_work l) as [p|]; cbn.
  - intros (es0 & -> & [Hb (datas & data & H1 & H2 & H3) H4 _ _] & _).
    exists (datas ++ [data]), es0. split_and!; try done.
    + rewrite H3. by apply prefix_app_r.
    + apply Forall2_app; [done|]. by constructor.
  - intros [(datas & H1 & H3 & H4 & _) _]. exists datas, es. rewrite !app_nil_r. split_and!; try done.
    by apply at_stream_prefix in H4.
Qed.
End History.

(** ** Progress *)

Section Progress.
Context {S T : Type} `{!Database S T} `{!DatabaseContract S T}.
Implicit Types (c : Connection S) (l : Line S T) (sys : Parallel S T).

(** The operation under way can complete: a read has its bytes, a write has fetched its
    own. *)
Definition ready c : bool :=
  match pending c with
  | None => false
  | Some AsyncReadHeader => 4 <=? zlen (inbox c)
  | Some AsyncReadBody => zlen (body_buffer_ (handler c)) <=? zlen (inbox c)
  | Some (AsyncWrite n) => (n =? 0)%nat
  end.

(** The steps that the server takes by itself: nothing arrives, nobody connects, no error. *)
Definition internal (lab : label) sys : Prop :=
  match lab with
  | LEvent i (Complete NoError) => ∃ l, pa_lines sys !! i = Some l ∧ ready (l_conn l) = true
  | LRequest _ | LAdvance _ | LRespond _ => True
  | _ => False
  end.
Definition goes (fetch : nat → nat → nat → nat) sys sys' : Prop :=
  ∃ lab, internal lab sys ∧ par_step fetch lab sys sys'.

(** Nothing is left to do for the line: no request is processed, and the next read waits for
    bytes, or a write's buffers are gone. *)
Definition settled l : bool :=
  match l_work l with
  | Some _ => false
  | None => negb (ready (l_conn l))
  end.

(** What is left to do for a line. *)
Definition line_load l : nat :=
  40 * length (inbox (l_conn l)) +
  match l_work l with
  | Some p => 6 + match p with Received _ => 3 | Begun _ _ => 2 | Committing _ _ _ _ => 1 | Answered _ _ => 0 end
  | None => match pending (l_conn l) with Some AsyncReadBody => 10 | Some (AsyncWrite _) => 5 | _ => 0 end
  end.
Definition system_load sys : nat := sum_list_with line_load (pa_lines sys).

Lemma keeps_inbox_header_read ec : keeps inbox (header_read (S:=S) ec).
Proof.
  apply keeps_bind; [apply keeps_gets|intros a]. apply keeps_if.
  - apply keeps_bind; [apply keeps_gets|intros header]. cbn zeta.
    apply keeps_if; [by apply keeps_modify|].
    apply keeps_bind; [apply keeps_gets|intros b]. apply keeps_if; [apply keeps_ret|].
    by apply keeps_bind; [apply keeps_modify|intros []; apply keeps_modify].
  - apply keeps_if; [by apply keeps_modify|apply keeps_ret].
Qed.

Lemma header_read_inbox ec c : inbox (header_read ec c).2 = inbox c.
Proof. apply keeps_inbox_header_read. Qed.

Lemma response_written_good c :
  active_ (handler c) = true →
  ∃ c', response_written NoError c = (Val tt, c') ∧ inbox c' = inbox c ∧ pending c' = Some AsyncReadHeader ∧
    disconnects c' = disconnects c.
Proof.
  intros Ha. unfold response_written, read_header. connsimpl.
  rewrite (bool_decide_eq_true_2 (NoError = NoError)), Ha by done. cbn [andb]. rewrite ?Ha.
  eexists. split; [reflexivity|done].
Qed.

Lemma header_read_pending c c' :
  pending c = None → header_read NoError c = (Val tt, c') →
  pending c' = None ∨ pending c' = Some AsyncReadBody.
Proof.
  intros Hp. unfold header_read, read_body. connsimpl.
  destruct (bool_decide _ && _); connsimpl; [|case_bool_decide; intros [= <-]; by left].
  destruct (_ >? _); connsimpl; [intros [= <-]; by left|].
  destruct (negb _); connsimpl; intros [= <-]; [by left|by right].
Qed.

(** A completion brings the line forward. *)
Lemma event_load es l s c' :
  line_ok es l s → ready (l_conn l) = true →
  request_arrived (Complete NoError) (with_store s (l_conn l)) = None →
  on_event (Complete NoError) (with_store s (l_conn l)) = (Val tt, c') →
  (line_load (mkLine c' (l_arrived l ++ []) (l_work l)) < line_load l)%nat.
Proof.
  unfold line_ok, ready, line_load. intros Hl Hr Hn E. cbn [l_work l_conn].
  destruct (l_work l) as [p|].
  { destruct Hl as (_ & _ & [(_ & Hp & _) _ _ _ _] & _). by rewrite Hp in Hr. }
  destruct Hl as [(datas & _ & _ & Hst & Hdb) [Ha _]]. cbn [on_event] in E.
  cbn [with_store pending inbox handler] in E. unfold request_arrived in Hn. cbn [with_store pending inbox handler] in Hn.
  destruct (pending (l_conn l)) as [[| |n]|] eqn:Hp; [| | |done].
  - rewrite bool_decide_eq_true_2 in E by done. apply Z.leb_le in Hr.
    destruct (Z.ltb_spec (zlen (inbox (l_conn l))) 4) as [|Hz]; [lia|].
    unfold mbind, M_bind in E. cbn [end_op modify] in E.
    pose proof (header_read_inbox NoError (end_op (take 4 (inbox (l_conn l))) (body_buffer_ (handler (l_conn l))) 4 (with_store s (l_conn l))).2) as Hi.
    cbn [end_op modify snd] in Hi. rewrite E in Hi. cbn [snd inbox with_store] in Hi.
    apply header_read_pending in E; [|done]. rewrite Hi, length_drop. unfold zlen in *.
    destruct E as [-> | ->]; lia.
  - rewrite bool_decide_eq_true_2 in E by done. apply Z.leb_le in Hr. unfold zlen in *.
    rewrite Ha, Hdb in Hn.
    destruct (Z.ltb_spec (Z.of_nat (length (inbox (l_conn l)))) (Z.of_nat (length (body_buffer_ (handler (l_conn l)))))) as [|Hz]; [lia|].
    cbn [orb negb] in Hn. destruct (Message_deserialize _) as [rq|what] eqn:Hm; [done|].
    unfold body_read in E. connsimpl. rewrite (bool_decide_eq_true_2 (NoError = NoError)), Ha in E by done.
    connsimpl. rewrite Hm in E. connsimpl. injection E as <-. cbn. rewrite length_drop. lia.
  - apply Nat.eqb_eq in Hr as ->.
    rewrite andb_false_r in E. unfold mbind, M_bind in E. cbn [end_op modify] in E.
    destruct (response_written_good (end_op (header_buffer_ (handler (l_conn l))) (body_buffer_ (handler (l_conn l))) 0
      (with_store s (l_conn l))).2 Ha) as (c1 & E1 & I1 & P1 & _).
    cbn [end_op modify snd] in E1. rewrite E in E1. injection E1 as <-.
    rewrite I1, P1. cbn [end_op modify snd inbox with_store]. rewrite drop_0. lia.
Qed.

Definition calls_left (p : Progress T) : nat :=
  match p with Received _ => 3 | Begun _ _ => 2 | Committing _ _ _ _ => 1 | Answered _ _ => 0 end.

Lemma advance_calls_left (p p' : Progress T) (s s' : S) :
  (∀ request response, p ≠ Answered request response) → advance p s = (Val p', s') →
  (calls_left p' < calls_left p)%nat.
Proof.
  intros Hp. unfold advance, answer, try_catch, mbind, M_bind, mret, M_ret.
  destruct p as [rq|rq t|rq t ty v|rq rp]; [| | |by edestruct Hp];
    repeat (case_match; simplify_eq/=; try done); intros; simplify_eq/=; lia.
Qed.

Lemma request_load es l s request c' :
  line_ok es l s → request_arrived (Complete NoError) (with_store s (l_conn l)) = Some (request, c') →
  (line_load (mkLine c' (l_arrived l) (Some (Received request))) < line_load l)%nat.
Proof.
  intros Hl E. destruct (line_request es l s request c' Hl E) as (Hw & _ & _).
  unfold line_load. cbn [l_work l_conn]. rewrite Hw. unfold request_arrived in E.
  cbn [with_store handler inbox pending] in E.
  destruct (pending (l_conn l)) as [[| |]|]; try done.
  destruct (_ || _); [done|]. destruct (Message_deserialize _); [|done]. injection E as _ <-.
  cbn [end_op modify snd inbox with_store]. rewrite length_drop. lia.
Qed.

Lemma sum_insert_lt (ls : list (Line S T)) i l l' :
  ls !! i = Some l → (line_load l' < line_load l)%nat →
  (sum_list_with line_load (<[i := l']> ls) < sum_list_with line_load ls)%nat.
Proof. intros Hi Hlt. pose proof (sum_list_with_insert line_load ls i l l' Hi). lia. Qed.

Lemma goes_load fetch m h sys sys' :
  shares m h sys → goes fetch sys sys' → (system_load sys' < system_load sys)%nat.
Proof.
  intros [_ Hs Hls _ _] (lab & Hi & H). unfold system_load.
  destruct H as [| |srv ao ch ls s i l e c' Hil He Hr E
    |srv ao ch ls s i l request c' Hil E|srv ao ch ls s i l p p' s' Hil Hw Hp E
    |srv ao ch ls s i l request response c' Hil Hw E]; cbn in *; try done;
    apply (sum_insert_lt _ _ _ _ Hil); pose proof (Hls i l Hil) as Hl.
  - destruct e as [|[]|]; try done. destruct Hi as (l1 & Hl1 & Hready).
    rewrite Hil in Hl1. injection Hl1 as <-. by apply (event_load (of_peer i h) l s c').
  - by apply (request_load (of_peer i h) l s).
  - apply advance_calls_left in E; [|done]. unfold line_load. cbn [l_conn l_work]. rewrite Hw.
    unfold calls_left in E. destruct p, p'; lia.
  - destruct (line_respond _ l s request response Hl Hw) as (c1 & E1 & _ & [n Hp] & Hin & _).
    rewrite E in E1. injection E1 as <-. unfold line_load. cbn [l_conn l_work].
    rewrite Hw, Hp, Hin. lia.
Qed.

Lemma goes_steps fetch sys sys' : rtc (goes fetch) sys sys' → rtc (par_steps fetch) sys sys'.
Proof.
  induction 1 as [|sys1 sys2 sys3 (lab & _ & H) _ IH]; [done|]. eapply rtc_l; [by exists lab|done].
Qed.

Lemma goes_bounded fetch m h n sys sys' :
  shares m h sys → nsteps (goes fetch) n sys sys' →
  (n + system_load sys' <= system_load sys)%nat.
Proof.
  intros H Hst. revert h H. induction Hst as [|n sys1 sys2 sys3 H1 _ IH]; intros h H; [lia|].
  pose proof (goes_load _ _ _ _ _ H H1). destruct H1 as (lab & _ & H1).
  destruct (shares_step fetch lab m h sys1 sys2 H H1) as [es H2].
  specialize (IH _ H2). lia.
Qed.

Lemma ready_fetched s c e : ready c = true → ¬ dangles e (with_store s c).
Proof.
  unfold ready. intros Hr [_ Hu]. unfold unfetched in Hu. cbn [with_store pending] in Hu.
  destruct (pending c) as [[| |n]|]; try done. by apply Nat.eqb_eq in Hr.
Qed.

(** A line with something left to do has a step. *)
Lemma line_goes fetch m h sys i l :
  shares m h sys → pa_lines sys !! i = Some l → settled l = false → ∃ sys', goes fetch sys sys'.
Proof.
  intros [_ Hs Hls _ _] Hi Hn. specialize (Hls i l Hi). destruct sys as [srv ao ch ls s]. cbn in *.
  unfold settled in Hn. destruct (l_work l) as [p|] eqn:Hw.
  - assert ((∃ request response, p = Answered request response) ∨ ∀ request response, p ≠ Answered request response)
      as [(request & response & ->)|Hp] by (destruct p; eauto).
    + destruct (line_respond _ l s request response Hls Hw) as (c' & E & _).
      eexists (mkParallel _ _ _ _ _), (LRespond i). split; [done|]. by eapply par_respond.
    + unfold line_ok in Hls. rewrite Hw in Hls. destruct Hls as (es0 & _ & _ & Hok).
      destruct (advance_ok p s Hs Hok) as (p' & s' & E & _).
      eexists (mkParallel _ _ _ _ _), (LAdvance i). split; [done|]. by eapply par_advance.
  - apply negb_false_iff in Hn.
    destruct (request_arrived (Complete NoError) (with_store s (l_conn l))) as [[request c']|] eqn:Hr.
    + eexists (mkParallel _ _ _ _ _), (LRequest i). split; [done|]. by eapply par_request.
    + unfold line_ok in Hls. rewrite Hw in Hls. destruct Hls as [Hd _].
      destruct (dialogue_step _ (with_store s (l_conn l)) (l_arrived l) (Complete NoError) Hd Hs) as (c' & es' & E & _).
      { by apply ready_fetched. }
      eexists (mkParallel _ _ _ _ _), (LEvent i (Complete NoError)). split; [by exists l|].
      by eapply par_event.
Qed.

Lemma goes_or_settled fetch m h sys :
  shares m h sys → (∃ sys', goes fetch sys sys') ∨ Forall (λ l, settled l = true) (pa_lines sys).
Proof.
  intros H. destruct (decide (Forall (λ l, settled l = true) (pa_lines sys))) as [|D]; [by right|left].
  apply not_Forall_Exists in D; [|apply _]. apply Exists_exists in D as (l & Hl & Hn).
  apply list_elem_of_lookup in Hl as [i Hi]. apply not_true_is_false in Hn. by eapply line_goes.
Qed.

Lemma settled_stuck fetch m h sys sys' :
  shares m h sys → Forall (λ l, settled l = true) (pa_lines sys) → ¬ goes fetch sys sys'.
Proof.
  intros [_ _ Hls _ _] Hall (lab & Hint & H).
  assert (∀ i l, pa_lines sys !! i = Some l → l_work l = None ∧ ready (l_conn l) = false) as Hidle.
  { intros i l Hi. pose proof (Forall_lookup_1 _ _ _ _ Hall Hi) as Hl. cbn in Hl. unfold settled in Hl.
    destruct (l_work l); [done|]. split; [done|]. by apply negb_true_iff. }
  destruct H as [| |srv ao ch ls s i l e c' Hil He Hr E
    |srv ao ch ls s i l request c' Hil E|srv ao ch ls s i l p p' s' Hil Hw Hp E
    |srv ao ch ls s i l request response c' Hil Hw E]; cbn in *; try done;
    destruct (Hidle i l Hil) as [Hw' Hr']; try congruence.
  - destruct e as [|[]|]; try done. destruct Hint as (l1 & Hl1 & Hready). congruence.
  - unfold request_arrived, ready in *. cbn [with_store handler inbox pending] in E.
    destruct (pending (l_conn l)) as [[| |n]|]; try done.
    apply Z.leb_gt in Hr'. unfold zlen in *. by rewrite (proj2 (Z.ltb_lt _ _)) in E by lia.
Qed.

Lemma goes_settle fetch m n h sys :
  (system_load sys <= n)%nat → shares m h sys →
  ∃ sys', rtc (goes fetch) sys sys' ∧ Forall (λ l, settled l = true) (pa_lines sys').
Proof.
  revert sys h. induction n as [|n IH]; intros sys h Hn H;
    (destruct (goes_or_settled fetch m h sys H) as [[sys1 H1]|Ha]; [|by exists sys]);
    pose proof (goes_load _ _ _ _ _ H H1); [lia|].
  pose proof H1 as (lab & _ & H1'). destruct (shares_step fetch lab m h sys sys1 H H1') as [es H2].
  destruct (IH sys1 _ ltac:(lia) H2) as (sys' & Hst & Ha). exists sys'. split; [by eapply rtc_l|done].
Qed.
End Progress.

(** ** Streams of well-formed requests *)

Section Streams.
Context {S T : Type} `{!Database S T} `{!DatabaseContract S T}.
Implicit Types (c : Connection S) (l : Line S T) (sys : Parallel S T) (requests : list Message).

Lemma header_inj a b (x y : list byte) :
  0 <= a <= MAX_MESSAGE_SIZE → 0 <= b <= MAX_MESSAGE_SIZE →
  le_bytes 4 (u32 a) ++ x = le_bytes 4 (u32 b) ++ y → a = b ∧ x = y.
Proof.
  intros Ha Hb E. apply app_inj_1 in E as [E ->]; [|by rewrite !length_le_bytes].
  split; [|done]. apply (f_equal le_value) in E. unfold MAX_MESSAGE_SIZE in *.
  rewrite !u32_small in E by (unfold is_u32; lia).
  rewrite !le_value_bytes4, !u32_small in E by (unfold is_u32; lia). done.
Qed.

Lemma frame_inj (data data' : list byte) x y :
  zlen data <= MAX_MESSAGE_SIZE → zlen data' <= MAX_MESSAGE_SIZE →
  frame data ++ x = frame data' ++ y → data = data' ∧ x = y.
Proof.
  intros Hd Hd'. unfold frame. rewrite <- !app_assoc. intros E.
  apply header_inj in E as [El E]; [|split; [apply zlen_nonneg|done]..].
  apply app_inj_1 in E as [-> ->]; [done|]. unfold zlen in El. lia.
Qed.

(** The requests that were consumed are the first of the stream. *)
Lemma frames_split (datas : list (list byte)) rs requests rest :
  Forall frameable requests → Forall2 carries datas rs →
  frames requests = concat (map frame datas) ++ rest →
  ∃ rs', requests = rs ++ rs' ∧ rest = frames rs'.
Proof.
  intros Hf H. revert requests Hf. induction H as [|data r datas rs [Hd Hm] _ IH]; intros requests Hf E.
  - by exists requests.
  - cbn [map concat] in E. destruct Hf as [|r' requests Hr' Hf].
    { apply (f_equal length) in E. rewrite frames_nil, !length_app, length_frame in E. cbn in E. lia. }
    rewrite frames_cons, <- app_assoc in E. destruct (frameable_carries r' Hr') as [Hd' Hm'].
    apply frame_inj in E as [<- E]; [|done..]. rewrite Hd in Hd'. injection Hd' as <-.
    destruct (IH requests Hf E) as (rs' & -> & ->). by exists rs'.
Qed.

(** The stream of a line is whole well-formed requests, and it is connected. *)
Definition healthy_line requests l : Prop :=
  l_arrived l = frames requests ∧ disconnects (l_conn l) = 0%nat.

(** The requests that were answered are the first of the stream. *)
Lemma healthy_prefix es l s requests :
  line_ok es l s → l_work l = None → Forall frameable requests → healthy_line requests l →
  es.*1 `prefix_of` requests ∧ writes es.*2 (l_conn l).
Proof.
  unfold line_ok. intros Hl Hw Hf [Harr _]. rewrite Hw in Hl.
  destruct Hl as [(datas & H1 & H3 & H4 & _) _]. split; [|done].
  apply at_stream_prefix in H4 as [rest E]. rewrite Harr in E.
  destruct (frames_split datas es.*1 requests rest Hf H1 E) as (rs' & -> & _). by apply prefix_app_r.
Qed.

(** A settled line has answered all of them, unless a write's buffers are gone. *)
Lemma settled_answered es l s requests :
  line_ok es l s → settled l = true → Forall frameable requests → healthy_line requests l →
  unfetched (l_conn l) = 0%nat → es.*1 = requests ∧ outbox (l_conn l) = frames es.*2.
Proof.
  unfold line_ok, settled, ready, unfetched. intros Hl Hs Hf [Harr Hdis] Hu. destruct (l_work l); [done|].
  destruct Hl as [(datas & H1 & H3 & H4 & _) [Ha Hacc]]. apply negb_true_iff in Hs.
  destruct Hacc as [[[op Hp] _]|[_ ?]]; [|congruence].
  split; [|by apply writes_all; [|rewrite Hp|unfold unfetched]]. rewrite Hp in Hs, Hu.
  destruct H4 as [[_ H4]|[[?|?] _]]; [|congruence..]. rewrite Hp in H4.
  rewrite Harr in H4. destruct op as [| |n]; [| |by subst n].
  - destruct (frames_split datas es.*1 requests (inbox (l_conn l)) Hf H1 H4) as (rs' & -> & E).
    destruct rs' as [|r rs']; [by rewrite app_nil_r|exfalso].
    apply (f_equal length) in E. rewrite frames_cons, length_app, length_frame in E.
    apply Z.leb_gt in Hs. unfold zlen in Hs. lia.
  - destruct H4 as [H4 Hmax]. destruct (frames_split datas es.*1 requests _ Hf H1 H4) as (rs' & -> & E).
    destruct rs' as [|r rs']; [exfalso|exfalso].
    + rewrite frames_nil in E. apply (f_equal length) in E. rewrite length_app, length_le_bytes in E. cbn in E. lia.
    + rewrite frames_cons in E. unfold frame in E. rewrite <- app_assoc in E.
      apply Forall_app in Hf as [_ Hf]. apply Forall_cons in Hf as [Hr _].
      destruct (frameable_carries r Hr) as [_ Hm].
      apply header_inj in E as [El E]; [|split; [apply zlen_nonneg|done]..].
      apply Z.leb_gt in Hs. rewrite E, zlen_app in Hs. pose proof (zlen_nonneg (frames rs')). lia.
Qed.

(** Its stream is well-formed requests, of which the rest may still come. *)
Definition steady_line requests l : Prop :=
  l_arrived l `prefix_of` frames requests ∧ disconnects (l_conn l) = 0%nat.

Lemma healthy_steady requests l : healthy_line requests l → steady_line requests l.
Proof. intros [E ?]. split; [by rewrite E|done]. Qed.

(** The body that is read is a request of the stream. *)
Lemma steady_body es l s requests :
  line_ok es l s → Forall frameable requests → steady_line requests l → l_work l = None →
  pending (l_conn l) = Some AsyncReadBody → ready (l_conn l) = true →
  ∃ request c', request_arrived (Complete NoError) (with_store s (l_conn l)) = Some (request, c').
Proof.
  unfold line_ok, ready. intros Hl Hf [[more Harr] Hdis] Hw Hp Hr. rewrite Hw in Hl. rewrite Hp in Hr.
  destruct Hl as [(datas & H1 & _ & H4 & Hdb) [Ha _]]. apply Z.leb_le in Hr.
  destruct H4 as [[_ H4]|[[?|?] _]]; [|congruence..]. rewrite Hp in H4.
  destruct H4 as [H4 Hmax]. rewrite H4, <- !app_assoc in Harr.
  destruct (frames_split datas es.*1 requests _ Hf H1 Harr) as (rs' & -> & E).
  destruct rs' as [|r rs'].
  { rewrite frames_nil in E. apply (f_equal length) in E. rewrite length_app, length_le_bytes in E. cbn in E. lia. }
  rewrite frames_cons in E. unfold frame in E. rewrite <- app_assoc in E.
  apply Forall_app in Hf as [_ Hf]. apply Forall_cons in Hf as [Hfr _].
  destruct (frameable_carries r Hfr) as [Hd Hm].
  apply header_inj in E as [El E]; [|split; [apply zlen_nonneg|done]..].
  unfold request_arrived. cbn [with_store handler inbox pending]. rewrite Hp, Ha, Hdb.
  rewrite (proj2 (Z.ltb_ge _ _)) by (unfold zlen in *; lia). cbn [orb negb].
  rewrite <- (take_app_le (inbox (l_conn l)) more) by (unfold zlen in *; lia).
  rewrite E, take_exact by (unfold zlen in El; lia). change (Message_serialize r) with (encode r).
  rewrite Hd. by eexists _, _.
Qed.

Lemma steady_event es l s requests c' :
  line_ok es l s → Forall frameable requests → steady_line requests l → ready (l_conn l) = true →
  request_arrived (Complete NoError) (with_store s (l_conn l)) = None →
  on_event (Complete NoError) (with_store s (l_conn l)) = (Val tt, c') →
  disconnects c' = disconnects (l_conn l).
Proof.
  intros Hl Hf Hh Hr Hn E. destruct (l_work l) as [p|] eqn:Hw.
  { unfold line_ok in Hl. rewrite Hw in Hl. destruct Hl as (_ & _ & [(_ & Hp & _) _ _ _ _] & _).
    unfold ready in Hr. by rewrite Hp in Hr. }
  pose proof Hl as Hl'. unfold line_ok in Hl'. rewrite Hw in Hl'.
  destruct Hl' as [(datas & H1 & _ & H4 & Hdb) [Ha _]]. cbn [on_event] in E.
  cbn [with_store pending inbox handler] in E. pose proof Hr as Hr'. unfold ready in Hr'.
  destruct (pending (l_conn l)) as [[| |n]|] eqn:Hp; [| | |done].
  - rewrite bool_decide_eq_true_2 in E by done. apply Z.leb_le in Hr'.
    destruct (Z.ltb_spec (zlen (inbox (l_conn l))) 4) as [|Hz]; [lia|].
    destruct H4 as [[_ H4]|[[?|?] _]]; [|congruence..]. rewrite Hp in H4.
    destruct Hh as [[more Harr] Hdis]. rewrite H4, <- app_assoc in Harr.
    destruct (frames_split datas es.*1 requests _ Hf H1 Harr) as (rs' & -> & Ei).
    destruct (header_arrives (with_store s (l_conn l)) Ha) as (c1 & E1 & [[Hbig _]|(_ & _ & Hd & _)]).
    { cbn. unfold zlen in Hz. lia. }
    + exfalso. cbn [with_store inbox] in Hbig.
      rewrite <- (take_app_le (inbox (l_conn l)) more), Ei in Hbig by (unfold zlen in *; lia).
      destruct rs' as [|r rs'].
      { apply (f_equal length) in Ei. rewrite frames_nil, length_app in Ei. unfold zlen in Hz. cbn in Ei. lia. }
      apply Forall_app in Hf as [_ Hf]. apply Forall_cons in Hf as [Hfr _].
      destruct (frameable_carries r Hfr) as [_ Hm].
      rewrite frames_cons, frame_header in Hbig by done. lia.
    + cbn [with_store inbox handler] in E1. rewrite E in E1. by injection E1 as <-.
  - destruct (steady_body es l s requests Hl Hf Hh Hw Hp Hr) as (request & c1 & E1). congruence.
  - apply Nat.eqb_eq in Hr' as ->.
    rewrite andb_false_r in E. unfold mbind, M_bind in E. cbn [end_op modify] in E.
    destruct (response_written_good (end_op (header_buffer_ (handler (l_conn l))) (body_buffer_ (handler (l_conn l))) 0
      (with_store s (l_conn l))).2 Ha) as (c1 & E1 & _ & _ & D1).
    cbn [end_op modify snd] in E1. rewrite E in E1. injection E1 as <-. by rewrite D1.
Qed.

(** The server by itself keeps a line of well-formed requests. *)
Lemma goes_steady fetch m h sys sys' i l requests :
  shares m h sys → goes fetch sys sys' → pa_lines sys !! i = Some l →
  Forall frameable requests → steady_line requests l →
  ∃ l', pa_lines sys' !! i = Some l' ∧ l_arrived l' = l_arrived l ∧ disconnects (l_conn l') = 0%nat.
Proof.
  intros [_ Hs Hls _ _] (lab & Hint & H) Hi Hf Hh.
  assert (∀ (ls : list (Line S T)) j l1 l2, ls !! i = Some l → ls !! j = Some l1 →
    (j = i → l_arrived l2 = l_arrived l ∧ disconnects (l_conn l2) = 0%nat) →
    ∃ l', <[j := l2]> ls !! i = Some l' ∧ l_arrived l' = l_arrived l ∧ disconnects (l_conn l') = 0%nat) as Hins.
  { intros ls j l1 l2 Hli Hj H2. destruct (decide (j = i)) as [->|Hne].
    - exists l2. split; [|by apply H2]. apply list_lookup_insert_eq. by eapply lookup_lt_Some.
    - exists l. split; [by rewrite list_lookup_insert_ne|]. split; [done|apply Hh]. }
  destruct H as [| |srv ao ch ls s j l1 e c' Hj He Hr E
    |srv ao ch ls s j l1 request c' Hj E|srv ao ch ls s j l1 p p' s' Hj Hw Hp E
    |srv ao ch ls s j l1 request response c' Hj Hw E]; cbn in *; try done;
    eapply Hins; try done; intros ->; rewrite Hi in Hj; injection Hj as <-; specialize (Hls i l Hi).
  - destruct e as [|[]|]; try done. destruct Hint as (l1 & Hl1 & Hready).
    rewrite Hi in Hl1. injection Hl1 as <-. split; cbn; rewrite ?app_nil_r; [done|].
    rewrite (steady_event _ l s requests c' Hls Hf Hh Hready Hr E). apply Hh.
  - destruct (line_request _ l s request c' Hls E) as (_ & Hd & _).
    split; cbn; [done|]. rewrite Hd. apply Hh.
  - split; [done|apply Hh].
  - destruct (line_respond _ l s request response Hls Hw) as (c1 & E1 & Hd & _).
    rewrite E in E1. injection E1 as <-. split; cbn; [done|]. rewrite Hd. apply Hh.
Qed.

Lemma goes_many_steady fetch m h sys sys' i l requests :
  shares m h sys → rtc (goes fetch) sys sys' →
  pa_lines sys !! i = Some l → Forall frameable requests → steady_line requests l →
  ∃ l', pa_lines sys' !! i = Some l' ∧ l_arrived l' = l_arrived l ∧ disconnects (l_conn l') = 0%nat.
Proof.
  intros H Hst. revert h l H. induction Hst as [|sys1 sys2 sys3 H1 _ IH]; intros h l H Hi Hrs Hh.
  { exists l. split; [done|]. split; [done|apply Hh]. }
  destruct (goes_steady _ _ _ _ _ _ _ _ H H1 Hi Hrs Hh) as (l2 & Hl2 & Ha2 & Hd2).
  destruct H1 as (lab & _ & H1). destruct (shares_step fetch lab m h sys1 sys2 H H1) as [es H2].
  destruct (IH _ l2 H2 Hl2 Hrs) as (l' & Hl' & Ha' & Hd'); [split; [rewrite Ha2; apply Hh|done]|].
  exists l'. by rewrite Ha'.
Qed.

Lemma goes_many_healthy fetch m h sys sys' i l requests :
  shares m h sys → rtc (goes fetch) sys sys' →
  pa_lines sys !! i = Some l → Forall frameable requests → healthy_line requests l →
  ∃ l', pa_lines sys' !! i = Some l' ∧ healthy_line requests l'.
Proof.
  intros H Hst Hi Hrs Hh.
  destruct (goes_many_steady fetch _ _ _ _ _ _ _ H Hst Hi Hrs (healthy_steady _ _ Hh)) as (l' & Hl' & E & Hd).
  exists l'. split; [done|]. split; [rewrite E; apply Hh|done].
Qed.
End Streams.

(** ** Clients that hang up *)

Section HangUp.
Context {S T : Type} `{!Database S T}.
Implicit Types (c : Connection S) (l : Line S T) (sys : Parallel S T).

(** A client closes its end: the operation that is under way completes with an error. *)
Definition hangs (fetch : nat → nat → nat → nat) sys sys' : Prop :=
  ∃ i, par_step fetch (LEvent i (Complete OtherError)) sys sys'.

Lemma hang_event l s :
  line_counted l → settled l = true → disconnects (l_conn l) = 0%nat →
  ∃ c', on_event (Complete OtherError) (with_store s (l_conn l)) = (Val tt, c') ∧
    disconnects c' = 1%nat ∧ pending c' = None ∧ inbox c' = inbox (l_conn l).
Proof.
  unfold line_counted, settled, ready. intros Hl Hs Hd. destruct (l_work l); [done|].
  destruct Hl as [Ha [[[op Hp] _]|[_ ?]]]; [|congruence]. rewrite Hp in Hs.
  cbn [on_event with_store pending]. rewrite Hp. destruct op as [| |n].
  - rewrite bool_decide_eq_false_2 by done. unfold header_read. connsimpl.
    rewrite (bool_decide_eq_false_2 (OtherError = NoError)) by done. connsimpl.
    rewrite (bool_decide_eq_true_2 (OtherError ≠ OperationAborted)) by done. cbn. rewrite Hd. eexists. by split_and!.
  - rewrite bool_decide_eq_false_2 by done. unfold body_read. connsimpl.
    rewrite (bool_decide_eq_false_2 (OtherError = NoError)) by done. connsimpl.
    rewrite (bool_decide_eq_true_2 (OtherError ≠ OperationAborted)) by done. cbn. rewrite Hd. eexists. by split_and!.
  - rewrite bool_decide_eq_false_2 by done. cbn [andb]. unfold response_written. connsimpl.
    rewrite (bool_decide_eq_false_2 (OtherError = NoError)) by done. connsimpl.
    rewrite (bool_decide_eq_true_2 (OtherError ≠ OperationAborted)) by done. cbn. rewrite Hd. eexists. by split_and!.
Qed.

Definition all_settled sys : Prop := Forall (λ l, settled l = true) (pa_lines sys).

Lemma hang_up fetch sys i l :
  lines_counted sys → all_settled sys → pa_lines sys !! i = Some l → disconnects (l_conn l) = 0%nat →
  ∃ sys', hangs fetch sys sys' ∧ all_settled sys' ∧ pa_chain sys' = pa_chain sys ∧
    (open_lines (pa_lines sys') < open_lines (pa_lines sys))%nat.
Proof.
  intros Hc Hs Hi Hd. destruct sys as [srv ao ch ls s]. unfold all_settled, lines_counted in *.
  cbn [pa_lines pa_chain] in *.
  pose proof (Forall_lookup_1 _ _ _ _ Hc Hi) as Hl. pose proof (Forall_lookup_1 _ _ _ _ Hs Hi) as Hsl.
  destruct (hang_event l s Hl Hsl Hd) as (c' & E & Hd' & Hp & _).
  eexists (mkParallel _ _ _ _ _). split; [exists i; by eapply par_event|].
  cbn [pa_lines pa_chain bytes_of]. split; [|split; [done|]].
  - apply Forall_insert; [done|]. unfold settled, ready in *. cbn. rewrite Hp. by destruct (l_work l).
  - pose proof (open_lines_insert ls i l (mkLine c' (l_arrived l ++ []) (l_work l)) Hi) as Hn.
    unfold unreported in Hn. cbn [peer_of p_conn l_conn] in Hn. rewrite (bool_decide_eq_true_2 _ Hd) in Hn.
    rewrite bool_decide_eq_false_2 in Hn by (by rewrite Hd'). cbn [Nat.b2n] in Hn. lia.
Qed.

Lemma hangs_steps fetch sys sys' : rtc (hangs fetch) sys sys' → rtc (par_steps fetch) sys sys'.
Proof. induction 1 as [|? ? ? [i H] _ IH]; [done|]. eapply rtc_l; [by eexists|done]. Qed.

Lemma all_hang_up fetch n sys :
  (open_lines (pa_lines sys) <= n)%nat → lines_counted sys → all_settled sys →
  ∃ sys', rtc (hangs fetch) sys sys' ∧ pa_chain sys' = pa_chain sys ∧
    Forall (λ l, disconnects (l_conn l) ≠ 0%nat) (pa_lines sys').
Proof.
  revert sys. induction n as [|n IH]; intros sys Hn Hc Hs;
    (destruct (decide (Forall (λ l, disconnects (l_conn l) ≠ 0%nat) (pa_lines sys))) as [D|D];
     [by exists sys|]); apply not_Forall_Exists in D; try apply _;
    apply Exists_exists in D as (l & Hl & Hd%dec_stable); apply list_elem_of_lookup in Hl as [i Hi];
    destruct (hang_up fetch sys i l Hc Hs Hi Hd) as (sys1 & H1 & Hs1 & Hch & Hlt); try lia.
  destruct (IH sys1) as (sys' & Hst & Hch' & Hall); [lia| |done|].
  { destruct H1 as [j H1]. by apply (par_step_refines _ _ _ _ Hc H1). }
  exists sys'. split; [by eapply rtc_l|]. split; [congruence|done].
Qed.

Lemma open_lines_none (ls : list (Line S T)) :
  Forall (λ l, disconnects (l_conn l) ≠ 0%nat) ls → open_lines ls = 0%nat.
Proof.
  unfold open_lines. induction 1 as [|l ls Hl _ IH]; [done|]. cbn [fmap list_fmap].
  rewrite open_peers_cons, IH. unfold unreported. cbn. rewrite bool_decide_eq_false_2 by done. done.
Qed.

Lemma lines_counted_start (srv : DatabaseServer) (s : S) :
  lines_counted (parallel_start srv s : Parallel S T).
Proof. by apply Forall_nil_2. Qed.

(** The counter of any state that was reached. *)
Lemma parallel_count fetch (srv : DatabaseServer) (s : S) sys :
  connection_count_ srv = 0 → rtc (par_steps fetch) (parallel_start srv s) sys →
  rtc accept_step (server_start srv) (pa_acceptor sys) ∧ lines_counted sys ∧
  pa_connection_count sys
    = Z.of_nat (open_lines (pa_lines sys)) + (match pa_chain sys with Counted => 1 | _ => 0 end) ∧
  0 <= pa_connection_count sys <= MAX_CONNECTIONS.
Proof.
  intros H0 Hst. destruct (par_steps_refine fetch _ _ (lines_counted_start srv s) Hst) as [Hr Hc].
  split; [exact Hr|]. split; [done|].
  destruct (accept_steps_inv _ _ (accept_start_inv srv H0) Hr) as [He Hl].
  unfold pa_connection_count, counted_connections in *. cbn in He, Hl.
  split; [lia|]. destruct (pa_chain sys); lia.
Qed.
End HangUp.

(** ** Theorems *)

Section Theorems.
Context {S T : Type} `{!Database S T} `{!DatabaseContract S T}.

(** The server as a whole: requests of any number of connections are processed at the same
    time, their calls on the database interleaved with each other, with the accept chain, with
    [stop] and with the events of all connections.  There is one sequential history of
    requests and responses, from the database's first contents to its present ones, in the
    order in which the requests took effect, that only grows; what it has of a connection is
    the requests that were answered on it, in the order of its stream, and perhaps the one
    that is being processed; what was written is the responses, of the last one what its write
    fetched at its start. *)
Theorem parallel_serves_all (fetch : nat → nat → nat → nat) (srv : DatabaseServer) (s : S)
    (sys sys' : Parallel S T) :
  db_ok s → srv_database_ srv = true →
  rtc (par_steps fetch) (parallel_start srv s) sys → rtc (par_steps fetch) sys sys' →
  ∃ h new : list (nat * (Message * Message)),
    served_all (contents s) h.*2.*1 h.*2.*2 (contents (pa_store sys)) ∧
    served_all (contents s) (h ++ new).*2.*1 (h ++ new).*2.*2 (contents (pa_store sys')) ∧
    ∀ i l, pa_lines sys' !! i = Some l →
      ∃ datas es, of_peer i (h ++ new) = es ++ option_list (l_work l ≫= effect) ∧
        concat (map frame datas) `prefix_of` l_arrived l ∧
        Forall2 carries datas (es.*1 ++ option_list (request_of <$> l_work l)) ∧
        writes es.*2 (l_conn l).
Proof.
  intros Hs Hd H1 H2.
  destruct (shares_steps fetch (contents s) [] _ _ (shares_start _ srv s Hs Hd eq_refl) H1) as [h Hh].
  destruct (shares_steps fetch (contents s) _ _ _ Hh H2) as [new Hn].
  exists h, new. split; [apply Hh|]. split; [apply Hn|].
  intros i l Hi. eapply line_share. by apply Hn.
Qed.
End Theorems.

(** The statistics of the server in any reachable state, on any database: the connection
    counter is the number of connections that were set up and did not report a disconnect,
    within 0 and the limit; the system refines the accept chain of [Acceptor.v].  The request
    counter does not move, however many requests are answered. *)
Theorem parallel_counts {S T : Type} `{!Database S T}
    (fetch : nat → nat → nat → nat) (srv : DatabaseServer) (s : S) (sys : Parallel S T) :
  connection_count_ srv = 0 → rtc (par_steps fetch) (parallel_start srv s) sys →
  rtc accept_step (server_start srv) (pa_acceptor sys) ∧
  pa_connection_count sys
    = Z.of_nat (open_lines (pa_lines sys)) + (match pa_chain sys with Counted => 1 | _ => 0 end) ∧
  0 <= pa_connection_count sys <= MAX_CONNECTIONS ∧
  pa_total_requests sys = total_requests_ srv.
Proof.
  intros H0 Hst. destruct (parallel_count fetch srv s sys H0 Hst) as (Hr & _ & Hn & Hl).
  split; [exact Hr|]. split; [exact Hn|]. split; [exact Hl|]. exact (accept_steps_total _ _ Hr).
Qed.

(** ** Witnesses *)

Lemma request_run e (c : Connection Process) request :
  fst <$> request_arrived e c = Some request →
  request_arrived e c = Some (request, default c (snd <$> request_arrived e c)).
Proof. destruct (request_arrived e c) as [[rq c']|]; [|done]. cbn. by intros [= ->]. Qed.

Lemma advance_run (p p' : Progress nat) (s : Process) :
  (advance p s).1 = Val p' → advance p s = (Val p', (advance p s).2).
Proof. destruct (advance p s). cbn. by intros ->. Qed.

Lemma par_now {S T : Type} `{!Database S T} fetch lab (sys1 sys2 sys3 : Parallel S T) :
  par_step fetch lab sys1 sys2 → rtc (par_steps fetch) sys2 sys3 → rtc (par_steps fetch) sys1 sys3.
Proof. intros H. apply rtc_l. by exists lab. Qed.

(** Two connections were accepted; on the first, a request arrived. *)
Lemma demo_parallel_reached :
  ∃ sys : Parallel Process nat,
    rtc (par_steps eager_fetch) (parallel_start demo_srv demo_process) sys ∧
    length (pa_lines sys) = 2%nat ∧
    ∃ l, pa_lines sys !! 0%nat = Some l ∧ healthy_line [put_request 1 "k" "v"] l.
Proof.
  eexists. split; [|split].
  - do 1 (eapply par_now; [by eapply (par_accept _ _ _ _ _ _ _ 0 0), accept_admitted|]).
    eapply par_now; [eapply (par_accept _ _ _ _ _ _ _ 0 0), accept_counted|].
    eapply par_now; [apply par_connect|].
    eapply par_now; [by eapply (par_accept _ _ _ _ _ _ _ 0 0), accept_again|].
    eapply par_now; [by eapply (par_accept _ _ _ _ _ _ _ 0 0), accept_admitted|].
    eapply par_now; [eapply (par_accept _ _ _ _ _ _ _ 0 0), accept_counted|].
    eapply par_now; [apply par_connect|].
    eapply par_now; [eapply (par_event _ _ _ _ _ _ 0 _ (Arrive (frames [put_request 1 "k" "v"])));
      [reflexivity|exact I|reflexivity|apply event_run; vm_compute; reflexivity]|].
    apply rtc_refl.
  - reflexivity.
  - eexists. split; [reflexivity|]. split; vm_compute; reflexivity.
Qed.

Lemma parallel_counts_witness :
  ∃ sys : Parallel Process nat, length (pa_lines sys) = 2%nat ∧
    pa_connection_count sys
      = Z.of_nat (open_lines (pa_lines sys)) + (match pa_chain sys with Counted => 1 | _ => 0 end) ∧
    pa_total_requests sys = 0.
Proof.
  destruct demo_parallel_reached as (sys & Hsys & Hlen & _). exists sys.
  destruct (parallel_counts (T:=nat) eager_fetch demo_srv demo_process sys) as (_ & Hc & _ & Ht).
  - reflexivity.
  - exact Hsys.
  - exact (conj Hlen (conj Hc Ht)).
Defined.

(** A connection's request has begun its transaction; then it has put its value, and is not
    answered yet. *)
Lemma demo_parallel_midway :
  ∃ sys sys' : Parallel Process nat,
    rtc (par_steps eager_fetch) (parallel_start demo_srv demo_process) sys ∧
    rtc (par_steps eager_fetch) sys sys' ∧
    l_work <$> pa_lines sys' =
      [Some (Committing (put_request 1 "k" "v") 0%nat MessageType.SUCCESS "OK")] ∧
    (λ l, outbox (l_conn l)) <$> pa_lines sys' = [[]].
Proof.
  eexists _, _. split; [|split; [|split]].
  - eapply par_now; [by eapply (par_accept _ _ _ _ _ _ _ 0 0), accept_admitted|].
    eapply par_now; [eapply (par_accept _ _ _ _ _ _ _ 0 0), accept_counted|].
    eapply par_now; [apply par_connect|].
    eapply par_now; [eapply (par_event _ _ _ _ _ _ 0 _ (Arrive (frames [put_request 1 "k" "v"])));
      [reflexivity|exact I|reflexivity|apply event_run; vm_compute; reflexivity]|].
    eapply par_now; [eapply (par_event _ _ _ _ _ _ 0 _ (Complete NoError));
      [reflexivity|discriminate|vm_compute; reflexivity|apply event_run; vm_compute; reflexivity]|].
    eapply par_now; [eapply (par_request _ _ _ _ _ _ 0 _ (put_request 1 "k" "v"));
      [reflexivity|apply request_run; vm_compute; reflexivity]|].
    eapply par_now; [eapply (par_advance _ _ _ _ _ _ 0 _ _ (Begun (put_request 1 "k" "v") 0%nat));
      [reflexivity|reflexivity|discriminate|apply advance_run; vm_compute; reflexivity]|].
    apply rtc_refl.
  - eapply par_now; [eapply (par_advance _ _ _ _ _ _ 0 _ _
      (Committing (put_request 1 "k" "v") 0%nat MessageType.SUCCESS "OK"));
      [reflexivity|reflexivity|discriminate|apply advance_run; vm_compute; reflexivity]|].
    apply rtc_refl.
  - vm_compute. reflexivity.
  - vm_compute. reflexivity.
Qed.

Lemma parallel_serves_all_witness :
  ∃ (sys' : Parallel Process nat) (h : list (nat * (Message * Message))),
    served_all (contents demo_process) h.*2.*1 h.*2.*2 (contents (pa_store sys')) ∧
    l_work <$> pa_lines sys' =
      [Some (Committing (put_request 1 "k" "v") 0%nat MessageType.SUCCESS "OK")] ∧
    ∀ i l, pa_lines sys' !! i = Some l →
      ∃ datas es, of_peer i h = es ++ option_list (l_work l ≫= effect) ∧
        concat (map frame datas) `prefix_of` l_arrived l ∧ writes es.*2 (l_conn l).
Proof.
  destruct demo_parallel_midway as (sys & sys' & H1 & H2 & Hw & _).
  destruct (parallel_serves_all (T:=nat) eager_fetch demo_srv demo_process sys sys') as (h & new & _ & Hs & Hp).
  - exact demo_ok.
  - reflexivity.
  - exact H1.
  - exact H2.
  - exists sys', (h ++ new). split; [exact Hs|]. split; [exact Hw|].
    intros i l Hi. destruct (Hp i l Hi) as (datas & es & E & Hpre & _ & Ho).
    exists datas, es. exact (conj E (conj Hpre Ho)).
Defined.
