(* ===== verification/IoThreads.v ===== *)
(** * The threads of the server

    [src/network/server.cpp] on [src/core/persistent_database.cpp], run by the threads of the
    [io_context]: a thread that is free runs the handler of a completion; when it is the
    completion of a body, the thread decodes the request, processes it by calls of the
    database that can be interrupted at every mutex ([Locking.v], [Serving.v]), and writes the
    response.  Meanwhile the other threads do the same for other connections, and the accept
    chain goes on.  Every execution is one of [Parallel.v]. *)

From stdpp Require Import base gmap list strings relations.
From Stdlib Require Import ZArith Lia.
From Stdlib Require Import Strings.Byte.
From S2P Require Import Prelude.
From S2P Require Import Bytes.
From S2P Require Import Framing.
From S2P Require Import Protocol.
From S2P Require Import Effects.
From S2P Require Import Wal.
From S2P Require Import Interface.
From S2P Require Import Database.
From S2P Require Import Server.
From S2P Require Import Locking.
From S2P Require Import LockingInvariant.
From S2P Require Import LockingTheorems.
From S2P Require Import Concurrency.
From S2P Require Import Serving.
From S2P Require Import Connection.
From S2P Require Import Acceptor.
From S2P Require Import System.
From S2P Require Import Parallel.

(** A connection, the bytes that arrived on it so far, and the number of the request that a
    thread is processing for it. *)
Record Active := mkActive {
  ac_conn : Connection Process;
  ac_arrived : list byte;
  ac_request : option nat;
}.

Record Running := mkRunning {
  rn_server : DatabaseServer;
  rn_acceptor_open : bool;
  rn_chain : AcceptState;
  rn_lines : list Active;      (** in the order in which they were accepted *)
  rn_serving : Serving;        (** the threads, and the requests that were received so far *)
}.

(** [n] threads call [run] after [start]. *)
Definition running_start (srv : DatabaseServer) (n : nat) (s : Process) : Running :=
  let a := server_start srv in mkRunning (server a) (acceptor_open a) (chain a) [] (serving_start n s).

Definition new_active (srv : DatabaseServer) (fetch : nat → nat → nat) (s : Process) : Active :=
  mkActive (p_conn (new_peer srv fetch s)) [] None.

(** The process that the threads share. *)
Definition shared (sv : Serving) : Process := th_shared (sv_threads sv).
Definition set_process (s : Process) (sv : Serving) : Serving :=
  mkServing (set_shared s (sv_threads sv)) (sv_requests sv) (sv_current sv).

(** Some thread is in [run], without a handler. *)
Definition some_free (sv : Serving) : Prop := ∃ t, sv_current sv !! t = Some None.

Inductive action :=
  | DoAccept | DoConnect | DoEvent (i : nat) (e : event) | DoRequest (i : nat) | DoCall | DoRespond (i : nat).

Inductive run_step (fetch : nat → nat → nat → nat) : action → Running → Running → Prop :=
  | run_accept srv ao ch srv' ao' ch' o ab ls sv :
      accept_step (mkAcceptor srv ao ch o ab) (mkAcceptor srv' ao' ch' o ab) →
      run_step fetch DoAccept (mkRunning srv ao ch ls sv) (mkRunning srv' ao' ch' ls sv)
  | run_connect srv ao ls sv :
      run_step fetch DoConnect (mkRunning srv ao Counted ls sv)
        (mkRunning srv ao AcceptHandled (ls ++ [new_active srv (fetch (length ls)) (shared sv)]) sv)
  (** bytes arrive, or a free thread runs a handler to its end *)
  | run_event srv ao ch ls sv i x e c' :
      ls !! i = Some x → undisturbed e → (∀ ec, e = Complete ec → some_free sv) →
      request_arrived e (with_store (shared sv) (ac_conn x)) = None →
      on_event e (with_store (shared sv) (ac_conn x)) = (Val tt, c') →
      run_step fetch (DoEvent i e) (mkRunning srv ao ch ls sv)
        (mkRunning (Nat.iter (disconnects c' - disconnects (ac_conn x)) on_client_disconnect srv) ao ch
           (<[i := mkActive c' (ac_arrived x ++ bytes_of e) (ac_request x)]> ls)
           (set_process (store c') sv))
  (** or it comes to a request *)
  | run_request srv ao ch ls th rqs cs i x t request c' :
      ls !! i = Some x → cs !! t = Some None →
      request_arrived (Complete NoError) (with_store (th_shared th) (ac_conn x)) = Some (request, c') →
      run_step fetch (DoRequest i) (mkRunning srv ao ch ls (mkServing th rqs cs))
        (mkRunning srv ao ch (<[i := mkActive c' (ac_arrived x) (Some (length rqs))]> ls)
           (mkServing th (rqs ++ [Received request]) (<[t := Some (length rqs)]> cs)))
  (** which it processes *)
  | run_call srv ao ch ls sv sv' :
      busy_step sv sv' →
      run_step fetch DoCall (mkRunning srv ao ch ls sv) (mkRunning srv ao ch ls sv')
  (** and then writes the response *)
  | run_respond srv ao ch ls th rqs cs i x t k request response c' :
      ls !! i = Some x → ac_request x = Some k → cs !! t = Some (Some k) →
      rqs !! k = Some (Answered request response) → th_pcs th !! t = Some Idle →
      write_response response (with_store (th_shared th) (ac_conn x)) = (Val tt, c') →
      run_step fetch (DoRespond i) (mkRunning srv ao ch ls (mkServing th rqs cs))
        (mkRunning srv ao ch (<[i := mkActive c' (ac_arrived x) None]> ls)
           (mkServing th rqs (<[t := None]> cs))).

Definition run_steps (fetch : nat → nat → nat → nat) (sys sys' : Running) : Prop :=
  ∃ act, run_step fetch act sys sys'.

(** The steps that the server takes by itself. *)
Definition own (act : action) (sys : Running) : Prop :=
  match act with
  | DoEvent i (Complete NoError) => ∃ x, rn_lines sys !! i = Some x ∧ ready (ac_conn x) = true
  | DoRequest _ | DoCall | DoRespond _ => True
  | _ => False
  end.
Definition works (fetch : nat → nat → nat → nat) (sys sys' : Running) : Prop :=
  ∃ act, own act sys ∧ run_step fetch act sys sys'.

(** [get_connection_count]. *)
Definition rn_connection_count (sys : Running) : Z := connection_count_ (rn_server sys).

(** ** Handlers that process no request do not look at the database *)

Section Parametric.
Context {S T : Type} `{!Database S T}.
Implicit Types (c : Connection S) (s : S).

Definition parametric {A} (f : M (Connection S) A) : Prop :=
  ∀ s c, f (with_store s c) = ((f c).1, with_store s (f c).2).

Lemma parametric_ret {A} (a : A) : parametric (mret a).
Proof. done. Qed.

Lemma parametric_gets {A} (g : Connection S → A) : (∀ s c, g (with_store s c) = g c) → parametric (gets g).
Proof. intros H s c. unfold gets. cbn. by rewrite H. Qed.

Lemma parametric_modify g : (∀ s c, g (with_store s c) = with_store s (g c)) → parametric (modify g).
Proof. intros H s c. unfold modify. cbn. by rewrite H. Qed.

Lemma parametric_bind {A B} (m : M (Connection S) A) (k : A → M (Connection S) B) :
  parametric m → (∀ a, parametric (k a)) → parametric (m ≫= k).
Proof.
  intros Hm Hk s c. unfold mbind, M_bind. rewrite (Hm s c).
  destruct (m c) as [[a|?|?] c1]; cbn; [apply Hk|done..].
Qed.

Lemma parametric_if {A} (b : bool) (m n : M (Connection S) A) :
  parametric m → parametric n → parametric (if b then m else n).
Proof. by destruct b. Qed.

Hint Resolve parametric_ret parametric_if : core.
Hint Extern 1 (parametric (gets _)) => by apply parametric_gets : core.
Hint Extern 1 (parametric (modify _)) => by apply parametric_modify : core.
Hint Extern 1 (parametric (_ ≫= _)) => apply parametric_bind; [|intros ?] : core.

Lemma parametric_end_op header body n : parametric (end_op header body n).
Proof. unfold end_op. auto. Qed.

Lemma parametric_read_header : parametric read_header.
Proof. unfold read_header, is_active, start_op. auto. Qed.

Lemma parametric_on_error ec :
  parametric (if bool_decide (ec ≠ OperationAborted) then on_disconnect_ else mret tt).
Proof. unfold on_disconnect_. auto. Qed.

Lemma parametric_write_response response : parametric (write_response response).
Proof. unfold write_response, is_active, async_write. cbv zeta. auto. Qed.

Lemma parametric_header_read ec : parametric (header_read ec).
Proof.
  unfold header_read, is_active, read_body, start_op, on_disconnect_, is_active. cbv zeta. auto 10.
Qed.

Lemma parametric_response_written ec : parametric (response_written ec).
Proof.
  unfold response_written, is_active.
  auto using parametric_read_header, parametric_on_error.
Qed.

(** An event that brings no request. *)
Lemma on_event_parametric e s c :
  request_arrived e c = None → on_event e (with_store s c) = ((on_event e c).1, with_store s (on_event e c).2).
Proof.
  unfold request_arrived. destruct e as [bytes|ec|]; [done| |done]. cbn [on_event with_store pending inbox handler].
  destruct (pending c) as [[| |n]|]; [| | |done].
  - intros _. case_bool_decide; [destruct (_ <? _); [done|]|];
      apply parametric_bind; auto using parametric_end_op, parametric_header_read.
  - case_bool_decide as D; [subst ec; destruct (_ <? _); [done|]|]; cbn [orb].
    + intros Hr. unfold body_read. connsimpl.
      destruct (active_ (handler c)) eqn:Ha; rewrite (bool_decide_eq_true_2 (NoError = NoError)) by done; connsimpl.
      * destruct (h_database_ (handler c)) eqn:Hd; cbn [orb negb] in Hr.
        -- by destruct (Message_deserialize _).
        -- destruct (Message_deserialize _); [|done]. unfold handle_request, write_response. connsimpl. done.
      * by rewrite (bool_decide_eq_true_2 (NoError ≠ OperationAborted)).
    + intros _. unfold body_read. connsimpl. rewrite (bool_decide_eq_false_2 (ec = NoError)) by done. connsimpl.
      by case_bool_decide.
  - intros _. destruct (bool_decide _ && _); [done|].
    apply parametric_bind; auto using parametric_end_op, parametric_response_written.
Qed.

Lemma request_arrived_parametric e s c :
  request_arrived e (with_store s c) = prod_map id (with_store s) <$> request_arrived e c.
Proof.
  unfold request_arrived. destruct e as [|[]|]; try done. cbn [with_store pending handler inbox].
  destruct (pending c) as [[| |]|]; try done. destruct (_ || _); [done|].
  by destruct (Message_deserialize _).
Qed.
End Parametric.

(** ** The simulation *)

(** Connections that are equal but for what they were last told of the database. *)
Definition alike {S} (c c' : Connection S) : Prop := ∀ s, with_store s c = with_store s c'.

Lemma alike_refl {S} (c : Connection S) : alike c c.
Proof. done. Qed.

Lemma alike_store {S} (s s' : S) c c' : alike c c' → alike (with_store s c) (with_store s' c').
Proof. intros H s2. exact (H s2). Qed.

Lemma alike_disconnects {S} (c c' : Connection S) : alike c c' → disconnects c = disconnects c'.
Proof. intros H. exact (f_equal disconnects (H (store c))). Qed.

Lemma alike_writes {S} (responses : list Message) (c c' : Connection S) :
  alike c c' → writes responses c' → writes responses c.
Proof.
  intros H Hw. change (writes responses (with_store (store c) c)). by rewrite (H (store c)).
Qed.

Lemma alike_ready {S} (c c' : Connection S) : alike c c' → ready c = ready c'.
Proof. intros H. exact (f_equal ready (H (store c))). Qed.

Lemma alike_with {S} (c : Connection S) s : alike (with_store s c) c.
Proof. done. Qed.

(** What happens to a connection happens to one like it. *)
Lemma alike_event {S T} `{!Database S T} e (s s' : S) c l c' :
  alike c l → request_arrived e (with_store s c) = None → on_event e (with_store s c) = (Val tt, c') →
  request_arrived e (with_store s' l) = None ∧ store c' = s ∧
  ∃ l', on_event e (with_store s' l) = (Val tt, l') ∧ alike c' l' ∧ store l' = s'.
Proof.
  intros H Hr E. rewrite (H s) in Hr, E. rewrite request_arrived_parametric in Hr.
  destruct (request_arrived e l) eqn:Hn; [done|].
  rewrite request_arrived_parametric, Hn. rewrite on_event_parametric in E |- * by done.
  split; [done|]. injection E as Ev <-. split; [done|]. rewrite Ev. by eexists.
Qed.

Lemma alike_request {S} (s s' : S) c l request c' :
  alike c l → request_arrived (Complete NoError) (with_store s c) = Some (request, c') →
  ∃ l', request_arrived (Complete NoError) (with_store s' l) = Some (request, l') ∧ alike c' l'.
Proof.
  intros H E. rewrite (H s) in E. rewrite request_arrived_parametric in E |- *.
  destruct (request_arrived _ l) as [[rq l1]|]; [|done]. injection E as -> <-. by eexists.
Qed.

Lemma alike_response {S} (s s' : S) c l response c' :
  alike c l → write_response response (with_store s c) = (Val tt, c') →
  ∃ l', write_response response (with_store s' l) = (Val tt, l') ∧ alike c' l'.
Proof.
  intros H E. rewrite (H s) in E. rewrite parametric_write_response in E |- *.
  injection E as Ev <-. rewrite Ev. by eexists.
Qed.

(** The line of [Parallel.v] that a connection stands for. *)
Record line_like (ps : list (Progress nat)) (x : Active) (l : Line Process nat) : Prop := {
  ll_conn : alike (ac_conn x) (l_conn l);
  ll_arrived : l_arrived l = ac_arrived x;
  ll_work : l_work l = ac_request x ≫= (ps !!.);
}.

(** Who processes what: a request that a thread has is one of a connection's, and no two
    connections have the same. *)
Record assigned (xs : list Active) (sv : Serving) : Prop := {
  as_line : ∀ t k, current_of sv t = Some k → ∃ i x, xs !! i = Some x ∧ ac_request x = Some k;
  as_thread : ∀ i x k, xs !! i = Some x → ac_request x = Some k → ∃ t, current_of sv t = Some k;
  as_once : ∀ i j x y k, xs !! i = Some x → xs !! j = Some y →
    ac_request x = Some k → ac_request y = Some k → i = j;
}.

Record stands (s0 : Process) (q : nat) (sys : Running) (rq : Requests Process nat)
    (par : Parallel Process nat) : Prop := {
  st_serves : serves s0 q (rn_serving sys) (rq_store rq) rq;
  st_rested : rested (rn_serving sys);
  st_assigned : assigned (rn_lines sys) (rn_serving sys);
  st_server : pa_server par = rn_server sys;
  st_open : pa_acceptor_open par = rn_acceptor_open sys;
  st_chain : pa_chain par = rn_chain sys;
  st_store : pa_store par = rq_store rq;
  st_lines : Forall2 (line_like (rq_progress rq)) (rn_lines sys) (pa_lines par);
}.

Section Simulation.
Context (s0 : Process) (q : nat) (fetch : nat → nat → nat → nat).
Implicit Types (sys : Running) (par : Parallel Process nat) (rq : Requests Process nat) (sv : Serving)
  (xs : list Active) (ls : list (Line Process nat)) (ps : list (Progress nat)).

(** A request of a line that is not answered takes a step; no other line sees it. *)
Lemma likes_advance xs ls ps j p' i x l :
  Forall2 (line_like ps) xs ls → xs !! i = Some x → ac_request x = Some j → ls !! i = Some l →
  (j < length ps)%nat →
  (∀ i' x', xs !! i' = Some x' → ac_request x' = Some j → i' = i) →
  Forall2 (line_like (<[j := p']> ps)) xs (<[i := mkLine (l_conn l) (l_arrived l) (Some p')]> ls).
Proof.
  intros H Hx Hj Hl Hlt Hone. apply Forall2_same_length_lookup_2.
  { rewrite length_insert. by eapply Forall2_length. }
  intros i' y m Hy Hm. destruct (decide (i' = i)) as [->|Hne].
  - rewrite list_lookup_insert_eq in Hm by (by eapply lookup_lt_Some). injection Hm as <-.
    rewrite Hx in Hy. injection Hy as <-. destruct (Forall2_lookup_lr _ _ _ _ _ _ H Hx Hl) as [H1 H2 _].
    split; [done|done|]. cbn. rewrite Hj. cbn. by rewrite list_lookup_insert_eq.
  - rewrite list_lookup_insert_ne in Hm by done. destruct (Forall2_lookup_lr _ _ _ _ _ _ H Hy Hm) as [H1 H2 H3].
    split; [done|done|]. rewrite H3. destruct (ac_request y) as [j'|] eqn:Ey; [|done]. cbn.
    rewrite list_lookup_insert_ne; [done|]. intros <-. by apply Hne, (Hone i' y).
Qed.

Lemma advance_answered p (s s' : Process) p' :
  is_answered p → advance p s = (Val p', s') → p' = p ∧ s' = s.
Proof. intros (request & response & ->). cbn. by intros [= -> ->]. Qed.

(** The requests' steps are the lines'. *)
Lemma advances_lines rq rq' xs par :
  rtc requests_step rq rq' → length (rq_progress rq') = length (rq_progress rq) →
  pa_store par = rq_store rq → Forall2 (line_like (rq_progress rq)) xs (pa_lines par) →
  (∀ j p, rq_progress rq !! j = Some p → is_answered p ∨ ∃ i x, xs !! i = Some x ∧ ac_request x = Some j) →
  (∀ i j x y k, xs !! i = Some x → xs !! j = Some y → ac_request x = Some k → ac_request y = Some k → i = j) →
  ∃ par', rtc (goes fetch) par par' ∧ pa_store par' = rq_store rq' ∧
    Forall2 (line_like (rq_progress rq')) xs (pa_lines par') ∧ pa_server par' = pa_server par ∧
    pa_acceptor_open par' = pa_acceptor_open par ∧ pa_chain par' = pa_chain par.
Proof.
  intros Hst. revert par. induction Hst as [rq|rq1 rq2 rq3 H1 Hst IH]; intros par Hlen Hs Hls Hown Honce.
  { by exists par. }
  assert (∀ r1 r2 : Requests Process nat, rtc requests_step r1 r2 → (length (rq_progress r1) <= length (rq_progress r2))%nat) as Hmono.
  { induction 1 as [|r1 r2 r3 [ | ] _ IHr]; [done|..]; cbn in *; rewrite ?length_app, ?length_insert in *; lia. }
  pose proof (Hmono _ _ Hst) as Hle. destruct H1 as [s ps es request|s ps es j p p' s' Hj E]; cbn in *.
  { rewrite length_app in Hle. cbn in Hle. lia. }
  rewrite length_insert in IH. destruct (Hown j p Hj) as [Ha|(i & x & Hx & Hxj)].
  { destruct (advance_answered p s s' p' Ha E) as [-> ->].
    rewrite (list_insert_id ps j p Hj) in IH. by apply (IH par). }
  destruct (Forall2_lookup_l _ _ _ _ _ Hls Hx) as (l & Hl & Hlike).
  pose proof (ll_work _ _ _ Hlike) as Hw. rewrite Hxj in Hw. cbn in Hw. rewrite Hj in Hw.
  assert (∀ k pk, <[j := p']> ps !! k = Some pk → is_answered pk ∨ ∃ i x, xs !! i = Some x ∧ ac_request x = Some k) as Hown'.
  { intros k pk Hk. destruct (decide (k = j)) as [->|Hne]; [by right; eauto|].
    rewrite list_lookup_insert_ne in Hk by done. by apply (Hown k pk). }
  destruct par as [srv ao ch ls st]. cbn in *. subst st.
  destruct p as [request|request u|request u ty v|request response].
  4:{ destruct (advance_answered _ s s' p' (ex_intro _ _ (ex_intro _ _ eq_refl)) E) as [-> ->].
      rewrite (list_insert_id ps j _ Hj) in IH. by apply (IH (mkParallel srv ao ch ls s)). }
  all: destruct (IH (mkParallel srv ao ch (<[i := mkLine (l_conn l) (l_arrived l) (Some p')]> ls) s'))
      as (par' & Hst' & ? & ? & ? & ? & ?); try done;
    [ cbn; eapply likes_advance; [done..|by eapply lookup_lt_Some|];
      intros i' x' Hx' Hj'; by eapply Honce
    | exists par'; split; [|done]; eapply rtc_l; [|exact Hst'];
      exists (LAdvance i); split; [done|]; by eapply par_advance ].
Qed.

Lemma set_process_same sv : set_process (shared sv) sv = sv.
Proof. by destruct sv as [[] ? ?]. Qed.

Lemma likes_insert ps xs ls i x l :
  Forall2 (line_like ps) xs ls → line_like ps x l → Forall2 (line_like ps) (<[i := x]> xs) (<[i := l]> ls).
Proof. intros H Hl. by apply Forall2_insert. Qed.

Lemma likes_mono ps ps' xs ls :
  Forall2 (line_like ps) xs ls → (∀ i x k, xs !! i = Some x → ac_request x = Some k → ps' !! k = ps !! k) →
  Forall2 (line_like ps') xs ls.
Proof.
  intros H Hps. apply Forall2_same_length_lookup_2; [by eapply Forall2_length|].
  intros i x l Hx Hl. destruct (Forall2_lookup_lr _ _ _ _ _ _ H Hx Hl) as [H1 H2 H3].
  split; [done..|]. rewrite H3. destruct (ac_request x) as [k|] eqn:Ek; [|done]. cbn. symmetry. by eapply Hps.
Qed.

(** Replacing a connection that keeps its request. *)
Lemma assigned_insert xs sv i x x' :
  assigned xs sv → xs !! i = Some x → ac_request x' = ac_request x → assigned (<[i := x']> xs) sv.
Proof.
  intros [H1 H2 H3] Hx Hr.
  assert (∀ j y k, <[i := x']> xs !! j = Some y → ac_request y = Some k →
    ∃ z, xs !! j = Some z ∧ ac_request z = Some k) as Hback.
  { intros j y k Hy Ek. destruct (decide (i = j)) as [->|Hne].
    - rewrite list_lookup_insert_eq in Hy by (by eapply lookup_lt_Some). injection Hy as <-.
      exists x. split; [done|congruence].
    - rewrite list_lookup_insert_ne in Hy by done. eauto. }
  split.
  - intros t k Ht. destruct (H1 t k Ht) as (j & y & Hy & Ek). destruct (decide (i = j)) as [->|Hne].
    + exists j, x'. rewrite list_lookup_insert_eq by (by eapply lookup_lt_Some).
      split; [done|]. rewrite Hx in Hy. injection Hy as <-. congruence.
    + exists j, y. by rewrite list_lookup_insert_ne.
  - intros j y k Hy Ek. destruct (Hback j y k Hy Ek) as (z & Hz & Ez). by eapply H2.
  - intros j j' y y' k Hy Hy' E E'.
    destruct (Hback _ _ _ Hy E) as (z & Hz & Ez). destruct (Hback _ _ _ Hy' E') as (z' & Hz' & Ez').
    by eapply H3.
Qed.

Lemma assigned_current xs sv sv' :
  assigned xs sv → sv_current sv' = sv_current sv → assigned xs sv'.
Proof.
  intros [H1 H2 H3] E. assert (∀ t, current_of sv' t = current_of sv t) as Ec by (unfold current_of; by rewrite E).
  split; [intros t k; rewrite Ec; apply H1| |done].
  intros i x k Hx Hk. destruct (H2 i x k Hx Hk) as [t Ht]. exists t. by rewrite Ec.
Qed.

Lemma assigned_new xs sv x : assigned xs sv → ac_request x = None → assigned (xs ++ [x]) sv.
Proof.
  intros [H1 H2 H3] Hx.
  assert (∀ j y k, (xs ++ [x]) !! j = Some y → ac_request y = Some k → xs !! j = Some y) as Hback.
  { intros j y k [Hy|[_ Hy]]%lookup_app_Some Ek; [done|].
    apply list_lookup_singleton_Some in Hy as [_ <-]. congruence. }
  split.
  - intros t k Ht. destruct (H1 t k Ht) as (j & y & Hy & Ek). exists j, y. split; [|done].
    by apply lookup_app_l_Some.
  - intros j y k Hy Ek. eapply H2; [by eapply Hback|done].
  - intros j j' y y' k Hy Hy' E E'. eapply H3; [by eapply Hback|by eapply Hback|done|done].
Qed.

(** A free thread takes the request of a connection. *)
Lemma assigned_request xs th rqs cs i x x' t p :
  assigned xs (mkServing th rqs cs) → (∀ t k, current_of (mkServing th rqs cs) t = Some k → (k < length rqs)%nat) →
  xs !! i = Some x → ac_request x = None → cs !! t = Some None → ac_request x' = Some (length rqs) →
  assigned (<[i := x']> xs) (mkServing th (rqs ++ [p]) (<[t := Some (length rqs)]> cs)).
Proof.
  intros [H1 H2 H3] Hlt Hx Hn Ht Hr. pose proof (lookup_lt_Some _ _ _ Ht) as Htl.
  assert (∀ u, current_of (mkServing th (rqs ++ [p]) (<[t := Some (length rqs)]> cs)) u =
    if decide (t = u) then Some (length rqs) else current_of (mkServing th rqs cs) u) as Hc.
  { intros u. by apply (current_of_insert th rqs cs t (Some (length rqs)) u). }
  assert (∀ j y k, <[i := x']> xs !! j = Some y → ac_request y = Some k →
    j = i ∧ k = length rqs ∨ j ≠ i ∧ xs !! j = Some y) as Hback.
  { intros j y k Hy Ek. destruct (decide (i = j)) as [->|Hne]; [left|right].
    - rewrite list_lookup_insert_eq in Hy by (by eapply lookup_lt_Some). injection Hy as <-. split; congruence.
    - by rewrite list_lookup_insert_ne in Hy. }
  assert (∀ j y k, xs !! j = Some y → ac_request y = Some k → (k < length rqs)%nat) as Hlt'.
  { intros j y k Hy Ek. destruct (H2 j y k Hy Ek) as [u Hu]. by eapply Hlt. }
  split.
  - intros u k. rewrite Hc. case_decide as D.
    + intros [= <-]. exists i, x'. by rewrite list_lookup_insert_eq by (by eapply lookup_lt_Some).
    + intros Hu. destruct (H1 u k Hu) as (j & y & Hy & Ek). exists j, y.
      rewrite list_lookup_insert_ne; [done|]. intros <-. congruence.
  - intros j y k Hy Ek. destruct (Hback j y k Hy Ek) as [[-> ->]|[_ Hy']].
    + exists t. by rewrite Hc, decide_True.
    + destruct (H2 j y k Hy' Ek) as [u Hu]. exists u. rewrite Hc. case_decide; [|done]. subst u.
      unfold current_of in Hu. cbn in Hu. by rewrite Ht in Hu.
  - intros j j' y y' k Hy Hy' E E'.
    destruct (Hback _ _ _ Hy E) as [[-> ->]|[? Hz]], (Hback _ _ _ Hy' E') as [[-> ?]|[? Hz']].
    + done.
    + pose proof (Hlt' _ _ _ Hz' E'). lia.
    + pose proof (Hlt' _ _ _ Hz E). lia.
    + by eapply H3.
Qed.

(** And is free again. *)
Lemma assigned_respond xs th rqs cs i x x' t k :
  assigned xs (mkServing th rqs cs) →
  (∀ t u k, current_of (mkServing th rqs cs) t = Some k → current_of (mkServing th rqs cs) u = Some k → t = u) →
  xs !! i = Some x → ac_request x = Some k → cs !! t = Some (Some k) → ac_request x' = None →
  assigned (<[i := x']> xs) (mkServing th rqs (<[t := None]> cs)).
Proof.
  intros [H1 H2 H3] Hinj Hx Hk Ht Hr. pose proof (lookup_lt_Some _ _ _ Ht) as Htl.
  assert (current_of (mkServing th rqs cs) t = Some k) as Htk by (unfold current_of; cbn; by rewrite Ht).
  assert (∀ u, current_of (mkServing th rqs (<[t := None]> cs)) u =
    if decide (t = u) then None else current_of (mkServing th rqs cs) u) as Hc.
  { intros u. by apply current_of_insert. }
  assert (∀ j y k, <[i := x']> xs !! j = Some y → ac_request y = Some k → j ≠ i ∧ xs !! j = Some y) as Hback.
  { intros j y k' Hy Ek. destruct (decide (i = j)) as [->|Hne].
    - rewrite list_lookup_insert_eq in Hy by (by eapply lookup_lt_Some). injection Hy as <-. congruence.
    - by rewrite list_lookup_insert_ne in Hy. }
  split.
  - intros u k'. rewrite Hc. case_decide as D; [done|]. intros Hu.
    destruct (H1 u k' Hu) as (j & y & Hy & Ek). exists j, y.
    rewrite list_lookup_insert_ne; [done|]. intros <-. apply D. rewrite Hx in Hy. injection Hy as <-.
    rewrite Hk in Ek. injection Ek as <-. by eapply Hinj.
  - intros j y k' Hy Ek. destruct (Hback j y k' Hy Ek) as [Hne Hy'].
    destruct (H2 j y k' Hy' Ek) as [u Hu]. exists u. rewrite Hc. case_decide; [|done]. subst u.
    exfalso. apply Hne. eapply H3; [done|exact Hx|done|congruence].
  - intros j j' y y' k' Hy Hy' E E'. destruct (Hback _ _ _ Hy E) as [_ Hz], (Hback _ _ _ Hy' E') as [_ Hz'].
    by eapply H3.
Qed.

Lemma request_owned sys rq par j p :
  stands s0 q sys rq par → rq_progress rq !! j = Some p →
  is_answered p ∨ ∃ i x, rn_lines sys !! i = Some x ∧ ac_request x = Some j.
Proof.
  intros [H [_ Hr] [Ha _ _] _ _ _ _ _] Hj.
  destruct (lookup_lt_is_Some_2 (sv_requests (rn_serving sys)) j) as [p' Hp'].
  { rewrite <- (sx_len _ _ _ _ _ H). by eapply lookup_lt_Some. }
  destruct (serves_lookup _ _ _ _ _ j p' H Hp') as [(t & Ht & _)|[Hn E]]; [right; by eapply Ha|left].
  rewrite E in Hj. injection Hj as ->. destruct (Hr j p Hp') as [[t Ht]|]; [by destruct (Hn t)|done].
Qed.

Lemma request_bound sys rq par i x k :
  stands s0 q sys rq par → rn_lines sys !! i = Some x → ac_request x = Some k →
  (k < length (rq_progress rq))%nat.
Proof.
  intros [H _ [_ Ha _] _ _ _ _ _] Hx Hk. destruct (Ha i x k Hx Hk) as [t Ht].
  rewrite (sx_len _ _ _ _ _ H). by eapply sx_bound.
Qed.

(** A connection is processing a request exactly when its line is. *)
Lemma work_none sys rq par i x l :
  stands s0 q sys rq par → rn_lines sys !! i = Some x → pa_lines par !! i = Some l →
  l_work l = None → ac_request x = None.
Proof.
  intros H Hx Hl Hw. destruct (ac_request x) as [k|] eqn:Ek; [exfalso|done].
  pose proof (Forall2_lookup_lr _ _ _ _ _ _ (st_lines _ _ _ _ _ H) Hx Hl) as Hlike.
  pose proof (ll_work _ _ _ Hlike) as E. rewrite Ek, Hw in E. cbn in E.
  symmetry in E. apply lookup_ge_None in E. pose proof (request_bound _ _ _ _ _ _ H Hx Ek). lia.
Qed.

Lemma stands_call srv ao ch xs sv sv' rq par :
  stands s0 q (mkRunning srv ao ch xs sv) rq par → busy_step sv sv' →
  ∃ rq' par', stands s0 q (mkRunning srv ao ch xs sv') rq' par' ∧ rtc (goes fetch) par par'.
Proof.
  intros H (Hst & Hlen & Hcur). pose proof H as [H1 H2 H3 H4 H5 H6 H7 H8]. cbn in *.
  destruct (serves_step s0 q sv sv' _ _ H1 Hst) as (a' & rq' & H1' & Hrq).
  pose proof (sx_store _ _ _ _ _ H1') as Ea. subst a'.
  destruct (advances_lines rq rq' xs par Hrq) as (par' & Hgo & Hs' & Hls' & E1 & E2 & E3); try done.
  - by rewrite (sx_len _ _ _ _ _ H1'), (sx_len _ _ _ _ _ H1).
  - intros j p. apply (request_owned _ _ _ j p H).
  - apply H3.
  - exists rq', par'. split; [|done]. split; cbn; try congruence.
    + by eapply rested_step.
    + by eapply assigned_current.
Qed.

Lemma stands_request srv ao ch xs th rqs cs i x t request c' rq par :
  stands s0 q (mkRunning srv ao ch xs (mkServing th rqs cs)) rq par → lines_counted par →
  xs !! i = Some x → cs !! t = Some None →
  request_arrived (Complete NoError) (with_store (th_shared th) (ac_conn x)) = Some (request, c') →
  ∃ rq' par', stands s0 q
    (mkRunning srv ao ch (<[i := mkActive c' (ac_arrived x) (Some (length rqs))]> xs)
       (mkServing th (rqs ++ [Received request]) (<[t := Some (length rqs)]> cs))) rq' par' ∧
    goes fetch par par'.
Proof.
  intros H Hc Hx Ht E. pose proof H as [H1 H2 H3 H4 H5 H6 H7 H8]. cbn in *.
  destruct (Forall2_lookup_l _ _ _ _ _ H8 Hx) as (l & Hl & Hlike).
  destruct par as [psrv pao pch ls st]. cbn in *. subst psrv pao pch st.
  destruct (alike_request (th_shared th) (rq_store rq) _ (l_conn l) request c' (ll_conn _ _ _ Hlike) E)
    as (l' & E' & Hl').
  assert (l_work l = None) as Hw.
  { pose proof (Forall_lookup_1 _ _ _ _ Hc Hl) as Hcl. unfold line_counted in Hcl.
    destruct (l_work l); [exfalso|done]. destruct Hcl as (_ & Hp & _).
    unfold request_arrived in E'. cbn [with_store pending] in E'. by rewrite Hp in E'. }
  pose proof (work_none _ _ _ _ _ _ H Hx Hl Hw) as Hnone.
  pose proof (sx_len _ _ _ _ _ H1) as Hlen. cbn in Hlen.
  eexists _, (mkParallel srv ao ch (<[i := mkLine l' (l_arrived l) (Some (Received request))]> ls) (rq_store rq)).
  split; [split; cbn|].
  - apply serves_receives; [exact H1|done].
  - eapply rested_step; [done|]. by apply serving_receives.
  - eapply assigned_request; try done. intros u k. apply (sx_bound _ _ _ _ _ H1).
  - done.
  - done.
  - done.
  - done.
  - apply likes_insert.
    + apply (likes_mono (rq_progress rq)); [done|]. intros j y k Hy Hk. cbn. apply lookup_app_l.
      by eapply (request_bound _ _ _ j y k H).
    + split; [done|apply Hlike|]. cbn. rewrite <- Hlen. by rewrite list_lookup_middle.
  - exists (LRequest i). split; [done|]. by eapply par_request.
Qed.

Lemma stands_respond srv ao ch xs th rqs cs i x t k request response c' rq par :
  stands s0 q (mkRunning srv ao ch xs (mkServing th rqs cs)) rq par →
  xs !! i = Some x → ac_request x = Some k → cs !! t = Some (Some k) →
  rqs !! k = Some (Answered request response) → th_pcs th !! t = Some Idle →
  write_response response (with_store (th_shared th) (ac_conn x)) = (Val tt, c') →
  ∃ par', stands s0 q
    (mkRunning srv ao ch (<[i := mkActive c' (ac_arrived x) None]> xs)
       (mkServing th rqs (<[t := None]> cs))) rq par' ∧ goes fetch par par'.
Proof.
  intros H Hx Hk Ht Hr Hpc E. pose proof H as [H1 H2 H3 H4 H5 H6 H7 H8]. cbn in *.
  destruct (Forall2_lookup_l _ _ _ _ _ H8 Hx) as (l & Hl & Hlike).
  destruct par as [psrv pao pch ls st]. cbn in *. subst psrv pao pch st.
  destruct (alike_response (th_shared th) (rq_store rq) _ (l_conn l) response c' (ll_conn _ _ _ Hlike) E)
    as (l' & E' & Hl').
  pose proof (ll_work _ _ _ Hlike) as Hw. rewrite Hk in Hw. cbn in Hw.
  rewrite (serves_answered _ _ _ _ _ k _ H1 Hr) in Hw by (by eexists _, _).
  exists (mkParallel srv ao ch (<[i := mkLine l' (l_arrived l) None]> ls) (rq_store rq)).
  split; [split; cbn|]; try done.
  - by eapply serves_done.
  - eapply rested_step; [done|]. by eapply serving_done.
  - eapply assigned_respond; try done. intros u v j. apply (sx_inj _ _ _ _ _ H1).
  - apply likes_insert; [done|]. split; [done|apply Hlike|done].
  - exists (LRespond i). split; [done|]. by eapply par_respond.
Qed.

Lemma stands_event srv ao ch xs sv i x e c' rq par :
  stands s0 q (mkRunning srv ao ch xs sv) rq par →
  xs !! i = Some x → undisturbed e → request_arrived e (with_store (shared sv) (ac_conn x)) = None →
  on_event e (with_store (shared sv) (ac_conn x)) = (Val tt, c') →
  ∃ par', stands s0 q
    (mkRunning (Nat.iter (disconnects c' - disconnects (ac_conn x)) on_client_disconnect srv) ao ch
       (<[i := mkActive c' (ac_arrived x ++ bytes_of e) (ac_request x)]> xs) (set_process (store c') sv)) rq par' ∧
    par_step fetch (LEvent i e) par par' ∧
    (own (DoEvent i e) (mkRunning srv ao ch xs sv) → internal (LEvent i e) par).
Proof.
  intros H Hx He Hr E. pose proof H as [H1 H2 H3 H4 H5 H6 H7 H8]. cbn in *.
  destruct (Forall2_lookup_l _ _ _ _ _ H8 Hx) as (l & Hl & Hlike).
  destruct par as [psrv pao pch ls st]. cbn in *. subst psrv pao pch st.
  destruct (alike_event e (shared sv) (rq_store rq) _ (l_conn l) c' (ll_conn _ _ _ Hlike) Hr E)
    as (Hr' & -> & l' & E' & Hl' & Es).
  rewrite set_process_same, (alike_disconnects _ _ Hl'), (alike_disconnects _ _ (ll_conn _ _ _ Hlike)).
  exists (mkParallel (Nat.iter (disconnects l' - disconnects (l_conn l)) on_client_disconnect srv) ao ch
    (<[i := mkLine l' (l_arrived l ++ bytes_of e) (l_work l)]> ls) (store l')).
  split; [split; cbn|split]; try done.
  - by eapply assigned_insert.
  - apply likes_insert; [done|]. split; cbn; [done| |apply Hlike]. by rewrite (ll_arrived _ _ _ Hlike).
  - by eapply par_event.
  - destruct e as [|[]|]; try done. intros (y & Hy & Hready). exists l. split; [done|].
    rewrite Hx in Hy. injection Hy as <-. by rewrite <- (alike_ready _ _ (ll_conn _ _ _ Hlike)).
Qed.

Lemma stands_connect srv ao xs sv rq par :
  stands s0 q (mkRunning srv ao Counted xs sv) rq par →
  ∃ par', stands s0 q (mkRunning srv ao AcceptHandled (xs ++ [new_active srv (fetch (length xs)) (shared sv)]) sv)
    rq par' ∧ par_step fetch LConnect par par'.
Proof.
  intros [H1 H2 H3 H4 H5 H6 H7 H8]. destruct par as [psrv pao pch ls st]. cbn in *. subst psrv pao pch st.
  exists (mkParallel srv ao AcceptHandled (ls ++ [new_line srv (fetch (length ls)) (rq_store rq)]) (rq_store rq)).
  split; [split; cbn|]; try done.
  - by apply assigned_new.
  - apply Forall2_app; [done|]. constructor; [|done]. rewrite (Forall2_length _ _ _ H8). by split.
  - apply par_connect.
Qed.

(** Every step of the threads is some steps of [Parallel.v], and one that the server takes by
    itself some that it takes by itself there. *)
Lemma stands_step act sys sys' rq par :
  stands s0 q sys rq par → lines_counted par → run_step fetch act sys sys' →
  ∃ rq' par', stands s0 q sys' rq' par' ∧ rtc (par_steps fetch) par par' ∧
    (own act sys → rtc (goes fetch) par par').
Proof.
  intros H Hc Hst.
  destruct Hst as [srv ao ch srv' ao' ch' o ab xs sv Ha|srv ao xs sv|srv ao ch xs sv i x e c' Hx He Hfr Hr E
    |srv ao ch xs th rqs cs i x t request c' Hx Ht E|srv ao ch xs sv sv' Hb
    |srv ao ch xs th rqs cs i x t k request response c' Hx Hk Ht Hr Hpc E].
  - destruct H as [H1 H2 H3 H4 H5 H6 H7 H8]. destruct par as [psrv pao pch ls st]. cbn in *. subst psrv pao pch.
    exists rq, (mkParallel srv' ao' ch' ls st). split; [by split|]. split; [|done].
    apply rtc_once. exists LAccept. by eapply par_accept.
  - destruct (stands_connect _ _ _ _ _ _ H) as (par' & H' & Hp). exists rq, par'.
    split; [done|]. split; [|done]. apply rtc_once. by exists LConnect.
  - destruct (stands_event _ _ _ _ _ _ _ _ _ _ _ H Hx He Hr E) as (par' & H' & Hp & Hi). exists rq, par'.
    split; [done|]. split; [by apply rtc_once; eexists|]. intros Ho. apply rtc_once. by eexists; split; [apply Hi|].
  - destruct (stands_request _ _ _ _ _ _ _ _ _ _ _ _ _ _ H Hc Hx Ht E) as (rq' & par' & H' & Hg).
    exists rq', par'. split; [done|]. pose proof (rtc_once _ _ Hg) as Hg'. split; [by apply goes_steps|done].
  - destruct (stands_call _ _ _ _ _ _ _ _ H Hb) as (rq' & par' & H' & Hg).
    exists rq', par'. split; [done|]. split; [by apply goes_steps|done].
  - destruct (stands_respond _ _ _ _ _ _ _ _ _ _ _ _ _ _ _ _ H Hx Hk Ht Hr Hpc E) as (par' & H' & Hg).
    exists rq, par'. split; [done|]. pose proof (rtc_once _ _ Hg) as Hg'. split; [by apply goes_steps|done].
Qed.

Lemma stands_steps sys sys' rq par :
  stands s0 q sys rq par → lines_counted par → rtc (run_steps fetch) sys sys' →
  ∃ rq' par', stands s0 q sys' rq' par' ∧ rtc (par_steps fetch) par par' ∧ lines_counted par'.
Proof.
  intros H Hc Hst. revert rq par H Hc. induction Hst as [|sys1 sys2 sys3 [act H1] _ IH]; intros rq par H Hc.
  { by exists rq, par. }
  destruct (stands_step _ _ _ _ _ H Hc H1) as (rq' & par' & H' & Hp & _).
  destruct (par_steps_refine fetch _ _ Hc Hp) as [_ Hc'].
  destruct (IH _ _ H' Hc') as (rq'' & par'' & H'' & Hp' & Hc'').
  exists rq'', par''. split; [done|]. split; [by etrans|done].
Qed.

Lemma stands_works sys sys' rq par :
  stands s0 q sys rq par → lines_counted par → rtc (works fetch) sys sys' →
  ∃ rq' par', stands s0 q sys' rq' par' ∧ rtc (goes fetch) par par' ∧ lines_counted par'.
Proof.
  intros H Hc Hst. revert rq par H Hc. induction Hst as [|sys1 sys2 sys3 (act & Ho & H1) _ IH]; intros rq par H Hc.
  { by exists rq, par. }
  destruct (stands_step _ _ _ _ _ H Hc H1) as (rq' & par' & H' & Hp & Hg).
  destruct (par_steps_refine fetch _ _ Hc Hp) as [_ Hc'].
  destruct (IH _ _ H' Hc') as (rq'' & par'' & H'' & Hp' & Hc'').
  exists rq'', par''. split; [done|]. split; [|done]. etrans; [by apply Hg|done].
Qed.

Lemma stands_start srv n :
  opened s0 q → stands s0 q (running_start srv n s0) (mkRequests s0 [] []) (parallel_start srv s0).
Proof.
  intros Ho. split; cbn -[serving_start]; try done.
  - by apply serves_start.
  - apply rested_start.
  - split; [|done|done]. intros t k Ht. exfalso. unfold current_of in Ht. cbn in Ht.
    destruct (replicate n None !! t) as [o|] eqn:E; [|done]. apply lookup_replicate in E as [-> _]. done.
Qed.
End Simulation.

(** ** Progress *)

(** What is left to do for a connection, and for all and their requests. *)
Definition active_load (x : Active) : nat :=
  40 * length (inbox (ac_conn x)) +
  match ac_request x with
  | Some _ => 6
  | None => match pending (ac_conn x) with Some AsyncReadBody => 10 | Some (AsyncWrite _) => 5 | _ => 0 end
  end.
Definition running_load (sys : Running) : nat :=
  10 * sum_list_with active_load (rn_lines sys) + load (rn_serving sys).

(** Nothing is left to do: the threads are free and the reads wait for bytes. *)
Definition at_rest (x : Active) : Prop := ac_request x = None ∧ ready (ac_conn x) = false.
Record resting (sys : Running) : Prop := {
  re_free : ∀ t o, sv_current (rn_serving sys) !! t = Some o → o = None;
  re_quiet : LockingTheorems.quiet (sv_threads (rn_serving sys));
  re_lines : Forall at_rest (rn_lines sys);
}.

Section Progress.
Context (s0 : Process) (q : nat) (fetch : nat → nat → nat → nat).
Implicit Types (sys : Running) (par : Parallel Process nat) (rq : Requests Process nat) (sv : Serving)
  (xs : list Active) (m : gmap string string) (h : list (nat * (Message * Message))).

Lemma idle_load c l a b : alike c l → active_load (mkActive c a None) = line_load (T:=nat) (mkLine l b None).
Proof.
  intros H. unfold active_load, line_load. cbn.
  pose proof (f_equal inbox (H (store c))) as Hi. pose proof (f_equal pending (H (store c))) as Hp.
  cbn in Hi, Hp. by rewrite Hi, Hp.
Qed.

Lemma busy_inbox c l a b k p :
  alike c l → (active_load (mkActive c a (Some k)) + calls_left p = line_load (T:=nat) (mkLine l b (Some p)))%nat.
Proof.
  intros H. unfold active_load, line_load, calls_left. cbn.
  pose proof (f_equal inbox (H (store c))) as Hi. cbn in Hi. rewrite Hi. destruct p; lia.
Qed.

Lemma load_insert xs i x x' :
  xs !! i = Some x →
  (sum_list_with active_load (<[i := x']> xs) + active_load x = sum_list_with active_load xs + active_load x')%nat.
Proof. intros Hi. pose proof (sum_list_with_insert active_load xs i x x' Hi). lia. Qed.

(** The line of a connection that a ready operation or a request shows to be idle. *)
Lemma ready_idle sys rq par m h i x l :
  stands s0 q sys rq par → shares m h par → rn_lines sys !! i = Some x → pa_lines par !! i = Some l →
  pending (l_conn l) ≠ None → l_work l = None ∧ ac_request x = None.
Proof.
  intros H [_ _ Hls _ _] Hx Hl Hp.
  assert (l_work l = None) as Hw; [|split; [done|by eapply work_none]].
  specialize (Hls i l Hl). unfold line_ok in Hls. destruct (l_work l); [|done].
  destruct Hls as (_ & _ & [(_ & ? & _) _ _ _ _] & _). done.
Qed.

Lemma respond_load srv ao ch xs th rqs cs i x t k request response c' rq par m h :
  stands s0 q (mkRunning srv ao ch xs (mkServing th rqs cs)) rq par → shares m h par →
  xs !! i = Some x → ac_request x = Some k → rqs !! k = Some (Answered request response) →
  write_response response (with_store (th_shared th) (ac_conn x)) = (Val tt, c') →
  (running_load (mkRunning srv ao ch (<[i := mkActive c' (ac_arrived x) None]> xs) (mkServing th rqs (<[t := None]> cs))) <
   running_load (mkRunning srv ao ch xs (mkServing th rqs cs)))%nat.
Proof.
  intros H [_ Hdb Hls _ _] Hx Hk Hr E. unfold running_load. cbn [rn_lines rn_serving].
  destruct (Forall2_lookup_l _ _ _ _ _ (st_lines _ _ _ _ _ H) Hx) as (l & Hl & Hlike).
  pose proof (ll_work _ _ _ Hlike) as Hw. rewrite Hk in Hw. cbn in Hw.
  rewrite (serves_answered _ _ _ _ _ k _ (st_serves _ _ _ _ _ H) Hr) in Hw by (by eexists _, _).
  destruct (line_respond (of_peer i h) l (pa_store par) request response (Hls i l Hl) Hw)
    as (c1 & E1 & _ & [n Hp] & Hin & _).
  destruct (alike_response (th_shared th) (pa_store par) _ (l_conn l) response c' (ll_conn _ _ _ Hlike) E)
    as (l' & E' & Hl'). rewrite E1 in E'. injection E' as <-.
  pose proof (load_insert xs i x (mkActive c' (ac_arrived x) None) Hx) as Hsum.
  rewrite (idle_load c' c1 (ac_arrived x) (l_arrived l) Hl') in Hsum.
  destruct l as [lc la lw], x as [xc xa xr].
  cbn [l_conn l_arrived l_work ac_conn ac_arrived ac_request] in *. subst lw xr.
  pose proof (busy_inbox xc lc xa la k (Answered request response) (ll_conn _ _ _ Hlike)) as Hb.
  unfold line_load in Hsum, Hb. cbn in Hsum, Hb. rewrite Hp, Hin in Hsum.
  unfold load. cbn [sv_requests sv_threads ac_arrived]. cbn [calls_left] in Hb. lia.
Qed.

Lemma works_load act sys sys' rq par m h :
  stands s0 q sys rq par → shares m h par → own act sys → run_step fetch act sys sys' →
  (running_load sys' < running_load sys)%nat.
Proof.
  intros H Hsh Ho Hst. pose proof Hsh as [_ Hdb Hls _ _].
  destruct Hst as [| |srv ao ch xs sv i x e c' Hx He Hfr Hr E
    |srv ao ch xs th rqs cs i x t request c' Hx Ht E|srv ao ch xs sv sv' Hb
    |srv ao ch xs th rqs cs i x t k request response c' Hx Hk Ht Hr Hpc E]; try done;
    unfold running_load; cbn [rn_lines rn_serving].
  - destruct (Forall2_lookup_l _ _ _ _ _ (st_lines _ _ _ _ _ H) Hx) as (l & Hl & Hlike).
    destruct e as [|[]|]; try done. destruct Ho as (y & Hy & Hready). cbn in Hy. rewrite Hx in Hy. injection Hy as <-.
    rewrite (alike_ready _ _ (ll_conn _ _ _ Hlike)) in Hready.
    destruct (ready_idle _ _ _ _ _ _ _ _ H Hsh Hx Hl) as [Hw Hn].
    { unfold ready in Hready. by destruct (pending (l_conn l)). }
    destruct (alike_event (Complete NoError) (shared sv) (pa_store par) _ (l_conn l) c' (ll_conn _ _ _ Hlike) Hr E)
      as (Hr' & -> & l' & E' & Hl' & _).
    pose proof (event_load (of_peer i h) l (pa_store par) l' (Hls i l Hl) Hready Hr' E') as Hlt.
    pose proof (load_insert xs i x (mkActive c' (ac_arrived x ++ []) (ac_request x)) Hx) as Hsum.
    rewrite set_process_same. destruct l as [lc la lw], x as [xc xa xr].
    cbn [l_conn l_arrived l_work ac_conn ac_arrived ac_request] in *. subst lw xr.
    rewrite (idle_load xc lc xa la (ll_conn _ _ _ Hlike)), (idle_load c' l' (xa ++ []) (la ++ []) Hl') in Hsum.
    cbn [bytes_of]. lia.
  - destruct (Forall2_lookup_l _ _ _ _ _ (st_lines _ _ _ _ _ H) Hx) as (l & Hl & Hlike).
    destruct (alike_request (th_shared th) (pa_store par) _ (l_conn l) request c' (ll_conn _ _ _ Hlike) E)
      as (l' & E' & Hl').
    pose proof (request_load (of_peer i h) l (pa_store par) request l' (Hls i l Hl) E') as Hlt.
    destruct (line_request (of_peer i h) l (pa_store par) request l' (Hls i l Hl) E') as (Hw & _ & _).
    pose proof (work_none _ _ _ _ _ _ _ _ H Hx Hl Hw) as Hn.
    pose proof (load_insert xs i x (mkActive c' (ac_arrived x) (Some (length rqs))) Hx) as Hsum.
    destruct l as [lc la lw], x as [xc xa xr].
    cbn [l_conn l_arrived l_work ac_conn ac_arrived ac_request] in *. subst lw xr.
    rewrite (idle_load xc lc xa la (ll_conn _ _ _ Hlike)) in Hsum.
    pose proof (busy_inbox c' l' xa la (length rqs) (Received request) Hl') as Hb. cbn [calls_left] in Hb.
    unfold load. cbn [sv_requests sv_threads]. rewrite sum_list_with_app. cbn [sum_list_with weight ac_arrived] in *. lia.
  - pose proof (busy_load _ _ _ _ _ _ (st_serves _ _ _ _ _ H) Hb) as Hlt. cbn [rn_serving] in Hlt. lia.
  - by eapply respond_load.
Qed.

(** A thread that has a request can go on with it. *)
Lemma busy_works sys rq par m h t k :
  stands s0 q sys rq par → shares m h par → current_of (rn_serving sys) t = Some k → ∃ sys', works fetch sys sys'.
Proof.
  intros H [_ Hdb Hls _ _] Ht. destruct sys as [srv ao ch xs [th rqs cs]].
  pose proof H as [H1 H2 H3 _ _ _ H7 H8]. cbn in *.
  destruct (busy_or_answered s0 q _ _ _ H1 H2) as [[sv' Hb]|Hall].
  { eexists. exists DoCall. split; [done|]. by apply run_call. }
  assert (cs !! t = Some (Some k)) as Hct.
  { unfold current_of in Ht. cbn in Ht. destruct (cs !! t); [by f_equal|done]. }
  destruct (lookup_lt_is_Some_2 rqs k (sx_bound _ _ _ _ _ H1 t k Ht)) as [p Hk].
  destruct (Forall_lookup_1 _ _ _ _ Hall Hk) as (request & response & ->).
  destruct (lookup_lt_is_Some_2 (th_pcs th) t) as [pc Hpc].
  { destruct H2 as [Hlen _]. cbn in Hlen. rewrite <- Hlen. by eapply lookup_lt_Some. }
  assert (pc = Idle) as ->.
  { destruct (pc_call pc) as [c|] eqn:Ec; [exfalso|by destruct pc].
    rewrite <- (pc_at_lookup _ _ _ Hpc) in Ec.
    destruct (sx_call _ _ _ _ _ H1 t c Ec) as (k' & p & _ & Hk' & Hn).
    destruct (Forall_lookup_1 _ _ _ _ Hall Hk') as (? & ? & ->). done. }
  destruct (as_line _ _ H3 t k Ht) as (i & x & Hx & Hxk).
  destruct (Forall2_lookup_l _ _ _ _ _ H8 Hx) as (l & Hl & Hlike).
  pose proof (ll_work _ _ _ Hlike) as Hw. rewrite Hxk in Hw. cbn in Hw.
  rewrite (serves_answered _ _ _ _ _ k _ H1 Hk) in Hw by (by eexists _, _).
  destruct (line_respond (of_peer i h) l (pa_store par) request response (Hls i l Hl) Hw) as (c1 & E1 & _).
  destruct (alike_response (pa_store par) (th_shared th) (l_conn l) (ac_conn x) response c1) as (c' & E' & _);
    [intros s; symmetry; apply Hlike|done|].
  eexists. exists (DoRespond i). split; [done|]. by eapply run_respond.
Qed.

(** A free thread finds the completions that are there. *)
Lemma ready_works sys rq par m h i x :
  stands s0 q sys rq par → shares m h par → rn_lines sys !! i = Some x → ac_request x = None →
  ready (ac_conn x) = true → some_free (rn_serving sys) → ∃ sys', works fetch sys sys'.
Proof.
  intros H Hsh Hx Hn Hready [t Ht]. pose proof Hsh as [_ Hdb Hls _ _]. destruct sys as [srv ao ch xs [th rqs cs]].
  destruct (Forall2_lookup_l _ _ _ _ _ (st_lines _ _ _ _ _ H) Hx) as (l & Hl & Hlike).
  cbn [rn_lines rn_serving sv_current] in *. pose proof (ll_conn _ _ _ Hlike) as Hal.
  assert (alike (l_conn l) (ac_conn x)) as Hla by (intros s; symmetry; apply Hal).
  assert (ready (l_conn l) = true) as Hready' by (by rewrite <- (alike_ready _ _ Hal)).
  pose proof (Hls i l Hl) as Hlok. unfold line_ok in Hlok. rewrite (ll_work _ _ _ Hlike), Hn in Hlok.
  cbn [mbind option_bind] in Hlok.
  destruct (request_arrived (Complete NoError) (with_store (pa_store par) (l_conn l))) as [[request l']|] eqn:Hr.
  - destruct (alike_request (pa_store par) (th_shared th) _ _ request l' Hla Hr) as (c' & E & _).
    eexists. exists (DoRequest i). split; [done|]. by eapply run_request.
  - destruct (dialogue_step _ (with_store (pa_store par) (l_conn l)) (l_arrived l) (Complete NoError)
      (proj1 Hlok) Hdb (ready_fetched _ _ _ Hready')) as (l' & _ & E & _).
    destruct (alike_event (Complete NoError) (pa_store par) (th_shared th) _ _ l' Hla Hr E) as (Hr' & _ & c' & E' & _).
    eexists. exists (DoEvent i (Complete NoError)). split; [by exists x|].
    eapply run_event; try done. intros ec _. by exists t.
Qed.

Lemma works_or_resting sys rq par m h :
  stands s0 q sys rq par → shares m h par → (0 < length (sv_current (rn_serving sys)))%nat →
  (∃ sys', works fetch sys sys') ∨ resting sys.
Proof.
  intros H Hsh Hn.
  destruct (decide (Forall (λ o, o = None) (sv_current (rn_serving sys)))) as [Hfree|D].
  2:{ left. apply not_Forall_Exists in D; [|apply _]. apply Exists_exists in D as (o & Ho & Hne).
      apply list_elem_of_lookup in Ho as [t Ht]. destruct o as [k|]; [|by destruct Hne].
      apply (busy_works sys rq par m h t k H Hsh). unfold current_of. by rewrite Ht. }
  assert (∀ t, current_of (rn_serving sys) t = None) as Hnone.
  { intros t. unfold current_of. destruct (sv_current (rn_serving sys) !! t) as [o|] eqn:E; [|done]. cbn.
    exact (Forall_lookup_1 _ _ _ _ Hfree E). }
  assert (some_free (rn_serving sys)) as Hsome.
  { destruct (lookup_lt_is_Some_2 _ _ Hn) as [o Ho]. exists 0%nat.
    by rewrite Ho, (Forall_lookup_1 _ _ _ _ Hfree Ho). }
  assert (∀ i x, rn_lines sys !! i = Some x → ac_request x = None) as Hreq.
  { intros i x Hx. destruct (ac_request x) as [k|] eqn:Ek; [exfalso|done].
    destruct (as_thread _ _ (st_assigned _ _ _ _ _ H) i x k Hx Ek) as [t Ht]. by rewrite Hnone in Ht. }
  destruct (decide (Forall (λ x, ready (ac_conn x) = false) (rn_lines sys))) as [Hall|D].
  - right. split.
    + intros t o Ht. exact (Forall_lookup_1 _ _ _ _ Hfree Ht).
    + apply Forall_lookup. intros t pc Hpc. destruct (pc_call pc) as [c|] eqn:Ec; [exfalso|by destruct pc].
      rewrite <- (pc_at_lookup _ _ _ Hpc) in Ec.
      destruct (sx_call _ _ _ _ _ (st_serves _ _ _ _ _ H) t c Ec) as (k & p & Ht & _). by rewrite Hnone in Ht.
    + apply Forall_lookup. intros i x Hx. split; [by eapply Hreq|]. exact (Forall_lookup_1 _ _ _ _ Hall Hx).
  - left. apply not_Forall_Exists in D; [|apply _]. apply Exists_exists in D as (x & Hx & Hr%not_false_is_true).
    apply list_elem_of_lookup in Hx as [i Hx].
    by apply (ready_works sys rq par m h i x H Hsh Hx (Hreq i x Hx)).
Qed.

(** At rest the server takes no step by itself. *)
Lemma resting_stuck sys sys' : resting sys → ¬ works fetch sys sys'.
Proof.
  intros [Hfree Hq Hls] (act & Ho & Hst).
  destruct Hst as [| |srv ao ch xs sv i x e c' Hx He Hfr Hr E
    |srv ao ch xs th rqs cs i x t request c' Hx Ht E|srv ao ch xs sv sv' (Hb & Hlen & Hcur)
    |srv ao ch xs th rqs cs i x t k request response c' Hx Hk Ht Hr Hpc E]; cbn in *; try done.
  - destruct e as [|[]|]; try done. destruct Ho as (y & Hy & Hready).
    destruct (Forall_lookup_1 _ _ _ _ Hls Hy) as [_ Hr']. congruence.
  - destruct (Forall_lookup_1 _ _ _ _ Hls Hx) as [_ Hr]. unfold request_arrived, ready in *.
    cbn [with_store handler inbox pending] in E. destruct (pending (ac_conn x)) as [[| |]|]; try done.
    apply Z.leb_gt in Hr. unfold zlen in *. by rewrite (proj2 (Z.ltb_lt _ _)) in E by lia.
  - destruct Hb as [th rqs cs i request Hi|th rqs cs i k p c Hi Hk Hn Hpc|th rqs cs i k p Hi Hk Hn He Hpc
      |th rqs cs i th' E|th rqs cs i k request response Hi Hk Hpc]; cbn in *.
    + rewrite length_app in Hlen. cbn in Hlen. lia.
    + by specialize (Hfree _ _ Hi).
    + by specialize (Hfree _ _ Hi).
    + unfold thread_step in E. destruct (th_pcs th !! i) as [pc|] eqn:Hpc; [|done].
      by rewrite (Forall_lookup_1 _ _ _ _ Hq Hpc) in E.
    + by specialize (Hfree _ _ Hi).
  - by specialize (Hfree _ _ Ht).
Qed.

(** The number of threads does not change. *)
Lemma serving_threads sv sv' : serving_step sv sv' → length (sv_current sv') = length (sv_current sv).
Proof. intros Hst. destruct Hst; cbn; by rewrite ?length_insert. Qed.

Lemma run_threads act sys sys' :
  run_step fetch act sys sys' → length (sv_current (rn_serving sys')) = length (sv_current (rn_serving sys)).
Proof. intros Hst. destruct Hst as [| | | |srv ao ch xs sv sv' (_ & _ & E)|]; cbn; rewrite ?length_insert; by try rewrite E. Qed.

Lemma works_settle sys rq par m h n :
  (running_load sys <= n)%nat → stands s0 q sys rq par → shares m h par → lines_counted par →
  (0 < length (sv_current (rn_serving sys)))%nat → ∃ sys', rtc (works fetch) sys sys' ∧ resting sys'.
Proof.
  revert sys rq par h. induction n as [|n IH]; intros sys rq par h Hn H Hsh Hc Ht;
    (destruct (works_or_resting sys rq par m h H Hsh Ht) as [[sys1 (act & Ho & H1)]|Hr]; [|by exists sys]);
    pose proof (works_load _ _ _ _ _ _ _ H Hsh Ho H1); [lia|].
  destruct (stands_step _ _ _ _ _ _ _ _ H Hc H1) as (rq1 & par1 & Hs1 & Hp1 & _).
  destruct (shares_steps fetch _ _ _ _ Hsh Hp1) as [es Hsh1].
  destruct (IH sys1 rq1 par1 (h ++ es)) as (sys' & Hst & Hr); [lia|done|done| | |].
  { by apply (par_steps_refine fetch _ _ Hc Hp1). }
  { by rewrite (run_threads _ _ _ H1). }
  exists sys'. split; [|done]. eapply rtc_l; [|done]. by exists act.
Qed.

Lemma works_bounded sys rq par m h n sys' :
  stands s0 q sys rq par → shares m h par → lines_counted par → nsteps (works fetch) n sys sys' →
  (n + running_load sys' <= running_load sys)%nat.
Proof.
  intros H Hsh Hc Hst. revert rq par h H Hsh Hc.
  induction Hst as [|n sys1 sys2 sys3 (act & Ho & H1) _ IH]; intros rq par h H Hsh Hc; [lia|].
  pose proof (works_load _ _ _ _ _ _ _ H Hsh Ho H1).
  destruct (stands_step _ _ _ _ _ _ _ _ H Hc H1) as (rq1 & par1 & Hs1 & Hp1 & _).
  destruct (shares_steps fetch _ _ _ _ Hsh Hp1) as [es Hsh1].
  specialize (IH rq1 par1 _ Hs1 Hsh1 (proj2 (par_steps_refine fetch _ _ Hc Hp1))). lia.
Qed.

(** A client whose connection is at rest closes its end: the operation that is under way
    completes with an error. *)
Lemma hang_one sys rq par i x :
  stands s0 q sys rq par → lines_counted par → resting sys → some_free (rn_serving sys) →
  rn_lines sys !! i = Some x → disconnects (ac_conn x) = 0%nat →
  ∃ sys' x', run_step fetch (DoEvent i (Complete OtherError)) sys sys' ∧ resting sys' ∧
    rn_serving sys' = rn_serving sys ∧ rn_chain sys' = rn_chain sys ∧
    rn_lines sys' = <[i := x']> (rn_lines sys) ∧ disconnects (ac_conn x') = 1%nat.
Proof.
  intros H Hc [Hfree Hq Hrest] Hsome Hx Hd. destruct sys as [srv ao ch xs sv].
  destruct (Forall2_lookup_l _ _ _ _ _ (st_lines _ _ _ _ _ H) Hx) as (l & Hl & Hlike).
  cbn [rn_lines rn_serving rn_chain] in *. pose proof (ll_conn _ _ _ Hlike) as Hal.
  assert (alike (l_conn l) (ac_conn x)) as Hla by (intros s; symmetry; apply Hal).
  destruct (Forall_lookup_1 _ _ _ _ Hrest Hx) as [Hn Hr].
  assert (settled l = true) as Hs.
  { unfold settled. rewrite (ll_work _ _ _ Hlike), Hn. cbn. by rewrite <- (alike_ready _ _ Hal), Hr. }
  destruct (hang_event l (pa_store par) (Forall_lookup_1 _ _ _ _ Hc Hl) Hs) as (l' & E & Hd' & Hp & _).
  { by rewrite <- (alike_disconnects _ _ Hal). }
  destruct (alike_event (Complete OtherError) (pa_store par) (shared sv) _ _ l' Hla eq_refl E)
    as (Hr' & _ & c' & E' & Hl' & Es).
  eexists (mkRunning _ _ _ _ _), _. split; [by eapply run_event|].
  cbn [rn_lines rn_serving rn_chain]. rewrite Es, set_process_same. split; [split; cbn|]; try done.
  - apply Forall_insert; [done|]. split; [done|]. cbn. rewrite <- (alike_ready _ _ Hl'). unfold ready. by rewrite Hp.
  - do 3 (split; [done|]). cbn. by rewrite <- (alike_disconnects _ _ Hl').
Qed.

Definition hangs_up sys sys' : Prop := ∃ i, run_step fetch (DoEvent i (Complete OtherError)) sys sys'.

Lemma hangs_up_steps sys sys' : rtc hangs_up sys sys' → rtc (run_steps fetch) sys sys'.
Proof. induction 1 as [|? ? ? [i H] _ IH]; [done|]. eapply rtc_l; [by eexists|done]. Qed.

Lemma works_steps sys sys' : rtc (works fetch) sys sys' → rtc (run_steps fetch) sys sys'.
Proof. induction 1 as [|? ? ? (act & _ & H) _ IH]; [done|]. eapply rtc_l; [by exists act|done]. Qed.

(** One after the other. *)
Lemma hang_first sys rq par n :
  stands s0 q sys rq par → lines_counted par → resting sys → some_free (rn_serving sys) →
  ∃ sys', rtc hangs_up sys sys' ∧ resting sys' ∧ rn_serving sys' = rn_serving sys ∧
    length (rn_lines sys') = length (rn_lines sys) ∧
    ∀ i x, (i < n)%nat → rn_lines sys' !! i = Some x → disconnects (ac_conn x) ≠ 0%nat.
Proof.
  intros H Hc Hr Hf. induction n as [|n (sys1 & Hst & Hr1 & Hv & Hlen & Hd)]; [exists sys; split_and!; try done; lia|].
  destruct (stands_steps s0 q fetch sys sys1 rq par H Hc (hangs_up_steps _ _ Hst)) as (rq1 & par1 & H1 & _ & Hc1).
  destruct (rn_lines sys1 !! n) as [x|] eqn:Hx; [destruct (decide (disconnects (ac_conn x) = 0%nat)) as [D|D]|].
  - destruct (hang_one sys1 rq1 par1 n x H1 Hc1 Hr1) as (sys' & x' & Hst' & Hr' & Hv' & _ & Hls & Hd');
      [by rewrite Hv|done..|].
    exists sys'. split; [by eapply rtc_r; [|exists n]|]. split_and!; [done|congruence|by rewrite Hls, length_insert|].
    intros j y Hj. rewrite Hls. destruct (decide (n = j)) as [->|Hne].
    + rewrite list_lookup_insert_eq by (by eapply lookup_lt_Some). intros [= <-]. by rewrite Hd'.
    + rewrite list_lookup_insert_ne by done. apply Hd. lia.
  - exists sys1. split_and!; try done. intros j y Hj Hy. destruct (decide (j = n)) as [->|Hne].
    + by rewrite Hx in Hy; injection Hy as <-.
    + apply (Hd j y); [lia|done].
  - exists sys1. split_and!; try done. intros j y Hj Hy. apply (Hd j y); [|done].
    apply lookup_lt_Some in Hy. apply lookup_ge_None in Hx. lia.
Qed.
End Progress.

(** What a state shows of the execution that it stands for. *)
Lemma request_of_ahead pc p : request_of (ahead pc p) = request_of p.
Proof.
  unfold ahead. destruct (pc_phase pc) as [|c|c r]; try done.
  destruct p as [rq|rq u|rq u ty v|rq rp], r as [[w|]|w|w|w]; cbn; try done; by repeat case_match.
Qed.

Lemma stands_request_of s0 q sys rq par k :
  stands s0 q sys rq par →
  request_of <$> (rq_progress rq !! k) = request_of <$> (sv_requests (rn_serving sys) !! k).
Proof.
  intros H. pose proof (st_serves _ _ _ _ _ H) as Hs.
  destruct (sv_requests (rn_serving sys) !! k) as [p|] eqn:Hk.
  - destruct (serves_lookup _ _ _ _ _ k _ Hs Hk) as [(i & _ & ->)|[_ ->]]; [|done]. cbn. by rewrite request_of_ahead.
  - apply lookup_ge_None in Hk. rewrite <- (sx_len _ _ _ _ _ Hs) in Hk. by rewrite lookup_ge_None_2.
Qed.

Lemma stands_quiet s0 q sys rq par :
  stands s0 q sys rq par → LockingTheorems.quiet (sv_threads (rn_serving sys)) →
  pa_store par = shared (rn_serving sys).
Proof.
  intros H Hq. rewrite (st_store _ _ _ _ _ H). symmetry. apply (serves_quiet _ _ _ _ _ (st_serves _ _ _ _ _ H) Hq).
Qed.

Lemma stands_reachable fetch srv n s0 q sys :
  opened s0 q → rtc (run_steps fetch) (running_start srv n s0) sys →
  ∃ rq par, stands s0 q sys rq par ∧ rtc (par_steps fetch) (parallel_start srv s0) par ∧ lines_counted par.
Proof. intros Ho. eapply stands_steps; [by apply stands_start|apply lines_counted_start]. Qed.

(** Every state that is reached has its history. *)
Lemma running_history fetch srv n s sys :
  db_ok s → srv_database_ srv = true →
  rtc (run_steps fetch) (running_start srv n s) sys →
  ∃ q rq par h, stands s q sys rq par ∧ shares (contents s) h par ∧
    rtc (par_steps fetch) (parallel_start srv s) par ∧ lines_counted par.
Proof.
  intros Hs Hd Hst. destruct (db_ok_opened s Hs) as [q Ho].
  destruct (stands_reachable _ _ _ _ _ _ Ho Hst) as (rq & par & H & Hp & Hc).
  destruct (shares_steps fetch (contents s) [] _ _ (shares_start _ srv s Hs Hd eq_refl) Hp) as [h Hh].
  by exists q, rq, par, h.
Qed.

Lemma active_share s0 q sys rq par m h i x :
  stands s0 q sys rq par → shares m h par → rn_lines sys !! i = Some x →
  ∃ datas es now, of_peer i h = es ++ option_list now ∧
    (∀ e, now = Some e → request_of <$> (ac_request x ≫= (sv_requests (rn_serving sys) !!.)) = Some e.1) ∧
    concat (map frame datas) `prefix_of` ac_arrived x ∧
    Forall2 carries datas
      (es.*1 ++ option_list (request_of <$> (ac_request x ≫= (sv_requests (rn_serving sys) !!.)))) ∧
    writes es.*2 (ac_conn x).
Proof.
  intros H Hh Hx. destruct (Forall2_lookup_l _ _ _ _ _ (st_lines _ _ _ _ _ H) Hx) as (l & Hl & [H1 H2 H3]).
  destruct (line_share _ l _ (sh_lines _ _ _ Hh i l Hl)) as (datas & es & E1 & E2 & E3 & E4).
  assert (request_of <$> l_work l = request_of <$> (ac_request x ≫= (sv_requests (rn_serving sys) !!.))) as Hw.
  { rewrite H3. destruct (ac_request x) as [k|]; [|done]. cbn. by eapply stands_request_of. }
  exists datas, es, (l_work l ≫= effect). rewrite <- Hw. split; [done|]. split.
  { intros [r1 r2] E. destruct (l_work l) as [[]|]; try done; cbn in *; by simplify_eq. }
  split; [by rewrite <- H2|]. split; [done|].
  - by eapply alike_writes.
Qed.

Lemma resting_free sys :
  resting sys → (0 < length (sv_current (rn_serving sys)))%nat → some_free (rn_serving sys).
Proof.
  intros Hr Hlt. destruct (lookup_lt_is_Some_2 _ _ Hlt) as [o Ho]. exists 0%nat.
  by rewrite Ho, (re_free _ Hr _ _ Ho).
Qed.

(** Without a request under way, the history of a connection is what it was answered. *)
Lemma idle_share s0 q sys rq par m h i x :
  stands s0 q sys rq par → shares m h par → rn_lines sys !! i = Some x → ac_request x = None →
  writes (of_peer i h).*2 (ac_conn x).
Proof.
  intros H Hh Hx Hn. destruct (active_share _ _ _ _ _ _ _ _ _ H Hh Hx) as (_ & es & now & E1 & E2 & _ & _ & Hw).
  destruct now as [e|]; [|by rewrite E1, app_nil_r]. specialize (E2 e eq_refl). by rewrite Hn in E2.
Qed.

Lemma run_steps_threads fetch sys sys' :
  rtc (run_steps fetch) sys sys' → length (sv_current (rn_serving sys')) = length (sv_current (rn_serving sys)).
Proof.
  induction 1 as [|sys1 sys2 sys3 [act H] _ IH]; [done|]. by rewrite IH, (run_threads _ _ _ _ H).
Qed.

Lemma running_threads fetch srv n s sys :
  rtc (run_steps fetch) (running_start srv n s) sys → length (sv_current (rn_serving sys)) = n.
Proof. intros Hst. rewrite (run_steps_threads _ _ _ Hst). cbn. by rewrite length_replicate. Qed.

(** At rest the lines are settled. *)
Lemma resting_settled s0 q sys rq par i x l :
  stands s0 q sys rq par → resting sys → rn_lines sys !! i = Some x → pa_lines par !! i = Some l →
  settled l = true.
Proof.
  intros H Hr Hx Hl. destruct (Forall2_lookup_lr _ _ _ _ _ _ (st_lines _ _ _ _ _ H) Hx Hl) as [H1 _ H3].
  destruct (Forall_lookup_1 _ _ _ _ (re_lines _ Hr) Hx) as [Hn Hrd].
  unfold settled. rewrite H3, Hn. cbn. by rewrite <- (alike_ready _ _ H1), Hrd.
Qed.

(** What the end of a run, after which the server rests, has of a connection whose stream is
    whole requests: the first of them were answered, and all of them, unless the buffers of a
    response's write are gone. *)
Definition answered_as_far (requests : list Message) (es : list (Message * Message)) (x : Active) : Prop :=
  es.*1 `prefix_of` requests ∧ disconnects (ac_conn x) = 0%nat ∧ writes es.*2 (ac_conn x) ∧
  (unfetched (ac_conn x) = 0%nat → es.*1 = requests ∧ outbox (ac_conn x) = frames es.*2).

Lemma rest_answered fetch s0 q sys sys' rq rq' par par' m h h' i x requests :
  stands s0 q sys rq par → shares m h par → stands s0 q sys' rq' par' →
  shares m h' par' → rtc (goes fetch) par par' → resting sys' → rn_lines sys !! i = Some x →
  Forall frameable requests → ac_arrived x = frames requests → disconnects (ac_conn x) = 0%nat →
  ∃ x', rn_lines sys' !! i = Some x' ∧ answered_as_far requests (of_peer i h') x'.
Proof.
  intros H Hh H' Hh' Hgo Hr Hx Hrs Harr Hdis.
  destruct (Forall2_lookup_l _ _ _ _ _ (st_lines _ _ _ _ _ H) Hx) as (l & Hl & [L1 L2 _]).
  assert (healthy_line requests l) as Hhl.
  { split; [by rewrite L2|]. by rewrite <- (alike_disconnects _ _ L1). }
  destruct (goes_many_healthy fetch _ _ _ _ _ _ _ Hh Hgo Hl Hrs Hhl) as (l' & Hl' & Hhl').
  destruct (Forall2_lookup_r _ _ _ _ _ (st_lines _ _ _ _ _ H') Hl') as (x' & Hx' & [R1 _ _]).
  pose proof (resting_settled _ _ _ _ _ _ _ _ H' Hr Hx' Hl') as Hset.
  pose proof (sh_lines _ _ _ Hh' i l' Hl') as Hlok.
  destruct (healthy_prefix _ _ _ requests Hlok) as [P1 P2]; [|done..|].
  { unfold settled in Hset. by destruct (l_work l'). }
  exists x'. split; [done|]. split; [done|]. split; [rewrite (alike_disconnects _ _ R1); apply Hhl'|].
  split; [by eapply alike_writes|]. intros Hu.
  assert (unfetched (l_conn l') = 0%nat) as Hu'.
  { rewrite <- Hu. symmetry. exact (f_equal unfetched (R1 (pa_store par'))). }
  destruct (settled_answered _ _ _ requests Hlok Hset Hrs Hhl' Hu') as [E1 E2].
  split; [done|]. rewrite <- E2. exact (f_equal outbox (R1 (pa_store par'))).
Qed.

(** Connections that all reported a disconnect did it once. *)
Lemma all_reported s0 q sys rq par :
  stands s0 q sys rq par → lines_counted par →
  (∀ i x, rn_lines sys !! i = Some x → disconnects (ac_conn x) ≠ 0%nat) →
  Forall (λ x, disconnects (ac_conn x) = 1%nat) (rn_lines sys) ∧
  Forall (λ l, disconnects (l_conn l) = 1%nat) (pa_lines par).
Proof.
  intros H Hc Hall. assert (∀ i x l, rn_lines sys !! i = Some x → pa_lines par !! i = Some l →
    disconnects (ac_conn x) = 1%nat ∧ disconnects (l_conn l) = 1%nat) as Hone.
  { intros i x l Hx Hl.
    pose proof (ll_conn _ _ _ (Forall2_lookup_lr _ _ _ _ _ _ (st_lines _ _ _ _ _ H) Hx Hl)) as Hal.
    specialize (Hall i x Hx). rewrite (alike_disconnects _ _ Hal) in Hall |- *. split; [|].
    all: pose proof (Forall_lookup_1 _ _ _ _ Hc Hl) as Hcl; unfold line_counted in Hcl;
      destruct (l_work l); [by destruct Hcl as (_ & _ & ?)|by destruct Hcl as [_ [[_ ?]|[_ ?]]]]. }
  split; apply Forall_lookup.
  - intros i x Hx. destruct (Forall2_lookup_l _ _ _ _ _ (st_lines _ _ _ _ _ H) Hx) as (l & Hl & _).
    by eapply Hone.
  - intros i l Hl. destruct (Forall2_lookup_r _ _ _ _ _ (st_lines _ _ _ _ _ H) Hl) as (x & Hx & _).
    by eapply Hone.
Qed.

(** ** Theorems *)

(** C13.  The server refines: whatever I/O does, and however its threads are interrupted inside
    their calls of the database, there is an execution of [Parallel.v], where a call is one
    step, with the same counters, the same chain and the same connections, on which the same
    bytes arrived and were written; when no call is under way it has the same database. *)
Theorem running_refines (fetch : nat → nat → nat → nat) (srv : DatabaseServer) (n : nat)
    (s : Process) (q : nat) (sys : Running) :
  opened s q → rtc (run_steps fetch) (running_start srv n s) sys →
  ∃ par : Parallel Process nat, rtc (par_steps fetch) (parallel_start srv s) par ∧
    pa_server par = rn_server sys ∧ pa_acceptor_open par = rn_acceptor_open sys ∧
    pa_chain par = rn_chain sys ∧
    Forall2 (λ x l, alike (ac_conn x) (l_conn l) ∧ l_arrived l = ac_arrived x ∧
      request_of <$> l_work l = request_of <$> (ac_request x ≫= (sv_requests (rn_serving sys) !!.)))
      (rn_lines sys) (pa_lines par) ∧
    (LockingTheorems.quiet (sv_threads (rn_serving sys)) → pa_store par = shared (rn_serving sys)).
Proof.
  intros Ho Hst. destruct (stands_reachable _ _ _ _ _ _ Ho Hst) as (rq & par & H & Hp & _).
  exists par. split; [done|]. do 3 (split; [apply H|]). split; [|by eapply stands_quiet].
  eapply Forall2_impl; [apply H|]. intros x l [H1 H2 H3]. split; [done|]. split; [done|].
  rewrite H3. destruct (ac_request x) as [k|]; [|done]. cbn. by eapply stands_request_of.
Qed.

(** C6.  The server as a whole, with its threads and its locks, while I/O works: there is one
    sequential history of requests and responses from the database's first contents, which only grows; what it has
    of a connection is the requests that were answered on it, in the order of its stream, and
    perhaps the one that a thread is processing now; what was written is the responses, of the
    last one what its write fetched at its start; and when no call is under way it has led to
    the contents of the database. *)
Theorem running_serves_all (fetch : nat → nat → nat → nat) (srv : DatabaseServer) (n : nat)
    (s : Process) (sys sys' : Running) :
  db_ok s → srv_database_ srv = true →
  rtc (run_steps fetch) (running_start srv n s) sys → rtc (run_steps fetch) sys sys' →
  ∃ (h new : list (nat * (Message * Message))) m m',
    served_all (contents s) h.*2.*1 h.*2.*2 m ∧
    served_all (contents s) (h ++ new).*2.*1 (h ++ new).*2.*2 m' ∧
    (LockingTheorems.quiet (sv_threads (rn_serving sys')) → m' = contents (shared (rn_serving sys'))) ∧
    ∀ i x, rn_lines sys' !! i = Some x →
      ∃ datas es now, of_peer i (h ++ new) = es ++ option_list now ∧
        (∀ e, now = Some e → request_of <$> (ac_request x ≫= (sv_requests (rn_serving sys') !!.)) = Some e.1) ∧
        concat (map frame datas) `prefix_of` ac_arrived x ∧
        Forall2 carries datas
          (es.*1 ++ option_list (request_of <$> (ac_request x ≫= (sv_requests (rn_serving sys') !!.)))) ∧
        writes es.*2 (ac_conn x).
Proof.
  intros Hs Hd Hst Hst'.
  destruct (running_history _ _ _ _ _ Hs Hd Hst) as (q & rq & par & h & H & Hh & _ & Hc).
  destruct (stands_steps _ _ _ _ _ _ _ H Hc Hst') as (rq' & par' & H' & Hp' & _).
  destruct (shares_steps fetch (contents s) _ _ _ Hh Hp') as [new Hn].
  exists h, new, (contents (pa_store par)), (contents (pa_store par')).
  split; [apply Hh|]. split; [apply Hn|]. split; [intros Hq; by rewrite (stands_quiet _ _ _ _ _ H' Hq)|].
  intros i x Hx. destruct (active_share _ _ _ _ _ _ _ _ _ H' Hn Hx) as (datas & es & now & ?).
  by exists datas, es, now.
Qed.

(** C7.  It answers: while I/O works and with at least one thread, from any state that was reached and whatever the
    scheduler does, the server takes boundedly many steps by itself, and when it can take none
    its threads are free and every request that has arrived whole has its response: on each
    connection whose stream is frames of well-formed requests, exactly these were answered, or
    the first of them up to a response whose write did not fetch all its bytes at its start
    (and whose buffers are gone). *)
Theorem running_answers_all (fetch : nat → nat → nat → nat) (srv : DatabaseServer) (n : nat)
    (s : Process) (sys : Running) :
  db_ok s → srv_database_ srv = true → (0 < n)%nat →
  rtc (run_steps fetch) (running_start srv n s) sys →
  (∀ k sys', nsteps (works fetch) k sys sys' → (k <= running_load sys)%nat) ∧
  (∃ sys', rtc (works fetch) sys sys' ∧ ∀ sys'', ¬ works fetch sys' sys'') ∧
  ∀ sys', rtc (works fetch) sys sys' → (∀ sys'', ¬ works fetch sys' sys'') →
    resting sys' ∧
    ∃ h : list (nat * (Message * Message)),
      served_all (contents s) h.*2.*1 h.*2.*2 (contents (shared (rn_serving sys'))) ∧
      ∀ i x requests, rn_lines sys !! i = Some x → Forall frameable requests →
        ac_arrived x = frames requests → disconnects (ac_conn x) = 0%nat →
        ∃ x', rn_lines sys' !! i = Some x' ∧ answered_as_far requests (of_peer i h) x'.
Proof.
  intros Hs Hd Hn Hst.
  destruct (running_history _ _ _ _ _ Hs Hd Hst) as (q & rq & par & h & H & Hh & _ & Hc).
  pose proof (running_threads _ _ _ _ _ Hst) as Ht. split; [|split].
  - intros k sys' Hk. pose proof (works_bounded _ _ _ _ _ _ _ _ _ _ H Hh Hc Hk). lia.
  - destruct (works_settle _ _ fetch _ _ _ _ _ _ (le_n _) H Hh Hc) as (sys' & Hst' & Hr); [by rewrite Ht|].
    exists sys'. split; [done|]. intros sys''. by apply resting_stuck.
  - intros sys' Hst' Hstuck.
    destruct (stands_works _ _ _ _ _ _ _ H Hc Hst') as (rq' & par' & H' & Hgo & Hc').
    destruct (shares_steps fetch _ _ _ _ Hh (goes_steps _ _ _ Hgo)) as [es Hh'].
    assert (resting sys') as Hr.
    { destruct (works_or_resting _ _ fetch _ _ _ _ _ H' Hh') as [[sys'' Hw]|]; [|by edestruct Hstuck|done].
      by rewrite (run_steps_threads _ _ _ (works_steps _ _ _ Hst')), Ht. }
    split; [done|]. exists (h ++ es). split.
    + rewrite <- (stands_quiet _ _ _ _ _ H' (re_quiet _ Hr)). apply Hh'.
    + intros i x requests. by apply (rest_answered fetch s q sys sys' rq rq' par par' (contents s) h).
Qed.

(** When the clients hang up, wherever the server is: its threads finish what they have, every
    connection reports its disconnect exactly once, and the connection counter returns to zero
    (or to the one connection that the accept chain is just counting). *)
Theorem running_drains (fetch : nat → nat → nat → nat) (srv : DatabaseServer) (n : nat)
    (s : Process) (sys : Running) :
  db_ok s → srv_database_ srv = true → connection_count_ srv = 0 → (0 < n)%nat →
  rtc (run_steps fetch) (running_start srv n s) sys →
  ∃ sys1 sys', rtc (works fetch) sys sys1 ∧ rtc (hangs_up fetch) sys1 sys' ∧ resting sys' ∧
    Forall (λ x, disconnects (ac_conn x) = 1%nat) (rn_lines sys') ∧
    rn_connection_count sys' = match rn_chain sys' with Counted => 1 | _ => 0 end.
Proof.
  intros Hs Hd H0 Hn Hst.
  destruct (running_history _ _ _ _ _ Hs Hd Hst) as (q & rq & par & h & H & Hh & Hp & Hc).
  pose proof (running_threads _ _ _ _ _ Hst) as Ht.
  destruct (works_settle _ _ fetch _ _ _ _ _ _ (le_n _) H Hh Hc) as (sys1 & Hst1 & Hr1); [by rewrite Ht|].
  pose proof (works_steps _ _ _ Hst1) as Hsteps1.
  destruct (stands_steps _ _ _ _ _ _ _ H Hc Hsteps1) as (rq1 & par1 & H1 & Hp1 & Hc1).
  destruct (hang_first s q fetch sys1 rq1 par1 (length (rn_lines sys1)) H1 Hc1 Hr1)
    as (sys' & Hst' & Hr' & _ & Hlen & Hall).
  { apply (resting_free _ Hr1). by rewrite (run_steps_threads _ _ _ Hsteps1), Ht. }
  destruct (stands_steps _ _ _ _ _ _ _ H1 Hc1 (hangs_up_steps _ _ _ Hst')) as (rq' & par' & H' & Hp' & Hc').
  exists sys1, sys'. split; [done|]. split; [done|]. split; [done|].
  destruct (all_reported s q sys' rq' par' H' Hc') as [Hx Hl].
  { intros i x Hi. apply (Hall i x); [|done]. rewrite <- Hlen. by eapply lookup_lt_Some. }
  split; [done|]. destruct (parallel_count fetch srv s par' H0) as (_ & _ & Hcnt & _).
  { by do 2 (etrans; [done|]). }
  unfold pa_connection_count in Hcnt. unfold rn_connection_count.
  rewrite <- (st_server _ _ _ _ _ H'), Hcnt, <- (st_chain _ _ _ _ _ H'), open_lines_none; [done|].
  eapply Forall_impl; [exact Hl|]. intros l E. by rewrite E.
Qed.

(** ** Witnesses *)

Lemma thread_run i th :
  match thread_step i th with Some _ => true | None => false end = true → thread_step i th = Some (default th (thread_step i th)).
Proof. by destruct (thread_step i th). Qed.

Lemma run_now fetch act sys1 sys2 sys3 :
  run_step fetch act sys1 sys2 → rtc (run_steps fetch) sys2 sys3 → rtc (run_steps fetch) sys1 sys3.
Proof. intros H. apply rtc_l. by exists act. Qed.

Lemma call_now fetch srv ao ch ls th rqs cs i k p c sys :
  cs !! i = Some (Some k) → rqs !! k = Some p → next_call p = Some c → th_pcs th !! i = Some Idle →
  rtc (run_steps fetch)
    (mkRunning srv ao ch ls (mkServing (happens (Called i c) (goto i (Entered c) th)) rqs cs)) sys →
  rtc (run_steps fetch) (mkRunning srv ao ch ls (mkServing th rqs cs)) sys.
Proof. intros. eapply run_now; [|done]. apply run_call. split; [by eapply serving_calls|done]. Qed.

Lemma thread_now fetch srv ao ch ls th rqs cs i sys :
  match thread_step i th with Some _ => true | None => false end = true →
  rtc (run_steps fetch)
    (mkRunning srv ao ch ls
       (mkServing (default th (thread_step i th)) (after_step i (mkServing th rqs cs)) cs)) sys →
  rtc (run_steps fetch) (mkRunning srv ao ch ls (mkServing th rqs cs)) sys.
Proof.
  intros H. apply run_now with DoCall. apply run_call. split; [by apply serving_runs, thread_run|].
  split; [|done]. unfold after_step. cbn. by repeat case_match; rewrite ?length_alter.
Qed.

(** A connection is accepted, a PUT arrives on it and begins its transaction; then its thread
    takes [n] steps of its call of [put]. *)
Tactic Notation "run_demo" integer(n) :=
  eapply run_now; [by eapply (run_accept _ _ _ _ _ _ _ 0 0), accept_admitted|];
  eapply run_now; [eapply (run_accept _ _ _ _ _ _ _ 0 0), accept_counted|];
  eapply run_now; [apply run_connect|];
  eapply run_now; [eapply (run_event _ _ _ _ _ _ 0 _ (Arrive (frames [put_request 1 "k" "v"])));
    [reflexivity|exact I|discriminate|reflexivity|apply event_run; vm_compute; reflexivity]|];
  eapply run_now; [eapply (run_event _ _ _ _ _ _ 0 _ (Complete NoError));
    [reflexivity|discriminate|intros; by exists 0%nat|vm_compute; reflexivity|apply event_run; vm_compute; reflexivity]|];
  eapply run_now; [eapply (run_request _ _ _ _ _ _ _ _ 0 _ 0 (put_request 1 "k" "v"));
    [reflexivity|reflexivity|apply request_run; vm_compute; reflexivity]|];
  eapply (call_now _ _ _ _ _ _ _ _ 0 0 (Received (put_request 1 "k" "v")) CallBegin);
    [reflexivity..|];
  do 4 (apply (thread_now _ _ _ _ _ _ _ _ 0); [vm_compute; reflexivity|]);
  eapply (call_now _ _ _ _ _ _ _ _ 0 0 (Begun (put_request 1 "k" "v") 0%nat) (CallPut 0 "k" "v"));
    [vm_compute; reflexivity..|];
  do n (apply (thread_now _ _ _ _ _ _ _ _ 0); [vm_compute; reflexivity|]).

(** A thread has put the value of a request into the map, and is about to log it. *)
Lemma demo_running_reached :
  ∃ sys, rtc (run_steps eager_fetch) (running_start demo_srv 2 demo_process) sys ∧
    th_pcs (sv_threads (rn_serving sys)) = [Logging (CallPut 0 "k" "v") ""; Idle] ∧
    sv_requests (rn_serving sys) = [Begun (put_request 1 "k" "v") 0%nat] ∧
    ∃ x, rn_lines sys = [x] ∧ ac_request x = Some 0%nat ∧ ac_arrived x = frames [put_request 1 "k" "v"] ∧
      disconnects (ac_conn x) = 0%nat.
Proof.
  eexists. split; [|split; [|split]].
  - run_demo 2. apply rtc_refl.
  - vm_compute. reflexivity.
  - vm_compute. reflexivity.
  - eexists. split; [reflexivity|]. split; [|split]; vm_compute; reflexivity.
Qed.

Lemma running_refines_witness :
  ∃ (sys : Running) (par : Parallel Process nat), rtc (par_steps eager_fetch) (parallel_start demo_srv demo_process) par ∧
    th_pcs (sv_threads (rn_serving sys)) = [Logging (CallPut 0 "k" "v") ""; Idle] ∧
    pa_server par = rn_server sys ∧ length (pa_lines par) = 1%nat.
Proof.
  destruct demo_running_reached as (sys & Hst & Hpcs & _ & x & Hx & _).
  destruct (running_refines eager_fetch demo_srv 2 demo_process 0 sys demo_process_opened Hst)
    as (par & Hp & Hs & _ & _ & Hls & _).
  exists sys, par. split; [exact Hp|]. split; [exact Hpcs|]. split; [exact Hs|].
  rewrite <- (Forall2_length _ _ _ Hls), Hx. reflexivity.
Defined.

Lemma running_serves_all_witness :
  ∃ (sys : Running) (h : list (nat * (Message * Message))) m x,
    rtc (run_steps eager_fetch) (running_start demo_srv 2 demo_process) sys ∧
    served_all (contents demo_process) h.*2.*1 h.*2.*2 m ∧ rn_lines sys = [x] ∧
    ∃ datas es now, of_peer 0 h = es ++ option_list now ∧
      Forall2 carries datas (es.*1 ++ [put_request 1 "k" "v"]) ∧ writes es.*2 (ac_conn x).
Proof.
  destruct demo_running_reached as (sys & Hst & _ & Hrq & x & Hx & Hk & _).
  destruct (running_serves_all eager_fetch demo_srv 2 demo_process sys sys demo_ok eq_refl Hst (rtc_refl _ _))
    as (h & new & m & m' & _ & Hs & _ & Hall).
  exists sys, (h ++ new), m', x. split; [exact Hst|]. split; [exact Hs|]. split; [exact Hx|].
  destruct (Hall 0%nat x) as (datas & es & now & E1 & _ & _ & E2 & E3); [rewrite Hx; reflexivity|].
  exists datas, es, now. split; [exact E1|]. split; [|exact E3].
  rewrite Hk, Hrq in E2. exact E2.
Defined.

Lemma running_answers_all_witness :
  ∃ (sys sys' : Running) (h : list (nat * (Message * Message))) x,
    th_pcs (sv_threads (rn_serving sys)) = [Logging (CallPut 0 "k" "v") ""; Idle] ∧
    rtc (works eager_fetch) sys sys' ∧ resting sys' ∧
    served_all (contents demo_process) h.*2.*1 h.*2.*2 (contents (shared (rn_serving sys'))) ∧
    rn_lines sys' !! 0%nat = Some x ∧ answered_as_far [put_request 1 "k" "v"] (of_peer 0 h) x.
Proof.
  destruct demo_running_reached as (sys & Hst & Hpcs & _ & x & Hx & _ & Harr & Hdis).
  destruct (running_answers_all eager_fetch demo_srv 2 demo_process sys demo_ok eq_refl) as (_ & (sys' & Hw & Hn) & Hall).
  - lia.
  - exact Hst.
  - destruct (Hall sys' Hw Hn) as (Hr & h & Hs & Hp).
    destruct (Hp 0%nat x [put_request 1 "k" "v"]) as (x' & Hx' & Ho).
    + rewrite Hx. reflexivity.
    + apply Forall_cons; split; [exact (proj1 (proj1 (Forall_cons _ _ _) demo_requests_frameable))|constructor].
    + exact Harr.
    + exact Hdis.
    + exists sys, sys', h, x'. exact (conj Hpcs (conj Hw (conj Hr (conj Hs (conj Hx' Ho))))).
Defined.

Lemma running_drains_witness :
  ∃ sys sys1 sys' : Running,
    th_pcs (sv_threads (rn_serving sys)) = [Logging (CallPut 0 "k" "v") ""; Idle] ∧
    rtc (works eager_fetch) sys sys1 ∧ rtc (hangs_up eager_fetch) sys1 sys' ∧
    Forall (λ x, disconnects (ac_conn x) = 1%nat) (rn_lines sys').
Proof.
  destruct demo_running_reached as (sys & Hst & Hpcs & _).
  destruct (running_drains eager_fetch demo_srv 2 demo_process sys demo_ok eq_refl eq_refl) as (sys1 & sys' & H1 & H2 & _ & H3 & _).
  - lia.
  - exact Hst.
  - exists sys, sys1, sys'. exact (conj Hpcs (conj H1 (conj H2 H3))).
Defined.
