(* ===== verification/Durability.v ===== *)
(** * What survives a crash

    The server of [IoThreads.v] is stopped at any moment, its threads wherever they are in
    [process_request_sync] ([src/network/server.cpp]) and in the calls of the database
    ([src/core/persistent_database.cpp]), and a new process is initialised on the log file
    that was written so far: it holds what the sequential history of the requests gives, in
    which every request is that a client has a response for. *)

From stdpp Require Import base gmap list strings relations.
From Stdlib Require Import ZArith Lia.
From Stdlib Require Import Strings.Byte.
From S2P Require Import Prelude.
From S2P Require Import Bytes.
From S2P Require Import Framing.
From S2P Require Import Protocol.
From S2P Require Import WalRecord.
From S2P Require Import LogReader.
From S2P Require Import Effects.
From S2P Require Import Wal.
From S2P Require Import Interface.
From S2P Require Import Database.
From S2P Require Import Server.
From S2P Require Import Locking.
From S2P Require Import LockingInvariant.
From S2P Require Import LockingTheorems.
From S2P Require Import Concurrency.
From S2P Require Import Serving.
From S2P Require Import Connection.
From S2P Require Import System.
From S2P Require Import Parallel.
From S2P Require Import IoThreads.

(** The requests that the threads received. *)
Definition received (sv : Serving) : list Message := request_of <$> sv_requests sv.

(** A request whose log record is within the reader's limit.  (What a connection accepts can
    be twelve bytes more.) *)
Definition loggable (request : Message) : Prop :=
  slen (msg_key request) + slen (msg_value request) <= MAX_FRAME - 25.

(** A call that a request makes. *)
Definition call_of (request : Message) (c : Call) : Prop :=
  match c with
  | CallPut _ key value => key = msg_key request ∧ value = msg_value request
  | CallDel _ key => key = msg_key request
  | _ => True
  end.

Lemma call_of_fits request c : loggable request → call_of request c → call_fits c.
Proof.
  unfold loggable, call_of. destruct c; cbn; try done.
  - by intros ? [-> ->].
  - intros H ->. unfold slen in *. lia.
Qed.

Lemma next_call_of p c : next_call p = Some c → call_of (request_of p) c.
Proof.
  destruct p as [rq|rq u|rq u ty v|rq rp]; cbn; try done; try destruct (msg_type rq); by intros [= <-].
Qed.

Lemma request_of_resume p r : request_of (resume p r) = request_of p.
Proof. destruct p, r as [[]| | |]; cbn; try done; by repeat case_match. Qed.

Lemma request_of_local p : request_of (local_answer p) = request_of p.
Proof. destruct p as [rq| | |]; cbn; try done; by destruct (msg_type rq). Qed.

(** Requests are received, and stay. *)
Lemma received_alter (f : Progress nat → Progress nat) (k : nat) (rqs : list (Progress nat)) :
  (∀ p, request_of (f p) = request_of p) → request_of <$> alter f k rqs = request_of <$> rqs.
Proof.
  intros Hf. apply list_eq. intros j. rewrite !list_lookup_fmap.
  destruct (decide (k = j)) as [->|Hne].
  - rewrite list_lookup_alter_eq. destruct (rqs !! j); [|done]. cbn. by rewrite Hf.
  - by rewrite list_lookup_alter_ne.
Qed.

Lemma received_step sv sv' : serving_step sv sv' → received sv `prefix_of` received sv'.
Proof.
  unfold received. intros Hst. destruct Hst as [th rqs cs i request Hi|th rqs cs i k p c Hi Hk Hn Hpc
    |th rqs cs i k p Hi Hk Hn He Hpc|th rqs cs i th' E|th rqs cs i k request response Hi Hk Hpc]; cbn; try done.
  - rewrite fmap_app. by apply prefix_app_r.
  - rewrite list_fmap_insert, request_of_local, list_insert_id; [done|].
    by rewrite list_lookup_fmap, Hk.
  - unfold after_step. cbn. destruct (pc_at th i); try done. destruct (current_of _ i); [|done].
    by rewrite received_alter by (intros; apply request_of_resume).
Qed.

(** ** The calls that took effect *)

Definition accounted_calls (sv : Serving) : Prop :=
  ∀ c r, (c, r) ∈ effects (th_events (sv_threads sv)) → ∃ request, request ∈ received sv ∧ call_of request c.

Section Calls.
Context (s0 : Process) (q : nat).
Implicit Types (sv : Serving) (a : Process) (rq : Requests Process nat).

Lemma accounted_calls_step sv sv' a rq :
  serves s0 q sv a rq → accounted_calls sv → serving_step sv sv' → accounted_calls sv'.
Proof.
  intros H Hac Hst c r Hin. pose proof (received_step _ _ Hst) as Hpre.
  assert (∀ request, request ∈ received sv → request ∈ received sv') as Hmono.
  { intros request Hr. destruct Hpre as [more ->]. apply elem_of_app. by left. }
  assert ((c, r) ∈ effects (th_events (sv_threads sv)) → ∃ request, request ∈ received sv' ∧ call_of request c) as Hold.
  { intros Hin'. destruct (Hac c r Hin') as (request & Hr & Hc). eauto. }
  destruct Hst as [th rqs cs i request Hi|th rqs cs i k p c' Hi Hk Hn Hpc
    |th rqs cs i k p Hi Hk Hn He Hpc|th rqs cs i th' E|th rqs cs i k request response Hi Hk Hpc];
    cbn [sv_threads] in *; try by apply Hold.
  - unfold happens in Hin. cbn [th_events] in Hin. rewrite effects_snoc, app_nil_r in Hin. by apply Hold.
  - destruct (thread_step_kind _ _ _ E) as [pc pc' Hi Hth Hc Hp Hnr Hef|pc pc' c' r' Hi Hth Hc Hc' Hnr Hp Hp' Hef|c' r' Hi Hth Hef];
      rewrite Hef in Hin; try by apply Hold.
    apply elem_of_app in Hin as [Hin|Hin%list_elem_of_singleton]; [by apply Hold|]. injection Hin as <- <-.
    destruct (sx_call _ _ _ _ _ H i c) as (k & p & _ & Hk & Hn).
    { cbn. by rewrite (pc_at_lookup _ _ _ Hi). }
    exists (request_of p). split; [|by apply next_call_of].
    apply Hmono. apply list_elem_of_fmap. exists p. split; [done|]. by eapply list_elem_of_lookup_2.
Qed.

Lemma accounted_calls_steps sv sv' a rq :
  serves s0 q sv a rq → accounted_calls sv → rtc serving_step sv sv' → accounted_calls sv'.
Proof.
  intros H Hac Hst. revert a rq H Hac. induction Hst as [|sv1 sv2 sv3 H1 _ IH]; intros a rq H Hac; [done|].
  destruct (serves_step _ _ _ _ _ _ H H1) as (a' & rq' & H' & _).
  eapply IH; [exact H'|]. exact (accounted_calls_step _ _ _ _ H Hac H1).
Qed.
End Calls.

Lemma running_serving_step fetch act sys sys' :
  run_step fetch act sys sys' → rtc serving_step (rn_serving sys) (rn_serving sys').
Proof.
  intros Hst. destruct Hst as [| |srv ao ch xs sv i x e c' Hx He Hfr Hr E
    |srv ao ch xs th rqs cs i x t request c' Hx Ht E|srv ao ch xs sv sv' (Hb & _)
    |srv ao ch xs th rqs cs i x t k request response c' Hx Hk Ht Hr Hpc E]; cbn; try done.
  - destruct (alike_event (T:=nat) e (shared sv) (shared sv) _ _ c' (alike_refl _) Hr E) as (_ & -> & _).
    by rewrite set_process_same.
  - by apply rtc_once, serving_receives.
  - by apply rtc_once.
  - apply rtc_once. by eapply serving_done.
Qed.

Lemma running_serving fetch sys sys' :
  rtc (run_steps fetch) sys sys' → rtc serving_step (rn_serving sys) (rn_serving sys').
Proof.
  induction 1 as [|sys1 sys2 sys3 [act H] _ IH]; [done|]. etrans; [by eapply running_serving_step|done].
Qed.

(** A process that is initialised on what a crash leaves in the log file has the contents of
    the execution of [Parallel.v] that the state of the server stands for. *)
Lemma crash_recovers fetch srv n s rs p sys l w dir rq par :
  logged s rs → wal_ (p_db s) = Some p → rtc (run_steps fetch) (running_start srv n s) sys →
  stands s p sys rq par → Forall loggable (received (rn_serving sys)) →
  p_logs (shared (rn_serving sys)) !! p = Some l → healthy w → fair_order w →
  file_bytes w (log_name_now dir w)
    = file_bytes (p_world (shared (rn_serving sys))) (current_log_file_ l) →
  ∃ s', PersistentDatabase_initialize dir (create_database w) = (Val OperationResult.SUCCESS, s') ∧
    (∃ rs', logged s' rs') ∧ contents s' = contents (pa_store par).
Proof.
  intros Hlg Hp Hst H Hfit Hl Hw Hfair Hb. pose proof (logged_opened s rs p Hlg Hp) as Ho.
  pose proof (sx_explained _ _ _ _ _ (st_serves _ _ _ _ _ H)) as He.
  destruct (explained_recovers s rs p _ _ l w dir Hlg He) as (s' & E & Hdata & new & Hlg'); try done.
  { apply Forall_forall. intros [c r] Hin.
    destruct (accounted_calls_steps s p _ _ s _ (serves_start _ _ n Ho) ltac:(by intros ? ? ?%elem_of_nil)
      (running_serving _ _ _ Hst) c r Hin) as (request & Hrq & Hc).
    eapply call_of_fits; [|exact Hc]. by eapply Forall_forall in Hfit. }
  exists s'. split; [done|]. split; [by eexists|].
  unfold contents. cbn. by rewrite Hdata, (st_store _ _ _ _ _ H).
Qed.

(** ** Requests that are acknowledged and lost *)

Section Lost.
Implicit Types (s : Process) (request : Message).

Lemma big_record ts id request :
  MAX_FRAME - 25 < slen (msg_key request) + slen (msg_value request) <= MAX_MESSAGE_SIZE - 13 →
  MAX_FRAME < zlen (encode (stamped ts (put_record id (msg_key request) (msg_value request)))) < 2 ^ 32.
Proof.
  intros H. change (encode ?r) with (WALRecord_serialize r). rewrite length_WALRecord_serialize.
  unfold stamped, MAX_FRAME, MAX_MESSAGE_SIZE in *. cbn [put_record rec_timestamp Z.eqb rec_key rec_value]. lia.
Qed.

(** The log stays the one that was opened. *)
Lemma append_same_file r s p l bs b w' l' :
  db_ready s p l bs → append_record r (p_world s, l) = (b, (w', l')) →
  current_log_file_ l' = current_log_file_ l.
Proof.
  intros [] E. destruct (append_record_healthy r _ _ _ dr_ready dr_healthy) as (w1 & l1 & E1 & _ & _ & [] & _).
  rewrite E in E1. by injection E1 as _ _ ->.
Qed.

Lemma put_same_file s p l bs t k v s' l' r :
  db_ready s p l bs → current_txn s t → PersistentTransaction_put t k v s = (r, s') →
  p_logs s' !! p = Some l' → current_log_file_ l' = current_log_file_ l.
Proof.
  intros H Ht E Hl. destruct (current_txn_at _ _ _ _ _ H Ht) as [tx Hat].
  destruct (db_ready_append s p l bs (put_record (tx_id_ tx) k v) H) as (w1 & l1 & Ea & _).
  rewrite (put_step _ _ _ _ _ _ _ _ _ _ (dr_mutex _ _ _ _ H) Hat Ea) in E. injection E as _ <-.
  cbn in Hl. rewrite list_lookup_insert_eq in Hl by (eapply lookup_lt_Some, (dr_log _ _ _ _ H)).
  injection Hl as <-. by eapply append_same_file.
Qed.

Lemma commit_same_file s p l bs t s' l' r :
  db_ready s p l bs → current_txn s t → PersistentTransaction_commit t s = (r, s') →
  p_logs s' !! p = Some l' → current_log_file_ l' = current_log_file_ l.
Proof.
  intros H Ht E Hl. destruct (current_txn_at _ _ _ _ _ H Ht) as [tx Hat].
  destruct (tx_has_writes_ tx) eqn:Hh.
  - destruct (db_ready_append s p l bs (commit_record (tx_id_ tx)) H) as (w1 & l1 & Ea & _).
    rewrite (commit_step _ _ _ _ _ _ _ _ Hat Hh Ea) in E. injection E as _ <-.
    cbn in Hl. rewrite list_lookup_insert_eq in Hl by (eapply lookup_lt_Some, (dr_log _ _ _ _ H)).
    injection Hl as <-. by eapply append_same_file.
  - rewrite (commit_step_readonly _ _ tx) in E; [|apply Hat|done]. injection E as _ <-.
    rewrite (dr_log _ _ _ _ H) in Hl. by injection Hl as <-.
Qed.

(** What a PUT leaves in the log file, of any size. *)
Lemma put_request_ready s p l bs request :
  db_ready s p l bs → msg_type request = MessageType.PUT →
  ∃ s' l' ts id rs', process_request_sync request s
      = (Val (make_response request MessageType.SUCCESS "OK"), s') ∧
    current_log_file_ l' = current_log_file_ l ∧
    db_ready s' p l' (bs ++ frame (encode (stamped ts (put_record id (msg_key request) (msg_value request)))) ++ frames rs') ∧
    contents s' = <[msg_key request := msg_value request]> (contents s).
Proof.
  intros H Ht. destruct (begin_ready s p l bs H) as (t & s1 & E1 & H1 & Hc1 & Hd1 & _).
  destruct (put_ready s1 p l bs t (msg_key request) (msg_value request) H1 Hc1)
    as (s2 & l2 & tx & _ & E2 & H2 & Hd2 & _ & Hu2).
  destruct (commit_ready s2 p l2 _ t H2 (Hu2 t Hc1)) as (s3 & l3 & rs' & E3 & H3 & _ & Hd3 & _ & _).
  eexists s3, l3, _, _, rs'. split; [|split; [|split; [by rewrite app_assoc|]]].
  - unfold process_request_sync. rewrite Ht.
    cbn [begin_transaction txn_put txn_commit PersistentDatabase_iface].
    unfold try_catch, mbind, M_bind, mret, M_ret. rewrite E1, E2, decide_True, E3 by done. done.
  - rewrite (commit_same_file _ _ _ _ _ _ _ _ H2 (Hu2 t Hc1) E3 (dr_log _ _ _ _ H3)).
    exact (put_same_file _ _ _ _ _ _ _ _ _ _ H1 Hc1 E2 (dr_log _ _ _ _ H2)).
  - unfold contents. cbn. by rewrite Hd3, Hd2, Hd1.
Qed.
End Lost.

(** ** Theorems *)


(** C14.  Not everything that is answered fits: a PUT whose key and value are within the last twelve
    bytes of the message limit is accepted by a connection and answered with SUCCESS, and its
    value is in the map; but its record is above the limit of the log reader, and a process
    that is initialised on the log has the contents from before, without this request and
    without anything that was logged later. *)
Theorem acknowledged_put_lost (s : Process) (rs later : list WALRecord) (request : Message) (w : World)
    (dir : string) :
  logged s rs → Message_wf request → msg_type request = MessageType.PUT →
  ¬ loggable request → slen (msg_key request) + slen (msg_value request) <= MAX_MESSAGE_SIZE - 13 →
  healthy w → fair_order w →
  frameable request ∧
  ∃ s' p l, process_request_sync request s = (Val (make_response request MessageType.SUCCESS "OK"), s') ∧
    contents s' = <[msg_key request := msg_value request]> (contents s) ∧
    wal_ (p_db s') = Some p ∧ p_logs s' !! p = Some l ∧
    (file_bytes w (log_name_now dir w) = file_bytes (p_world s') (current_log_file_ l) ++ frames later →
     ∃ s'', PersistentDatabase_initialize dir (create_database w) = (Val OperationResult.SUCCESS, s'') ∧
       contents s'' = contents s).
Proof.
  intros Hlg Hwf Ht Hbig%Z.nle_gt Hmax Hw Hfair.
  pose proof (conj Hbig Hmax) as Hsize. split.
  { split; [done|]. change (encode request) with (Message_serialize request). rewrite length_Message_serialize.
    unfold MAX_FRAME, MAX_MESSAGE_SIZE in *. lia. }
  destruct (lg_ready _ _ Hlg) as (p & l & Hr).
  destruct (put_request_ready s p l (frames rs) request Hr Ht) as (s' & l' & ts & id & rs' & E & _ & Hr' & Hc).
  exists s', p, l'. split; [done|]. split; [done|]. do 2 (split; [apply Hr'|]). intros Hb.
  destruct (initialize_ready dir (create_database w) rs) as (s'' & _ & _ & Ei & _ & Hd & _); try done.
  - change (p_world (create_database w)) with w.
    rewrite Hb, (lookup_file_bytes (current_log_file_ l') _ _ (proj2 (proj2 (proj2 (dr_ready _ _ _ _ Hr'))))).
    rewrite <- !app_assoc, <- frames_app, <- frames_cons, <- frames_app.
    by apply read_all_records_oversize; [apply Hlg|apply big_record].
  - exists s''. split; [done|]. unfold contents. cbn. by rewrite Hd, (lg_data _ _ Hlg).
Qed.

(** ** Witnesses *)

(** A thread has logged the value of a request, and did not yet unlock the log. *)
Lemma demo_running_logged :
  ∃ sys l, rtc (run_steps eager_fetch) (running_start demo_srv 2 demo_process) sys ∧
    th_pcs (sv_threads (rn_serving sys)) = [LogWritten (CallPut 0 "k" "v") "" true; Idle] ∧
    received (rn_serving sys) = [put_request 1 "k" "v"] ∧
    p_logs (shared (rn_serving sys)) !! 0%nat = Some l ∧
    current_log_file_ l = log_name_now "data" demo_world.
Proof.
  eexists _, _. split; [|split; [|split; [|split]]].
  - run_demo 4. apply rtc_refl.
  - vm_compute. reflexivity.
  - vm_compute. reflexivity.
  - vm_compute. reflexivity.
  - vm_compute. reflexivity.
Qed.


(** A value that fits a message and not a record. *)
Definition long_value : string := string_of_bytes (repeat x61 (Z.to_nat (MAX_MESSAGE_SIZE - 14))).

Lemma slen_long_value : slen long_value = MAX_MESSAGE_SIZE - 14.
Proof. unfold long_value, MAX_MESSAGE_SIZE. rewrite slen_string_of_bytes. unfold zlen. rewrite repeat_length. lia. Qed.

Definition long_request : Message :=
  {| msg_type := MessageType.PUT; msg_id := 1; msg_key_length := 1;
     msg_value_length := MAX_MESSAGE_SIZE - 14; msg_key := "k"; msg_value := long_value |}.

Lemma long_request_wf : Message_wf long_request.
Proof.
  unfold Message_wf. cbn [long_request msg_type msg_id msg_key_length msg_value_length msg_key msg_value].
  rewrite slen_long_value. split_and!; done.
Qed.

(** The file that the PUT has written, in a world that another process finds which starts in
    the millisecond of the first. *)
Definition lost_world : World :=
  mkWorld (w_files (p_world (process_request_sync long_request demo_process).2)) (w_clock demo_world) 0
    (w_io demo_world) 0 (w_order demo_world) 0.

(** Without evaluating the request, which is a megabyte long. *)
Lemma lost_world_log s' p l :
  process_request_sync long_request demo_process = (Val (make_response long_request MessageType.SUCCESS "OK"), s') →
  wal_ (p_db s') = Some p → p_logs s' !! p = Some l → current_log_file_ l = log_name_now "data" lost_world.
Proof.
  intros E Hp Hl. destruct (lg_ready _ _ demo_process_logged) as (p0 & l0 & Hr).
  assert (wal_ (p_db demo_process) = Some 0%nat) as H0 by (vm_compute; reflexivity).
  assert (p0 = 0%nat) as -> by (rewrite (dr_wal _ _ _ _ Hr) in H0; by injection H0). clear H0.
  destruct (put_request_ready demo_process 0%nat l0 _ long_request Hr eq_refl) as (s1 & l1 & ts & id & rs1 & E1 & Hn & Hr1 & _).
  rewrite E in E1. injection E1 as <-.
  rewrite (dr_wal _ _ _ _ Hr1) in Hp. injection Hp as <-.
  rewrite (dr_log _ _ _ _ Hr1) in Hl. injection Hl as <-. rewrite Hn.
  assert (current_log_file_ <$> p_logs demo_process !! 0%nat = Some (log_name_now "data" demo_world)) as Hd
    by (vm_compute; reflexivity).
  rewrite (dr_log _ _ _ _ Hr) in Hd. cbn [fmap option_fmap option_map] in Hd. by injection Hd.
Qed.

(** The next process finds all of the file, and comes up without the request. *)
Lemma acknowledged_put_lost_witness :
  ∃ s' s'' p l, process_request_sync long_request demo_process
      = (Val (make_response long_request MessageType.SUCCESS "OK"), s') ∧
    contents s' = <["k" := long_value]> (contents demo_process) ∧
    wal_ (p_db s') = Some p ∧ p_logs s' !! p = Some l ∧
    file_bytes lost_world (log_name_now "data" lost_world) = file_bytes (p_world s') (current_log_file_ l) ∧
    PersistentDatabase_initialize "data" (create_database lost_world) = (Val OperationResult.SUCCESS, s'') ∧
    contents s'' = contents demo_process.
Proof.
  destruct (acknowledged_put_lost demo_process [] [] long_request lost_world "data")
    as (_ & s' & p & l & E & Hc & Hp & Hl & Hrec).
  - exact demo_process_logged.
  - exact long_request_wf.
  - reflexivity.
  - unfold loggable. cbn [long_request msg_key msg_value]. rewrite slen_long_value. vm_compute. intros H. by apply H.
  - cbn [long_request msg_key msg_value]. rewrite slen_long_value. discriminate.
  - exact demo_world_healthy.
  - exact demo_world_fair.
  - assert (Hb : file_bytes lost_world (log_name_now "data" lost_world) = file_bytes (p_world s') (current_log_file_ l)).
    { rewrite <- (lost_world_log s' p l E Hp Hl). unfold lost_world, file_bytes. rewrite E. reflexivity. }
    destruct Hrec as (s'' & Ei & Hs).
    + rewrite Hb. exact (eq_sym (app_nil_r _)).
    + exists s', s'', p, l. exact (conj E (conj Hc (conj Hp (conj Hl (conj Hb (conj Ei Hs)))))).
Defined.
