(* ===== verification/Network.v ===== *)
(** * Clients and server over a network

    Any number of clients of [src/network/client.cpp], each at one end of a connection whose
    other end is a handler of the server of [IoThreads.v] ([src/network/server.cpp]).  A call
    of a client is cut where it blocks, between the sending of the request and the receipt of
    the response; what it sent is under way for some time, arrives in pieces, and is served by
    the threads of the server meanwhile other clients send, receive and hang up.  The calls
    are linearizable, and every call of a client whose messages fit returns. *)

From stdpp Require Import base gmap list strings relations.
From Stdlib Require Import ZArith Lia.
From Stdlib Require Import Strings.Byte.
From S2P Require Import Prelude.
From S2P Require Import Bytes.
From S2P Require Import Framing.
From S2P Require Import Protocol.
From S2P Require Import Effects.
From S2P Require Import Wal.
From S2P Require Import Interface.
From S2P Require Import Database.
From S2P Require Import ScanFormat.
From S2P Require Import Server.
From S2P Require Import Locking.
From S2P Require Import LockingInvariant.
From S2P Require Import LockingTheorems.
From S2P Require Import Concurrency.
From S2P Require Import Serving.
From S2P Require Import Connection.
From S2P Require Import Client.
From S2P Require Import Acceptor.
From S2P Require Import EndToEnd.
From S2P Require Import System.
From S2P Require Import Parallel.
From S2P Require Import IoThreads.

(** ** The client's end of a connection *)

(** Its socket: whether it is open, what was written and has not arrived yet, what has arrived
    and was not read yet, and whether the server's end is gone. *)
Record Wire := mkWire {
  wi_open : bool;
  wi_out : list byte;
  wi_in : list byte;
  wi_eof : bool;
}.

(** A read that lacks bytes waits for them ("blocked" is no outcome), unless none can come: then
    it has read what there was. *)
#[export] Instance Wire_socket : Socket Wire := {|
  sock_is_open := wi_open;
  sock_connect host port := modify (λ w, mkWire true (wi_out w) (wi_in w) (wi_eof w));
  sock_close := modify (λ w, mkWire false (wi_out w) (wi_in w) (wi_eof w));
  sock_write bytes := λ w,
    if wi_open w then (Val tt, mkWire true (wi_out w ++ bytes) (wi_in w) (wi_eof w))
    else (Exn "Bad file descriptor", w);
  sock_read n := λ w,
    if wi_open w then
      if (n <=? length (wi_in w))%nat then (Val (take n (wi_in w)), mkWire true (wi_out w) (drop n (wi_in w)) (wi_eof w))
      else if wi_eof w then (Exn "End of file", mkWire true (wi_out w) [] true)
      else (UB "blocked", w)
    else (Exn "Bad file descriptor", w);
|}.

(** The operations of a client, each with the request it sends. *)
Inductive ClientOp :=
  | OpGet (key : string)
  | OpPut (key value : string)
  | OpDel (key : string)
  | OpScan (start_key end_key : string)
  | OpPing.

Definition op_request (op : ClientOp) (id : Z) : Message :=
  match op with
  | OpGet key =>
      {| msg_type := MessageType.GET; msg_id := id; msg_key_length := u32 (slen key);
         msg_value_length := 0; msg_key := key; msg_value := "" |}
  | OpPut key value =>
      {| msg_type := MessageType.PUT; msg_id := id; msg_key_length := u32 (slen key);
         msg_value_length := u32 (slen value); msg_key := key; msg_value := value |}
  | OpDel key =>
      {| msg_type := MessageType.DELETE; msg_id := id; msg_key_length := u32 (slen key);
         msg_value_length := 0; msg_key := key; msg_value := "" |}
  | OpScan start_key end_key =>
      {| msg_type := MessageType.SCAN; msg_id := id; msg_key_length := u32 (slen start_key);
         msg_value_length := u32 (slen end_key); msg_key := start_key; msg_value := end_key |}
  | OpPing =>
      {| msg_type := MessageType.PING; msg_id := id; msg_key_length := 0;
         msg_value_length := 0; msg_key := ""; msg_value := "" |}
  end.

(** A client, its socket, how much of what the server wrote it has read, the request that it
    waits to be answered, and what came of those before. *)
Record Party := mkParty {
  py_client : DatabaseClient;
  py_open : bool;
  py_out : list byte;
  py_read : nat;
  py_waiting : option Message;
  py_completed : list (Message * outcome Message);
}.

Definition sent (py : Party) : list Message := (py_completed py).*1 ++ option_list (py_waiting py).

(** Its socket, when the connection is [x]. *)
Definition wire_of (py : Party) (x : Active) : Wire :=
  mkWire (py_open py) (py_out py) (drop (py_read py) (outbox (ac_conn x)))
    (bool_decide (disconnects (ac_conn x) ≠ 0%nat)).

(** The server, and the clients in the order in which they were accepted. *)
Record Network := mkNetwork {
  nw_running : Running;
  nw_parties : list Party;
}.

Inductive net_action :=
  | NetConnect | NetSend (i : nat) | NetDeliver (i : nat) | NetServer (act : action)
  | NetReceive (i : nat) | NetClose (i : nat).

(** What the server does by itself, or suffers: not the arrival of clients or bytes. *)
Definition server_side (act : action) : Prop :=
  match act with DoConnect | DoEvent _ (Arrive _) => False | _ => True end.

Inductive net_step (fetch : nat → nat → nat → nat) : net_action → Network → Network → Prop :=
  (** [connect] of a new client, and the start of its handler *)
  | net_connect sys sys' ps host port cl w :
      run_step fetch DoConnect sys sys' →
      client_connect (DatabaseClient_new host port, mkWire false [] [] false) = (Val true, (cl, w)) →
      net_step fetch NetConnect (mkNetwork sys ps)
        (mkNetwork sys' (ps ++ [mkParty cl (wi_open w) [] 0 None []]))
  (** an operation of a client, to where it waits for the response *)
  | net_send sys ps i py x op id cl1 w1 cl2 w2 :
      ps !! i = Some py → rn_lines sys !! i = Some x → py_waiting py = None →
      next_request_id (py_client py, wire_of py x) = (Val id, (cl1, w1)) →
      is_connected (cl1, w1) = (Val true, (cl1, w1)) →
      send_message (op_request op id) (cl1, w1) = (Val true, (cl2, w2)) →
      net_step fetch (NetSend i) (mkNetwork sys ps)
        (mkNetwork sys (<[i := mkParty cl2 (wi_open w2) (wi_out w2) (py_read py)
                                (Some (op_request op id)) (py_completed py)]> ps))
  (** some bytes arrive *)
  | net_deliver sys sys' ps i py bytes rest :
      ps !! i = Some py → py_out py = bytes ++ rest → bytes ≠ [] →
      run_step fetch (DoEvent i (Arrive bytes)) sys sys' →
      net_step fetch (NetDeliver i) (mkNetwork sys ps)
        (mkNetwork sys' (<[i := mkParty (py_client py) (py_open py) rest (py_read py)
                                 (py_waiting py) (py_completed py)]> ps))
  | net_server act sys sys' ps :
      server_side act → run_step fetch act sys sys' →
      net_step fetch (NetServer act) (mkNetwork sys ps) (mkNetwork sys' ps)
  (** the rest of the operation, when it does not block *)
  | net_receive sys ps i py x request r cl w :
      ps !! i = Some py → rn_lines sys !! i = Some x → py_waiting py = Some request →
      receive_message (py_client py, wire_of py x) = (r, (cl, w)) → (∀ why, r ≠ UB why) →
      net_step fetch (NetReceive i) (mkNetwork sys ps)
        (mkNetwork sys (<[i := mkParty cl (wi_open w) (py_out py)
                                (length (outbox (ac_conn x)) - length (wi_in w))
                                None (py_completed py ++ [(request, r)])]> ps))
  (** [disconnect] *)
  | net_close sys ps i py x cl w :
      ps !! i = Some py → rn_lines sys !! i = Some x → py_waiting py = None →
      client_disconnect (py_client py, wire_of py x) = (Val tt, (cl, w)) →
      net_step fetch (NetClose i) (mkNetwork sys ps)
        (mkNetwork sys (<[i := mkParty cl (wi_open w) (py_out py) (py_read py) None (py_completed py)]> ps)).

Definition net_steps (fetch : nat → nat → nat → nat) (nw nw' : Network) : Prop :=
  ∃ act, net_step fetch act nw nw'.

Definition network_start (srv : DatabaseServer) (n : nat) (s : Process) : Network :=
  mkNetwork (running_start srv n s) [].

(** An operation is its request, sent and answered, and what it makes of the response. *)
Section Operations.
Context {N : Type} `{!Socket N}.

Definition op_call {A} (op : ClientOp) (finish : Message → M (DatabaseClient * N) A) : M (DatabaseClient * N) A :=
  id ← next_request_id;
  response ← send_request (op_request op id);
  finish response.

Lemma client_get_call key : ∃ finish, client_get key = op_call (OpGet key) finish.
Proof. by eexists. Qed.
Lemma client_put_call key value : ∃ finish, client_put key value = op_call (OpPut key value) finish.
Proof. by eexists. Qed.
Lemma client_del_call key : ∃ finish, client_del key = op_call (OpDel key) finish.
Proof. by eexists. Qed.
Lemma client_scan_call a b limit : ∃ finish, client_scan a b limit = op_call (OpScan a b) finish.
Proof. by eexists. Qed.
Lemma client_ping_call : ∃ finish, client_ping = op_call OpPing finish.
Proof. by eexists. Qed.

(** ... and sending is where it can be cut. *)
Lemma send_request_cut request cl n :
  is_connected (cl, n) = (Val true, (cl, n)) →
  send_request request (cl, n) =
  (sent ← send_message request;
   if negb sent then throw "Failed to send message" else receive_message) (cl, n).
Proof. intros E. unfold send_request. unfold mbind at 1, M_bind at 1. by rewrite E. Qed.
End Operations.

(** ** What a step of the server does to a connection *)

Section Lines.
Context (s0 : Process) (q : nat) (fetch : nat → nat → nat → nat).
Implicit Types (sys : Running) (par : Parallel Process nat) (rq : Requests Process nat) (x : Active)
  (m : gmap string string) (h : list (nat * (Message * Message))).

Lemma line_database es (l : Line Process nat) s : line_ok es l s → h_database_ (handler (l_conn l)) = true.
Proof.
  unfold line_ok. destruct (l_work l).
  - by intros (? & _ & [] & _).
  - by intros [(? & _ & _ & _ & ?) _].
Qed.

(** The disconnected connection is left alone. *)
Lemma gone_idle sys rq par i x :
  stands s0 q sys rq par → lines_counted par → rn_lines sys !! i = Some x → disconnects (ac_conn x) ≠ 0%nat →
  ac_request x = None ∧ pending (ac_conn x) = None.
Proof.
  intros H Hc Hx Hd. destruct (Forall2_lookup_l _ _ _ _ _ (st_lines _ _ _ _ _ H) Hx) as (l & Hl & Hlike).
  pose proof (ll_conn _ _ _ Hlike) as Hal. rewrite (alike_disconnects _ _ Hal) in Hd.
  pose proof (Forall_lookup_1 _ _ _ _ Hc Hl) as Hcl. unfold line_counted in Hcl.
  destruct (l_work l) eqn:Hw; [by destruct Hcl as (_ & _ & ?)|].
  split; [by eapply work_none|]. destruct Hcl as [_ [[_ ?]|[Hp _]]]; [done|].
  rewrite <- Hp. exact (f_equal pending (Hal (store (l_conn l)))).
Qed.

Definition grows x x' : Prop :=
  outbox (ac_conn x) `prefix_of` outbox (ac_conn x') ∧
  (disconnects (ac_conn x) ≠ 0%nat → outbox (ac_conn x') = outbox (ac_conn x) ∧ disconnects (ac_conn x') ≠ 0%nat).

Lemma grows_refl x : grows x x.
Proof. done. Qed.

Lemma grows_insert (xs : list Active) i j x y y' :
  xs !! i = Some x → xs !! j = Some y → (j = i → grows y y') →
  ∃ x', <[j := y']> xs !! i = Some x' ∧ grows x x'.
Proof.
  intros Hx Hy Hg. destruct (decide (j = i)) as [->|Hne].
  - exists y'. split; [apply list_lookup_insert_eq; by eapply lookup_lt_Some|].
    rewrite Hx in Hy. injection Hy as ->. by apply Hg.
  - exists x. split; [by rewrite list_lookup_insert_ne|apply grows_refl].
Qed.

Lemma run_grows act sys sys' rq par m h i x :
  stands s0 q sys rq par → shares m h par → lines_counted par → run_step fetch act sys sys' →
  rn_lines sys !! i = Some x → ∃ x', rn_lines sys' !! i = Some x' ∧ grows x x'.
Proof.
  intros H Hsh Hc Hst Hi.
  destruct Hst as [| |srv ao ch xs sv j y e c' Hy He Hfr Hr E
    |srv ao ch xs th rqs cs j y t request c' Hy Ht E|srv ao ch xs sv sv' Hb
    |srv ao ch xs th rqs cs j y t k request response c' Hy Hk Ht Hr Hpc E]; cbn [rn_lines rn_serving] in *;
    try (by exists x).
  - exists x. split; [by apply lookup_app_l_Some|done].
  - eapply grows_insert; [done..|]. intros ->.
    destruct (Forall2_lookup_l _ _ _ _ _ (st_lines _ _ _ _ _ H) Hy) as (l & Hl & Hlike).
    pose proof (ll_conn _ _ _ Hlike) as Hal.
    assert (h_database_ (handler (ac_conn y)) = true) as Hdb.
    { rewrite <- (line_database _ _ _ (sh_lines _ _ _ Hsh i l Hl)).
      exact (f_equal (λ c, h_database_ (handler c)) (Hal (store (l_conn l)))). }
    pose proof (on_event_idle e (with_store (shared sv) (ac_conn y)) c' Hdb Hr E) as [= _ Ho _].
    destruct (alike_event e (shared sv) (pa_store par) _ (l_conn l) c' Hal Hr E) as (_ & _ & l' & E' & Hl' & _).
    destruct (counted_event (T:=nat) (pa_store par) e l l' (Forall_lookup_1 _ _ _ _ Hc Hl) He E') as [Hd _].
    rewrite <- (alike_disconnects _ _ Hl'), <- (alike_disconnects _ _ Hal) in Hd.
    split; cbn; rewrite Ho; [done|]. intros Hne. split; [done|]. destruct Hd as [-> | [? _]]; done.
  - eapply grows_insert; [done..|]. intros ->. unfold request_arrived in E.
    destruct (pending (with_store _ _)) as [[| |]|]; try done.
    destruct (_ || _); [done|]. destruct (Message_deserialize _); [|done]. by injection E as _ <-.
  - eapply grows_insert; [done..|]. intros ->. split; cbn.
    + unfold write_response in E. connsimpl. destruct (active_ (handler (ac_conn y))); connsimpl; injection E as <-; cbn.
      * by apply prefix_app_r.
      * done.
    + intros Hd. destruct (gone_idle _ _ _ _ _ H Hc Hy Hd) as [Hn _]. congruence.
Qed.

(** Bytes arrive. *)
Lemma run_arrives act sys sys' i x :
  run_step fetch act sys sys' → rn_lines sys !! i = Some x →
  ∃ x', rn_lines sys' !! i = Some x' ∧
    ac_arrived x' = ac_arrived x ++ (match act with DoEvent j e => if decide (j = i) then bytes_of e else [] | _ => [] end).
Proof.
  intros Hst Hi.
  destruct Hst as [| |srv ao ch xs sv j y e c' Hy He Hfr Hr E
    |srv ao ch xs th rqs cs j y t request c' Hy Ht E|srv ao ch xs sv sv' Hb
    |srv ao ch xs th rqs cs j y t k request response c' Hy Hk Ht Hr Hpc E]; cbn [rn_lines rn_serving] in *.
  - exists x. by rewrite app_nil_r.
  - exists x. rewrite app_nil_r. split; [by apply lookup_app_l_Some|done].
  - destruct (decide (j = i)) as [->|Hne].
    + rewrite Hi in Hy. injection Hy as <-. eexists. split; [apply list_lookup_insert_eq; by eapply lookup_lt_Some|done].
    + exists x. rewrite list_lookup_insert_ne by done. by rewrite app_nil_r.
  - rewrite app_nil_r. destruct (decide (j = i)) as [->|Hne].
    + rewrite Hi in Hy. injection Hy as <-. eexists. split; [apply list_lookup_insert_eq; by eapply lookup_lt_Some|done].
    + exists x. by rewrite list_lookup_insert_ne.
  - exists x. by rewrite app_nil_r.
  - rewrite app_nil_r. destruct (decide (j = i)) as [->|Hne].
    + rewrite Hi in Hy. injection Hy as <-. eexists. split; [apply list_lookup_insert_eq; by eapply lookup_lt_Some|done].
    + exists x. by rewrite list_lookup_insert_ne.
Qed.
End Lines.

(** ** The calls on the wire *)

Section Wires.
Implicit Types (cl : DatabaseClient) (w : Wire).

Lemma send_wire message cl w cl' w' :
  send_message message (cl, w) = (Val true, (cl', w')) →
  cl' = cl ∧ wi_open w' = true ∧ wi_out w' = wi_out w ++ frame (encode message).
Proof.
  unfold send_message, try_catch, on_socket, zoom, mbind, M_bind, mret, M_ret. cbn [sock_write Wire_socket snd fst].
  destruct (wi_open w); [|done]. cbn [fst snd wi_open wi_out]. intros [= <- <-]. split; [done|].
  split; [done|]. cbn [wi_out]. by rewrite <- app_assoc.
Qed.

Lemma next_id_wire cl w id cl' w' : next_request_id (cl, w) = (Val id, (cl', w')) → w' = w.
Proof. unfold next_request_id, cl_modify, modify, gets, mbind, M_bind. by intros [= _ _ ->]. Qed.

Lemma wire_read cl n out bytes rest eof :
  length bytes = n →
  on_socket (sock_read n) (cl, mkWire true out (bytes ++ rest) eof) = (Val bytes, (cl, mkWire true out rest eof)).
Proof.
  intros <-. unfold on_socket, zoom. cbn. rewrite (proj2 (Nat.leb_le _ _)) by (rewrite length_app; lia).
  by rewrite take_exact, drop_exact.
Qed.

Lemma receive_wire cl out response rest eof :
  frameable response →
  receive_message (cl, mkWire true out (frame (encode response) ++ rest) eof)
  = (Val response, (cl, mkWire true out rest eof)).
Proof.
  intros [Hwf Hmax]. unfold receive_message, try_catch, mbind, M_bind. unfold frame.
  rewrite <- app_assoc, wire_read by apply length_le_bytes.
  pose proof (zlen_nonneg (encode response)). unfold MAX_FRAME in *.
  rewrite le_value_bytes4, !u32_small by (unfold is_u32; rewrite ?u32_small by (unfold is_u32; lia); lia).
  rewrite Z.gtb_ltb, (proj2 (Z.ltb_ge _ _)) by done.
  rewrite wire_read by (unfold zlen; lia).
  unfold of_result. change (Message_deserialize (encode response)) with (decode (encode response)).
  by rewrite decode_encode.
Qed.

(** A part of a response keeps the client waiting; at the end of the stream it is lost. *)
Lemma receive_part cl out part rest response eof :
  frameable response → frame (encode response) = part ++ rest → rest ≠ [] →
  ∃ w, receive_message (cl, mkWire true out part eof) =
    (if eof then Exn "Receive error: End of file" else UB "blocked", (cl, w)) ∧
    (eof = true → w = mkWire true out [] true).
Proof.
  intros [Hwf Hmax] E Hne. unfold receive_message, try_catch, on_socket, zoom, mbind, M_bind, throw.
  cbn [sock_read Wire_socket snd fst wi_open wi_in wi_eof wi_out].
  destruct (Nat.leb_spec 4 (length part)) as [H4|H4]; [|destruct eof; by eexists].
  cbn [snd fst wi_open wi_in wi_eof wi_out].
  assert (le_value (take 4 part) = zlen (encode response)) as ->.
  { rewrite <- (take_app_le part rest), <- E, <- (app_nil_r (frame _)) by done. by apply frame_header. }
  unfold MAX_FRAME in *. rewrite Z.gtb_ltb, (proj2 (Z.ltb_ge _ _)) by done.
  cbn [snd fst wi_open wi_in wi_eof wi_out].
  destruct (Nat.leb_spec (Z.to_nat (zlen (encode response))) (length (drop 4 part))) as [Hl|Hl]; [exfalso|].
  - apply (f_equal length) in E. rewrite length_frame, length_app in E. rewrite length_drop in Hl.
    unfold zlen in Hl. destruct rest; [done|]. cbn [length] in E. lia.
  - destruct eof; by eexists.
Qed.

Lemma receive_nothing cl out eof :
  receive_message (cl, mkWire true out [] eof) =
  (if eof then Exn "Receive error: End of file" else UB "blocked", (cl, mkWire true out [] eof)).
Proof. by destruct eof. Qed.

(** After the end of the stream every call returns. *)
Lemma receive_eof cl out bytes r st :
  receive_message (cl, mkWire true out bytes true) = (r, st) → ∀ why, r ≠ UB why.
Proof.
  unfold receive_message, try_catch, on_socket, zoom, mbind, M_bind, throw, of_result, mret, M_ret.
  cbn [sock_read Wire_socket snd fst wi_open wi_in wi_eof wi_out].
  destruct (4 <=? length bytes)%nat; [|by intros [= <- _]].
  destruct (_ >? _); [by intros [= <- _]|]. cbn [snd fst wi_open wi_in wi_eof wi_out].
  destruct (_ <=? _)%nat; [|by intros [= <- _]].
  destruct (Message_deserialize _); by intros [= <- _].
Qed.
End Wires.

(** ** The invariant *)

Definition answered_call (e : Message * Message) : Message * outcome Message := (e.1, Val e.2).

(** A client, with the history [hi] of its connection [x]: everything that it sent has arrived
    or is under way; its completed calls are answered as the first [k] requests of the history
    are, until the connection is gone, when they fail. *)
Record party_ok (hi : list (Message * Message)) (x : Active) (py : Party) : Prop := {
  pk_bytes : ac_arrived x ++ py_out py = frames (sent py);
  pk_read : (py_read py <= length (outbox (ac_conn x)))%nat;
  pk_open : py_waiting py ≠ None → py_open py = true;
  pk_results : Forall frameable (sent py) → Forall frameable hi.*2 →
    ∃ k errs, py_completed py = (answered_call <$> take k hi) ++ errs ∧ (k <= length hi)%nat ∧
      (errs = [] → py_read py = length (frames (take k hi).*2)) ∧ Forall (λ e, ∃ what, e.2 = Exn what) errs ∧
      (errs ≠ [] → disconnects (ac_conn x) ≠ 0%nat ∧ py_read py = length (outbox (ac_conn x)));
}.

Record net_ok (s0 : Process) (q : nat) (m : gmap string string) (h : list (nat * (Message * Message)))
    (nw : Network) (rq : Requests Process nat) (par : Parallel Process nat) : Prop := {
  no_stands : stands s0 q (nw_running nw) rq par;
  no_shares : shares m h par;
  no_counted : lines_counted par;
  no_length : length (nw_parties nw) = length (rn_lines (nw_running nw));
  no_parties : ∀ i x py, rn_lines (nw_running nw) !! i = Some x → nw_parties nw !! i = Some py →
    party_ok (of_peer i h) x py;
}.

Section Invariant.
Context (s0 : Process) (q : nat) (fetch : nat → nat → nat → nat).
Implicit Types (sys : Running) (par : Parallel Process nat) (rq : Requests Process nat) (x : Active)
  (m : gmap string string) (h : list (nat * (Message * Message))) (hi : list (Message * Message))
  (py : Party) (nw : Network).

(** The history of a connection and the stream of its client. *)
Lemma history_sent sys rq par m h i x out requests :
  stands s0 q sys rq par → shares m h par → rn_lines sys !! i = Some x →
  ac_arrived x ++ out = frames requests → Forall frameable requests → (of_peer i h).*1 `prefix_of` requests.
Proof.
  intros H Hh Hx Hb Hf. destruct (active_share _ _ _ _ _ _ _ _ _ H Hh Hx) as (datas & es & now & E1 & E2 & E3 & E4 & _).
  destruct E3 as [rest E3]. rewrite E3, <- app_assoc in Hb.
  destruct (frames_split datas _ requests _ Hf E4 (eq_sym Hb)) as (rs' & -> & _).
  rewrite E1, fmap_app. destruct now as [e|].
  - rewrite (E2 e eq_refl). by apply prefix_app_r.
  - rewrite app_nil_r, <- app_assoc. by apply prefix_app_r.
Qed.

Lemma party_mono hi hi' x x' py :
  party_ok hi x py → grows x x' → ac_arrived x' = ac_arrived x → hi `prefix_of` hi' → party_ok hi' x' py.
Proof.
  intros [H1 H2 H3 H4] [Hout Hgone] Harr [more ->]. split.
  - by rewrite Harr.
  - apply prefix_length in Hout. lia.
  - done.
  - intros Hf Hr. rewrite fmap_app in Hr. apply Forall_app in Hr as [Hr _].
    destruct (H4 Hf Hr) as (k & errs & E & Hk & Hrd & He & Hd). exists k, errs.
    rewrite take_app_le, length_app by done. split; [done|]. split; [lia|]. split; [done|]. split; [done|].
    intros Hne. destruct (Hd Hne) as [Hd1 ->]. by destruct (Hgone Hd1) as [-> ?].
Qed.

(** [send_message]. *)
Lemma party_send hi x py op id cl1 w1 cl2 w2 :
  party_ok hi x py → py_waiting py = None →
  next_request_id (py_client py, wire_of py x) = (Val id, (cl1, w1)) →
  send_message (op_request op id) (cl1, w1) = (Val true, (cl2, w2)) →
  party_ok hi x (mkParty cl2 (wi_open w2) (wi_out w2) (py_read py) (Some (op_request op id)) (py_completed py)).
Proof.
  intros [H1 H2 H3 H4] Hw E1%next_id_wire E2%send_wire. subst w1. destruct E2 as (_ & Ho & Eout).
  unfold sent in *. rewrite Hw in *. cbn [option_list] in *. rewrite app_nil_r in *.
  split; cbn [py_out py_read py_open py_waiting py_completed sent option_list]; try done.
  - unfold sent. cbn [py_out py_waiting py_completed option_list].
    rewrite Eout. change (option_list (Some ?r)) with [r]. cbn [wire_of wi_out].
    by rewrite frames_snoc, app_assoc, H1.
  - unfold sent. cbn [py_waiting py_completed option_list]. intros [Hf _]%Forall_app Hr. by apply H4.
Qed.

(** Where a client is that reads its next response: before the end of what was written, or
    before a whole response, or in the part of one that was written. *)
Lemma reading hi es now k (out : list byte) :
  hi = es ++ option_list now → out `prefix_of` frames es.*2 → (k <= length hi)%nat →
  (length (frames (take k hi).*2) <= length out)%nat →
  let rest := drop (length (frames (take k hi).*2)) out in
  rest = [] ∨
  ∃ e, hi !! k = Some e ∧
    ((∃ more, rest = frame (encode e.2) ++ more) ∨ ∃ missing, frame (encode e.2) = rest ++ missing ∧ missing ≠ []).
Proof.
  intros -> [lost Hout] Hk Hle rest. pose proof Hle as Hle'.
  assert (k <= length es)%nat as Hes.
  { destruct (decide (k <= length es)%nat) as [|Hgt]; [done|exfalso].
    rewrite length_app in Hk. destruct now as [e|]; cbn in Hk; [|lia].
    rewrite take_ge in Hle by (rewrite length_app; cbn; lia).
    rewrite fmap_app in Hle. change ((option_list (Some e)).*2) with [e.2] in Hle.
    rewrite frames_snoc, length_app, length_frame in Hle. rewrite Hout, length_app in Hle. lia. }
  rewrite take_app_le in Hle' by done.
  assert (rest = drop (length (frames (take k es).*2)) out) as Erest by (unfold rest; by rewrite take_app_le).
  clearbody rest.
  assert (frames (drop k es).*2 = rest ++ lost) as Hrest.
  { rewrite Erest, <- drop_app_le, <- Hout by done.
    transitivity (drop (length (frames (take k es).*2)) (frames (take k es ++ drop k es).*2));
      [|by rewrite take_drop].
    rewrite fmap_app, frames_app. by rewrite drop_app_length. }
  destruct (drop k es) as [|e es'] eqn:Hd.
  { left. rewrite frames_nil in Hrest. by destruct rest. }
  assert ((es ++ option_list now) !! k = Some e) as Hke.
  { apply lookup_app_l_Some. rewrite <- (Nat.add_0_r k), <- lookup_drop, Hd. done. }
  right. exists e. split; [done|]. change ((e :: es').*2) with (e.2 :: es'.*2) in Hrest. rewrite frames_cons in Hrest.
  destruct (decide (length (frame (encode e.2)) <= length rest)%nat) as [Hl|Hl].
  - left. exists (drop (length (frame (encode e.2))) rest).
    apply (f_equal (take (length (frame (encode e.2))))) in Hrest.
    rewrite take_app_length, take_app_le in Hrest by done. rewrite Hrest at 1. by rewrite take_drop.
  - right. exists (drop (length rest) (frame (encode e.2))).
    apply (f_equal (take (length rest))) in Hrest. rewrite take_app_length, take_app_le in Hrest by lia.
    rewrite <- Hrest at 1. rewrite take_drop. split; [done|]. intros E%(f_equal length).
    rewrite length_drop in E. change (length []) with 0%nat in E. lia.
Qed.

(** ... and what it waits for. *)
Lemma next_request hi k e request (completed : list (Message * outcome Message)) :
  completed = answered_call <$> take k hi → hi !! k = Some e → hi.*1 `prefix_of` completed.*1 ++ [request] →
  request = e.1.
Proof.
  intros -> Hke [more Hpre]. pose proof (lookup_lt_Some _ _ _ Hke) as Hk.
  apply (f_equal (.!! k)) in Hpre.
  rewrite <- list_fmap_compose, lookup_app_r in Hpre by (rewrite length_fmap, length_take; lia).
  rewrite length_fmap, length_take, Nat.min_l, Nat.sub_diag in Hpre by lia. cbn in Hpre.
  rewrite lookup_app_l in Hpre by (by rewrite length_fmap).
  rewrite list_lookup_fmap, Hke in Hpre. by injection Hpre.
Qed.

(** [receive_message]. *)
Lemma party_receive hi es now x py request r cl w :
  party_ok hi x py → hi = es ++ option_list now → outbox (ac_conn x) `prefix_of` frames es.*2 →
  (Forall frameable (sent py) → hi.*1 `prefix_of` sent py) → py_waiting py = Some request →
  receive_message (py_client py, wire_of py x) = (r, (cl, w)) → (∀ why, r ≠ UB why) →
  party_ok hi x (mkParty cl (wi_open w) (py_out py) (length (outbox (ac_conn x)) - length (wi_in w)) None
                   (py_completed py ++ [(request, r)])).
Proof.
  intros [H1 H2 H3 H4] Hhi Hout Hpre Hw E Hr. unfold sent in *. rewrite Hw in *. cbn [option_list] in *.
  assert (py_open py = true) as Ho by (by apply H3).
  split; cbn [py_out py_read py_open py_waiting py_completed].
  - unfold sent. cbn [py_waiting py_completed option_list]. by rewrite fmap_app, app_nil_r.
  - lia.
  - done.
  - unfold sent. cbn [py_waiting py_completed option_list]. rewrite fmap_app, app_nil_r.
    change ([(request, r)].*1) with [request]. intros Hf Hfr.
    destruct (H4 Hf Hfr) as (k & errs & Ec & Hk & Hrd & He & Hd). specialize (Hpre Hf).
    unfold wire_of in E. rewrite Ho in E.
    assert (Hlost : r = Exn "Receive error: End of file" → wi_in w = [] → disconnects (ac_conn x) ≠ 0%nat →
      ∃ k' errs', py_completed py ++ [(request, r)] = (answered_call <$> take k' hi) ++ errs' ∧ (k' <= length hi)%nat ∧
        (errs' = [] → (length (outbox (ac_conn x)) - length (wi_in w))%nat = length (frames (take k' hi).*2)) ∧
        Forall (λ e, ∃ what, e.2 = Exn what) errs' ∧
        (errs' ≠ [] → disconnects (ac_conn x) ≠ 0%nat ∧
           (length (outbox (ac_conn x)) - length (wi_in w))%nat = length (outbox (ac_conn x)))).
    { intros -> -> Hdis. exists k, (errs ++ [(request, Exn "Receive error: End of file")]).
      rewrite Ec, <- app_assoc, Nat.sub_0_r. split_and!; try done; [by destruct errs|].
      apply Forall_app. split; [done|]. apply Forall_singleton. by eexists. }
    destruct errs as [|e0 errs].
    2:{ destruct (Hd ltac:(done)) as [Hd1 Hd2]. rewrite Hd2, drop_all, receive_nothing in E.
      rewrite bool_decide_eq_true_2 in E by done. injection E as <- <- <-. by apply Hlost. }
    rewrite app_nil_r in Ec. specialize (Hrd eq_refl).
    destruct (reading hi es now k (outbox (ac_conn x)) Hhi Hout Hk) as [Hin|(e & Hke & Hin)]; [by rewrite <- Hrd|..].
    { rewrite Hrd, Hin, receive_nothing in E. case_bool_decide as D; [|injection E as <- _; by edestruct Hr].
      injection E as <- <- <-. by apply Hlost. }
    assert (frameable e.2) as Hfe.
    { apply (Forall_lookup_1 _ _ k _ Hfr). by rewrite list_lookup_fmap, Hke. }
    rewrite Hrd in E. destruct Hin as [[more Hin]|(missing & Hin & Hm)].
    + rewrite Hin, receive_wire in E by done. injection E as <- <- <-. cbn [wi_in].
      pose proof (next_request hi k e request (py_completed py) Ec Hke Hpre) as ->.
      exists (S k), []. rewrite app_nil_r, (take_S_r hi k e Hke), !fmap_app. split; [by rewrite Ec|].
      split; [apply lookup_lt_Some in Hke; lia|]. split; [|done]. intros _.
      change ([e].*2) with [e.2]. rewrite frames_snoc, length_app, <- Hrd.
      apply (f_equal length) in Hin. rewrite length_drop, <- Hrd, length_app in Hin. lia.
    + destruct (receive_part (py_client py) (py_out py) _ missing e.2
        (bool_decide (disconnects (ac_conn x) ≠ 0%nat)) Hfe Hin Hm) as (w' & E' & Hw').
      rewrite E' in E. case_bool_decide as D; [|injection E as <- _; by edestruct Hr].
      injection E as <- <- <-. rewrite (Hw' eq_refl) in *. by apply Hlost.
Qed.

(** The server takes a step, with everything else as it is. *)
Lemma server_step m h sys sys' ps rq par act :
  net_ok s0 q m h (mkNetwork sys ps) rq par → run_step fetch act sys sys' →
  ∃ new rq' par', stands s0 q sys' rq' par' ∧ shares m (h ++ new) par' ∧ lines_counted par' ∧
    ∀ i x py, rn_lines sys !! i = Some x → ps !! i = Some py →
      ∃ x', rn_lines sys' !! i = Some x' ∧
        ac_arrived x' = ac_arrived x ++ (match act with DoEvent j e => if decide (j = i) then bytes_of e else [] | _ => [] end) ∧
        ∀ y, ac_conn y = ac_conn x' → ac_arrived y = ac_arrived x → party_ok (of_peer i (h ++ new)) y py.
Proof.
  intros [H Hh Hc _ Hp] Hst. cbn [nw_running nw_parties] in *.
  destruct (stands_step _ _ _ _ _ _ _ _ H Hc Hst) as (rq' & par' & H' & Hpar & _).
  destruct (shares_steps fetch _ _ _ _ Hh Hpar) as [new Hh'].
  exists new, rq', par'. split; [done|]. split; [done|].
  split; [by apply (par_steps_refine fetch _ _ Hc Hpar)|].
  intros i x py Hx Hpy.
  destruct (run_grows s0 q fetch act sys sys' rq par m h i x H Hh Hc Hst Hx) as (x' & Hx' & Hg).
  destruct (run_arrives fetch act sys sys' i x Hst Hx) as (x2 & Hx2 & Harr).
  rewrite Hx' in Hx2. injection Hx2 as <-. exists x'. split; [done|]. split; [done|].
  intros y Hy Hya. eapply (party_mono (of_peer i h) _ x); [by eapply Hp| |done|].
  - unfold grows in *. by rewrite Hy.
  - rewrite of_peer_app. by apply prefix_app_r.
Qed.

Lemma server_lines act sys sys' :
  run_step fetch act sys sys' → act ≠ DoConnect → length (rn_lines sys') = length (rn_lines sys).
Proof. intros Hst Ha. destruct Hst; cbn; rewrite ?length_insert; done. Qed.

Lemma net_ok_server m h sys sys' ps rq par act :
  net_ok s0 q m h (mkNetwork sys ps) rq par → server_side act → run_step fetch act sys sys' →
  ∃ new rq' par', net_ok s0 q m (h ++ new) (mkNetwork sys' ps) rq' par'.
Proof.
  intros H Ha Hst. destruct (server_step m h sys sys' ps rq par act H Hst) as (new & rq' & par' & H1 & H2 & H3 & H4).
  exists new, rq', par'. assert (length (rn_lines sys') = length (rn_lines sys)) as Hlen.
  { eapply server_lines; [done|]. by intros ->. }
  split; cbn [nw_running nw_parties]; try done.
  - rewrite Hlen. apply H.
  - intros i x' py Hx' Hpy. destruct (lookup_lt_is_Some_2 (rn_lines sys) i) as [x Hx].
    { rewrite <- Hlen. by eapply lookup_lt_Some. }
    destruct (H4 i x py Hx Hpy) as (x2 & Hx2 & Harr & Hok). rewrite Hx' in Hx2. injection Hx2 as <-.
    apply Hok; [done|]. rewrite Harr. destruct act as [| |j e| | |]; rewrite ?app_nil_r; try done.
    case_decide; [|by rewrite app_nil_r]. destruct e; [done|by rewrite app_nil_r..].
Qed.

Lemma net_ok_connect m h sys sys' ps rq par host port cl w :
  net_ok s0 q m h (mkNetwork sys ps) rq par → run_step fetch DoConnect sys sys' →
  client_connect (DatabaseClient_new host port, mkWire false [] [] false) = (Val true, (cl, w)) →
  ∃ new rq' par', net_ok s0 q m (h ++ new) (mkNetwork sys' (ps ++ [mkParty cl (wi_open w) [] 0 None []])) rq' par'.
Proof.
  intros H Hst Hcl. destruct (server_step m h sys sys' ps rq par _ H Hst) as (new & rq' & par' & H1 & H2 & H3 & H4).
  exists new, rq', par'. pose proof (no_length _ _ _ _ _ _ _ H) as Hlen. cbn [nw_running nw_parties] in Hlen.
  inversion Hst as [|srv ao xs sv Es1 Es2| | | |]; subst sys sys'. cbn [rn_lines] in *.
  split; cbn [nw_running nw_parties rn_lines]; try done.
  - rewrite !length_app, Hlen. done.
  - intros i x' py Hx' Hpy. apply lookup_app_Some in Hpy as [Hpy|[Hge Hpy]].
    + destruct (lookup_lt_is_Some_2 xs i) as [x Hx]; [rewrite <- Hlen; by eapply lookup_lt_Some|].
      destruct (H4 i x py Hx Hpy) as (x2 & Hx2 & Harr & Hok). rewrite Hx' in Hx2. injection Hx2 as <-.
      apply Hok; [done|]. by rewrite Harr, app_nil_r.
    + apply list_lookup_singleton_Some in Hpy as [Hi <-].
      rewrite lookup_app_r in Hx' by lia. apply list_lookup_singleton_Some in Hx' as [_ <-].
      split; cbn [py_out py_read py_open py_waiting py_completed]; [done|lia|done|].
      intros _ _. exists 0%nat, []. split_and!; try done. lia.
Qed.

Lemma net_ok_deliver m h sys sys' ps rq par i py bytes rest :
  net_ok s0 q m h (mkNetwork sys ps) rq par → ps !! i = Some py → py_out py = bytes ++ rest →
  run_step fetch (DoEvent i (Arrive bytes)) sys sys' →
  ∃ new rq' par', net_ok s0 q m (h ++ new)
    (mkNetwork sys' (<[i := mkParty (py_client py) (py_open py) rest (py_read py) (py_waiting py) (py_completed py)]> ps)) rq' par'.
Proof.
  intros H Hi Hout Hst.
  destruct (server_step m h sys sys' ps rq par _ H Hst) as (new & rq' & par' & H1 & H2 & H3 & H4).
  exists new, rq', par'. pose proof (no_length _ _ _ _ _ _ _ H) as Hlen. cbn [nw_running nw_parties] in Hlen.
  assert (length (rn_lines sys') = length (rn_lines sys)) as Hlen' by (by eapply server_lines).
  split; cbn [nw_running nw_parties]; try done.
  - by rewrite length_insert, Hlen, Hlen'.
  - intros j x' py' Hx' Hpy'. destruct (lookup_lt_is_Some_2 (rn_lines sys) j) as [x Hx].
    { rewrite <- Hlen'. by eapply lookup_lt_Some. }
    destruct (decide (i = j)) as [->|Hne].
    + rewrite list_lookup_insert_eq in Hpy' by (by eapply lookup_lt_Some). injection Hpy' as <-.
      destruct (H4 j x py Hx Hi) as (x2 & Hx2 & Harr & Hok). rewrite Hx' in Hx2. injection Hx2 as <-.
      rewrite decide_True in Harr by done. cbn [bytes_of] in Harr.
      destruct (Hok (mkActive (ac_conn x') (ac_arrived x) (ac_request x')) eq_refl eq_refl) as [K1 K2 K3 K4].
      split; try done. cbn [py_out]. rewrite Harr, <- app_assoc, <- Hout. exact K1.
    + rewrite list_lookup_insert_ne in Hpy' by done.
      destruct (H4 j x py' Hx Hpy') as (x2 & Hx2 & Harr & Hok). rewrite Hx' in Hx2. injection Hx2 as <-.
      apply Hok; [done|]. by rewrite Harr, decide_False, app_nil_r by done.
Qed.

(** A client does something on its own. *)
Lemma net_ok_client m h sys ps rq par i x py py' :
  net_ok s0 q m h (mkNetwork sys ps) rq par → ps !! i = Some py → rn_lines sys !! i = Some x →
  party_ok (of_peer i h) x py' → net_ok s0 q m h (mkNetwork sys (<[i := py']> ps)) rq par.
Proof.
  intros [H1 H2 H3 H4 H5] Hi Hx Hok. split; cbn [nw_running nw_parties] in *; try done.
  - by rewrite length_insert.
  - intros j y py2 Hy Hpy. destruct (decide (i = j)) as [->|Hne].
    + rewrite list_lookup_insert_eq in Hpy by (by eapply lookup_lt_Some). injection Hpy as <-.
      rewrite Hx in Hy. by injection Hy as <-.
    + rewrite list_lookup_insert_ne in Hpy by done. by eapply H5.
Qed.

Lemma net_ok_receive m h sys ps rq par i x py request r cl w :
  net_ok s0 q m h (mkNetwork sys ps) rq par → ps !! i = Some py → rn_lines sys !! i = Some x →
  py_waiting py = Some request → receive_message (py_client py, wire_of py x) = (r, (cl, w)) →
  (∀ why, r ≠ UB why) →
  net_ok s0 q m h (mkNetwork sys (<[i := mkParty cl (wi_open w) (py_out py)
    (length (outbox (ac_conn x)) - length (wi_in w)) None (py_completed py ++ [(request, r)])]> ps)) rq par.
Proof.
  intros H Hi Hx Hw E Hr. eapply net_ok_client; [done..|].
  pose proof (no_parties _ _ _ _ _ _ _ H i x py Hx Hi) as Hok.
  destruct (active_share _ _ _ _ _ _ _ _ _ (no_stands _ _ _ _ _ _ _ H) (no_shares _ _ _ _ _ _ _ H) Hx)
    as (_ & es & now & E1 & _ & _ & _ & E2 & _).
  eapply party_receive; [done..|rewrite E2; apply written_prefix| |done|done|done]. intros Hf.
  eapply history_sent; [apply H|apply H|done| |done]. apply Hok.
Qed.

Lemma net_ok_step m h act nw nw' rq par :
  net_ok s0 q m h nw rq par → net_step fetch act nw nw' →
  ∃ new rq' par', net_ok s0 q m (h ++ new) nw' rq' par'.
Proof.
  intros H Hst.
  destruct Hst as [sys sys' ps host port cl w Hrun Hcl|sys ps i py x op id cl1 w1 cl2 w2 Hi Hx Hw E1 Ec E2
    |sys sys' ps i py bytes rest Hi Hout Hne Hrun|act sys sys' ps Ha Hrun
    |sys ps i py x request r cl w Hi Hx Hw E Hr|sys ps i py x cl w Hi Hx Hw E].
  - by eapply net_ok_connect.
  - exists [], rq, par. rewrite app_nil_r. eapply net_ok_client; [done..|].
    eapply party_send; [by eapply (no_parties _ _ _ _ _ _ _ H)|done..].
  - by eapply net_ok_deliver.
  - by eapply net_ok_server.
  - exists [], rq, par. rewrite app_nil_r. by eapply net_ok_receive.
  - exists [], rq, par. rewrite app_nil_r. eapply net_ok_client; [done..|].
    destruct (no_parties _ _ _ _ _ _ _ H i x py Hx Hi) as [K1 K2 K3 K4].
    unfold sent in *. rewrite Hw in *. by split.
Qed.

Lemma net_ok_steps m h nw nw' rq par :
  net_ok s0 q m h nw rq par → rtc (net_steps fetch) nw nw' →
  ∃ new rq' par', net_ok s0 q m (h ++ new) nw' rq' par'.
Proof.
  intros H Hst. revert h rq par H. induction Hst as [|nw1 nw2 nw3 [act H1] _ IH]; intros h rq par H.
  { exists [], rq, par. by rewrite app_nil_r. }
  destruct (net_ok_step m h act nw1 nw2 rq par H H1) as (new & rq2 & par2 & H2).
  destruct (IH _ _ _ H2) as (new' & rq3 & par3 & H3). exists (new ++ new'), rq3, par3. by rewrite app_assoc.
Qed.

(** What a client has sent stays sent. *)
Lemma sent_step act nw nw' i py :
  net_step fetch act nw nw' → nw_parties nw !! i = Some py →
  ∃ py', nw_parties nw' !! i = Some py' ∧ sent py `prefix_of` sent py'.
Proof.
  intros Hst Hpy.
  assert (∀ (ps : list Party) (j : nat) (p p' : Party), ps !! i = Some py → ps !! j = Some p → sent p `prefix_of` sent p' →
    ∃ py', <[j := p']> ps !! i = Some py' ∧ sent py `prefix_of` sent py') as Hins.
  { intros ps j p p' Hi Hj Hpre. destruct (decide (j = i)) as [->|Hne].
    - exists p'. split; [apply list_lookup_insert_eq; by eapply lookup_lt_Some|]. by rewrite Hi in Hj; injection Hj as <-.
    - exists py. by rewrite list_lookup_insert_ne. }
  destruct Hst as [sys sys' ps host port cl w Hrun Hcl|sys ps j p x op id cl1 w1 cl2 w2 Hj Hx Hw E1 Ec E2
    |sys sys' ps j p bytes rest Hj Hout Hne Hrun|act sys sys' ps Ha Hrun
    |sys ps j p x request r cl w Hj Hx Hw E Hr|sys ps j p x cl w Hj Hx Hw E]; cbn [nw_parties] in *.
  - exists py. split; [by apply lookup_app_l_Some|done].
  - eapply Hins; [done..|]. unfold sent. rewrite Hw. cbn [py_completed py_waiting].
    change (option_list None) with (@nil Message). rewrite app_nil_r. by apply prefix_app_r.
  - by eapply Hins.
  - by exists py.
  - eapply Hins; [done..|]. unfold sent. rewrite Hw. cbn [py_completed py_waiting]. rewrite fmap_app.
    change (option_list None) with (@nil Message). by rewrite app_nil_r.
  - eapply Hins; [done..|]. unfold sent. by rewrite Hw.
Qed.

Lemma sent_steps nw nw' i py :
  rtc (net_steps fetch) nw nw' → nw_parties nw !! i = Some py →
  ∃ py', nw_parties nw' !! i = Some py' ∧ sent py `prefix_of` sent py'.
Proof.
  intros Hst. revert py. induction Hst as [|nw1 nw2 nw3 [act H1] _ IH]; intros py Hpy; [by exists py|].
  destruct (sent_step _ _ _ _ _ H1 Hpy) as (py2 & H2 & P2). destruct (IH py2 H2) as (py3 & H3 & P3).
  exists py3. split; [done|]. by etrans.
Qed.

Lemma net_ok_start m srv n :
  opened s0 q → db_ok s0 → srv_database_ srv = true → m = contents s0 →
  net_ok s0 q m [] (network_start srv n s0) (mkRequests s0 [] []) (parallel_start srv s0).
Proof.
  intros Ho Hs Hd Hm. split.
  - by apply stands_start.
  - by apply shares_start.
  - apply lines_counted_start.
  - done.
  - by intros i x py Hx.
Qed.
End Invariant.

(** ** Progress *)

(** The steps that are taken without a client that begins or ends something: bytes arrive, the
    server goes on by itself, and a client that can receive its response does. *)
Definition net_own (act : net_action) (nw : Network) : Prop :=
  match act with
  | NetDeliver _ | NetReceive _ => True
  | NetServer act => own act (nw_running nw)
  | _ => False
  end.
Definition net_goes (fetch : nat → nat → nat → nat) (nw nw' : Network) : Prop :=
  ∃ act, net_own act nw ∧ net_step fetch act nw nw'.

(** What is left to do. *)
Definition party_load (py : Party) : nat :=
  401 * length (py_out py) + match py_waiting py with Some _ => 1 | None => 0 end.
Definition net_load (nw : Network) : nat :=
  sum_list_with party_load (nw_parties nw) + running_load (nw_running nw).

(** A client that waits cannot receive yet. *)
Definition stalled (x : Active) (py : Party) : bool :=
  match py_waiting py, (receive_message (py_client py, wire_of py x)).1 with
  | Some _, UB _ | None, _ => true
  | Some _, _ => false
  end.

Record net_done (nw : Network) : Prop := {
  nd_resting : resting (nw_running nw);
  nd_arrived : Forall (λ py, py_out py = []) (nw_parties nw);
  nd_stalled : ∀ i x py, rn_lines (nw_running nw) !! i = Some x → nw_parties nw !! i = Some py →
    stalled x py = true;
}.

Section Progress.
Context (s0 : Process) (q : nat) (fetch : nat → nat → nat → nat).
Implicit Types (sys : Running) (par : Parallel Process nat) (rq : Requests Process nat) (x : Active)
  (m : gmap string string) (h : list (nat * (Message * Message))) (hi : list (Message * Message))
  (py : Party) (nw : Network).

Lemma deliver_load sys sys' i bytes :
  run_step fetch (DoEvent i (Arrive bytes)) sys sys' →
  running_load sys' = (running_load sys + 400 * length bytes)%nat.
Proof.
  intros Hst. inversion Hst as [| |srv ao ch xs sv j x e c' Hx He Hfr Hr E| | |]; subst.
  injection E as <-. unfold running_load. cbn [rn_lines rn_serving].
  change (load (set_process ?s ?v)) with (load v).
  match goal with |- context [<[i := ?x']> xs] => pose proof (load_insert xs i x x' Hx) as Hsum end.
  unfold active_load in Hsum at 2 4. cbn [ac_conn ac_request with_store inbox pending] in Hsum.
  rewrite length_app in Hsum. lia.
Qed.

Lemma party_insert (ps : list Party) i py py' :
  ps !! i = Some py →
  (sum_list_with party_load (<[i := py']> ps) + party_load py = sum_list_with party_load ps + party_load py')%nat.
Proof. intros Hi. pose proof (sum_list_with_insert party_load ps i py py' Hi). lia. Qed.

Lemma net_goes_load m h act nw nw' rq par :
  net_ok s0 q m h nw rq par → net_own act nw → net_step fetch act nw nw' → (net_load nw' < net_load nw)%nat.
Proof.
  intros H Ho Hst.
  destruct Hst as [| |sys sys' ps i py bytes rest Hi Hout Hne Hrun|act sys sys' ps Ha Hrun
    |sys ps i py x request r cl w Hi Hx Hw E Hr|]; try done;
    unfold net_load; cbn [nw_running nw_parties].
  - rewrite (deliver_load _ _ _ _ Hrun).
    match goal with |- context [<[i := ?py']> ps] => pose proof (party_insert ps i py py' Hi) as Hsum end.
    unfold party_load in Hsum at 2 4. cbn [py_out py_waiting] in Hsum. rewrite Hout, length_app in Hsum.
    destruct bytes; [done|]. cbn [length] in *. lia.
  - pose proof (works_load s0 q fetch act _ _ rq par m h (no_stands _ _ _ _ _ _ _ H) (no_shares _ _ _ _ _ _ _ H) Ho Hrun).
    cbn [nw_running] in *. lia.
  - match goal with |- context [<[i := ?py']> ps] => pose proof (party_insert ps i py py' Hi) as Hsum end.
    unfold party_load in Hsum at 2 4. cbn [py_out py_waiting] in Hsum. rewrite Hw in Hsum. lia.
Qed.

(** Bytes can always arrive. *)
Lemma can_deliver sys ps i py :
  length ps = length (rn_lines sys) → ps !! i = Some py → py_out py ≠ [] →
  ∃ nw', net_goes fetch (mkNetwork sys ps) nw'.
Proof.
  intros Hlen Hi Hne. destruct sys as [srv ao ch xs sv]. cbn [rn_lines] in Hlen.
  destruct (lookup_lt_is_Some_2 xs i) as [x Hx]; [rewrite <- Hlen; by eapply lookup_lt_Some|].
  eexists. exists (NetDeliver i). split; [done|].
  eapply net_deliver; [done|symmetry; apply app_nil_r|done|]. by eapply run_event.
Qed.

Lemma can_receive sys ps i x py :
  ps !! i = Some py → rn_lines sys !! i = Some x → stalled x py = false →
  ∃ nw', net_goes fetch (mkNetwork sys ps) nw'.
Proof.
  intros Hi Hx Hs. unfold stalled in Hs. destruct (py_waiting py) as [request|] eqn:Hw; [|done].
  destruct (receive_message (py_client py, wire_of py x)) as [r [cl w]] eqn:E.
  eexists. exists (NetReceive i). split; [done|]. eapply net_receive; [done..|]. by intros why ->.
Qed.

(** Something can happen, or all is done. *)
Lemma goes_or_done m h nw rq par :
  net_ok s0 q m h nw rq par → (0 < length (sv_current (rn_serving (nw_running nw))))%nat →
  (∃ nw', net_goes fetch nw nw') ∨ net_done nw.
Proof.
  intros H Hn. destruct nw as [sys ps]. cbn [nw_running] in Hn.
  destruct (decide (Forall (λ py, py_out py = []) ps)) as [Hout|D].
  2:{ left. apply not_Forall_Exists in D; [|apply _]. apply Exists_exists in D as (py & Hpy & Hne).
      apply list_elem_of_lookup in Hpy as [i Hi]. eapply can_deliver; [|done..]. apply H. }
  destruct (works_or_resting s0 q fetch sys rq par m h) as [(sys' & act & Ho & Hrun)|Hr]; [apply H|apply H|done| |].
  { left. eexists. exists (NetServer act). split; [done|]. apply net_server; [|done].
    by destruct act as [| |i [|[]|]| | |]. }
  destruct (decide (Forall (λ xp, stalled xp.1 xp.2 = true) (zip (rn_lines sys) ps))) as [Hall|D].
  - right. split; [done..|]. cbn [nw_running nw_parties]. intros i x py Hx Hpy.
    refine (Forall_lookup_1 _ _ i (x, py) Hall _). apply lookup_zip_with_Some. by exists x, py.
  - left. apply not_Forall_Exists in D; [|apply _]. apply Exists_exists in D as ([x py] & Hxp & Hne).
    apply list_elem_of_lookup in Hxp as [i Hi]. apply lookup_zip_with_Some in Hi as (? & ? & [= <- <-] & Hx & Hpy).
    eapply can_receive; [done..|]. cbn in Hne. by destruct (stalled x py).
Qed.

Lemma done_stuck nw nw' : net_done nw → ¬ net_goes fetch nw nw'.
Proof.
  intros [Hr Hout Hs] (act & Ho & Hst).
  destruct Hst as [| |sys sys' ps i py bytes rest Hi E Hne Hrun|act sys sys' ps Ha Hrun
    |sys ps i py x request r cl w Hi Hx Hw E Hne|]; try done; cbn [nw_running nw_parties] in *.
  - pose proof (Forall_lookup_1 _ _ _ _ Hout Hi) as E'. cbn in E'. rewrite E in E'. by destruct bytes.
  - eapply resting_stuck; [done|]. by exists act.
  - specialize (Hs i x py Hx Hi). unfold stalled in Hs. rewrite Hw, E in Hs. cbn in Hs.
    destruct r; try done. by eapply Hne.
Qed.

Lemma net_threads act nw nw' :
  net_step fetch act nw nw' →
  length (sv_current (rn_serving (nw_running nw'))) = length (sv_current (rn_serving (nw_running nw))).
Proof. intros Hst. destruct Hst; cbn [nw_running]; try done; by eapply run_threads. Qed.

Lemma net_goes_steps nw nw' : rtc (net_goes fetch) nw nw' → rtc (net_steps fetch) nw nw'.
Proof. induction 1 as [|? ? ? (act & _ & H) _ IH]; [done|]. eapply rtc_l; [by exists act|done]. Qed.

Lemma net_steps_threads nw nw' :
  rtc (net_steps fetch) nw nw' →
  length (sv_current (rn_serving (nw_running nw'))) = length (sv_current (rn_serving (nw_running nw))).
Proof. induction 1 as [|? ? ? [act H] _ IH]; [done|]. by rewrite IH, (net_threads _ _ _ H). Qed.

Lemma net_goes_bounded m h nw rq par k nw' :
  net_ok s0 q m h nw rq par → nsteps (net_goes fetch) k nw nw' → (k + net_load nw' <= net_load nw)%nat.
Proof.
  intros H Hst. revert h rq par H. induction Hst as [|k nw1 nw2 nw3 (act & Ho & H1) _ IH]; intros h rq par H; [lia|].
  pose proof (net_goes_load _ _ _ _ _ _ _ H Ho H1).
  destruct (net_ok_step s0 q fetch m h act nw1 nw2 rq par H H1) as (new & rq2 & par2 & H2).
  specialize (IH _ _ _ H2). lia.
Qed.

Lemma net_goes_settle m h nw rq par k :
  (net_load nw <= k)%nat → net_ok s0 q m h nw rq par → (0 < length (sv_current (rn_serving (nw_running nw))))%nat →
  ∃ nw', rtc (net_goes fetch) nw nw' ∧ net_done nw'.
Proof.
  revert nw h rq par. induction k as [|k IH]; intros nw h rq par Hk H Hn;
    (destruct (goes_or_done m h nw rq par H Hn) as [[nw1 (act & Ho & H1)]|Hd]; [|by exists nw]);
    pose proof (net_goes_load _ _ _ _ _ _ _ H Ho H1); [lia|].
  destruct (net_ok_step s0 q fetch m h act nw nw1 rq par H H1) as (new & rq1 & par1 & H2).
  destruct (IH nw1 _ _ _ ltac:(lia) H2) as (nw' & Hst & Hd); [by rewrite (net_threads _ _ _ H1)|].
  exists nw'. split; [|done]. eapply rtc_l; [by exists act|done].
Qed.

(** What the steps of their own leave of a client whose requests are well-formed. *)
Definition same_party nw nw' (i : nat) : Prop :=
  ∀ py x, nw_parties nw !! i = Some py → rn_lines (nw_running nw) !! i = Some x → Forall frameable (sent py) →
  ∃ py' x', nw_parties nw' !! i = Some py' ∧ rn_lines (nw_running nw') !! i = Some x' ∧ sent py' = sent py ∧
    (disconnects (ac_conn x) = 0%nat → disconnects (ac_conn x') = 0%nat).

Lemma same_party_insert sys ps j p p' i :
  ps !! j = Some p → sent p' = sent p → same_party (mkNetwork sys ps) (mkNetwork sys (<[j := p']> ps)) i.
Proof.
  intros Hj E py x Hpy Hx Hf. cbn [nw_parties nw_running] in *. destruct (decide (j = i)) as [->|Hne].
  - rewrite Hj in Hpy. injection Hpy as ->. exists p', x.
    split; [apply list_lookup_insert_eq; by eapply lookup_lt_Some|done].
  - exists py, x. by rewrite list_lookup_insert_ne.
Qed.

Lemma own_keeps m h sys sys' ps rq par act i :
  net_ok s0 q m h (mkNetwork sys ps) rq par → own act sys → run_step fetch act sys sys' →
  same_party (mkNetwork sys ps) (mkNetwork sys' ps) i.
Proof.
  intros [H Hh Hc _ Hp] Ho Hrun py x Hpy Hx Hf. cbn [nw_parties nw_running] in *.
  destruct (run_arrives fetch _ _ _ _ _ Hrun Hx) as (x' & Hx' & _). exists py, x'. split_and!; [done..|].
  intros Hd. destruct (stands_step _ _ _ _ _ _ _ _ H Hc Hrun) as (rq' & par' & H' & _ & Hgo).
  destruct (Forall2_lookup_l _ _ _ _ _ (st_lines _ _ _ _ _ H) Hx) as (l & Hl & [L1 L2 _]).
  destruct (goes_many_steady fetch _ _ _ _ _ _ (sent py) Hh (Hgo Ho) Hl Hf) as (l' & Hl' & _ & Hd').
  { split; [|by rewrite <- (alike_disconnects _ _ L1)]. rewrite L2. exists (py_out py).
    symmetry. apply (pk_bytes _ _ _ (Hp i x py Hx Hpy)). }
  destruct (Forall2_lookup_lr _ _ _ _ _ _ (st_lines _ _ _ _ _ H') Hx' Hl') as [R1 _ _].
  by rewrite (alike_disconnects _ _ R1).
Qed.

Lemma goes_keeps m h act nw nw' rq par i :
  net_ok s0 q m h nw rq par → net_own act nw → net_step fetch act nw nw' → same_party nw nw' i.
Proof.
  intros H Ho Hst.
  destruct Hst as [| |sys sys' ps j p bytes rest Hj Hout Hne Hrun|act sys sys' ps Ha Hrun
    |sys ps j p x request r cl w Hj Hx Hw E Hr|]; try done.
  - intros py x Hpy Hx Hf. cbn [nw_parties nw_running] in *.
    inversion Hrun as [| |srv ao ch xs sv j' y e c' Hy He Hfr Hr E| | |]; subst. injection E as <-.
    cbn [rn_lines] in *. destruct (decide (j = i)) as [->|Hne'].
    + rewrite Hx in Hy. injection Hy as <-. rewrite Hpy in Hj. injection Hj as <-. do 2 eexists.
      do 2 (split; [apply list_lookup_insert_eq; by eapply lookup_lt_Some|]). done.
    + exists py, x. by rewrite !list_lookup_insert_ne.
  - by eapply own_keeps.
  - eapply same_party_insert; [done|]. unfold sent. cbn [py_completed py_waiting]. rewrite fmap_app, Hw.
    change (option_list None) with (@nil Message). by rewrite app_nil_r.
Qed.

Lemma goes_many_keep m h nw nw' rq par i :
  net_ok s0 q m h nw rq par → rtc (net_goes fetch) nw nw' → same_party nw nw' i.
Proof.
  intros H Hst. revert h rq par H.
  induction Hst as [nw1|nw1 nw2 nw3 (act & Ho & H1) _ IH]; intros h rq par H py x Hpy Hx Hf; [by exists py, x|].
  destruct (goes_keeps _ _ _ _ _ _ _ i H Ho H1 py x Hpy Hx Hf) as (py2 & x2 & Hpy2 & Hx2 & E2 & D2).
  destruct (net_ok_step s0 q fetch m h act nw1 nw2 rq par H H1) as (new & rq2 & par2 & H2).
  destruct (IH _ _ _ H2 py2 x2 Hpy2 Hx2) as (py3 & x3 & ? & ? & E3 & D3); [by rewrite E2|].
  exists py3, x3. rewrite E3. eauto 10.
Qed.

(** When all is done, so is every call whose messages fit, unless the buffers of its
    response's write are gone. *)
Lemma done_completed m h nw rq par i x py :
  net_ok s0 q m h nw rq par → net_done nw → rn_lines (nw_running nw) !! i = Some x →
  nw_parties nw !! i = Some py → Forall frameable (sent py) → Forall frameable (of_peer i h).*2 →
  unfetched (ac_conn x) = 0%nat → py_waiting py = None ∧
  (disconnects (ac_conn x) = 0%nat → py_completed py = answered_call <$> of_peer i h).
Proof.
  intros [H Hh Hc _ Hp] [Hr Hout Hs] Hx Hpy Hf Hfr Hu. specialize (Hp i x py Hx Hpy). specialize (Hs i x py Hx Hpy).
  destruct Hp as [K1 _ K3 K4]. destruct (K4 Hf Hfr) as (k & errs & Ec & Hk & Hrd & He & Hd).
  rewrite (Forall_lookup_1 _ _ _ _ Hout Hpy), app_nil_r in K1.
  assert (disconnects (ac_conn x) = 0%nat → (of_peer i h).*1 = sent py ∧ errs = [] ∧
    outbox (ac_conn x) = frames (of_peer i h).*2) as Halive.
  { intros D. destruct (rest_answered fetch s0 q (nw_running nw) (nw_running nw) rq rq par par m h h i x (sent py) H Hh H Hh (rtc_refl _ _) Hr Hx Hf K1 D)
      as (x' & Hx' & _ & _ & _ & Hall).
    rewrite Hx in Hx'. injection Hx' as <-. destruct (Hall Hu) as [? ?]. split; [done|].
    split; [|done]. destruct errs; [done|by destruct Hd]. }
  assert (py_waiting py = None) as Hw.
  { destruct (py_waiting py) as [request|] eqn:Hw; [exfalso|done]. unfold stalled in Hs. rewrite Hw in Hs.
    unfold wire_of in Hs. rewrite K3 in Hs by done. case_bool_decide as D.
    - destruct (receive_message _) as [r st] eqn:E. cbn in Hs. destruct r; try done. by eapply receive_eof.
    - assert (disconnects (ac_conn x) = 0%nat) as D0 by lia. destruct (Halive D0) as (Es & -> & Ho).
      rewrite Hrd, Ho in Hs by done. unfold sent in Es. rewrite Hw, Ec, app_nil_r, <- list_fmap_compose in Es.
      change (option_list (Some request)) with [request] in Es.
      assert (length (of_peer i h) = S k) as Elen.
      { apply (f_equal length) in Es. rewrite length_app, !length_fmap, length_take in Es. cbn in Es. lia. }
      destruct (lookup_lt_is_Some_2 (of_peer i h) k) as [e Hke]; [lia|].
      rewrite <- (take_drop_middle _ _ _ Hke) in Hs at 2. rewrite (drop_ge (of_peer i h) (S k)) in Hs by lia.
      rewrite fmap_app, frames_app, drop_exact in Hs by done. change ([e].*2) with [e.2] in Hs.
      rewrite frames_cons, receive_wire in Hs; [done|].
      apply (Forall_lookup_1 _ _ k _ Hfr). by rewrite list_lookup_fmap, Hke. }
  split; [done|]. intros D. destruct (Halive D) as (Es & -> & _). rewrite app_nil_r in Ec. rewrite Ec.
  f_equal. apply take_ge. apply (f_equal length) in Es. unfold sent in Es.
  rewrite Hw, Ec, app_nil_r, !length_fmap, length_take in Es. lia.
Qed.
End Progress.

Lemma net_reachable fetch srv n s nw :
  db_ok s → srv_database_ srv = true →
  rtc (net_steps fetch) (network_start srv n s) nw →
  ∃ q h rq par, net_ok s q (contents s) h nw rq par.
Proof.
  intros Hs Hd Hst. destruct (db_ok_opened s Hs) as [q Ho].
  destruct (net_ok_steps s q fetch (contents s) [] _ nw _ _ (net_ok_start s q _ srv n Ho Hs Hd eq_refl) Hst)
    as (h & rq & par & H). by exists q, h, rq, par.
Qed.

(** The server of a network runs by itself. *)
Lemma net_running fetch nw nw' :
  rtc (net_steps fetch) nw nw' → rtc (run_steps fetch) (nw_running nw) (nw_running nw').
Proof.
  induction 1 as [|nw1 nw2 nw3 [act H] _ IH]; [done|]. etrans; [|exact IH].
  destruct H; cbn [nw_running]; try done; apply rtc_once; by eexists.
Qed.

(** ** Responses that fit *)

(** Only what is read from the database can be longer than a message. *)
Definition reads (request : Message) : bool :=
  match msg_type request with MessageType.GET | MessageType.SCAN => true | _ => false end.
Definition answer_fits (e : Message * Message) : Prop := reads e.1 = true → frameable e.2.

Lemma short_answer request type value :
  frameable request → MessageType_canonical type → slen value <= 32 → frameable (make_response request type value).
Proof.
  intros [Hwf _] Ht Hv. apply response_frameable; [done|apply Hwf|unfold MAX_MESSAGE_SIZE; lia].
Qed.

Lemma served_fits m request response m' :
  served m request response m' → frameable request → answer_fits (request, response) → frameable response.
Proof.
  unfold served, answer_fits, reads. cbn [fst snd]. intros H Hf Hfit.
  destruct (msg_type request); try (by apply Hfit); repeat case_match; destruct H as [_ ->];
    by apply short_answer.
Qed.

Lemma served_all_each m (es : list (Message * Message)) m' e :
  served_all m es.*1 es.*2 m' → e ∈ es → ∃ m1 m2, served m1 e.1 e.2 m2.
Proof.
  revert m. induction es as [|e0 es IH]; intros m H He; [by apply not_elem_of_nil in He|].
  cbn in H. inversion H as [|? ? ? m1 ? ? ? H1 H2]; subst. apply elem_of_cons in He as [->|He]; [by eexists _, _|by eapply IH].
Qed.

Lemma history_fits m h m' i :
  served_all m h.*2.*1 h.*2.*2 m' → Forall frameable (of_peer i h).*1 → Forall answer_fits (of_peer i h) →
  Forall frameable (of_peer i h).*2.
Proof.
  intros H Hf Hfit. apply Forall_lookup. intros j response Hj.
  rewrite list_lookup_fmap in Hj. destruct (of_peer i h !! j) as [[request response']|] eqn:He; [|done].
  injection Hj as <-. assert ((request, response') ∈ h.*2) as Hin.
  { apply list_elem_of_lookup_2 in He. unfold of_peer in He. apply list_elem_of_fmap in He as (x & -> & Hx).
    apply list_elem_of_filter in Hx as [_ Hx]. by apply list_elem_of_fmap_2. }
  destruct (served_all_each m h.*2 m' _ H Hin) as (m1 & m2 & Hs). cbn [fst snd] in Hs.
  eapply served_fits; [done| |by apply (Forall_lookup_1 _ _ j _ Hfit)].
  apply (Forall_lookup_1 _ _ j _ Hf). by rewrite list_lookup_fmap, He.
Qed.

(** ** Theorems *)

(** The calls of a client that returned a response, with it. *)
Definition answered_calls (py : Party) : list (Message * Message) :=
  omap (λ e, match e.2 with Val response => Some (e.1, response) | _ => None end) (py_completed py).

Lemma answered_calls_results (es : list (Message * Message)) errs :
  Forall (λ e : Message * outcome Message, ∃ what, e.2 = Exn what) errs →
  omap (λ e : Message * outcome Message, match e.2 with Val response => Some (e.1, response) | _ => None end)
    ((answered_call <$> es) ++ errs) = es.
Proof.
  intros He. rewrite omap_app.
  assert (omap (λ e : Message * outcome Message, match e.2 with Val response => Some (e.1, response) | _ => None end) errs
    = []) as ->.
  { induction He as [|[? ?] ? [what E] _ IH]; [done|]. cbn in *. by subst. }
  rewrite app_nil_r. induction es as [|[? ?] es IH]; [done|]. cbn. by f_equal.
Qed.

Lemma party_answered m h m' x py i :
  party_ok (of_peer i h) x py → served_all m h.*2.*1 h.*2.*2 m' → (of_peer i h).*1 `prefix_of` sent py →
  Forall frameable (sent py) → Forall answer_fits (of_peer i h) → answered_calls py `prefix_of` of_peer i h.
Proof.
  intros [_ _ _ H] Hs [rest Hpre] Hf Hfit. destruct H as (k & errs & E & _ & _ & He & _); [done| |].
  - eapply history_fits; [done| |done]. rewrite Hpre in Hf. by apply Forall_app in Hf as [? _].
  - unfold answered_calls. rewrite E, answered_calls_results by done. apply prefix_take.
Qed.

(** What a state shows of a client. *)
Lemma net_share s0 q m h nw rq par i py :
  net_ok s0 q m h nw rq par → nw_parties nw !! i = Some py → Forall frameable (sent py) →
  (of_peer i h).*1 `prefix_of` sent py ∧
  (Forall answer_fits (of_peer i h) → answered_calls py `prefix_of` of_peer i h).
Proof.
  intros [H1 H2 H3 H4 H5] Hpy Hf. destruct (lookup_lt_is_Some_2 (rn_lines (nw_running nw)) i) as [x Hx].
  { rewrite <- H4. by eapply lookup_lt_Some. }
  pose proof (H5 i x py Hx Hpy) as Hok.
  assert ((of_peer i h).*1 `prefix_of` sent py) as Hpre.
  { eapply history_sent; [done..| |done]. apply Hok. }
  split; [done|]. intros Hfit. eapply party_answered; [done|apply H2|done..].
Qed.

Lemma net_contents s0 q m h nw rq par :
  net_ok s0 q m h nw rq par → LockingTheorems.quiet (sv_threads (rn_serving (nw_running nw))) →
  served_all m h.*2.*1 h.*2.*2 (contents (shared (rn_serving (nw_running nw)))).
Proof.
  intros H Hq. rewrite <- (stands_quiet _ _ _ _ _ (no_stands _ _ _ _ _ _ _ H) Hq). apply (no_shares _ _ _ _ _ _ _ H).
Qed.

(** C4.  The calls of all clients are linearizable, over the network and while I/O works: there is
    one sequential history from the database's first contents, which only grows, and when no call of the
    database is under way it has led to the contents of the database.  Of a client whose
    requests are well-formed it has an initial part of what the client sent, in this order; if
    the values that it read fit into a message, the calls that returned a response are the first
    ones of the history, with these responses.  A call that returned before another was made
    comes before it in the history. *)
Theorem network_linearizable (fetch : nat → nat → nat → nat) (srv : DatabaseServer) (n : nat)
    (s : Process) (nw nw' : Network) :
  db_ok s → srv_database_ srv = true →
  rtc (net_steps fetch) (network_start srv n s) nw → rtc (net_steps fetch) nw nw' →
  ∃ (h new : list (nat * (Message * Message))) m',
    served_all (contents s) (h ++ new).*2.*1 (h ++ new).*2.*2 m' ∧
    (LockingTheorems.quiet (sv_threads (rn_serving (nw_running nw'))) →
     m' = contents (shared (rn_serving (nw_running nw')))) ∧
    (∀ i, nw_parties nw !! i = None → of_peer i h = []) ∧
    ∀ i py', nw_parties nw' !! i = Some py' → Forall frameable (sent py') →
      (of_peer i (h ++ new)).*1 `prefix_of` sent py' ∧
      (Forall answer_fits (of_peer i (h ++ new)) → answered_calls py' `prefix_of` of_peer i (h ++ new)) ∧
      ∀ py, nw_parties nw !! i = Some py →
        (of_peer i h).*1 `prefix_of` sent py ∧
        (Forall answer_fits (of_peer i h) → answered_calls py `prefix_of` of_peer i h).
Proof.
  intros Hs Hd Hst Hst'. destruct (net_reachable _ _ _ _ _ Hs Hd Hst) as (q & h & rq & par & H).
  destruct (net_ok_steps s q fetch _ _ _ _ _ _ H Hst') as (new & rq' & par' & H').
  exists h, new, (contents (pa_store par')).
  split; [apply (no_shares _ _ _ _ _ _ _ H')|]. split.
  { intros Hq. by rewrite (stands_quiet _ _ _ _ _ (no_stands _ _ _ _ _ _ _ H') Hq). }
  split.
  { intros i Hi%lookup_ge_None. apply of_peer_none. intros y Hy Ey.
    pose proof (sh_bound _ _ _ (no_shares _ _ _ _ _ _ _ H) y Hy) as Hlt.
    rewrite (no_length _ _ _ _ _ _ _ H), (Forall2_length _ _ _ (st_lines _ _ _ _ _ (no_stands _ _ _ _ _ _ _ H))) in Hi.
    lia. }
  intros i py' Hpy' Hfr. destruct (net_share _ _ _ _ _ _ _ _ _ H' Hpy' Hfr) as [? ?]. split; [done|]. split; [done|].
  intros py Hpy. eapply net_share; [done..|].
  destruct (sent_steps fetch _ _ _ _ Hst' Hpy) as (py2 & Hpy2 & [more E]).
  rewrite Hpy' in Hpy2. injection Hpy2 as <-. rewrite E in Hfr. by apply Forall_app in Hfr as [? _].
Qed.

(** C5.  Every call returns, or the response's write dangles: while I/O works and with at least one
    thread, from any state that was reached and whatever the scheduler and the network do, only boundedly many
    steps are taken unless a client begins something new; when none can be taken, everything has
    arrived and the threads of the server are free, and the sequential history has led to the
    contents of the database.  A client whose messages fit then waits no more, and if its
    connection was not given up, each of its calls has returned the response that the history
    has for it; except a client whose connection is at a write that did not fetch all its bytes
    at its start, and whose buffers are gone. *)
Theorem network_answers_all (fetch : nat → nat → nat → nat) (srv : DatabaseServer) (n : nat)
    (s : Process) (nw : Network) :
  db_ok s → srv_database_ srv = true → (0 < n)%nat →
  rtc (net_steps fetch) (network_start srv n s) nw →
  (∀ k nw', nsteps (net_goes fetch) k nw nw' → (k <= net_load nw)%nat) ∧
  (∃ nw', rtc (net_goes fetch) nw nw' ∧ ∀ nw'', ¬ net_goes fetch nw' nw'') ∧
  ∀ nw', rtc (net_goes fetch) nw nw' → (∀ nw'', ¬ net_goes fetch nw' nw'') →
    resting (nw_running nw') ∧ Forall (λ py, py_out py = []) (nw_parties nw') ∧
    ∃ h : list (nat * (Message * Message)),
      served_all (contents s) h.*2.*1 h.*2.*2 (contents (shared (rn_serving (nw_running nw')))) ∧
      ∀ i py x, nw_parties nw !! i = Some py → rn_lines (nw_running nw) !! i = Some x →
        Forall frameable (sent py) →
        (of_peer i h).*1 `prefix_of` sent py ∧
        ∃ py' x', nw_parties nw' !! i = Some py' ∧ rn_lines (nw_running nw') !! i = Some x' ∧
          sent py' = sent py ∧
          (Forall answer_fits (of_peer i h) → unfetched (ac_conn x') = 0%nat → py_waiting py' = None ∧
           (disconnects (ac_conn x) = 0%nat → py_completed py' = answered_call <$> of_peer i h)).
Proof.
  intros Hs Hd Hn Hst. destruct (net_reachable _ _ _ _ _ Hs Hd Hst) as (q & h & rq & par & H).
  assert (∀ nw', rtc (net_steps fetch) nw nw' → (0 < length (sv_current (rn_serving (nw_running nw'))))%nat) as Ht.
  { intros nw' Hst'. rewrite (net_steps_threads fetch (network_start srv n s) nw') by (by etrans). cbn. by rewrite length_replicate. }
  split; [|split].
  - intros k nw' Hk. pose proof (net_goes_bounded s q fetch _ _ _ _ _ _ _ H Hk). lia.
  - destruct (net_goes_settle s q fetch _ _ _ _ _ _ (le_n _) H (Ht nw (rtc_refl _ _))) as (nw' & Hgo & Hdone).
    exists nw'. split; [done|]. intros nw''. by apply done_stuck.
  - intros nw' Hgo Hstuck. pose proof (net_goes_steps fetch _ _ Hgo) as Hst'.
    destruct (net_ok_steps s q fetch _ _ _ _ _ _ H Hst') as (new & rq' & par' & H').
    destruct (goes_or_done s q fetch _ _ _ _ _ H' (Ht nw' Hst')) as [[nw'' Hgo']|Hdone]; [by edestruct Hstuck|].
    split; [apply Hdone|]. split; [apply Hdone|]. exists (h ++ new).
    split; [exact (net_contents _ _ _ _ _ _ _ H' (re_quiet _ (nd_resting _ Hdone)))|].
    intros i py x Hpy Hx Hfr.
    destruct (goes_many_keep s q fetch _ _ _ _ _ _ i H Hgo py x Hpy Hx Hfr) as (py' & x' & Hpy' & Hx' & E & D).
    rewrite <- E in Hfr |- *. destruct (net_share _ _ _ _ _ _ _ _ _ H' Hpy' Hfr) as [Hpre _].
    split; [done|]. exists py', x'. do 3 (split; [done|]). intros Hfit Hu.
    destruct (done_completed s q fetch _ _ _ _ _ i x' py' H' Hdone Hx' Hpy' Hfr) as [Hw Hc]; [|done|by auto].
    eapply history_fits; [apply (no_shares _ _ _ _ _ _ _ H')| |done].
    destruct Hpre as [more E']. rewrite E' in Hfr. by apply Forall_app in Hfr as [? _].
Qed.

(** ** Witnesses *)

Lemma net_now fetch act nw1 nw2 nw3 :
  net_step fetch act nw1 nw2 → rtc (net_steps fetch) nw2 nw3 → rtc (net_steps fetch) nw1 nw3.
Proof. intros H. apply rtc_l. by exists act. Qed.

(** A client connects. *)
Ltac net_connects :=
  eapply net_now; [apply (net_server _ DoAccept); [exact I|by eapply (run_accept _ _ _ _ _ _ _ 0 0), accept_admitted]|];
  eapply net_now; [apply (net_server _ DoAccept); [exact I|eapply (run_accept _ _ _ _ _ _ _ 0 0), accept_counted]|];
  eapply net_now; [eapply (net_connect _ _ _ _ "127.0.0.1" 8080); [apply run_connect|reflexivity]|].

(** It sends a PUT, and the bytes arrive. *)
Ltac net_puts :=
  eapply net_now; [eapply (net_send _ _ _ 0 _ _ (OpPut "k" "v")); [reflexivity..|vm_compute; reflexivity]|];
  eapply net_now; [eapply (net_deliver _ _ _ _ 0 _ (frames [put_request 1 "k" "v"]) []);
    [reflexivity|vm_compute; reflexivity|done|];
    eapply (run_event _ _ _ _ _ _ 0 _ (Arrive (frames [put_request 1 "k" "v"])));
    [reflexivity|exact I|discriminate|reflexivity|apply event_run; vm_compute; reflexivity]|].

Lemma demo_network_reached :
  ∃ nw py x, rtc (net_steps eager_fetch) (network_start demo_srv 2 demo_process) nw ∧
    nw_parties nw = [py] ∧ rn_lines (nw_running nw) = [x] ∧ disconnects (ac_conn x) = 0%nat ∧
    py_waiting py = Some (put_request 1 "k" "v") ∧ py_completed py = [] ∧ py_out py = [].
Proof.
  eexists. do 2 eexists. split; [|split; [|split; [|split]]].
  - net_connects. net_puts. apply rtc_refl.
  - reflexivity.
  - reflexivity.
  - vm_compute. reflexivity.
  - split; [vm_compute; reflexivity|]. split; reflexivity.
Qed.

Lemma demo_put_frameable : Forall frameable [put_request 1 "k" "v"].
Proof. apply Forall_singleton. exact (proj1 (proj1 (Forall_cons _ _ _) demo_requests_frameable)). Qed.

(** A history of PUTs reads nothing. *)
Lemma put_fits (es : list (Message * Message)) k v : es.*1 `prefix_of` [put_request 1 k v] → Forall answer_fits es.
Proof.
  intros [rest E]. apply Forall_lookup. intros j e He Hr. exfalso.
  assert (e.1 ∈ [put_request 1 k v]) as Hin.
  { rewrite E. apply elem_of_app. left. apply list_elem_of_fmap_2. by eapply list_elem_of_lookup_2. }
  apply list_elem_of_singleton in Hin. by rewrite Hin in Hr.
Qed.

Lemma demo_sent nw py : nw_parties nw = [py] → py_waiting py = Some (put_request 1 "k" "v") → py_completed py = [] →
  nw_parties nw !! 0%nat = Some py ∧ sent py = [put_request 1 "k" "v"].
Proof. intros E Hw Hc. unfold sent. by rewrite E, Hw, Hc. Qed.

Lemma network_linearizable_witness :
  ∃ nw h m', rtc (net_steps eager_fetch) (network_start demo_srv 2 demo_process) nw ∧
    served_all (contents demo_process) h.*2.*1 h.*2.*2 m' ∧
    (of_peer 0 h).*1 `prefix_of` [put_request 1 "k" "v"] ∧
    ∃ py, nw_parties nw = [py] ∧ answered_calls py `prefix_of` of_peer 0 h.
Proof.
  destruct demo_network_reached as (nw & py & x & Hst & Hps & Hx & Hd & Hw & Hc & Ho).
  destruct (demo_sent nw py Hps Hw Hc) as [Hpy Es].
  destruct (network_linearizable eager_fetch demo_srv 2 demo_process nw nw demo_ok eq_refl Hst (rtc_refl _ _))
    as (h & new & m' & Hs & _ & _ & Hall).
  exists nw, (h ++ new), m'. split; [exact Hst|]. split; [exact Hs|].
  destruct (Hall 0%nat py Hpy) as (Hpre & Hans & _).
  - rewrite Es. exact demo_put_frameable.
  - rewrite Es in Hpre. split; [exact Hpre|]. exists py. split; [exact Hps|].
    apply Hans. exact (put_fits _ _ _ Hpre).
Defined.

(** Its call returns, or its connection's write is left with bytes to fetch. *)
Lemma network_answers_all_witness :
  ∃ (nw nw' : Network) h py' x', rtc (net_steps eager_fetch) (network_start demo_srv 2 demo_process) nw ∧
    rtc (net_goes eager_fetch) nw nw' ∧
    served_all (contents demo_process) h.*2.*1 h.*2.*2 (contents (shared (rn_serving (nw_running nw')))) ∧
    nw_parties nw' !! 0%nat = Some py' ∧ rn_lines (nw_running nw') !! 0%nat = Some x' ∧
    sent py' = [put_request 1 "k" "v"] ∧
    (unfetched (ac_conn x') = 0%nat → py_waiting py' = None ∧ py_completed py' = answered_call <$> of_peer 0 h).
Proof.
  destruct demo_network_reached as (nw & py & x & Hst & Hps & Hx & Hd & Hw & Hc & Ho).
  destruct (demo_sent nw py Hps Hw Hc) as [Hpy Es].
  destruct (network_answers_all eager_fetch demo_srv 2 demo_process nw demo_ok eq_refl) as (_ & (nw' & Hgo & Hstuck) & Hall).
  - lia.
  - exact Hst.
  - destruct (Hall nw' Hgo Hstuck) as (_ & _ & h & Hs & Hcalls).
    destruct (Hcalls 0%nat py x Hpy) as (Hpre & py' & x' & Hpy' & Hx' & Es' & Hfit).
    + rewrite Hx. reflexivity.
    + rewrite Es. exact demo_put_frameable.
    + rewrite Es in Hpre, Es'.
      exists nw, nw', h, py', x'. split; [exact Hst|]. split; [exact Hgo|]. split; [exact Hs|].
      split; [exact Hpy'|]. split; [exact Hx'|]. split; [exact Es'|].
      intros Hu. destruct (Hfit (put_fits _ _ _ Hpre) Hu) as [Hw' Hc']. exact (conj Hw' (Hc' Hd)).
Defined.
