(* ===== verification/Disconnects.v ===== *)
(** * Clients that disconnect, and what the server makes of it

    The network of [Network.v] when clients call [disconnect] ([src/network/client.cpp]): once
    all bytes of a closed connection have arrived and been served, its handler's read ends
    with an error, and the handler reports the disconnect ([read_header], [read_body] and
    [on_client_disconnect] of [src/network/server.cpp]). *)

From stdpp Require Import base gmap list strings relations.
From Stdlib Require Import ZArith Lia.
From Stdlib Require Import Strings.Byte.
From S2P Require Import Prelude.
From S2P Require Import Bytes.
From S2P Require Import Framing.
From S2P Require Import Protocol.
From S2P Require Import Effects.
From S2P Require Import Wal.
From S2P Require Import Interface.
From S2P Require Import Database.
From S2P Require Import Server.
From S2P Require Import Locking.
From S2P Require Import LockingInvariant.
From S2P Require Import LockingTheorems.
From S2P Require Import Concurrency.
From S2P Require Import Serving.
From S2P Require Import Connection.
From S2P Require Import Client.
From S2P Require Import EndToEnd.
From S2P Require Import Acceptor.
From S2P Require Import System.
From S2P Require Import Parallel.
From S2P Require Import IoThreads.
From S2P Require Import Network.

(** ** The end of a stream *)

(** The handler of client [i] reads (nothing is left to write), and there is nothing that
    could still arrive. *)
Definition awaits_bytes (c : Connection Process) : Prop := pending c ≠ None ∧ unfetched c = 0%nat.
Definition stream_ended (i : nat) (nw : Network) : Prop :=
  ∃ py x, nw_parties nw !! i = Some py ∧ rn_lines (nw_running nw) !! i = Some x ∧
    py_open py = false ∧ py_out py = [] ∧ IoThreads.at_rest x ∧ awaits_bytes (ac_conn x).

(** The steps of [net_goes], and that such a read ends with an error. *)
Definition net_winds (fetch : nat → nat → nat → nat) (nw nw' : Network) : Prop :=
  net_goes fetch nw nw' ∨
  ∃ i, stream_ended i nw ∧ net_step fetch (NetServer (DoEvent i (Complete OtherError))) nw nw'.

(** The connections whose handler has not reported a disconnect. *)
Definition connected (x : Active) : bool := bool_decide (disconnects (ac_conn x) = 0%nat).
Definition connected_count (xs : list Active) : nat := sum_list_with (λ x, Nat.b2n (connected x)) xs.

Definition wind_load (nw : Network) : nat :=
  net_load nw + connected_count (rn_lines (nw_running nw)).

Section Ends.
Context (s0 : Process) (q : nat) (fetch : nat → nat → nat → nat).
Implicit Types (sys : Running) (par : Parallel Process nat) (rq : Requests Process nat) (x : Active)
  (m : gmap string string) (h : list (nat * (Message * Message))) (py : Party) (nw : Network).

Lemma net_steps_of nw nw' : net_winds fetch nw nw' → net_steps fetch nw nw'.
Proof. intros [(act & _ & H)|(i & _ & H)]; by eexists. Qed.

Lemma winds_steps nw nw' : rtc (net_winds fetch) nw nw' → rtc (net_steps fetch) nw nw'.
Proof. induction 1 as [|? ? ? H _ IH]; [done|]. eapply rtc_l; [by eapply net_steps_of|done]. Qed.

Lemma sum_le (f g : Active → nat) xs xs' :
  Forall2 (λ x x', (f x' <= g x)%nat) xs xs' → (sum_list_with f xs' <= sum_list_with g xs)%nat.
Proof. induction 1; cbn; lia. Qed.

(** Nobody comes back. *)
Lemma connected_mono act sys sys' rq par m h :
  stands s0 q sys rq par → shares m h par → lines_counted par → run_step fetch act sys sys' → act ≠ DoConnect →
  (connected_count (rn_lines sys') <= connected_count (rn_lines sys))%nat.
Proof.
  intros H Hsh Hc Hst Ha. apply sum_le. apply Forall2_same_length_lookup_2.
  { symmetry. by eapply server_lines. }
  intros i x x' Hx Hx'. destruct (run_grows s0 q fetch act sys sys' rq par m h i x H Hsh Hc Hst Hx) as (x2 & Hx2 & _ & Hg).
  rewrite Hx' in Hx2. injection Hx2 as <-. unfold connected. repeat case_bool_decide; cbn; try lia.
Qed.

(** The event at the end of a stream. *)
Lemma end_event sys rq par i x s :
  stands s0 q sys rq par → lines_counted par → rn_lines sys !! i = Some x → IoThreads.at_rest x → pending (ac_conn x) ≠ None →
  disconnects (ac_conn x) = 0%nat ∧
  request_arrived (Complete OtherError) (with_store s (ac_conn x)) = None ∧
  ∃ c', on_event (Complete OtherError) (with_store s (ac_conn x)) = (Val tt, c') ∧
    disconnects c' = 1%nat ∧ pending c' = None ∧ inbox c' = inbox (ac_conn x).
Proof.
  intros H Hc Hx [Hn Hr] Hp. destruct (Forall2_lookup_l _ _ _ _ _ (st_lines _ _ _ _ _ H) Hx) as (l & Hl & Hlike).
  pose proof (ll_conn _ _ _ Hlike) as Hal. pose proof (Forall_lookup_1 _ _ _ _ Hc Hl) as Hcl.
  assert (l_work l = None) as Hw by (by rewrite (ll_work _ _ _ Hlike), Hn).
  assert (pending (l_conn l) = pending (ac_conn x)) as Ep by exact (f_equal pending (eq_sym (Hal s))).
  assert (inbox (l_conn l) = inbox (ac_conn x)) as Ei by exact (f_equal inbox (eq_sym (Hal s))).
  assert (disconnects (ac_conn x) = 0%nat) as Hd.
  { unfold line_counted in Hcl. rewrite Hw in Hcl. destruct Hcl as [_ [[_ Hd]|[Hpn _]]]; [|congruence].
    by rewrite (alike_disconnects _ _ Hal). }
  split; [done|]. destruct (hang_event l (pa_store par) Hcl) as (l' & E & Hd' & Hp' & Hi').
  { unfold settled. by rewrite Hw, <- (alike_ready _ _ Hal), Hr. }
  { by rewrite <- (alike_disconnects _ _ Hal). }
  destruct (alike_event (Complete OtherError) (pa_store par) s (l_conn l) (ac_conn x) l') as (Hr' & _ & c' & E' & Hl' & _);
    [intros s1; symmetry; apply Hal|done|done|].
  split; [done|]. exists c'. split; [done|]. rewrite <- Ei, <- Hi', <- Hd', <- Hp'.
  split; [by rewrite <- (alike_disconnects _ _ Hl')|]. pose proof (Hl' s) as Es.
  split; symmetry; [exact (f_equal pending Es)|exact (f_equal inbox Es)].
Qed.

Lemma end_load m h nw nw' rq par i :
  net_ok s0 q m h nw rq par → stream_ended i nw →
  net_step fetch (NetServer (DoEvent i (Complete OtherError))) nw nw' → (wind_load nw' < wind_load nw)%nat.
Proof.
  intros [H Hh Hc _ _] (py & x & Hpy & Hx & Ho & Hout & Hr & Hp & Hu) Hst.
  inversion Hst as [| | |act sys sys' ps Ha Hrun| |]; subst. cbn [nw_running nw_parties] in *.
  destruct (end_event sys rq par i x (shared (rn_serving sys)) H Hc Hx Hr Hp) as (Hd & _ & c2 & E2 & Hd2 & Hp2 & Hi2).
  inversion Hrun as [| |srv ao ch xs sv j y e c' Hy He Hfr Hn E| | |]; subst. cbn [rn_lines rn_serving] in *.
  rewrite Hx in Hy. injection Hy as <-. rewrite E2 in E. injection E as <-.
  unfold wind_load, net_load, running_load, connected_count. cbn [nw_running nw_parties rn_lines rn_serving].
  change (load (set_process ?s ?v)) with (load v). destruct Hr as [Hn' _].
  match goal with |- context [<[i := ?x']> xs] => pose proof (load_insert xs i x x' Hx) as Hsum;
    pose proof (sum_list_with_insert (λ x, Nat.b2n (connected x)) xs i x x' Hx) as Hcnt end.
  unfold active_load in Hsum at 2 4. cbn [ac_conn ac_request] in Hsum.
  unfold connected in Hcnt at 2 4. cbn [ac_conn] in Hcnt. rewrite Hd, Hd2 in Hcnt.
  rewrite (bool_decide_eq_true_2 (0 = 0)%nat), bool_decide_eq_false_2 in Hcnt by done. cbn [Nat.b2n] in Hcnt.
  rewrite Hn' in *. rewrite Hp2, Hi2 in Hsum. lia.
Qed.

Lemma winds_load m h nw nw' rq par :
  net_ok s0 q m h nw rq par → net_winds fetch nw nw' → (wind_load nw' < wind_load nw)%nat.
Proof.
  intros H [(act & Ho & Hst)|(i & He & Hst)]; [|by eapply end_load].
  pose proof (net_goes_load s0 q fetch m h act nw nw' rq par H Ho Hst) as Hlt. unfold wind_load.
  destruct H as [H Hh Hc _ _].
  assert (connected_count (rn_lines (nw_running nw')) <= connected_count (rn_lines (nw_running nw)))%nat; [|lia].
  destruct Hst as [| |sys sys' ps i py bytes rest Hi Hout Hne Hrun|act sys sys' ps Ha Hrun| |]; try done;
    cbn [nw_running] in *; (eapply connected_mono; [exact H|exact Hh|exact Hc|exact Hrun|]); [done|by intros ->].
Qed.

(** A stream that has ended makes the read end. *)
Lemma ended_winds m h nw rq par i :
  net_ok s0 q m h nw rq par → some_free (rn_serving (nw_running nw)) → stream_ended i nw →
  ∃ nw', net_winds fetch nw nw'.
Proof.
  intros [H _ Hc _ _] Hf He. pose proof He as (py & x & Hpy & Hx & Ho & Hout & Hr & Hp & _).
  destruct (end_event _ _ _ i x (shared (rn_serving (nw_running nw))) H Hc Hx Hr Hp) as (_ & Hn & c' & E & _).
  destruct nw as [[srv ao ch xs sv] ps]. cbn [nw_running rn_lines rn_serving] in *.
  eexists. right. exists i. split; [done|]. apply net_server; [exact I|]. by eapply run_event.
Qed.

(** All is done, and every stream that has ended was noticed. *)
Definition wind_done nw : Prop := net_done nw ∧ ∀ i, ¬ stream_ended i nw.

#[local] Instance awaits_bytes_dec x : Decision (awaits_bytes (ac_conn x)).
Proof.
  unfold awaits_bytes. destruct (pending (ac_conn x)); [|by right; intros [[] _]].
  destruct (decide (unfetched (ac_conn x) = 0%nat)); [by left|by right; intros [_ ?]].
Qed.

Lemma winds_or_done m h nw rq par :
  net_ok s0 q m h nw rq par → (0 < length (sv_current (rn_serving (nw_running nw))))%nat →
  (∃ nw', net_winds fetch nw nw') ∨ wind_done nw.
Proof.
  intros H Hn. destruct (goes_or_done s0 q fetch m h nw rq par H Hn) as [[nw' Hgo]|Hd]; [left; exists nw'; by left|].
  destruct (decide (Forall (λ xp, py_open xp.2 = false → awaits_bytes (ac_conn xp.1) → False)
    (zip (rn_lines (nw_running nw)) (nw_parties nw)))) as [Hall|D].
  - right. split; [done|]. intros i (py & x & Hpy & Hx & Ho & _ & _ & Hp).
    refine (Forall_lookup_1 _ _ i (x, py) Hall _ Ho Hp). apply lookup_zip_with_Some. by exists x, py.
  - left. apply not_Forall_Exists in D; [|apply _]. apply Exists_exists in D as ([x py] & Hxp & Hne).
    apply list_elem_of_lookup in Hxp as [i Hi]. apply lookup_zip_with_Some in Hi as (? & ? & [= <- <-] & Hx & Hpy).
    cbn in Hne. apply (ended_winds m h nw rq par i H); [by apply (resting_free _ (nd_resting _ Hd))|].
    exists py, x. split; [done|]. split; [done|].
    destruct (py_open py); [by destruct Hne|]. split; [done|].
    split; [exact (Forall_lookup_1 _ _ _ _ (nd_arrived _ Hd) Hpy)|].
    split; [exact (Forall_lookup_1 _ _ _ _ (re_lines _ (nd_resting _ Hd)) Hx)|].
    destruct (decide (awaits_bytes (ac_conn x))) as [Ha|Ha]; [done|by destruct Hne].
Qed.

Lemma wind_done_stuck nw nw' : wind_done nw → ¬ net_winds fetch nw nw'.
Proof. intros [Hd He] [Hgo|(i & Hi & _)]; [by eapply done_stuck|by eapply He]. Qed.

Lemma winds_ok m h nw nw' rq par :
  net_ok s0 q m h nw rq par → net_winds fetch nw nw' → ∃ new rq' par', net_ok s0 q m (h ++ new) nw' rq' par'.
Proof. intros H [act Hst]%net_steps_of. by eapply net_ok_step. Qed.

Lemma winds_bounded m h nw rq par k nw' :
  net_ok s0 q m h nw rq par → nsteps (net_winds fetch) k nw nw' → (k + wind_load nw' <= wind_load nw)%nat.
Proof.
  intros H Hst. revert h rq par H. induction Hst as [|k nw1 nw2 nw3 H1 _ IH]; intros h rq par H; [lia|].
  pose proof (winds_load _ _ _ _ _ _ H H1). destruct (winds_ok _ _ _ _ _ _ H H1) as (new & rq2 & par2 & H2).
  specialize (IH _ _ _ H2). lia.
Qed.

Lemma winds_settle m h nw rq par k :
  (wind_load nw <= k)%nat → net_ok s0 q m h nw rq par → (0 < length (sv_current (rn_serving (nw_running nw))))%nat →
  ∃ nw', rtc (net_winds fetch) nw nw' ∧ wind_done nw'.
Proof.
  revert nw h rq par. induction k as [|k IH]; intros nw h rq par Hk H Hn;
    (destruct (winds_or_done m h nw rq par H Hn) as [[nw1 H1]|Hd]; [|by exists nw]);
    pose proof (winds_load _ _ _ _ _ _ H H1); [lia|].
  destruct (winds_ok _ _ _ _ _ _ H H1) as (new & rq1 & par1 & H2).
  destruct (IH nw1 _ _ _ ltac:(lia) H2) as (nw' & Hst & Hd).
  { destruct (net_steps_of _ _ H1) as [act Hs]. by rewrite (net_threads _ _ _ _ Hs). }
  exists nw'. split; [|done]. by eapply rtc_l.
Qed.

(** Closed clients stay closed. *)
Lemma winds_closed m h nw nw' rq par i py :
  net_ok s0 q m h nw rq par → net_winds fetch nw nw' → nw_parties nw !! i = Some py → py_open py = false →
  ∃ py', nw_parties nw' !! i = Some py' ∧ py_open py' = false.
Proof.
  intros H Hw Hpy Ho. destruct Hw as [(act & Hown & Hst)|(j & _ & Hst)].
  2:{ inversion Hst; subst. by exists py. }
  destruct Hst as [| |sys sys' ps j p bytes rest Hj Hout Hne Hrun|act sys sys' ps Ha Hrun
    |sys ps j p x request r cl w Hj Hx Hw E Hr|]; try done; cbn [nw_parties] in *.
  - destruct (decide (j = i)) as [->|Hne'].
    + rewrite Hpy in Hj. injection Hj as <-. eexists. split; [apply list_lookup_insert_eq; by eapply lookup_lt_Some|done].
    + exists py. by rewrite list_lookup_insert_ne.
  - by exists py.
  - destruct (decide (j = i)) as [->|Hne']; [exfalso|exists py; by rewrite list_lookup_insert_ne].
    rewrite Hpy in Hj. injection Hj as <-.
    pose proof (pk_open _ _ _ (no_parties _ _ _ _ _ _ _ H i x py Hx Hpy)) as Hop. rewrite Hop in Ho; [done|by rewrite Hw].
Qed.

Lemma winds_many m h nw nw' rq par i py :
  net_ok s0 q m h nw rq par → rtc (net_winds fetch) nw nw' → nw_parties nw !! i = Some py → py_open py = false →
  ∃ py', nw_parties nw' !! i = Some py' ∧ py_open py' = false.
Proof.
  intros H Hst. revert h rq par py H.
  induction Hst as [nw1|nw1 nw2 nw3 H1 _ IH]; intros h rq par py H Hpy Ho; [by exists py|].
  destruct (winds_closed _ _ _ _ _ _ _ _ H H1 Hpy Ho) as (py2 & Hpy2 & Ho2).
  destruct (winds_ok _ _ _ _ _ _ H H1) as (new & rq2 & par2 & H2). by eapply IH.
Qed.

(** A closed client's handler has reported, unless it is at a write with bytes to fetch. *)
Lemma done_reported m h nw rq par i py :
  net_ok s0 q m h nw rq par → wind_done nw → nw_parties nw !! i = Some py → py_open py = false →
  ∃ x, rn_lines (nw_running nw) !! i = Some x ∧
    (unfetched (ac_conn x) = 0%nat → disconnects (ac_conn x) = 1%nat).
Proof.
  intros [H _ Hc Hlen _] [Hd He] Hpy Ho. destruct (lookup_lt_is_Some_2 (rn_lines (nw_running nw)) i) as [x Hx].
  { rewrite <- Hlen. by eapply lookup_lt_Some. }
  exists x. split; [done|]. intros Hu. destruct (Forall2_lookup_l _ _ _ _ _ (st_lines _ _ _ _ _ H) Hx) as (l & Hl & Hlike).
  pose proof (ll_conn _ _ _ Hlike) as Hal. pose proof (Forall_lookup_1 _ _ _ _ Hc Hl) as Hcl.
  pose proof (Forall_lookup_1 _ _ _ _ (re_lines _ (nd_resting _ Hd)) Hx) as Hr.
  assert (l_work l = None) as Hw by (by rewrite (ll_work _ _ _ Hlike), (proj1 Hr)).
  unfold line_counted in Hcl. rewrite Hw in Hcl. rewrite (alike_disconnects _ _ Hal).
  destruct Hcl as [_ [[[op Hp] _]|[_ ?]]]; [exfalso|done]. apply (He i). exists py, x.
  do 3 (split; [done|]). split; [exact (Forall_lookup_1 _ _ _ _ (nd_arrived _ Hd) Hpy)|]. split; [done|]. split; [|done].
  rewrite (f_equal pending (Hal (store (l_conn l))) : pending (ac_conn x) = pending (l_conn l)). by rewrite Hp.
Qed.
End Ends.

(** The counter. *)
Lemma open_lines_connected ps xs (ls : list (Line Process nat)) :
  Forall2 (line_like ps) xs ls → open_lines ls = connected_count xs.
Proof.
  unfold open_lines, connected_count. induction 1 as [|x l xs ls Hl _ IH]; [done|].
  cbn [fmap list_fmap sum_list_with]. rewrite open_peers_cons, IH. unfold unreported, connected, peer_of.
  cbn [p_conn]. by rewrite (alike_disconnects _ _ (ll_conn _ _ _ Hl)).
Qed.

Lemma running_count fetch srv n s q sys :
  opened s q → connection_count_ srv = 0 → rtc (run_steps fetch) (running_start srv n s) sys →
  rn_connection_count sys
    = Z.of_nat (connected_count (rn_lines sys)) + match rn_chain sys with Counted => 1 | _ => 0 end.
Proof.
  intros Ho H0 Hst. destruct (stands_reachable _ _ _ _ _ _ Ho Hst) as (rq & par & H & Hp & Hc).
  destruct (parallel_count fetch srv s par H0 Hp) as (_ & _ & Hcnt & _).
  unfold pa_connection_count in Hcnt. unfold rn_connection_count.
  by rewrite <- (st_server _ _ _ _ _ H), Hcnt, <- (st_chain _ _ _ _ _ H), (open_lines_connected _ _ _ (st_lines _ _ _ _ _ H)).
Qed.

Lemma connected_count_none xs : (∀ i x, xs !! i = Some x → disconnects (ac_conn x) ≠ 0%nat) → connected_count xs = 0%nat.
Proof.
  unfold connected_count. induction xs as [|x xs IH]; intros H; [done|]. cbn [sum_list_with].
  rewrite IH by (intros i; apply (H (S i))). unfold connected. case_bool_decide as D; [|done].
  by destruct (H 0%nat x eq_refl).
Qed.

Lemma winds_length fetch nw nw' :
  rtc (net_winds fetch) nw nw' → length (nw_parties nw') = length (nw_parties nw).
Proof.
  induction 1 as [|nw1 nw2 nw3 Hw _ IH]; [done|]. rewrite IH.
  destruct Hw as [(act & Ho & Hst)|(i & _ & Hst)]; [|by inversion Hst].
  destruct Hst; try done; cbn; by rewrite ?length_insert.
Qed.

(** ** Theorems *)

(** C17.  The connection counter follows the clients.  While I/O works, from any state that was reached, whatever
    the scheduler and the network do, only boundedly many steps are taken unless a client
    begins something new, and when none can be taken, the handler of every client that has
    disconnected has reported this once, unless it is left at a write that did not fetch all
    its bytes at its start and whose buffers are gone; the counter is the number of the
    connections that have not reported; so it is zero when all clients have disconnected and no
    such write is left (in both cases one more while the accept chain is counting a new
    one). *)
Theorem network_drains (fetch : nat → nat → nat → nat) (srv : DatabaseServer) (n : nat)
    (s : Process) (nw : Network) :
  db_ok s → srv_database_ srv = true → connection_count_ srv = 0 → (0 < n)%nat →
  rtc (net_steps fetch) (network_start srv n s) nw →
  (∀ k nw', nsteps (net_winds fetch) k nw nw' → (k <= wind_load nw)%nat) ∧
  (∃ nw', rtc (net_winds fetch) nw nw' ∧ ∀ nw'', ¬ net_winds fetch nw' nw'') ∧
  ∀ nw', rtc (net_winds fetch) nw nw' → (∀ nw'', ¬ net_winds fetch nw' nw'') →
    let counting := match rn_chain (nw_running nw') with Counted => 1 | _ => 0 end in
    (∀ i py, nw_parties nw !! i = Some py → py_open py = false →
       ∃ x, rn_lines (nw_running nw') !! i = Some x ∧
         (unfetched (ac_conn x) = 0%nat → disconnects (ac_conn x) = 1%nat)) ∧
    rn_connection_count (nw_running nw')
      = Z.of_nat (connected_count (rn_lines (nw_running nw'))) + counting ∧
    (Forall (λ py, py_open py = false) (nw_parties nw) →
     Forall (λ x, unfetched (ac_conn x) = 0%nat) (rn_lines (nw_running nw')) →
     rn_connection_count (nw_running nw') = counting).
Proof.
  intros Hs Hd H0 Hn Hst. destruct (net_reachable _ _ _ _ _ Hs Hd Hst) as (q & h & rq & par & H).
  assert (∀ nw', rtc (net_steps fetch) nw nw' → (0 < length (sv_current (rn_serving (nw_running nw'))))%nat) as Ht.
  { intros nw' Hst'. rewrite (net_steps_threads fetch (network_start srv n s) nw') by (by etrans).
    cbn. by rewrite length_replicate. }
  split; [|split].
  - intros k nw' Hk. pose proof (winds_bounded s q fetch _ _ _ _ _ _ _ H Hk). lia.
  - destruct (winds_settle s q fetch _ _ _ _ _ _ (le_n _) H (Ht nw (rtc_refl _ _))) as (nw' & Hgo & Hdone).
    exists nw'. split; [done|]. intros nw''. by apply wind_done_stuck.
  - intros nw' Hgo Hstuck counting. pose proof (winds_steps fetch _ _ Hgo) as Hst'.
    destruct (net_ok_steps s q fetch _ _ _ _ _ _ H Hst') as (new & rq' & par' & H').
    destruct (winds_or_done s q fetch _ _ _ _ _ H' (Ht nw' Hst')) as [[nw'' Hw]|Hdone]; [by edestruct Hstuck|].
    destruct (db_ok_opened s Hs) as [q' Ho].
    pose proof (running_count fetch srv n s q' (nw_running nw') Ho H0) as Hcnt.
    specialize (Hcnt (net_running fetch (network_start srv n s) nw' ltac:(by etrans))).
    assert (∀ i py, nw_parties nw !! i = Some py → py_open py = false →
      ∃ x, rn_lines (nw_running nw') !! i = Some x ∧
        (unfetched (ac_conn x) = 0%nat → disconnects (ac_conn x) = 1%nat)) as Hrep.
    { intros i py Hpy Hclosed.
      destruct (winds_many s q fetch _ _ _ _ _ _ _ _ H Hgo Hpy Hclosed) as (py' & Hpy' & Hclosed').
      exact (done_reported s q _ _ _ _ _ _ _ H' Hdone Hpy' Hclosed'). }
    split; [done|]. split; [done|]. intros Hall Hu. rewrite Hcnt.
    rewrite connected_count_none; [done|]. intros i x Hx.
    destruct (lookup_lt_is_Some_2 (nw_parties nw) i) as [py Hpy].
    { rewrite <- (winds_length fetch _ _ Hgo), (no_length _ _ _ _ _ _ _ H'). by eapply lookup_lt_Some. }
    destruct (Hrep i py Hpy (Forall_lookup_1 _ _ _ _ Hall Hpy)) as (x' & Hx' & E).
    rewrite Hx in Hx'. injection Hx' as <-. by rewrite (E (Forall_lookup_1 _ _ _ _ Hu Hx)).
Qed.

(** ** Witness *)

(** A client connects, and disconnects. *)
Lemma demo_closed_reached :
  ∃ nw py, rtc (net_steps eager_fetch) (network_start demo_srv 2 demo_process) nw ∧
    nw_parties nw = [py] ∧ py_open py = false ∧ rn_connection_count (nw_running nw) = 1.
Proof.
  eexists. eexists. split; [|split; [|split]].
  - net_connects.
    eapply net_now; [|apply rtc_refl].
    eapply (net_close _ _ _ 0); [reflexivity..|vm_compute; reflexivity].
  - reflexivity.
  - reflexivity.
  - vm_compute. reflexivity.
Qed.

(** The connections keep what their writes fetch. *)
Definition oracles (fetch : nat → nat → nat → nat) (xs : list Active) : Prop :=
  ∀ i x, xs !! i = Some x → fetched (ac_conn x) = fetch i.

Lemma oracles_insert fetch xs i x x' :
  oracles fetch xs → xs !! i = Some x → fetched (ac_conn x') = fetched (ac_conn x) → oracles fetch (<[i := x']> xs).
Proof.
  intros H Hx E j y Hy. destruct (decide (j = i)) as [->|Hne].
  - rewrite list_lookup_insert_eq in Hy by (by eapply lookup_lt_Some). injection Hy as <-. rewrite E. by apply H.
  - rewrite list_lookup_insert_ne in Hy by done. by apply H.
Qed.

Lemma oracles_step fetch act sys sys' :
  run_step fetch act sys sys' → oracles fetch (rn_lines sys) → oracles fetch (rn_lines sys').
Proof.
  intros [| |srv ao ch ls sv i x e c' Hx _ _ _ E|srv ao ch ls th rqs cs i x t request c' Hx _ E| |
    srv ao ch ls th rqs cs i x t k request response c' Hx _ _ _ _ E]; intros Hor; cbn [rn_lines] in *; try done.
  - intros i x Hx. apply lookup_snoc_Some in Hx as [[_ Hx]|[<- <-]]; [by apply Hor|].
    unfold new_active, new_peer. cbn [ac_conn p_conn]. apply keeps_read_header_fetched.
  - eapply oracles_insert; [done..|]. cbn [ac_conn].
    pose proof (on_event_oracle e (with_store (shared sv) (ac_conn x))) as Ho. by rewrite E in Ho.
  - eapply oracles_insert; [done..|]. cbn [ac_conn]. unfold request_arrived in E.
    cbn [with_store pending handler inbox] in E. destruct (pending (ac_conn x)) as [[| |]|]; try done.
    destruct (_ || _); [done|]. destruct (Message_deserialize _); [|done]. by injection E as _ <-.
  - eapply oracles_insert; [done..|]. cbn [ac_conn].
    pose proof (keeps_write_fetched response (with_store (th_shared th) (ac_conn x))) as Ho. by rewrite E in Ho.
Qed.

Lemma oracles_steps fetch sys sys' :
  rtc (run_steps fetch) sys sys' → oracles fetch (rn_lines sys) → oracles fetch (rn_lines sys').
Proof. induction 1 as [|? ? ? [act H] _ IH]; intros Ho; [done|]. by eapply IH, oracles_step. Qed.

(** Where every write fetches all its bytes at its start, none is left with bytes to fetch. *)
Lemma whole_writes s0 q m h nw rq par fetch :
  (∀ i j n, (n <= fetch i j n)%nat) → net_ok s0 q m h nw rq par → resting (nw_running nw) →
  oracles fetch (rn_lines (nw_running nw)) →
  Forall (λ x, unfetched (ac_conn x) = 0%nat) (rn_lines (nw_running nw)).
Proof.
  intros Hf [H Hh _ _ _] Hr Ho. apply Forall_lookup. intros i x Hx.
  destruct (Forall2_lookup_l _ _ _ _ _ (st_lines _ _ _ _ _ H) Hx) as (l & Hl & Hlike).
  pose proof (sh_lines _ _ _ Hh i l Hl) as Hlok. unfold line_ok in Hlok.
  rewrite (ll_work _ _ _ Hlike), (proj1 (Forall_lookup_1 _ _ _ _ (re_lines _ Hr) Hx)) in Hlok.
  destruct Hlok as [(datas & _ & Hw & _) _].
  eapply (writes_whole _ (ac_conn x)); [|eapply alike_writes; [apply (ll_conn _ _ _ Hlike)|exact Hw]].
  intros j n. rewrite (Ho i x Hx). apply Hf.
Qed.

Lemma network_drains_witness :
  ∃ nw nw', rtc (net_steps eager_fetch) (network_start demo_srv 2 demo_process) nw ∧
    rn_connection_count (nw_running nw) = 1 ∧ rtc (net_winds eager_fetch) nw nw' ∧
    rn_connection_count (nw_running nw') = match rn_chain (nw_running nw') with Counted => 1 | _ => 0 end.
Proof.
  destruct demo_closed_reached as (nw & py & Hst & Hps & Ho & Hc).
  destruct (network_drains eager_fetch demo_srv 2 demo_process nw demo_ok eq_refl eq_refl) as (_ & (nw' & Hgo & Hstuck) & Hall).
  - lia.
  - exact Hst.
  - assert (rtc (net_steps eager_fetch) (network_start demo_srv 2 demo_process) nw') as Hst'.
    { etrans; [exact Hst|]. exact (winds_steps _ _ _ Hgo). }
    destruct (net_reachable eager_fetch demo_srv 2 demo_process nw' demo_ok eq_refl Hst') as (q & h & rq & par & H).
    destruct (Hall nw' Hgo Hstuck) as (_ & _ & Hzero). exists nw, nw'.
    split; [exact Hst|]. split; [exact Hc|]. split; [exact Hgo|]. apply Hzero.
    + rewrite Hps. apply Forall_singleton. exact Ho.
    + apply (whole_writes demo_process q (contents demo_process) h nw' rq par eager_fetch).
      * intros i j n. apply le_n.
      * exact H.
      * assert (0 < length (sv_current (rn_serving (nw_running nw'))))%nat as Hn.
        { rewrite (net_steps_threads _ _ _ Hst'). cbn. lia. }
        destruct (winds_or_done demo_process q eager_fetch _ _ _ _ _ H Hn) as [[nw'' Hw]|[Hd _]].
        -- by destruct (Hstuck nw'').
        -- exact (nd_resting _ Hd).
      * eapply oracles_steps; [exact (net_running _ _ _ Hst')|]. by intros i x.
Defined.
