(* ===== verification/Restarts.v ===== *)
(** * Clients, crashes and restarts

    The server of [IoThreads.v] and its clients ([Network.v]) over several lifetimes: each one
    ends at any moment, with its threads anywhere in [process_request_sync]
    ([src/network/server.cpp]) and in the calls of the database
    ([src/core/persistent_database.cpp]).  The files stay as they were written, and the next
    process opens the log that its own clock names ([WriteAheadLog::WriteAheadLog] of
    [src/storage/wal.cpp]): that of the process before if it starts in the same millisecond that
    named it, and else a new one.  In the first case one sequential history goes on, in the
    second a new one begins with the empty database. *)

From stdpp Require Import base gmap list strings relations.
From Stdlib Require Import ZArith Lia.
From Stdlib Require Import Strings.Byte.
From S2P Require Import Prelude.
From S2P Require Import Bytes.
From S2P Require Import Framing.
From S2P Require Import Protocol.
From S2P Require Import WalRecord.
From S2P Require Import LogReader.
From S2P Require Import Effects.
From S2P Require Import Wal.
From S2P Require Import Interface.
From S2P Require Import Database.
From S2P Require Import Server.
From S2P Require Import Locking.
From S2P Require Import LockingInvariant.
From S2P Require Import LockingTheorems.
From S2P Require Import Concurrency.
From S2P Require Import Serving.
From S2P Require Import Connection.
From S2P Require Import Client.
From S2P Require Import EndToEnd.
From S2P Require Import Acceptor.
From S2P Require Import System.
From S2P Require Import Parallel.
From S2P Require Import IoThreads.
From S2P Require Import Durability.
From S2P Require Import Network.

(** ** Lifetimes *)

(** The log that a restart opens: that of the process that crashed, or one that was not there.
    (A clock that goes back can also name an older one; such restarts are left out.) *)
Inductive log_found := Reopened | Fresh.

(** A crash of [nw], which had started on [s], and the restart: the new process finds the files
    as they are, with what was written to them, and has its own clock, I/O and buckets. *)
Definition restarts (s : Process) (nw : Network) (found : log_found) (s' : Process) : Prop :=
  let crashed := shared (rn_serving (nw_running nw)) in
  ∃ p l dir w r,
    wal_ (p_db s) = Some p ∧ p_logs crashed !! p = Some l ∧
    w_files w = w_files (p_world crashed) ∧ healthy w ∧ fair_order w ∧
    match found with
    | Reopened => log_name_now dir w = current_log_file_ l
    | Fresh => w_files w !! log_name_now dir w = None
    end ∧
    PersistentDatabase_initialize dir (create_database w) = (r, s').

(** From [s], the networks at the moments of the crashes with what each restart found, and what
    the last restart makes. *)
Inductive lifetimes (fetch : nat → nat → nat → nat) (s : Process) : list (Network * log_found) → Process → Prop :=
  | lifetimes_none : lifetimes fetch s [] s
  | lifetimes_crash lives s1 srv n nw found s2 :
      lifetimes fetch s lives s1 → srv_database_ srv = true →
      rtc (net_steps fetch) (network_start srv n s1) nw →
      Forall loggable (received (rn_serving (nw_running nw))) →
      restarts s1 nw found s2 → lifetimes fetch s (lives ++ [(nw, found)]) s2.

(** What a restart makes of the contents that the crash left. *)
Definition found_contents (found : log_found) (m : gmap string string) : gmap string string :=
  match found with Reopened => m | Fresh => ∅ end.

(** The histories of the lifetimes, each with what its end's restart found, lead from contents
    [m] to [m']: each lifetime serves the requests of its history in this order, from what
    the restart before it made of the contents. *)
Inductive lives_serve (m : gmap string string) :
    list (list (nat * (Message * Message)) * log_found) → gmap string string → Prop :=
  | serve_none : lives_serve m [] m
  | serve_life hfs m1 h found m2 :
      lives_serve m hfs m1 → served_all m1 h.*2.*1 h.*2.*2 m2 →
      lives_serve m (hfs ++ [(h, found)]) (found_contents found m2).

(** The history [h] of a lifetime explains what its clients know: of each client it has an
    initial part of what was sent, which begins with the calls that returned a response. *)
Definition accounts_for (nw : Network) (h : list (nat * (Message * Message))) : Prop :=
  (∀ e, e ∈ h → (e.1 < length (nw_parties nw))%nat) ∧
  ∀ i py, nw_parties nw !! i = Some py → Forall frameable (sent py) →
    (of_peer i h).*1 `prefix_of` sent py ∧
    (Forall answer_fits (of_peer i h) → answered_calls py `prefix_of` of_peer i h).

Section Lifetimes.
Context (fetch : nat → nat → nat → nat).
Implicit Types (s : Process) (nw : Network) (h : list (nat * (Message * Message))).

Lemma net_accounts s0 q m h nw rq par : net_ok s0 q m h nw rq par → accounts_for nw h.
Proof.
  intros H. split; [|intros i py; by eapply net_share].
  intros e He. rewrite (no_length _ _ _ _ _ _ _ H).
  rewrite (Forall2_length _ _ _ (st_lines _ _ _ _ _ (no_stands _ _ _ _ _ _ _ H))).
  by apply (sh_bound _ _ _ (no_shares _ _ _ _ _ _ _ H)).
Qed.

(** One lifetime. *)
Lemma life_ends s rs srv n nw found s' :
  logged s rs → srv_database_ srv = true → rtc (net_steps fetch) (network_start srv n s) nw →
  Forall loggable (received (rn_serving (nw_running nw))) → restarts s nw found s' →
  (∃ rs', logged s' rs') ∧
  ∃ h m, accounts_for nw h ∧ served_all (contents s) h.*2.*1 h.*2.*2 m ∧ contents s' = found_contents found m.
Proof.
  intros Hlg Hd Hst Hfit (p & l & dir & w & r & Hp & Hl & Hfiles & Hw & Hfair & Hfound & E).
  pose proof (logged_opened s rs p Hlg Hp) as Ho. destruct (lg_ready _ _ Hlg) as (p' & l' & Hr).
  assert (db_ok s) as Hs by (by exists p', l'; eexists).
  destruct (net_ok_steps s p fetch (contents s) [] _ nw _ _ (net_ok_start s p _ srv n Ho Hs Hd eq_refl) Hst)
    as (h & rq & par & H). cbn [app] in H.
  destruct found.
  - destruct (crash_recovers fetch srv n s rs p (nw_running nw) l w dir rq par) as (s2 & E2 & Hlg' & Hc); try done.
    { exact (net_running fetch _ _ Hst). }
    { apply H. }
    { unfold file_bytes. by rewrite Hfound, Hfiles. }
    rewrite E in E2. injection E2 as -> ->. split; [done|]. exists h, (contents (pa_store par)).
    split; [by eapply net_accounts|]. split; [apply (no_shares _ _ _ _ _ _ _ H)|done].
  - destruct (restart_starts_empty w dir Hw Hfair Hfound) as (s2 & E2 & Hempty & Hlg' & _).
    rewrite E in E2. injection E2 as -> ->. split; [by eexists|]. exists h, (contents (pa_store par)).
    split; [by eapply net_accounts|]. split; [apply (no_shares _ _ _ _ _ _ _ H)|done].
Qed.

(** All lifetimes. *)
Lemma lives_history s rs lives s' :
  logged s rs → lifetimes fetch s lives s' →
  (∃ rs', logged s' rs') ∧
  ∃ hs, Forall2 accounts_for lives.*1 hs ∧ lives_serve (contents s) (zip hs lives.*2) (contents s').
Proof.
  intros Hlg. induction 1 as [|lives s1 srv n nw found s2 _ [[rs1 Hlg1] (hs & Hhs & Hs)] Hd Hst Hfit Hr].
  { split; [by eexists|]. exists []. split; constructor. }
  destruct (life_ends _ _ _ _ _ _ _ Hlg1 Hd Hst Hfit Hr) as (Hlg2 & h & m & Hh & Hs2 & ->).
  split; [done|]. exists (hs ++ [h]). rewrite !fmap_app. split; [by apply Forall2_app; [|constructor]|].
  rewrite zip_with_app.
  - by eapply serve_life.
  - by rewrite length_fmap, <- (Forall2_length _ _ _ Hhs), length_fmap.
Qed.
End Lifetimes.

(** ** What is read fits, but for scans *)

Definition values_fit (m : gmap string string) : Prop :=
  map_Forall (λ _ v, slen v <= MAX_MESSAGE_SIZE - 13) m.

Lemma frameable_value (request : Message) : frameable request → slen (msg_value request) <= MAX_MESSAGE_SIZE - 13.
Proof.
  intros [_ H]. change (encode request) with (Message_serialize request) in H.
  rewrite length_Message_serialize in H. unfold MAX_FRAME, MAX_MESSAGE_SIZE in *.
  assert (0 <= slen (msg_key request)) by (unfold slen; lia). lia.
Qed.

Lemma served_values m request response m' :
  served m request response m' → frameable request → values_fit m →
  values_fit m' ∧ (msg_type request ≠ MessageType.SCAN → frameable response).
Proof.
  intros H Hf Hm. split.
  - unfold served in H. pose proof (frameable_value _ Hf) as Hv.
    destruct (msg_type request); try (by destruct H as [-> _]).
    + destruct H as [-> _]. by apply map_Forall_insert_2.
    + repeat case_match; destruct H as [-> _]; [by apply map_Forall_delete|done].
  - intros Hne. destruct (decide (msg_type request = MessageType.GET)) as [Hg|Hg].
    + unfold served in H. rewrite Hg in H. destruct H as [_ H].
      destruct (m !! msg_key request) as [v|] eqn:E; [destruct (string_empty v)|]; rewrite H;
        try (by apply short_answer).
      apply response_frameable; [done|apply Hf|by eapply Hm].
    + eapply served_fits; [done..|]. unfold answer_fits, reads. cbn [fst]. by destruct (msg_type request).
Qed.

Lemma history_values m (es : list (Message * Message)) m' :
  served_all m es.*1 es.*2 m' → Forall frameable es.*1 → values_fit m →
  Forall (λ e, msg_type e.1 ≠ MessageType.SCAN → frameable e.2) es ∧ values_fit m'.
Proof.
  revert m. induction es as [|e es IH]; intros m H Hf Hm; cbn in *; inversion H; subst; [done|].
  apply Forall_cons in Hf as [Hf1 Hf]. destruct (served_values _ _ _ _ ltac:(done) Hf1 Hm) as [Hm1 He].
  destruct (IH _ ltac:(done) Hf Hm1) as [Hes Hm']. by split; [constructor|].
Qed.

(** All lifetimes of a stretch on one log are one execution. *)
Lemma lives_serve_app m hfs hfs' m' :
  lives_serve m (hfs ++ hfs') m' → ∃ m1, lives_serve m hfs m1 ∧ lives_serve m1 hfs' m'.
Proof.
  revert m'. induction hfs' as [|hf hfs' IH] using rev_ind; intros m' H.
  { rewrite app_nil_r in H. exists m'. by split; [|constructor]. }
  rewrite app_assoc in H. remember ((hfs ++ hfs') ++ [hf]) as all eqn:E. destruct H as [|hfs0 m1 h found m2 H Hs].
  { by destruct (hfs ++ hfs'). }
  apply app_inj_tail in E as [-> <-]. destruct (IH _ H) as (m0 & H0 & H1). exists m0. split; [done|].
  by eapply serve_life.
Qed.

Lemma lives_serve_single m h found m' :
  lives_serve m [(h, found)] m' → ∃ m2, served_all m h.*2.*1 h.*2.*2 m2 ∧ m' = found_contents found m2.
Proof.
  intros H. remember [(h, found)] as hfs eqn:E. destruct H as [|hfs m1 h0 found0 m2 H Hs]; [done|].
  apply (app_inj_tail hfs []) in E as [-> [= -> ->]]. exists m2. split; [|done].
  remember [] as none eqn:En. destruct H as [|none]; [done|by destruct none].
Qed.

Lemma lives_serve_one m hfs m' :
  lives_serve m hfs m' → Forall (λ hf, hf.2 = Reopened) hfs →
  served_all m (concat hfs.*1).*2.*1 (concat hfs.*1).*2.*2 m'.
Proof.
  induction 1 as [|hfs m1 h found m2 _ IH Hs]; intros Hr; [constructor|].
  apply Forall_app in Hr as [Hr [Hf _]%Forall_cons]. cbn in Hf. subst found.
  rewrite fmap_app, concat_app, !fmap_app. cbn [concat fmap list_fmap fst]. rewrite app_nil_r.
  eapply served_all_trans; [by apply IH|done].
Qed.

Lemma lives_values m hfs m' :
  lives_serve m hfs m' → Forall (λ hf, Forall frameable hf.1.*2.*1) hfs → values_fit m → values_fit m'.
Proof.
  induction 1 as [|hfs m1 h found m2 _ IH Hs]; intros Hf Hm; [done|].
  apply Forall_app in Hf as [Hf [Hh _]%Forall_cons]. destruct found; [|apply map_Forall_empty].
  by destruct (history_values m1 h.*2 m2 Hs Hh (IH Hf Hm)).
Qed.

(** ** What stays *)

(** Whatever [request] writes to [k] is [v]. *)
Definition only_puts (k v : string) (request : Message) : Prop :=
  writes_to k request → msg_type request = MessageType.PUT ∧ msg_value request = v.

Lemma served_keeps m request response m' k v :
  served m request response m' → only_puts k v request → m !! k = Some v → m' !! k = Some v.
Proof.
  intros H Ho Hk. destruct (decide (writes_to k request)) as [Hw|Hw]; [|by rewrite (served_other _ _ _ _ _ H Hw)].
  destruct (Ho Hw) as [Ht <-]. unfold served in H. rewrite Ht in H. destruct H as [-> _], Hw as [_ ->].
  apply lookup_insert_eq.
Qed.

Lemma served_all_keeps m reqs resps m' k v :
  served_all m reqs resps m' → Forall (only_puts k v) reqs →
  m !! k = Some v ∨ (∃ request, request ∈ reqs ∧ msg_type request = MessageType.PUT ∧ msg_key request = k) →
  m' !! k = Some v.
Proof.
  induction 1 as [m|m req resp m1 reqs resps m2 Hs _ IH]; intros Ho Hk.
  - destruct Hk as [?|(? & ?%not_elem_of_nil & _)]; done.
  - apply Forall_cons in Ho as [Ho1 Ho]. apply IH; [done|]. destruct Hk as [Hk|(request & Hin & Ht & Hkey)].
    + left. by eapply served_keeps.
    + apply elem_of_cons in Hin as [->|Hin]; [left|right; by exists request].
      destruct (Ho1 ltac:(by split; [left|])) as [_ <-]. unfold served in Hs. rewrite Ht in Hs.
      destruct Hs as [-> _]. rewrite Hkey. apply lookup_insert_eq.
Qed.

(** ** What the clients' requests say of the history *)

Lemma of_peer_elem i (h : list (nat * (Message * Message))) e : e ∈ of_peer i h ↔ (i, e) ∈ h.
Proof.
  unfold of_peer. rewrite list_elem_of_fmap. split.
  - intros ([j e'] & -> & [Hj He]%list_elem_of_filter). cbn in Hj. by subst j.
  - intros He. exists (i, e). split; [done|]. by apply list_elem_of_filter.
Qed.

(** All requests of all clients have [P]. *)
Definition all_sent (P : Message → Prop) (nws : list Network) : Prop :=
  Forall (λ nw, Forall (λ py, Forall P (sent py)) (nw_parties nw)) nws.

Lemma accounts_sent P nw h :
  accounts_for nw h → Forall (λ py, Forall frameable (sent py)) (nw_parties nw) →
  Forall (λ py, Forall P (sent py)) (nw_parties nw) → Forall P h.*2.*1.
Proof.
  intros [Hb Ha] Hf HP. apply Forall_forall. intros request Hr.
  apply list_elem_of_fmap in Hr as (e & -> & He). apply list_elem_of_fmap in He as ([i e'] & -> & Hie). cbn in *.
  destruct (lookup_lt_is_Some_2 (nw_parties nw) i) as [py Hpy]; [by apply (Hb (i, e'))|].
  destruct (Ha i py Hpy) as [Hpre _]; [exact (Forall_lookup_1 _ _ _ _ Hf Hpy)|].
  eapply Forall_forall; [exact (Forall_lookup_1 _ _ _ _ HP Hpy)|].
  destruct Hpre as [more ->]. apply elem_of_app. left. apply list_elem_of_fmap_2. by apply of_peer_elem.
Qed.

Lemma all_accounts_sent P nws hs :
  Forall2 accounts_for nws hs → all_sent frameable nws → all_sent P nws → Forall P (concat hs).*2.*1.
Proof.
  unfold all_sent. induction 1 as [|nw h nws hs Hh _ IH]; intros Hf HP; [constructor|].
  apply Forall_cons in Hf as [Hf1 Hf]. apply Forall_cons in HP as [HP1 HP].
  cbn [concat]. rewrite !fmap_app. apply Forall_app. split; [by eapply accounts_sent|by apply IH].
Qed.

Lemma completed_answered py request response :
  (request, Val response) ∈ py_completed py → (request, response) ∈ answered_calls py.
Proof. intros H. apply list_elem_of_omap. by exists (request, Val response). Qed.

Lemma zip_frameable (lives : list (Network * log_found)) hs :
  Forall2 accounts_for lives.*1 hs → all_sent frameable lives.*1 →
  Forall (λ hf, Forall frameable hf.1.*2.*1) (zip hs lives.*2).
Proof.
  unfold all_sent. revert hs. induction lives as [|[nw found] lives IH]; intros hs Hhs Hf; inversion Hhs; subst; [constructor|].
  apply Forall_cons in Hf as [Hf1 Hf]. constructor; [by eapply accounts_sent|by apply IH].
Qed.

Lemma reopened_zip (lives : list (Network * log_found)) (hs : list (list (nat * (Message * Message)))) :
  Forall (λ life, life.2 = Reopened) lives → Forall (λ hf, hf.2 = Reopened) (zip hs lives.*2).
Proof.
  revert hs. induction lives as [|life lives IH]; intros [|h hs] H; try constructor.
  - by apply Forall_cons in H as [? _].
  - apply IH. by apply Forall_cons in H as [_ ?].
Qed.

(** A call that returned is in the history. *)
Lemma call_in_history nws hs nw i py request response m m' :
  Forall2 accounts_for nws hs → served_all m (concat hs).*2.*1 (concat hs).*2.*2 m' → values_fit m →
  all_sent frameable nws → nw ∈ nws → nw_parties nw !! i = Some py →
  Forall (λ r, msg_type r ≠ MessageType.SCAN) (sent py) → (request, Val response) ∈ py_completed py →
  (request, response) ∈ (concat hs).*2.
Proof.
  intros Hhs Hs Hm Hf [a Hnw]%list_elem_of_lookup Hpy Hscan Hc.
  destruct (Forall2_lookup_l _ _ _ _ _ Hhs Hnw) as (h & Hh & [Hb Ha]).
  assert (∀ e, e ∈ h → e ∈ concat hs) as Hin.
  { intros e He. apply list_elem_of_In, in_concat. exists h.
    split; apply list_elem_of_In; [by eapply list_elem_of_lookup_2|done]. }
  destruct (history_values m (concat hs).*2 m' Hs) as [Hfit _]; [|done|].
  { by eapply all_accounts_sent. }
  destruct (Ha i py Hpy) as [Hpre Hans].
  { exact (Forall_lookup_1 _ _ _ _ (Forall_lookup_1 _ _ _ _ Hf Hnw) Hpy). }
  assert (Forall answer_fits (of_peer i h)) as Hall.
  { apply Forall_forall. intros e He _. pose proof (proj1 (of_peer_elem _ _ _) He) as Hih.
    eapply Forall_forall in Hfit; [|apply list_elem_of_fmap_2, (Hin _ Hih)]. apply Hfit. cbn.
    eapply Forall_forall in Hscan; [exact Hscan|]. destruct Hpre as [more ->]. apply elem_of_app. left.
    by apply list_elem_of_fmap_2. }
  destruct (Hans Hall) as [more E]. apply completed_answered in Hc.
  apply (list_elem_of_fmap_2 snd (concat hs) (i, (request, response))), Hin, of_peer_elem.
  rewrite E. apply elem_of_app. by left.
Qed.

(** ** Theorems *)



(** ** Witnesses *)

(** The state of the threads after [n] steps of thread [i]. *)
Fixpoint run_thread (n i : nat) (sv : Serving) : option Serving :=
  match n with
  | O => Some sv
  | S n => th ← thread_step i (sv_threads sv); run_thread n i (mkServing th (after_step i sv) (sv_current sv))
  end.

Definition call_by (i : nat) (c : Call) (sv : Serving) : Serving :=
  mkServing (happens (Called i c) (goto i (Entered c) (sv_threads sv))) (sv_requests sv) (sv_current sv).

Section Runs.
Context (fetch : nat → nat → nat → nat).
Implicit Types sv : Serving.

Lemma runs_thread srv ao ch ls ps n i sv sv' :
  run_thread n i sv = Some sv' →
  rtc (net_steps fetch) (mkNetwork (mkRunning srv ao ch ls sv) ps) (mkNetwork (mkRunning srv ao ch ls sv') ps).
Proof.
  revert sv. induction n as [|n IH]; intros [th rqs cs]; cbn [run_thread]; [by intros [= ->]|].
  intros (th' & E & E')%bind_Some. cbn [sv_threads] in *. eapply net_now; [|by apply IH].
  apply (net_server _ DoCall); [exact I|]. apply run_call. split; [by apply serving_runs|].
  split; [|done]. unfold after_step. cbn. by repeat case_match; rewrite ?length_alter.
Qed.

(** A thread calls the database, and takes [n] steps of the call. *)
Lemma thread_calls srv ao ch ls ps n i k p c sv nw :
  sv_current sv !! i = Some (Some k) → sv_requests sv !! k = Some p → next_call p = Some c →
  th_pcs (sv_threads sv) !! i = Some Idle →
  match run_thread n i (call_by i c sv) with Some _ => true | None => false end = true →
  rtc (net_steps fetch) (mkNetwork (mkRunning srv ao ch ls (default sv (run_thread n i (call_by i c sv)))) ps) nw →
  rtc (net_steps fetch) (mkNetwork (mkRunning srv ao ch ls sv) ps) nw.
Proof.
  intros H1 H2 H3 H4 H5 H6. destruct (run_thread n i (call_by i c sv)) as [sv'|] eqn:E; [cbn in H6|done].
  apply net_now with (NetServer DoCall) (mkNetwork (mkRunning srv ao ch ls (call_by i c sv)) ps).
  - apply net_server; [exact I|]. apply run_call. destruct sv. split; [by eapply serving_calls|done].
  - etrans; [by eapply runs_thread|done].
Qed.

(** It writes the response. *)
Lemma thread_responds srv ao ch ls ps i x t k request response sv c' nw :
  ls !! i = Some x → ac_request x = Some k → sv_current sv !! t = Some (Some k) →
  sv_requests sv !! k = Some (Answered request response) → th_pcs (sv_threads sv) !! t = Some Idle →
  (write_response response (with_store (shared sv) (ac_conn x))).1 = Val tt →
  c' = (write_response response (with_store (shared sv) (ac_conn x))).2 →
  rtc (net_steps fetch) (mkNetwork (mkRunning srv ao ch (<[i := mkActive c' (ac_arrived x) None]> ls)
    (mkServing (sv_threads sv) (sv_requests sv) (<[t := None]> (sv_current sv)))) ps) nw →
  rtc (net_steps fetch) (mkNetwork (mkRunning srv ao ch ls sv) ps) nw.
Proof.
  intros H1 H2 H3 H4 H5 H6 -> H7. destruct sv as [th rqs cs]. eapply net_now; [|exact H7].
  apply (net_server _ (DoRespond i)); [exact I|]. eapply run_respond; [done..|].
  rewrite <- H6. apply surjective_pairing.
Qed.
End Runs.

(** The call of a client in its first lifetime. *)
Lemma demo_life_reached :
  ∃ nw py l, rtc (net_steps eager_fetch) (network_start demo_srv 2 demo_process) nw ∧
    nw_parties nw = [py] ∧
    py_completed py = [(put_request 1 "k" "v", Val (make_response (put_request 1 "k" "v") MessageType.SUCCESS "OK"))] ∧
    py_waiting py = None ∧ received (rn_serving (nw_running nw)) = [put_request 1 "k" "v"] ∧
    p_logs (shared (rn_serving (nw_running nw))) !! 0%nat = Some l ∧
    current_log_file_ l = log_name_now "data" demo_world ∧
    w_files (p_world (shared (rn_serving (nw_running nw)))) !! log_file_name "data/wal" 1700000060000 = None.
Proof.
  eexists. do 2 eexists. split; [|split; [|split; [|split; [|split; [|split; [|split]]]]]].
  - net_connects. net_puts.
    eapply net_now; [apply (net_server _ (DoEvent 0 (Complete NoError))); [exact I|];
      eapply (run_event _ _ _ _ _ _ 0 _ (Complete NoError));
      [reflexivity|discriminate|intros; by exists 0%nat|vm_compute; reflexivity|apply event_run; vm_compute; reflexivity]|].
    eapply net_now; [apply (net_server _ (DoRequest 0)); [exact I|];
      eapply (run_request _ _ _ _ _ _ _ _ 0 _ 0 (put_request 1 "k" "v"));
      [reflexivity|reflexivity|apply request_run; vm_compute; reflexivity]|].
    eapply (thread_calls _ _ _ _ _ _ 4 0 0 (Received (put_request 1 "k" "v")) CallBegin);
      [vm_compute; reflexivity..|].
    eapply (thread_calls _ _ _ _ _ _ 8 0 0 (Begun (put_request 1 "k" "v") 0%nat) (CallPut 0 "k" "v"));
      [vm_compute; reflexivity..|].
    eapply (thread_calls _ _ _ _ _ _ 8 0 0 (Committing (put_request 1 "k" "v") 0%nat MessageType.SUCCESS "OK") (CallCommit 0));
      [vm_compute; reflexivity..|].
    eapply (thread_responds _ _ _ _ _ _ 0 _ 0 0 (put_request 1 "k" "v")
      (make_response (put_request 1 "k" "v") MessageType.SUCCESS "OK"));
      [reflexivity|reflexivity|vm_compute; reflexivity|vm_compute; reflexivity|vm_compute; reflexivity
      |vm_compute; reflexivity|reflexivity|].
    eapply net_now; [|apply rtc_refl].
    eapply (net_receive _ _ _ 0 _ _ (put_request 1 "k" "v")
      (Val (make_response (put_request 1 "k" "v") MessageType.SUCCESS "OK")));
      [reflexivity|reflexivity|reflexivity|vm_compute; reflexivity|done].
  - reflexivity.
  - reflexivity.
  - reflexivity.
  - vm_compute. reflexivity.
  - vm_compute. reflexivity.
  - vm_compute. reflexivity.
  - vm_compute. reflexivity.
Qed.

(** It crashes, and comes up again, with the log that its clock names. *)
Definition later_world (st : Threads) : World :=
  mkWorld (w_files (p_world (th_shared st))) (λ n, 1700000060000 + Z.of_nat n) 0 (w_io demo_world) 0
    (w_order demo_world) 0.
Definition restart_world (found : log_found) (st : Threads) : World :=
  match found with Reopened => crash_world st | Fresh => later_world st end.

Lemma demo_lifetimes found :
  ∃ nw py s', lifetimes eager_fetch demo_process [(nw, found)] s' ∧ nw_parties nw = [py] ∧
    sent py = [put_request 1 "k" "v"] ∧
    py_completed py = [(put_request 1 "k" "v", Val (make_response (put_request 1 "k" "v") MessageType.SUCCESS "OK"))].
Proof.
  destruct demo_life_reached as (nw & py & l & Hst & Hps & Hc & Hw & Hrq & Hl & Hname & Hnew).
  set (w := restart_world found (sv_threads (rn_serving (nw_running nw)))).
  destruct (PersistentDatabase_initialize "data" (create_database w)) as [r s'] eqn:E.
  exists nw, py, s'. split; [|split; [done|split; [|done]]].
  - apply (lifetimes_crash _ _ [] demo_process demo_srv 2); [constructor|done|done| |].
    + rewrite Hrq. apply Forall_singleton. by vm_compute.
    + exists 0%nat, l, "data", w, r. split; [by vm_compute|]. split; [done|].
      subst w. destruct found; (split; [done|]); (split; [by intros n _|]); (split; [by intros n m|]).
      * by rewrite Hname.
      * by split.
  - unfold sent. by rewrite Hc, Hw.
Qed.


