(* ===== verification/Stoi.v ===== *)
(** * [std::stoi]

    What the command-line programs read their numbers with: [std::stoi] in base 10, that is
    [std::strtol] (white space, a sign, digits, anything after them), an exception when there
    are no digits, and another one when the value does not fit into an [int].  [to_string] is
    its inverse. *)

From Stdlib Require Import Ascii.
From stdpp Require Import base list strings pretty.
From Stdlib Require Import ZArith Lia.
From S2P Require Import Prelude.
From S2P Require Import Wal.

Definition INT_MIN : Z := - 2 ^ 31.
Definition INT_MAX : Z := 2 ^ 31 - 1.
Definition is_int (z : Z) : Prop := INT_MIN <= z <= INT_MAX.

#[global] Instance is_int_dec z : Decision (is_int z) := _.

(** [isspace] of the classic locale. *)
Fixpoint skip_space (s : string) : string :=
  match s with
  | String c s' => if Ascii.is_space c then skip_space s' else s
  | "" => ""
  end.

(** The leading [+] or [-]: whether the number is negated, and what follows. *)
Definition read_sign (s : string) : bool * string :=
  match s with
  | String "-" s' => (true, s')
  | String "+" s' => (false, s')
  | _ => (false, s)
  end%char.

(** The value of the leading digits, read from left to right. *)
Fixpoint read_digits (value : Z) (s : string) : Z :=
  match s with
  | String c s' =>
      match Ascii.is_nat c with
      | Some d => read_digits (10 * value + Z.of_nat d) s'
      | None => value
      end
  | "" => value
  end.

Definition is_digit (c : Ascii.ascii) : bool :=
  match Ascii.is_nat c with Some _ => true | None => false end.

Definition starts_with_digit (s : string) : bool :=
  match s with
  | String c _ => is_digit c
  | "" => false
  end.

(** [std::stoi(s)].  Both exceptions have the function's name for their [what()]: an
    [std::invalid_argument], then an [std::out_of_range]. *)
Definition stoi (s : string) : result Z :=
  let '(negative, s1) := read_sign (skip_space s) in
  if negb (starts_with_digit s1) then Throw "stoi" else
  let magnitude := read_digits 0 s1 in
  let value := if negative then - magnitude else magnitude in
  if bool_decide (is_int value) then Ok value else Throw "stoi".

(** [static_cast<uint16_t>(std::stoi(s))]: how all three programs read a port. *)
Definition read_port (s : string) : result Z :=
  match stoi s with
  | Ok z => Ok (u16 z)
  | Throw what => Throw what
  end.

(** ** What a numeral is *)

(** A string of characters with a property, followed by one without it. *)
Definition all_chars (P : Ascii.ascii → bool) (s : string) : bool :=
  forallb P (String.list_ascii_of_string s).

(** The value of a string of digits. *)
Definition digits_value (digits : string) : Z :=
  foldl (λ v c, 10 * v + Z.of_nat (default 0%nat (Ascii.is_nat c))) 0 (String.list_ascii_of_string digits).

(** [s] starts with white space, a sign and at least one digit that denote [z]. *)
Definition numeral (s : string) (z : Z) : Prop :=
  ∃ space sign digits rest,
    s = space +:+ sign +:+ digits +:+ rest ∧ all_chars Ascii.is_space space = true ∧
    (sign = "" ∨ sign = "+" ∨ sign = "-") ∧ digits ≠ "" ∧ all_chars is_digit digits = true ∧
    starts_with_digit rest = false ∧
    z = if decide (sign = "-") then - digits_value digits else digits_value digits.

(** ** Lemmas *)

Section Digits.
Implicit Types (s : string) (c : Ascii.ascii) (n : N).

Lemma is_nat_char n : (n < 10)%N → Ascii.is_nat (pretty_N_char n) = Some (N.to_nat n).
Proof.
  intros H. destruct n as [|p]; [done|].
  do 4 (destruct p as [p|p|]; try done; try lia).
Qed.

Lemma all_chars_cons P c s : all_chars P (String c s) = P c && all_chars P s.
Proof. done. Qed.

(** Leading digits, in an accumulator. *)
Lemma read_digits_app v digits rest :
  all_chars is_digit digits = true → starts_with_digit rest = false →
  read_digits v (digits +:+ rest)
  = foldl (λ v c, 10 * v + Z.of_nat (default 0%nat (Ascii.is_nat c))) v
      (String.list_ascii_of_string digits).
Proof.
  intros Hd Hr. revert v Hd. induction digits as [|c digits IH]; intros v Hd.
  - change ("" +:+ rest) with rest. destruct rest as [|c rest]; [done|].
    cbn [starts_with_digit read_digits] in *. unfold is_digit in Hr. by destruct (Ascii.is_nat c).
  - rewrite all_chars_cons in Hd. apply andb_true_iff in Hd as [Hc Hd].
    rewrite string_app_cons. cbn [read_digits String.list_ascii_of_string foldl].
    unfold is_digit in Hc. destruct (Ascii.is_nat c) as [d|]; [|done]. by apply IH.
Qed.

(** Splits a string after its leading characters with [P]. *)
Lemma split_chars P s :
  ∃ s1 s2, s = s1 +:+ s2 ∧ all_chars P s1 = true ∧
    match s2 with String c _ => P c = false | "" => True end.
Proof.
  induction s as [|c s (s1 & s2 & -> & H1 & H2)]; [by exists "", ""|].
  destruct (P c) eqn:Hc.
  - exists (String c s1), s2. split; [done|]. split; [|done]. by rewrite all_chars_cons, Hc.
  - by exists "", (String c (s1 +:+ s2)).
Qed.

Lemma skip_space_app space s :
  all_chars Ascii.is_space space = true →
  match s with String c _ => Ascii.is_space c = false | "" => True end →
  skip_space (space +:+ s) = s.
Proof.
  intros Hs Hc. induction space as [|c space IH].
  - change ("" +:+ s) with s. destruct s; [done|]. cbn. by rewrite Hc.
  - rewrite all_chars_cons in Hs. apply andb_true_iff in Hs as [H1 H2].
    rewrite string_app_cons. cbn. rewrite H1. by apply IH.
Qed.

Lemma digit_not_space c : is_digit c = true → Ascii.is_space c = false ∧ c ≠ "-"%char ∧ c ≠ "+"%char.
Proof. by destruct c as [[] [] [] [] [] [] [] []]. Qed.

(** The first character after the sign. *)
Lemma read_sign_other s :
  match s with String c _ => c ≠ "-"%char ∧ c ≠ "+"%char | "" => True end → read_sign s = (false, s).
Proof.
  destruct s as [|c s]; [done|]. intros [H1 H2].
  destruct c as [[] [] [] [] [] [] [] []]; try done; by destruct H1 || destruct H2.
Qed.

Lemma stoi_numeral s z :
  numeral s z → stoi s = if bool_decide (is_int z) then Ok z else Throw "stoi".
Proof.
  intros (space & sign & digits & rest & -> & Hspace & Hsign & Hne & Hd & Hr & ->).
  destruct digits as [|c digits]; [done|]. clear Hne.
  pose proof Hd as Hc. rewrite all_chars_cons in Hc. apply andb_true_iff in Hc as [Hc _].
  destruct (digit_not_space c Hc) as (Hnsp & Hm & Hp).
  unfold stoi. rewrite skip_space_app by (done || by destruct Hsign as [->|[-> | ->]]).
  assert (read_sign (sign +:+ String c digits +:+ rest)
          = (bool_decide (sign = "-"), String c digits +:+ rest)) as ->.
  { destruct Hsign as [->|[-> | ->]]; [|done|done]. rewrite string_app_cons.
    change ("" +:+ ?s) with s. by apply read_sign_other. }
  cbn beta iota. rewrite string_app_cons at 1. cbn [starts_with_digit]. rewrite Hc. cbn [negb].
  rewrite (read_digits_app 0 (String c digits) rest Hd Hr). fold (digits_value (String c digits)).
  destruct (decide (sign = "-")) as [E|E].
  - by rewrite (bool_decide_eq_true_2 _ E).
  - by rewrite (bool_decide_eq_false_2 _ E).
Qed.

Lemma stoi_ok_numeral s z : stoi s = Ok z → ∃ z', numeral s z'.
Proof.
  destruct (split_chars Ascii.is_space s) as (space & s1 & -> & Hspace & Hs1).
  unfold stoi. rewrite skip_space_app by done.
  destruct (read_sign s1) as [negative s2] eqn:E. intros H.
  destruct (starts_with_digit s2) eqn:Hd; [|done]. clear H.
  destruct (split_chars is_digit s2) as (digits & rest & -> & Hds & Hrest).
  assert (digits ≠ "") as Hne.
  { intros ->. change ("" +:+ rest) with rest in Hd. destruct rest; cbn in *; congruence. }
  assert (∃ sign, s1 = sign +:+ digits +:+ rest ∧ (sign = "" ∨ sign = "+" ∨ sign = "-")) as (sign & -> & Hsign).
  { destruct s1 as [|c s1]; [injection E as _ E; exists ""; by split; [|left]|].
    destruct (decide (c = "-"%char)) as [->|H1]; [injection E as _ <-; exists "-"; by eauto|].
    destruct (decide (c = "+"%char)) as [->|H2]; [injection E as _ <-; exists "+"; by eauto|].
    rewrite read_sign_other in E by done. injection E as _ <-. exists "". by split; [|left]. }
  eexists. exists space, sign, digits, rest. split_and!; try done. by destruct rest.
Qed.

(** ** Numerals of [to_string] *)

Lemma list_ascii_app a b :
  String.list_ascii_of_string (a +:+ b)
  = String.list_ascii_of_string a ++ String.list_ascii_of_string b.
Proof. induction a as [|x a IH]; [done|]. rewrite string_app_cons. cbn. by rewrite IH. Qed.

Lemma digits_value_snoc digits c d :
  Ascii.is_nat c = Some d → digits_value (digits +:+ String c "") = 10 * digits_value digits + Z.of_nat d.
Proof. intros H. unfold digits_value. rewrite list_ascii_app, foldl_app. cbn. by rewrite H. Qed.

Lemma all_chars_app P a b : all_chars P (a +:+ b) = all_chars P a && all_chars P b.
Proof. unfold all_chars. by rewrite list_ascii_app, forallb_app. Qed.

Lemma pretty_N_go_digits n s :
  ∃ digits, pretty_N_go n s = digits +:+ s ∧ all_chars is_digit digits = true ∧
    digits_value digits = Z.of_N n ∧ ((0 < n)%N → digits ≠ "") ∧
    ∀ k, (n < 10 ^ N.of_nat k)%N → (String.length digits <= k)%nat.
Proof.
  revert s. induction (N.lt_wf_0 n) as [n _ IH]. intros s.
  destruct (decide (n = 0)%N) as [->|Hn].
  { exists "". rewrite pretty_N_go_0. split_and!; try done. cbn. lia. }
  rewrite pretty_N_go_step by lia.
  destruct (IH (n `div` 10)%N ltac:(apply N.div_lt; lia) (String (pretty_N_char (n `mod` 10)) s))
    as (digits & -> & Hd & Hv & _ & Hk).
  pose proof (N.mod_lt n 10 ltac:(lia)) as Hm. pose proof (is_nat_char _ Hm) as Hc.
  exists (digits +:+ String (pretty_N_char (n `mod` 10)) ""). split_and!.
  - by rewrite string_app_assoc.
  - rewrite all_chars_app, Hd, all_chars_cons. unfold is_digit. by rewrite Hc.
  - rewrite (digits_value_snoc _ _ _ Hc), Hv. pose proof (N.div_mod n 10 ltac:(lia)). lia.
  - intros _ E. apply (f_equal String.length) in E. rewrite string_length_app in E. cbn in E. lia.
  - intros [|k] Hlt; [cbn in Hlt; lia|]. rewrite string_length_app. cbn.
    rewrite Nat2N.inj_succ, N.pow_succ_r' in Hlt.
    specialize (Hk k (N.Div0.div_lt_upper_bound _ _ _ Hlt)). lia.
Qed.

Lemma to_string_digits z :
  0 <= z →
  to_string z ≠ "" ∧ all_chars is_digit (to_string z) = true ∧ digits_value (to_string z) = z ∧
  ∀ k, (0 < k)%nat → z < 10 ^ Z.of_nat k → (String.length (to_string z) <= k)%nat.
Proof.
  intros Hz. destruct z as [|p|p]; [|clear Hz|lia].
  { by split_and!. }
  unfold to_string, pretty, pretty_Z, pretty_positive, pretty, pretty_N. rewrite decide_False by done.
  destruct (pretty_N_go_digits (Npos p) "") as (digits & -> & Hd & Hv & Hne & Hk).
  rewrite string_app_nil_r. split_and!; [by apply Hne|done|done|].
  intros k _ Hlt. apply Hk. apply N2Z.inj_lt. rewrite N2Z.inj_pow, nat_N_Z. exact Hlt.
Qed.

Lemma to_string_numeral z : numeral (to_string z) z.
Proof.
  destruct (decide (0 <= z)) as [Hz|Hz].
  - destruct (to_string_digits z Hz) as (Hne & Hd & Hv & _).
    exists "", "", (to_string z), "". rewrite string_app_nil_r, Hv. split_and!; try done. by left.
  - destruct z as [|p|p]; [lia..|].
    destruct (to_string_digits (Zpos p) ltac:(lia)) as (Hne & Hd & Hv & _).
    exists "", "-", (to_string (Zpos p)), "". rewrite string_app_nil_r, Hv.
    split_and!; try done. by right; right.
Qed.

Lemma stoi_to_string_ok z : is_int z → stoi (to_string z) = Ok z.
Proof.
  intros Hz. rewrite (stoi_numeral _ _ (to_string_numeral z)). by rewrite bool_decide_eq_true_2.
Qed.
End Digits.

#[global] Instance to_string_inj : Inj (=) (=) to_string.
Proof. intros a b E. by apply (inj pretty). Qed.

(** ** Theorems *)

(** [std::stoi] returns a value exactly for the strings that start with white space, an
    optional sign and at least one digit, whose value is within the bounds of [int]; what
    follows the digits does not matter. *)
Theorem stoi_accepts (s : string) (z : Z) : stoi s = Ok z ↔ numeral s z ∧ is_int z.
Proof.
  split.
  - intros H. destruct (stoi_ok_numeral s z H) as [z' Hn]. pose proof (stoi_numeral s z' Hn) as E.
    rewrite H in E. case_bool_decide; [|done]. by injection E as ->.
  - intros [Hn Hz]. by rewrite (stoi_numeral s z Hn), bool_decide_eq_true_2.
Qed.

(** [std::stoi] reads back what [std::to_string] prints, for every [int]. *)
Theorem stoi_to_string (z : Z) : is_int z → stoi (to_string z) = Ok z.
Proof. apply stoi_to_string_ok. Qed.

(** The port of a program is a valid one whatever the argument says, and the number that was
    given exactly if that is a port number; any other number is taken modulo 65536. *)
Theorem read_port_bounds (s : string) (p : Z) :
  read_port s = Ok p →
  0 <= p < 65536 ∧ ∃ z, numeral s z ∧ is_int z ∧ (z - p) mod 65536 = 0 ∧
    (p = z ↔ 0 <= z < 65536).
Proof.
  unfold read_port. destruct (stoi s) as [z|] eqn:E; [|done]. intros [= <-]. unfold u16.
  pose proof (Z.mod_pos_bound z (2 ^ 16) ltac:(lia)) as Hb. split; [lia|].
  destruct (stoi_ok_numeral s z E) as [z' Hn]. pose proof (stoi_numeral s z' Hn) as E'.
  rewrite E in E'. case_bool_decide as Hz; [|done]. injection E' as ->.
  exists z'. split; [done|]. split; [done|]. split.
  - rewrite (Z.div_mod z' 65536) at 1 by lia. change (2 ^ 16) with 65536.
    replace (_ + _ - _) with (z' / 65536 * 65536) by lia. apply Z.mod_mul. lia.
  - split; [lia|]. intros. by rewrite Z.mod_small by lia.
Qed.

(** ** Witnesses *)

Lemma stoi_to_string_witness : stoi (to_string (-8080)) = Ok (-8080).
Proof. apply (stoi_to_string (-8080)). vm_compute. split; congruence. Defined.

Lemma read_port_bounds_witness :
  read_port "65616" = Ok 80 ∧ ∃ z, numeral "65616" z ∧ (80 = z ↔ 0 <= z < 65536).
Proof.
  split; [reflexivity|].
  destruct (read_port_bounds "65616" 80) as (_ & z & Hn & _ & _ & Hz); [reflexivity|].
  exists z. split; assumption.
Defined.

Example stoi_examples :
  stoi "8080" = Ok 8080 ∧ stoi "  -7abc" = Ok (-7) ∧ stoi "abc" = Throw "stoi" ∧
  stoi "2147483648" = Throw "stoi" ∧ stoi "-2147483648" = Ok (-2147483648) ∧
  read_port "-1" = Ok 65535.
Proof. split_and!; reflexivity. Qed.
