(* ===== verification/ClientMain.v ===== *)
(** * The command-line client

    [src/client_main.cpp]: the arguments, the connection, the command, what is printed and the
    exit status, over [DatabaseClient] and any socket; then against the server of
    [EndToEnd.v].  The lines that [DatabaseClient] itself writes to [std::cout] when it
    connects and disconnects are part of the output; the one it writes to [std::cerr] when
    connecting fails is not tracked. *)

From Stdlib Require Import Ascii.
From stdpp Require Import base gmap list strings.
From Stdlib Require Import ZArith Lia.
From S2P Require Import Prelude.
From S2P Require Import Protocol.
From S2P Require Import Effects.
From S2P Require Import Interface.
From S2P Require Import Wal.
From S2P Require Import ScanFormat.
From S2P Require Import Stoi.
From S2P Require Import Database.
From S2P Require Import Connection.
From S2P Require Import Server.
From S2P Require Import Client.
From S2P Require Import Acceptor.
From S2P Require Import System.
From S2P Require Import EndToEnd.

(** [std::cout] and [std::cerr], and the measured rates: how a rate is printed depends on the
    clock and is the environment's choice. *)
Record Terminal := mkTerminal {
  cout : string;
  cerr : string;
  rate : nat → string;
  rates_printed : nat;
}.

(** A line ends with [std::endl]. *)
Definition line (s : string) : string := s +:+ String (ascii_of_nat 10) "".

Definition put_out (s : string) (t : Terminal) : Terminal :=
  mkTerminal (cout t +:+ s) (cerr t) (rate t) (rates_printed t).
Definition put_err (s : string) (t : Terminal) : Terminal :=
  mkTerminal (cout t) (cerr t +:+ s) (rate t) (rates_printed t).
Definition next_rate (t : Terminal) : Terminal :=
  mkTerminal (cout t) (cerr t) (rate t) (1 + rates_printed t).

(** The text of [print_usage]. *)
Definition usage_text : string :=
  line "Usage: distributeddb_client <host> <port> <command> [args...]" +:+
  line "Commands:" +:+
  line "  get <key>                    - Get value for key" +:+
  line "  put <key> <value>          - Put key-value pair" +:+
  line "  del <key>                    - Delete key" +:+
  line "  scan <start_key> <end_key>   - Scan keys in range" +:+
  line "  ping                         - Ping server" +:+
  line "  benchmark <num_operations>   - Run performance benchmark".

Section Program.
Context {N : Type} `{!Socket N}.

(** While the client object lives, and outside of its scope. *)
Abbreviation ScopeM := (M (Terminal * (DatabaseClient * N))).
Abbreviation MainM := (M (Terminal * N)).

Definition say {X} (s : string) : M (Terminal * X) unit := modify (λ '(t, x), (put_out (line s) t, x)).
Definition complain {X} (s : string) : M (Terminal * X) unit :=
  modify (λ '(t, x), (put_err (line s) t, x)).

Definition on_client {A} (m : M (DatabaseClient * N) A) : ScopeM A :=
  zoom snd (λ c st, (fst st, c)) m.

(** [print_usage]. *)
Definition print_usage {X} : M (Terminal * X) unit := modify (λ '(t, x), (put_out usage_text t, x)).

(** [client.connect()], with its line on [std::cout]. *)
Definition connect_aloud : ScopeM bool :=
  connected ← on_client client_connect;
  cl ← gets (fst ∘ snd);
  if connected : bool then
    say ("Connected to database server at " +:+ host_ cl +:+ ":" +:+ to_string (port_ cl));;
    mret true
  else mret false.

(** [~DatabaseClient()], that is [disconnect()], with its line on [std::cout]. *)
Definition delete_aloud : ScopeM unit :=
  connected ← on_client is_connected;
  on_client DatabaseClient_delete;;
  if connected : bool then say "Disconnected from database server" else mret tt.

(** A block in which [DatabaseClient client(host, port)] lives: its destructor runs when the
    block is rounds, also by an exception, and before that is caught.  A destructor that throws
    ends the program. *)
Definition with_client {A} (host : string) (port : Z) (body : ScopeM A) : MainM A := λ '(t, n),
  match body (t, (DatabaseClient_new host port, n)) with
  | (UB why, (t, (_, n))) => (UB why, (t, n))
  | (r, st) =>
      match delete_aloud st with
      | (Val _, (t, (_, n))) => (r, (t, n))
      | (_, (t, (_, n))) => (UB "std::terminate: a destructor threw", (t, n))
      end
  end.

Definition benchmark_key (i : Z) : string := "benchmark_key_" +:+ to_string i.
Definition benchmark_value (i : Z) : string := "benchmark_value_" +:+ to_string i.

(** A round of the loops of [run_benchmark]; [false] is [break]. *)
Definition attempt {A} (what_failed : string) (m : M (DatabaseClient * N) A) : ScopeM bool :=
  try_catch (_ ← on_client m; mret true) (λ what, complain (what_failed +:+ what);; mret false).

(** The loops of [run_benchmark]: [rounds] rounds are left, the next one with [i]. *)
Fixpoint put_loop (rounds : nat) (i : Z) : ScopeM unit :=
  match rounds with
  | O => mret tt
  | S rounds =>
      go_on ← attempt "Write error: " (client_put (benchmark_key i) (benchmark_value i));
      if go_on : bool then put_loop rounds (i + 1) else mret tt
  end.

Fixpoint get_loop (rounds : nat) (i : Z) : ScopeM unit :=
  match rounds with
  | O => mret tt
  | S rounds =>
      go_on ← attempt "Read error: " (client_get (benchmark_key i));
      if go_on : bool then get_loop rounds (i + 1) else mret tt
  end.

(** A line with a measured rate. *)
Definition say_rate (label : string) : ScopeM unit :=
  t ← gets fst;
  say (label +:+ rate t (rates_printed t) +:+ " ops/sec");;
  modify (λ '(t, x), (next_rate t, x)).

(** [run_benchmark]. *)
Definition run_benchmark (num_operations : Z) : ScopeM unit :=
  say ("Running benchmark with " +:+ to_string num_operations +:+ " operations...");;
  put_loop (Z.to_nat num_operations) 0;;
  get_loop (Z.to_nat num_operations) 0;;
  say_rate "Write performance: ";;
  say_rate "Read performance: ".

(** The loop that prints the results of a scan. *)
Fixpoint print_results (results : list (string * string)) : ScopeM unit :=
  match results with
  | [] => mret tt
  | (key, value) :: results => say ("  " +:+ key +:+ " = " +:+ value);; print_results results
  end.

(** The chain of commands in the [try] block of [main]; 0 is the value that [main] returns
    after the block. *)
Definition dispatch (argv : list string) : ScopeM Z :=
  let argc := zlen argv in
  let arg := λ i, nth i argv "" in
  let command := arg 3%nat in
  if bool_decide (command = "get") && (argc >=? 5) then
    value ← on_client (client_get (arg 4%nat));
    say value;;
    mret 0
  else if bool_decide (command = "put") && (argc >=? 6) then
    success ← on_client (client_put (arg 4%nat) (arg 5%nat));
    say (if success : bool then "OK" else "ERROR");;
    mret 0
  else if bool_decide (command = "del") && (argc >=? 5) then
    success ← on_client (client_del (arg 4%nat));
    say (if success : bool then "OK" else "ERROR");;
    mret 0
  else if bool_decide (command = "scan") && (argc >=? 6) then
    try_catch
      (results ← on_client (client_scan (arg 4%nat) (arg 5%nat) 1000);
       say ("Found " +:+ to_string (zlen results) +:+ " results:");;
       print_results results;;
       mret 0)
      (λ what, complain ("SCAN error: " +:+ what);; mret 1)
  else if bool_decide (command = "ping") then
    success ← on_client client_ping;
    say (if success : bool then "PONG" else "ERROR");;
    mret 0
  else if bool_decide (command = "benchmark") && (argc >=? 5) then
    num_operations ← of_result (stoi (arg 4%nat));
    run_benchmark num_operations;;
    mret 0
  else print_usage;; mret 1.

(** The [try] block of [main], the client's declaration aside. *)
Definition run_command (argv : list string) : ScopeM Z :=
  connected ← connect_aloud;
  if negb connected then complain "Failed to connect to server";; mret 1 else
  dispatch argv.

(** [main]: the exit status.  An exception that leaves [main] ends the program abnormally. *)
Definition client_main (argv : list string) : MainM Z :=
  let argc := zlen argv in
  if argc <? 4 then print_usage;; mret 1 else
  let host := nth 1 argv "" in
  port ← of_result (read_port (nth 2 argv ""));
  try_catch (with_client host port (run_command argv))
    (λ what, complain ("Error: " +:+ what);; mret 1).
End Program.

(** ** How the program ends *)

(** What the program relies on from a socket: an error is an exception, and [close], which is
    called with an error code to fill in, does not throw. *)
Record socket_safe (N : Type) `{!Socket N} : Prop := {
  ss_connect host port : ends (λ _, True) (λ _, True) (sock_connect (N := N) host port);
  ss_close : ends (λ _, True) (λ _, False) (sock_close (N := N));
  ss_write bytes : ends (λ _, True) (λ _, True) (sock_write (N := N) bytes);
  ss_read n : ends (λ _, True) (λ _, True) (sock_read (N := N) n);
}.

(** Follows the structure of an operation; what is left are its conditions. *)
Ltac ends :=
  repeat lazymatch goal with
    | |- True => exact I
    | |- ∀ _, _ => intros ?
    | |- ends _ _ (mret _) => apply ends_ret
    | |- ends _ _ (gets _) => apply ends_gets
    | |- ends _ _ (modify _) => apply ends_modify
    | |- ends _ _ (throw _) => apply ends_throw
    | |- ends _ _ (if _ then _ else _) => apply ends_if
    | |- ends _ _ (zoom _ _ _) => apply ends_zoom
    | |- ends _ _ (_ ≫= _) => apply (ends_bind (λ _, True))
    end.

Section Ending.
Context {N : Type} `{!Socket N} (Hsafe : socket_safe N).

(** May throw, and nothing worse. *)
Abbreviation tame := (ends (λ _, True) (λ _, True)).

Lemma send_message_tame m : ends (λ _, True) (λ _, False) (send_message (N := N) m).
Proof.
  eapply (ends_try _ (λ _, True)); [|ends]. unfold on_socket. ends; apply (ss_write N Hsafe).
Qed.

Lemma receive_message_tame : tame (receive_message (N := N)).
Proof.
  eapply (ends_try _ (λ _, True)); [|ends]. unfold on_socket. ends; try apply (ss_read N Hsafe).
  apply ends_of_result. by destruct (Message_deserialize _).
Qed.

Lemma send_request_tame m : tame (send_request (N := N) m).
Proof.
  unfold send_request, is_connected. ends.
  - eapply ends_weaken; [apply send_message_tame|done..].
  - apply receive_message_tame.
Qed.

(** Every operation of the client is a request between reading the identifier and the result. *)
Lemma client_op_tame {A} (build : Z → Message) (finish : Message → M (DatabaseClient * N) A) :
  (∀ response, tame (finish response)) →
  tame (id ← next_request_id; response ← send_request (build id); finish response).
Proof.
  intros Hf. unfold next_request_id, cl_modify. ends; [apply send_request_tame|apply Hf].
Qed.

Lemma client_get_tame k : tame (client_get (N := N) k).
Proof. apply client_op_tame. intros r. destruct (decide _); ends. Qed.

Lemma client_put_tame k v : tame (client_put (N := N) k v).
Proof. apply client_op_tame. ends. Qed.

Lemma client_del_tame k : tame (client_del (N := N) k).
Proof. apply client_op_tame. ends. Qed.

Lemma client_ping_tame : tame (client_ping (N := N)).
Proof. apply client_op_tame. ends. Qed.

Lemma client_scan_tame a b limit : tame (client_scan (N := N) a b limit).
Proof.
  apply client_op_tame. intros r. destruct (decide _); [|ends].
  destruct (scan_parse_total (msg_value r) limit) as [results ->]. ends.
Qed.

Lemma disconnect_tame : ends (λ _, True) (λ _, False) (DatabaseClient_delete (N := N)).
Proof.
  unfold DatabaseClient_delete, client_disconnect, on_socket, cl_modify. ends; [intros s; exact I|].
  match goal with st : DatabaseClient * N |- _ => destruct st as [cl n] end.
  ends. apply (ss_close N Hsafe).
Qed.

Lemma delete_aloud_tame : ends (λ _, True) (λ _, False) (delete_aloud (N := N)).
Proof. unfold delete_aloud, on_client, is_connected, say. ends. apply disconnect_tame. Qed.

Lemma with_client_ends {A} (P : A → Prop) Q host port (body : M (Terminal * (DatabaseClient * N)) A) :
  ends P Q body → ends P Q (with_client host port body).
Proof.
  intros Hb [t n]. unfold with_client. specialize (Hb (t, (DatabaseClient_new host port, n))).
  destruct (body _) as [r st]. pose proof (delete_aloud_tame st) as Hd.
  destruct (delete_aloud st) as [[[]|what|why] [t' [cl' n']]]; cbn in Hd; [|done..].
  by destruct r, st as [? []].
Qed.

Lemma attempt_tame {A} what_failed (m : M (DatabaseClient * N) A) :
  tame m → tame (attempt what_failed m).
Proof. intros Hm. eapply ends_try; [|unfold complain; ends]. unfold on_client. by ends. Qed.

Lemma put_loop_tame rounds i : tame (put_loop (N := N) rounds i).
Proof.
  revert i. induction rounds as [|rounds IH]; intros i; cbn [put_loop]; ends.
  - apply attempt_tame, client_put_tame.
  - apply IH.
Qed.

Lemma get_loop_tame rounds i : tame (get_loop (N := N) rounds i).
Proof.
  revert i. induction rounds as [|rounds IH]; intros i; cbn [get_loop]; ends.
  - apply attempt_tame, client_get_tame.
  - apply IH.
Qed.

Lemma print_results_tame results : tame (print_results (N := N) results).
Proof.
  induction results as [|[k v] results IH]; cbn [print_results]; unfold say; ends. apply IH.
Qed.

Definition exit_status (code : Z) : Prop := code = 0 ∨ code = 1.

Lemma run_command_ends argv : ends exit_status (λ _, True) (run_command (N := N) argv).
Proof.
  unfold run_command, dispatch, connect_aloud, run_benchmark, say_rate, print_usage, say, complain, on_client.
  ends; try ((by left) || (by right)).
  - eapply (ends_try _ (λ _, True)); [|ends]. unfold on_socket, cl_modify. ends. apply (ss_connect N Hsafe).
  - apply client_get_tame.
  - apply client_put_tame.
  - apply client_del_tame.
  - eapply (ends_try _ (λ _, True)); [|ends; by right].
    ends; [apply client_scan_tame|apply print_results_tame|by left].
  - apply client_ping_tame.
  - apply ends_of_result. by destruct (stoi _).
  - apply put_loop_tame.
  - apply get_loop_tame.
Qed.
End Ending.

(** ** What a command means *)

Definition benchmark_pairs (n : Z) : list (string * string) :=
  (λ i, (benchmark_key i, benchmark_value i)) <$> seqZ 0 n.

(** The map after the writes of a benchmark. *)
Definition after_puts (m : gmap string string) (pairs : list (string * string)) : gmap string string :=
  foldl (λ m kv, <[kv.1 := kv.2]> m) m pairs.

Definition results_text (results : list (string * string)) : string :=
  foldr (λ kv s, line ("  " +:+ kv.1 +:+ " = " +:+ kv.2) +:+ s) "" results.

(** The arguments form a command. *)
Definition recognised (args : list string) : bool :=
  match args with
  | [] => false
  | command :: args =>
      bool_decide (command = "ping") ||
      bool_decide (command ∈ ["get"; "del"; "benchmark"]) && (1 <=? length args)%nat ||
      bool_decide (command ∈ ["put"; "scan"]) && (2 <=? length args)%nat
  end.

(** [cli_effect m args code out err m']: against a database with the contents [m], the command
    [args] may exit with [code] after printing [out] and [err], and leaves the contents [m']. *)
Inductive cli_effect (m : gmap string string) :
    list string → Z → string → string → gmap string string → Prop :=
  | cli_get k rest c v :
      m !! k = Some (String c v) →
      cli_effect m ("get" :: k :: rest) 0 (line (String c v)) "" m
  | cli_get_missing k rest :
      default "" (m !! k) = "" →
      cli_effect m ("get" :: k :: rest) 1 "" (line "Error: GET failed: Key not found") m
  | cli_put k v rest :
      cli_effect m ("put" :: k :: v :: rest) 0 (line "OK") "" (<[k := v]> m)
  | cli_del k rest :
      cli_effect m ("del" :: k :: rest) 0
        (line (if bool_decide (is_Some (m !! k)) then "OK" else "ERROR")) "" (delete k m)
  | cli_scan a b rest answer :
      scan_answer m a b 1000 answer →
      cli_effect m ("scan" :: a :: b :: rest) 0
        (line ("Found " +:+ to_string (zlen answer) +:+ " results:") +:+ results_text answer) "" m
  | cli_ping rest : cli_effect m ("ping" :: rest) 0 (line "PONG") "" m
  | cli_benchmark arg rest n writes reads :
      stoi arg = Ok n →
      cli_effect m ("benchmark" :: arg :: rest) 0
        (line ("Running benchmark with " +:+ to_string n +:+ " operations...") +:+
         line ("Write performance: " +:+ writes +:+ " ops/sec") +:+
         line ("Read performance: " +:+ reads +:+ " ops/sec")) "" (after_puts m (benchmark_pairs n))
  | cli_benchmark_bad arg rest what :
      stoi arg = Throw what →
      cli_effect m ("benchmark" :: arg :: rest) 1 "" (line ("Error: " +:+ what)) m
  | cli_usage args :
      recognised args = false → cli_effect m args 1 usage_text "" m.

(** The arguments and the answer are within the limits of the protocol, and what a scan
    reports has no quotes. *)
Definition cli_fits (m : gmap string string) (args : list string) : Prop :=
  (∀ k rest, args = "get" :: k :: rest →
     slen k <= MAX_KEY_SIZE ∧ slen (default "" (m !! k)) <= MAX_MESSAGE_SIZE - 13) ∧
  (∀ k v rest, args = "put" :: k :: v :: rest →
     slen k <= MAX_KEY_SIZE ∧ slen k + slen v <= MAX_MESSAGE_SIZE - 13) ∧
  (∀ k rest, args = "del" :: k :: rest → slen k <= MAX_KEY_SIZE) ∧
  (∀ a b rest, args = "scan" :: a :: b :: rest →
     slen a <= MAX_KEY_SIZE ∧ slen a + slen b <= MAX_MESSAGE_SIZE - 13 ∧
     map_Forall (λ k v, quote_free k ∧ quote_free v) m ∧
     ∀ answer, scan_answer m a b 1000 answer → slen (scan_text answer) <= MAX_MESSAGE_SIZE - 13).

(** ** The program against the server *)

Section Against.
Context {S T : Type} `{!Database S T} `{!DatabaseContract S T} {fetch : nat → nat → nat → nat}.
Implicit Types (n : Link fetch S) (t : Terminal) (st : DatabaseClient * Link fetch S).

(** What the server's database holds. *)
Definition held n : gmap string string := contents (sys_store (link_system n)).

Definition greeting (host : string) (port : Z) : string :=
  line ("Connected to database server at " +:+ host +:+ ":" +:+ to_string port).
Definition farewell : string := line "Disconnected from database server".

(** The client after [connect]. *)
Definition met (host : string) (port : Z) n : DatabaseClient * Link fetch S :=
  (set_connected true (DatabaseClient_new host port), admitted n).

Lemma connect_aloud_link host port t n :
  awaits n →
  connect_aloud (t, (DatabaseClient_new host port, n))
  = (Val true, (put_out (greeting host port) t, met host port n)).
Proof.
  intros Hn. pose proof (connect_admitted n host (to_string port) Hn) as E.
  unfold connect_aloud, on_client, client_connect, on_socket, cl_modify, try_catch, zoom, mbind, M_bind, gets, modify.
  cbn [fst snd DatabaseClient_new host_ port_]. rewrite E. reflexivity.
Qed.

Lemma delete_aloud_link t st :
  online st →
  ∃ n', sock_close st.2 = (Val tt, n') ∧
    delete_aloud (t, st) = (Val tt, (put_out farewell t, (set_connected false st.1, n'))).
Proof.
  intros Hon. destruct (close_online st.1 st.2) as (n' & E & _); [by destruct st|].
  exists n'. split; [done|]. destruct Hon as (Hc & Ho & _). destruct st as [cl n]. cbn [fst snd] in *.
  unfold delete_aloud, on_client, is_connected, DatabaseClient_delete, client_disconnect, on_socket, cl_modify,
    get_state, zoom, mbind, M_bind, gets, modify.
  change (cs_open (link_socket n)) with (sock_is_open n) in Ho.
  cbn [fst snd]. rewrite Hc, Ho. cbn [andb fst snd]. rewrite E. reflexivity.
Qed.

(** After the client has gone the server is as it was, but for the database and the connection
    that has been. *)
Lemma back_again host port n st n' :
  awaits n → stays (met host port n) st → sock_close st.2 = (Val tt, n') →
  awaits n' ∧ sys_server (link_system n') = sys_server (link_system n) ∧ held n' = remote st.
Proof.
  intros Hn [Hon (B1 & B2 & B3 & B4 & B5 & B6)] E.
  destruct (admitted_online n (set_connected true (DatabaseClient_new host port)) Hn eq_refl) as (_ & As & _).
  destruct (close_online st.1 st.2) as (n2 & E2 & C1 & C2 & C3 & C4 & C5 & _); [by destruct st|].
  rewrite E in E2. injection E2 as <-. cbn [met snd] in B1, B2, B3. rewrite As in B1.
  pose proof Hn as (_ & Ha & Hd & Hc & _).
  assert (sys_server (link_system n') = sys_server (link_system n)) as Hsrv.
  { rewrite C2, B1. by apply count_back. }
  assert (sys_acceptor_open (link_system (admitted n)) = sys_acceptor_open (link_system n) ∧
    sys_chain (link_system (admitted n)) = sys_chain (link_system n)) as [A2 A3].
  { unfold admitted, accept_client. by destruct (_ >=? _). }
  split; [|split; [done|]].
  - split; [done|]. unfold accepting. rewrite Hsrv, C3, C4, B2, B3, A2, A3. split; [exact Ha|].
    do 2 (split; [done|]). rewrite C5. apply Hon.
  - unfold held, remote. by rewrite C5.
Qed.

(** The frame around a command. *)
Definition finished (r : outcome Z) t n : outcome Z * (Terminal * Link fetch S) :=
  match r with
  | Exn what => (Val 1, (put_err (line ("Error: " +:+ what)) (put_out farewell t), n))
  | _ => (r, (put_out farewell t, n))
  end.

(** A command that the server's undefined behaviour cut off. *)
Definition severed {A} (r : outcome A * (Terminal * (DatabaseClient * Link fetch S))) : Prop :=
  (∃ why, r.1 = UB why) ∧ dangling r.2.2.2.

Lemma severed_bind {A B} (m : M _ A) (k : A → M _ B) s : severed (m s) → severed ((a ← m; k a) s).
Proof.
  intros [[why E] Hd]. unfold mbind, M_bind. destruct (m s) as [o s']. cbn in E, Hd. subst o. split; [by exists why|done].
Qed.

Lemma severed_try {A} (m : M _ A) h s : severed (m s) → severed (try_catch m h s).
Proof.
  intros [[why E] Hd]. unfold try_catch. destruct (m s) as [o s']. cbn in E, Hd. subst o. split; [by exists why|done].
Qed.

Lemma severed_client {A} (m : M (DatabaseClient * Link fetch S) A) t st :
  cut_off (m st) → severed (on_client m (t, st)).
Proof.
  intros [[why E] Hd]. unfold on_client, zoom. cbn [snd fst]. destruct (m st) as [o st']. cbn in E, Hd. subst o.
  split; [by exists why|done].
Qed.

Lemma client_main_command prog host port p args t n :
  args ≠ [] → read_port port = Ok p →
  client_main (prog :: host :: port :: args) (t, n) =
    try_catch (with_client host p (run_command (prog :: host :: port :: args)))
      (λ what, complain ("Error: " +:+ what);; mret 1) (t, n).
Proof.
  intros Hargs Hport. unfold client_main.
  rewrite (proj2 (Z.ltb_ge _ _)) by (autorewrite with db_len; destruct args; [done|];
    autorewrite with db_len; pose proof (zlen_nonneg args); lia).
  cbn [nth]. by rewrite Hport.
Qed.

Lemma client_main_runs prog host port p args t n r t' st' n' :
  args ≠ [] → read_port port = Ok p →
  run_command (prog :: host :: port :: args) (t, (DatabaseClient_new host p, n)) = (r, (t', st')) →
  (∀ why, r ≠ UB why) → online st' → sock_close st'.2 = (Val tt, n') →
  client_main (prog :: host :: port :: args) (t, n) = finished r t' n'.
Proof.
  intros Hargs Hport Hrun Hr Hon Hn'. rewrite (client_main_command _ _ _ p) by done.
  unfold try_catch, with_client. rewrite Hrun.
  destruct (delete_aloud_link t' st' Hon) as (n2 & E2 & E). rewrite Hn' in E2. injection E2 as <-. rewrite E.
  destruct r as [c|what|why]; [done|done|by destruct (Hr why)].
Qed.

Lemma client_main_severed prog host port p args t n :
  args ≠ [] → read_port port = Ok p →
  severed (run_command (prog :: host :: port :: args) (t, (DatabaseClient_new host p, n))) →
  ∃ why t' n', client_main (prog :: host :: port :: args) (t, n) = (UB why, (t', n')) ∧ dangling n'.
Proof.
  intros Hargs Hport [[why E] Hd]. rewrite (client_main_command _ _ _ p) by done.
  unfold try_catch, with_client. destruct (run_command _ _) as [o [t' [cl n']]]. cbn in E, Hd. subst o.
  by exists why, t', n'.
Qed.

(** *** The benchmark *)

Lemma slen_to_string i : 0 <= i <= INT_MAX → slen (to_string i) <= 10.
Proof.
  intros Hi. destruct (to_string_digits i ltac:(lia)) as (_ & _ & _ & Hk).
  specialize (Hk 10%nat ltac:(lia)). unfold slen, INT_MAX in *. lia.
Qed.

Lemma benchmark_fits i :
  0 <= i <= INT_MAX →
  slen (benchmark_key i) <= MAX_KEY_SIZE ∧
  slen (benchmark_key i) + slen (benchmark_value i) <= MAX_MESSAGE_SIZE - 13 ∧
  slen (benchmark_value i) <= MAX_MESSAGE_SIZE - 13.
Proof.
  intros Hi%slen_to_string. unfold benchmark_key, benchmark_value. rewrite !slen_app.
  unfold MAX_KEY_SIZE, MAX_MESSAGE_SIZE, slen in *. cbn. lia.
Qed.

Lemma attempt_ok {A} what_failed (m : M (DatabaseClient * Link fetch S) A) t st a st' :
  m st = (Val a, st') → attempt what_failed m (t, st) = (Val true, (t, st')).
Proof. intros E. unfold attempt, try_catch, on_client, zoom, mbind, M_bind. cbn. by rewrite E. Qed.

Lemma attempt_severed {A} what_failed (m : M (DatabaseClient * Link fetch S) A) t st :
  cut_off (m st) → severed (attempt what_failed m (t, st)).
Proof. intros H. by apply severed_try, severed_bind, severed_client. Qed.

Lemma stays_trans st1 st2 st3 : stays st1 st2 → stays st2 st3 → stays st1 st3.
Proof. intros [_ H1] [H2 H3]. split; [done|]. by eapply same_server_trans. Qed.

Lemma stays_refl st : online st → stays st st.
Proof. by split. Qed.

Lemma put_loop_online rounds i t st :
  online st → 0 <= i → i + Z.of_nat rounds <= INT_MAX + 1 →
  (∃ st', put_loop rounds i (t, st) = (Val tt, (t, st')) ∧ stays st st' ∧
    remote st' = after_puts (remote st)
                   ((λ j, (benchmark_key j, benchmark_value j)) <$> seqZ i (Z.of_nat rounds))) ∨
  severed (put_loop rounds i (t, st)).
Proof.
  revert i st. induction rounds as [|rounds IH]; intros i st Hon Hi Hmax.
  { left. exists st. rewrite seqZ_nil by lia. split; [done|]. split; [by apply stays_refl|done]. }
  destruct (benchmark_fits i ltac:(lia)) as (Hk & Hkv & _). cbn [put_loop].
  destruct (put_online st _ _ Hon Hk Hkv) as [(st1 & E1 & Hst1 & Hr1)|Hcut];
    [|right; by apply severed_bind, attempt_severed].
  unfold mbind, M_bind. rewrite (attempt_ok _ _ _ _ _ _ E1).
  destruct (IH (i + 1) st1 (proj1 Hst1) ltac:(lia) ltac:(lia)) as [(st2 & E2 & Hst2 & Hr2)|Hcut]; [left|by right].
  exists st2. split; [exact E2|]. split; [by eapply stays_trans|]. rewrite Hr2, Hr1, (seqZ_cons i) by lia.
  by replace (Z.pred (Z.of_nat (Datatypes.S rounds))) with (Z.of_nat rounds) by lia.
Qed.

Lemma get_loop_online rounds i t st :
  online st → 0 <= i → i + Z.of_nat rounds <= INT_MAX + 1 →
  (∀ j, i <= j < i + Z.of_nat rounds → remote st !! benchmark_key j = Some (benchmark_value j)) →
  (∃ st', get_loop rounds i (t, st) = (Val tt, (t, st')) ∧ stays st st' ∧ remote st' = remote st) ∨
  severed (get_loop rounds i (t, st)).
Proof.
  revert i st. induction rounds as [|rounds IH]; intros i st Hon Hi Hmax Hhas.
  { left. exists st. split; [done|]. split; [by apply stays_refl|done]. }
  destruct (benchmark_fits i ltac:(lia)) as (Hk & _ & Hv). cbn [get_loop].
  pose proof (Hhas i ltac:(lia)) as Hget.
  destruct (get_online st (benchmark_key i) Hon Hk) as [(st1 & E1 & Hst1 & Hr1)|Hcut];
    [by rewrite Hget| |right; by apply severed_bind, attempt_severed].
  rewrite Hget in E1. unfold mbind, M_bind. rewrite (attempt_ok _ _ _ _ _ _ E1).
  destruct (IH (i + 1) st1 (proj1 Hst1) ltac:(lia) ltac:(lia)) as [(st2 & E2 & Hst2 & Hr2)|Hcut]; [|left|by right].
  { intros j Hj. rewrite Hr1. apply Hhas. lia. }
  exists st2. split; [exact E2|]. split; [by eapply stays_trans|]. by rewrite Hr2.
Qed.

Lemma after_puts_other m pairs k : k ∉ pairs.*1 → after_puts m pairs !! k = m !! k.
Proof.
  revert m. induction pairs as [|[k' v'] pairs IH]; intros m Hk; [done|].
  cbn in *. apply not_elem_of_cons in Hk as [? ?]. rewrite IH by done. by apply lookup_insert_ne.
Qed.

Lemma after_puts_lookup m pairs k v :
  NoDup pairs.*1 → (k, v) ∈ pairs → after_puts m pairs !! k = Some v.
Proof.
  revert m. induction pairs as [|[k' v'] pairs IH]; intros m Hnd Hin; [by apply elem_of_nil in Hin|].
  cbn in *. apply NoDup_cons in Hnd as [Hk' Hnd]. apply elem_of_cons in Hin as [[= -> ->]|Hin].
  - rewrite after_puts_other by done. apply lookup_insert_eq.
  - by apply IH.
Qed.

#[global] Instance benchmark_key_inj : Inj (=) (=) benchmark_key.
Proof. intros i j E. by apply (inj (String.append _)), (inj to_string) in E. Qed.

Lemma benchmark_pairs_nodup (num : Z) : NoDup (benchmark_pairs num).*1.
Proof.
  unfold benchmark_pairs. rewrite <- list_fmap_compose.
  rewrite (list_fmap_ext _ benchmark_key) by done. apply (NoDup_fmap_2 _), NoDup_seqZ.
Qed.

Lemma benchmark_lookup m (num i : Z) :
  0 <= i < num → after_puts m (benchmark_pairs num) !! benchmark_key i = Some (benchmark_value i).
Proof.
  intros Hi. apply after_puts_lookup; [apply benchmark_pairs_nodup|].
  apply list_elem_of_fmap. exists i. split; [done|]. apply elem_of_seqZ. lia.
Qed.

Lemma run_benchmark_online num t st :
  online st → is_int num →
  (∃ writes reads t' st', run_benchmark num (t, st) = (Val tt, (t', st')) ∧ stays st st' ∧
    remote st' = after_puts (remote st) (benchmark_pairs num) ∧ cerr t' = cerr t ∧
    cout t' = cout t +:+
      line ("Running benchmark with " +:+ to_string num +:+ " operations...") +:+
      line ("Write performance: " +:+ writes +:+ " ops/sec") +:+
      line ("Read performance: " +:+ reads +:+ " ops/sec")) ∨
  severed (run_benchmark num (t, st)).
Proof.
  intros Hon Hnum. set (out := put_out (line ("Running benchmark with " +:+ to_string num +:+ " operations...")) t).
  assert (run_benchmark num (t, st) = (put_loop (Z.to_nat num) 0;; get_loop (Z.to_nat num) 0;;
    say_rate "Write performance: ";; say_rate "Read performance: ") (out, st)) as Hrun by done.
  rewrite Hrun. clear Hrun.
  destruct (put_loop_online (Z.to_nat num) 0 out st Hon ltac:(lia)) as [(st1 & E1 & Hst1 & Hr1)|Hcut];
    [unfold is_int, INT_MIN, INT_MAX in *; lia| |right; by apply severed_bind].
  assert (remote st1 = after_puts (remote st) (benchmark_pairs num)) as Hr1'.
  { rewrite Hr1. unfold benchmark_pairs. destruct (decide (0 <= num)).
    - by rewrite Z2Nat.id by lia.
    - by rewrite !seqZ_nil by lia. }
  match goal with |- context [(put_loop _ _ ≫= ?k) (out, st)] =>
    assert ((put_loop (Z.to_nat num) 0 ≫= k) (out, st) = k tt (out, st1)) as ->
      by (unfold mbind at 1, M_bind at 1; by rewrite E1) end.
  destruct (get_loop_online (Z.to_nat num) 0 out st1 (proj1 Hst1) ltac:(lia)) as [(st2 & E2 & Hst2 & Hr2)|Hcut];
    [unfold is_int, INT_MIN, INT_MAX in *; lia|intros j Hj; rewrite Hr1'; apply benchmark_lookup; lia|
     |right; exact (severed_bind (get_loop _ _) _ _ Hcut)].
  left. eexists (rate t (rates_printed t)), (rate t (1 + rates_printed t)%nat), _, st2.
  split; [|split; [by eapply stays_trans|split; [by rewrite Hr2|]]].
  - unfold mbind at 1, M_bind at 1. rewrite E2.
    unfold say_rate, say, mbind, M_bind, gets, modify. cbn [fst rate rates_printed put_out next_rate].
    reflexivity.
  - cbn [cout cerr put_out next_rate]. split; [done|]. subst out. cbn [cout put_out].
    by rewrite !string_app_assoc.
Qed.

(** *** The commands *)

(** How a command that was run after [connect] ended, and what it left. *)
Record command_ran st (args : list string) t (r : outcome Z) t' st' : Prop := {
  cr_stays : stays st st';
  cr_effect : ∃ code out err,
    cli_effect (remote st) args code out err (remote st') ∧ cout t' = cout t +:+ out ∧
    match r with
    | Val c => code = c ∧ cerr t' = cerr t +:+ err
    | Exn what => code = 1 ∧ cerr t' = cerr t ∧ err = line ("Error: " +:+ what)
    | UB _ => False
    end;
}.

Definition ran st (args : list string) t (r : outcome Z * (Terminal * (DatabaseClient * Link fetch S))) : Prop :=
  (∃ o t' st', r = (o, (t', st')) ∧ command_ran st args t o t' st') ∨ severed r.

(** A command that printed one line, or threw. *)
Lemma ran_line args t st st' s :
  stays st st' → cli_effect (remote st) args 0 (line s) "" (remote st') →
  ran st args t (Val 0, (put_out (line s) t, st')).
Proof.
  intros Hst He. left. do 3 eexists. split; [done|]. split; [done|]. exists 0, (line s), "". split; [done|].
  split; [done|]. split; [done|]. by rewrite string_app_nil_r.
Qed.

Lemma ran_throw args t st st' what :
  stays st st' → cli_effect (remote st) args 1 "" (line ("Error: " +:+ what)) (remote st') →
  ran st args t (Exn what, (t, st')).
Proof.
  intros Hst He. left. do 3 eexists. split; [done|]. split; [done|]. exists 1, "", (line ("Error: " +:+ what)).
  split; [done|]. split; [by rewrite string_app_nil_r|done].
Qed.

Lemma on_client_run {A B} (m : M (DatabaseClient * Link fetch S) A) (k : A → M _ B) t st r st' :
  m st = (r, st') →
  (a ← on_client m; k a) (t, st) =
  match r with
  | Val a => k a (t, st')
  | Exn what => (Exn what, (t, st'))
  | UB why => (UB why, (t, st'))
  end.
Proof. intros E. unfold on_client, zoom, mbind, M_bind. cbn. rewrite E. by destruct r. Qed.

(** A command that is one call of the client, which may be cut off. *)
Lemma ran_cut {A} (m : M (DatabaseClient * Link fetch S) A) k args t st :
  cut_off (m st) → ran st args t ((a ← on_client m; k a) (t, st)).
Proof. intros H. right. by apply severed_bind, severed_client. Qed.

Lemma print_results_run (results : list (string * string)) t st :
  print_results results (t, st) = (Val tt, (put_out (results_text results) t, st)).
Proof.
  revert t. induction results as [|[k v] results IH]; intros t.
  - cbn. unfold mret, M_ret, put_out. rewrite string_app_nil_r. by destruct t.
  - cbn [print_results]. unfold mbind, M_bind. cbn [say modify]. rewrite IH. unfold put_out. cbn.
    by rewrite string_app_assoc.
Qed.
End Against.

(** Decides the guards of [dispatch] for known arguments. *)
Ltac dispatched :=
  unfold dispatch; cbn [nth];
  repeat first
    [ rewrite (bool_decide_eq_true_2 (_ = _)) by done
    | rewrite (bool_decide_eq_false_2 (_ = _)) by done ];
  cbn [andb];
  rewrite ?(proj2 (Z.geb_le _ _)) by
    (autorewrite with db_len; repeat match goal with |- context [zlen ?l] =>
       lazymatch goal with
       | _ : 0 <= zlen l |- _ => fail
       | _ => pose proof (zlen_nonneg l)
       end end; lia).

Section Commands.
Context {S T : Type} `{!Database S T} `{!DatabaseContract S T} {fetch : nat → nat → nat → nat}.
Implicit Types (t : Terminal) (st : DatabaseClient * Link fetch S) (prog host port k v : string)
  (rest args : list string).

Lemma dispatch_get prog host port k rest t st :
  online st → cli_fits (remote st) ("get" :: k :: rest) →
  ran st ("get" :: k :: rest) t (dispatch (prog :: host :: port :: "get" :: k :: rest) (t, st)).
Proof.
  intros Hon Hf. destruct Hf as (Hf & _). destruct (Hf k rest eq_refl) as [Hk Hv]. dispatched.
  destruct (get_online st k Hon Hk Hv) as [(st' & E & Hst & Hr)|Hcut]; [|by apply ran_cut].
  rewrite (on_client_run _ _ _ _ _ _ E).
  destruct (remote st !! k) as [[|c v]|] eqn:Hm.
  - apply ran_throw; [done|]. rewrite Hr. constructor. by rewrite Hm.
  - apply ran_line; [done|]. rewrite Hr. by constructor.
  - apply ran_throw; [done|]. rewrite Hr. constructor. by rewrite Hm.
Qed.

Lemma dispatch_put prog host port k v rest t st :
  online st → cli_fits (remote st) ("put" :: k :: v :: rest) →
  ran st ("put" :: k :: v :: rest) t (dispatch (prog :: host :: port :: "put" :: k :: v :: rest) (t, st)).
Proof.
  intros Hon Hf. destruct Hf as (_ & Hf & _). destruct (Hf k v rest eq_refl) as [Hk Hv]. dispatched.
  destruct (put_online st k v Hon Hk Hv) as [(st' & E & Hst & Hr)|Hcut]; [|by apply ran_cut].
  rewrite (on_client_run _ _ _ _ _ _ E). apply ran_line; [done|]. rewrite Hr. constructor.
Qed.

Lemma dispatch_del prog host port k rest t st :
  online st → cli_fits (remote st) ("del" :: k :: rest) →
  ran st ("del" :: k :: rest) t (dispatch (prog :: host :: port :: "del" :: k :: rest) (t, st)).
Proof.
  intros Hon Hf. destruct Hf as (_ & _ & Hf & _). specialize (Hf k rest eq_refl). dispatched.
  destruct (del_online st k Hon Hf) as [(st' & E & Hst & Hr)|Hcut]; [|by apply ran_cut].
  rewrite (on_client_run _ _ _ _ _ _ E). apply ran_line; [done|]. rewrite Hr. constructor.
Qed.

Lemma dispatch_scan prog host port a b rest t st :
  online st → cli_fits (remote st) ("scan" :: a :: b :: rest) →
  ran st ("scan" :: a :: b :: rest) t (dispatch (prog :: host :: port :: "scan" :: a :: b :: rest) (t, st)).
Proof.
  intros Hon Hf. destruct Hf as (_ & _ & _ & Hf). destruct (Hf a b rest eq_refl) as (Ha & Hb & Hq & Hs). dispatched.
  destruct (scan_online st a b 1000 Hon Ha Hb Hq Hs) as [(st' & answer & E & Hans & Hst & Hr)|Hcut];
    [|right; by apply severed_try, severed_bind, severed_client].
  assert (length answer <= 1000)%nat as Hlen.
  { destruct Hans as (order & _ & ->). rewrite length_take. lia. }
  rewrite take_ge in E by lia.
  unfold try_catch. rewrite (on_client_run _ _ _ _ _ _ E). unfold mbind, M_bind. cbn [say modify].
  rewrite print_results_run. left. eexists _, _, _. split; [done|]. split; [done|].
  eexists 0, _, "". rewrite Hr. split; [by constructor|]. split; [|by rewrite string_app_nil_r].
  cbn [cout put_out]. by rewrite string_app_assoc.
Qed.

Lemma dispatch_ping prog host port rest t st :
  online st → ran st ("ping" :: rest) t (dispatch (prog :: host :: port :: "ping" :: rest) (t, st)).
Proof.
  intros Hon. dispatched. destruct (ping_online st Hon) as [(st' & E & Hst & Hr)|Hcut]; [|by apply ran_cut].
  rewrite (on_client_run _ _ _ _ _ _ E). apply ran_line; [done|]. rewrite Hr. constructor.
Qed.

Lemma dispatch_benchmark prog host port arg rest t st :
  online st → ran st ("benchmark" :: arg :: rest) t (dispatch (prog :: host :: port :: "benchmark" :: arg :: rest) (t, st)).
Proof.
  intros Hon. dispatched. destruct (stoi arg) as [num|what] eqn:Harg.
  - assert (is_int num) as Hnum.
    { destruct (stoi_ok_numeral _ _ Harg) as [z Hz%stoi_numeral]. rewrite Harg in Hz.
      case_bool_decide; [|done]. by injection Hz as ->. }
    unfold of_result. unfold mbind at 1, M_bind at 1. unfold mret at 1, M_ret at 1.
    destruct (run_benchmark_online num t st Hon Hnum)
      as [(writes & reads & t' & st' & E & Hst & Hr & Herr & Hout)|Hcut]; [left|right; by apply severed_bind].
    exists (Val 0), t', st'. unfold mbind, M_bind. rewrite E.
    split; [done|]. split; [done|]. eexists 0, _, "". split; [rewrite Hr; by constructor|].
    split; [exact Hout|]. by rewrite string_app_nil_r.
  - apply ran_throw; [by apply stays_refl|]. by constructor.
Qed.

(** Guards of [dispatch] that do not hold. *)
Lemma guard_false (command name : string) (argc bound : Z) :
  (command = name → argc < bound) → bool_decide (command = name) && (argc >=? bound) = false.
Proof.
  intros H. case_bool_decide; [|done]. cbn. rewrite Z.geb_leb. apply Z.leb_gt. by apply H.
Qed.

Lemma dispatch_usage prog host port args t st :
  recognised args = false → args ≠ [] → online st →
  ran st args t (dispatch (prog :: host :: port :: args) (t, st)).
Proof.
  intros Hrec Hne Hon. destruct args as [|command args]; [done|]. clear Hne. left.
  exists (Val 1), (put_out usage_text t), st. split.
  - pose proof Hrec as H. unfold recognised in H. apply orb_false_iff in H as [H H3].
    apply orb_false_iff in H as [H1 H2]. apply bool_decide_eq_false_1 in H1.
    assert (∀ name, name ∈ ["get"; "del"; "benchmark"] → command = name →
      zlen (prog :: host :: port :: command :: args) < 5) as Hone.
    { intros name Hin ->. rewrite bool_decide_eq_true_2 in H2 by done.
      apply Nat.leb_gt in H2. unfold zlen. cbn. lia. }
    assert (∀ name, name ∈ ["put"; "scan"] → command = name →
      zlen (prog :: host :: port :: command :: args) < 6) as Htwo.
    { intros name Hin ->. rewrite bool_decide_eq_true_2 in H3 by done.
      apply Nat.leb_gt in H3. unfold zlen. cbn. lia. }
    unfold dispatch. cbn [nth]. rewrite (bool_decide_eq_false_2 _ H1).
    rewrite !guard_false; [done|..]; [apply Hone|apply Htwo|apply Hone|apply Htwo|apply Hone]; set_solver.
  - split; [by apply stays_refl|]. exists 1, usage_text, "". split; [by constructor|]. split; [done|].
    split; [done|]. by rewrite string_app_nil_r.
Qed.

(** Every command line that has a command. *)
Lemma dispatch_ran prog host port args t st :
  args ≠ [] → online st → cli_fits (remote st) args →
  ran st args t (dispatch (prog :: host :: port :: args) (t, st)).
Proof.
  intros Hne Hon Hf. destruct (recognised args) eqn:Hrec; [|by apply dispatch_usage].
  destruct args as [|command args]; [done|]. unfold recognised in Hrec.
  apply orb_true_iff in Hrec as [[H|H]%orb_true_iff|H].
  - apply bool_decide_eq_true_1 in H as ->. by apply dispatch_ping.
  - apply andb_true_iff in H as [H%bool_decide_eq_true_1 H1%Nat.leb_le].
    destruct args as [|x args]; [cbn in H1; lia|].
    rewrite !elem_of_cons, elem_of_nil in H. destruct H as [->|[->|[->|[]]]].
    + by apply dispatch_get.
    + by apply dispatch_del.
    + by apply dispatch_benchmark.
  - apply andb_true_iff in H as [H%bool_decide_eq_true_1 H1%Nat.leb_le].
    destruct args as [|x [|y args]]; [cbn in H1; lia..|].
    rewrite !elem_of_cons, elem_of_nil in H. destruct H as [->|[->|[]]].
    + by apply dispatch_put.
    + by apply dispatch_scan.
Qed.
End Commands.

(** ** Theorems *)


(** How the client program can end, with any arguments and whatever the network does: with
    exit status 0 or 1, or by the exception of [std::stoi] for the port, which no handler
    catches; nothing else escapes, and the parsing of a scan result always ends.  With an
    unreadable port, or with too few arguments, nothing is sent. *)
Theorem client_main_exits {N : Type} `{!Socket N} (argv : list string) (t : Terminal) (n : N) :
  socket_safe N →
  match client_main argv (t, n) with
  | (Val code, (t', n')) =>
      exit_status code ∧ (zlen argv < 4 → code = 1 ∧ t' = put_out usage_text t ∧ n' = n)
  | (Exn what, (t', n')) =>
      4 <= zlen argv ∧ stoi (nth 2 argv "") = Throw what ∧ t' = t ∧ n' = n
  | (UB _, _) => False
  end.
Proof.
  intros Hsafe. unfold client_main. zcase; [by split; [right|]|].
  unfold read_port. destruct (stoi (nth 2 argv "")) as [z|what] eqn:E; [|done].
  unfold of_result, mbind, M_bind, mret, M_ret.
  assert (ends exit_status (λ _, False)
    (try_catch (with_client (nth 1 argv "") (u16 z) (run_command argv))
      (λ what, complain ("Error: " +:+ what);; mret 1))) as H0.
  { eapply ends_try; [apply (with_client_ends Hsafe), (run_command_ends Hsafe)|].
    unfold complain. ends. by right. }
  specialize (H0 (t, n)). destruct (try_catch _ _ (t, n)) as [[code|what|why] [t' n']]; [|done..].
  split; [exact H0|lia].
Qed.

(** ** Witnesses *)

Definition demo_terminal : Terminal := mkTerminal "" "" (λ _, "1000") 0.


(** A socket with a script: whether it is open, and the bytes it has yet to deliver. *)
#[export] Instance Script_socket : Socket (bool * list Byte.byte) := {|
  sock_is_open := fst;
  sock_connect host port := modify (λ n, (true, n.2));
  sock_close := modify (λ n, (false, n.2));
  sock_write bytes := mret tt;
  sock_read count := λ n,
    if (count <=? length n.2)%nat then (Val (take count n.2), (n.1, drop count n.2))
    else (Exn "End of file", n);
|}.

Lemma Script_socket_safe : socket_safe (bool * list Byte.byte).
Proof.
  split; intros; try by intros s. intros [o bytes]. cbn. by destruct (n <=? length bytes)%nat.
Qed.

(** The server hangs up: exit status 1. *)
Lemma client_main_exits_witness :
  match client_main ["client"; "localhost"; "8080"; "ping"] (demo_terminal, (false, [])) with
  | (Val code, _) => exit_status code ∧ code = 1
  | _ => False
  end.
Proof.
  pose proof (client_main_exits ["client"; "localhost"; "8080"; "ping"] demo_terminal (false, [])
    Script_socket_safe) as H.
  remember (client_main ["client"; "localhost"; "8080"; "ping"] (demo_terminal, (false, []))) as r eqn:E.
  vm_compute in E. subst r. split; [exact (proj1 H)|reflexivity].
Defined.
