(* ===== verification/BenchmarkMain.v ===== *)
(** * The concurrent benchmark

    [src/benchmark_main.cpp]: a number of threads, each with a client of its own that puts a
    key, gets it back and compares, and two counters that they share.  The threads interleave
    at their calls and at their accesses to the counters; what a client's calls do to the
    network, which the threads also share, is a parameter.  Then the same against the server of
    [System.v], which the clients reach through their sockets ([EndToEnd.v]). *)

From Stdlib Require Import Ascii.
From stdpp Require Import base gmap list strings relations.
From Stdlib Require Import ZArith Lia.
From S2P Require Import Prelude.
From S2P Require Import Protocol.
From S2P Require Import Effects.
From S2P Require Import Interface.
From S2P Require Import Wal.
From S2P Require Import Database.
From S2P Require Import Server.
From S2P Require Import Connection.
From S2P Require Import Client.
From S2P Require Import Acceptor.
From S2P Require Import System.
From S2P Require Import EndToEnd.
From S2P Require Import Stoi.
From S2P Require Import ClientMain.

(** Where a thread is: before [connect]; in round [j] before [put], before [get], before the
    comparison, before [total_operations++]; before the client's destructor; done. *)
Inductive Phase :=
  | Starting
  | Putting (j : Z)
  | Getting (j : Z)
  | Comparing (j : Z) (retrieved : string)
  | Counting (j : Z)
  | Leaving
  | Finished.

#[global] Instance Phase_eq_dec : EqDecision Phase.
Proof. solve_decision. Defined.

(** What the threads share: the two [std::atomic<int>], and the network. *)
Record Shared (E : Type) := mkShared {
  total_operations : Z;
  successful_operations : Z;
  network : E;
}.
Arguments mkShared {E}.
Arguments total_operations {E}.
Arguments successful_operations {E}.
Arguments network {E}.

Record Bench (E : Type) := mkBench {
  bench_threads : list (Phase * DatabaseClient);
  bench_shared : Shared E;
}.
Arguments mkBench {E}.
Arguments bench_threads {E}.
Arguments bench_shared {E}.

Definition thread_key (i : nat) (j : Z) : string :=
  "client_" +:+ to_string (Z.of_nat i) +:+ "_key_" +:+ to_string j.
Definition thread_value (i : nat) (j : Z) : string :=
  "client_" +:+ to_string (Z.of_nat i) +:+ "_value_" +:+ to_string j.

(** What [main] makes of its arguments: the usage with exit status 1, or the parameters of
    [run_concurrent_benchmark].  The exceptions of [std::stoi] are not caught. *)
Definition benchmark_main (argv : list string) : result (option (string * Z * Z * Z)) :=
  if negb (zlen argv =? 5) then Ok None else
  match read_port (nth 2 argv ""), stoi (nth 3 argv ""), stoi (nth 4 argv "") with
  | Throw what, _, _ | Ok _, Throw what, _ | Ok _, Ok _, Throw what => Throw what
  | Ok port, Ok num_clients, Ok operations_per_client =>
      Ok (Some (nth 1 argv "", port, num_clients, operations_per_client))
  end.

Section Threads.
(** The socket of the [i]-th client, as a part of the network. *)
Context {E N : Type} `{!Socket N} (view : nat → E → N) (update : nat → N → E → E).
(** [operations_per_client]. *)
Context (ops : Z).

Abbreviation ThreadM := (M (DatabaseClient * Shared E)).

Definition on_net {A} (i : nat) (m : M (DatabaseClient * N) A) : ThreadM A :=
  zoom (λ '(cl, sh), (cl, view i (network sh)))
    (λ '(cl, n) '(_, sh), (cl, mkShared (total_operations sh) (successful_operations sh)
                                 (update i n (network sh)))) m.

Definition bump_total : ThreadM unit := modify (λ '(cl, sh),
  (cl, mkShared (i32 (total_operations sh + 1)) (successful_operations sh) (network sh))).
Definition bump_successful : ThreadM unit := modify (λ '(cl, sh),
  (cl, mkShared (total_operations sh) (i32 (successful_operations sh + 1)) (network sh))).

(** The head of the [for] loop. *)
Definition next_round (j : Z) : Phase := if j <? ops then Putting j else Leaving.

(** What the [i]-th thread does next. *)
Definition thread_step (i : nat) (phase : Phase) : ThreadM Phase :=
  match phase with
  | Starting =>
      try_catch
        (connected ← on_net i client_connect;
         mret (if connected : bool then next_round 0 else Leaving))
        (λ _, mret Leaving)
  | Putting j =>
      try_catch
        (_ ← on_net i (client_put (thread_key i j) (thread_value i j));
         mret (Getting j))
        (λ _, mret (next_round (j + 1)))
  | Getting j =>
      try_catch
        (retrieved ← on_net i (client_get (thread_key i j));
         mret (Comparing j retrieved))
        (λ _, mret (next_round (j + 1)))
  | Comparing j retrieved =>
      (if bool_decide (retrieved = thread_value i j) then bump_successful else mret tt);;
      mret (Counting j)
  | Counting j => bump_total;; mret (next_round (j + 1))
  | Leaving => on_net i DatabaseClient_delete;; mret Finished
  | Finished => mret Finished
  end.

(** Any thread that is not done moves. *)
Inductive bench_step : Bench E → Bench E → Prop :=
  | thread_moves i phase cl threads sh phase' cl' sh' :
      threads !! i = Some (phase, cl) → phase ≠ Finished →
      thread_step i phase (cl, sh) = (Val phase', (cl', sh')) →
      bench_step (mkBench threads sh) (mkBench (<[i := (phase', cl')]> threads) sh').

(** The same as a function: the threads move in the order of a list. *)
Definition bench_move (i : nat) (b : Bench E) : option (Bench E) :=
  match bench_threads b !! i with
  | Some (phase, cl) =>
      if decide (phase = Finished) then None else
      match thread_step i phase (cl, bench_shared b) with
      | (Val phase', (cl', sh')) => Some (mkBench (<[i := (phase', cl')]> (bench_threads b)) sh')
      | _ => None
      end
  | None => None
  end.

Fixpoint schedule (order : list nat) (b : Bench E) : option (Bench E) :=
  match order with
  | [] => Some b
  | i :: order => match bench_move i b with Some b' => schedule order b' | None => None end
  end.

(** [run_concurrent_benchmark] when its threads are made. *)
Definition bench_start (host : string) (port num_clients : Z) (e : E) : Bench E :=
  mkBench (replicate (Z.to_nat num_clients) (Starting, DatabaseClient_new host port))
    (mkShared 0 0 e).

(** What [run_concurrent_benchmark] prints before it makes the threads, and after it has joined
    them; the duration and the two figures computed in floating point are given. *)
Definition bench_announcement (num_clients : Z) : string :=
  line ("Running concurrent benchmark with " +:+ to_string num_clients +:+ " clients, " +:+
        to_string ops +:+ " operations each...").

Definition bench_report (duration throughput success_rate : string) (b : Bench E) : string :=
  line "" +:+ line "=== Concurrent Benchmark Results ===" +:+
  line ("Total operations: " +:+ to_string (total_operations (bench_shared b))) +:+
  line ("Successful operations: " +:+ to_string (successful_operations (bench_shared b))) +:+
  line ("Duration: " +:+ duration +:+ " ms") +:+
  line ("Throughput: " +:+ throughput +:+ " ops/sec") +:+
  line ("Success rate: " +:+ success_rate +:+ "%").

(** Every [join] returns. *)
Definition joined (b : Bench E) : Prop := Forall (λ th, th.1 = Finished) (bench_threads b).

(** ** Lemmas *)

Lemma bench_move_step i (b b' : Bench E) : bench_move i b = Some b' → bench_step b b'.
Proof.
  destruct b as [threads sh]. unfold bench_move. cbn [bench_threads bench_shared].
  destruct (threads !! i) as [[phase cl]|] eqn:Hi; [|done]. destruct (decide _) as [|Hne]; [done|].
  destruct (thread_step i phase (cl, sh)) as [[phase'|what|why] [cl' sh']] eqn:E0; [|done..].
  intros [= <-]. by eapply thread_moves.
Qed.

Lemma schedule_steps order (b b' : Bench E) :
  schedule order b = Some b' → nsteps bench_step (length order) b b'.
Proof.
  revert b. induction order as [|i order IH]; intros b; cbn; [intros [= ->]; constructor|].
  destruct (bench_move i b) as [b1|] eqn:E0; [|done]. intros H.
  eapply nsteps_l; [by eapply bench_move_step|by apply IH].
Qed.

(** How a step moves a thread, and whether it counts a total and a success. *)
Inductive moves : Phase → bool → bool → Phase → Prop :=
  | mv_connected : moves Starting false false (next_round 0)
  | mv_refused : moves Starting false false Leaving
  | mv_put j : moves (Putting j) false false (Getting j)
  | mv_put_failed j : moves (Putting j) false false (next_round (j + 1))
  | mv_get j retrieved : moves (Getting j) false false (Comparing j retrieved)
  | mv_get_failed j : moves (Getting j) false false (next_round (j + 1))
  | mv_compared j retrieved success : moves (Comparing j retrieved) false success (Counting j)
  | mv_counted j : moves (Counting j) true false (next_round (j + 1))
  | mv_left : moves Leaving false false Finished.

Definition plus_one (b : bool) (z : Z) : Z := if b then i32 (z + 1) else z.

Lemma thread_step_moves i phase cl (sh : Shared E) phase' st' :
  thread_step i phase (cl, sh) = (Val phase', st') → phase ≠ Finished →
  ∃ total success, moves phase total success phase' ∧
    total_operations st'.2 = plus_one total (total_operations sh) ∧
    successful_operations st'.2 = plus_one success (successful_operations sh).
Proof.
  intros E0 Hne. destruct phase as [|j|j|j r|j| |]; [..|done]; revert E0;
    cbn [thread_step]; unfold try_catch, on_net, zoom, mbind, M_bind, mret, M_ret.
  - destruct (client_connect _) as [[[]|what|why] [cl1 n1]]; intros [= <- <-];
      exists false, false; by repeat constructor.
  - destruct (client_put _ _ _) as [[a|what|why] [cl1 n1]]; intros [= <- <-];
      exists false, false; by repeat constructor.
  - destruct (client_get _ _) as [[a|what|why] [cl1 n1]]; intros [= <- <-];
      exists false, false; by repeat constructor.
  - case_bool_decide; intros [= <- <-]; [exists false, true|exists false, false]; by repeat constructor.
  - intros [= <- <-]. exists true, false. by repeat constructor.
  - destruct (DatabaseClient_delete _) as [[a|what|why] [cl1 n1]]; intros [= <- <-].
    exists false, false. by repeat constructor.
Qed.

(** Within a round, [j] is one of the rounds. *)
Definition phase_ok (phase : Phase) : Prop :=
  match phase with
  | Putting j | Getting j | Comparing j _ | Counting j => 0 <= j < ops
  | _ => True
  end.

(** The rounds that are not counted yet. *)
Definition rounds_left (phase : Phase) : nat :=
  match phase with
  | Starting => Z.to_nat ops
  | Putting j | Getting j | Comparing j _ | Counting j => Z.to_nat (ops - j)
  | Leaving | Finished => 0
  end.

(** A success that is not in the total yet. *)
Definition uncounted (phase : Phase) : nat :=
  match phase with Counting _ => 1 | _ => 0 end.

(** More steps than a thread can still make. *)
Definition steps_left (phase : Phase) : nat :=
  match phase with
  | Starting => 4 * Z.to_nat ops + 2
  | Putting j => 4 * Z.to_nat (ops - j) + 1
  | Getting j => 4 * Z.to_nat (ops - j)
  | Comparing j _ => 4 * Z.to_nat (ops - j) - 1
  | Counting j => 4 * Z.to_nat (ops - j) - 2
  | Leaving => 1
  | Finished => 0
  end.

Lemma next_round_ok j :
  0 <= j → phase_ok (next_round j) ∧ rounds_left (next_round j) = Z.to_nat (ops - j) ∧
  uncounted (next_round j) = 0%nat ∧ steps_left (next_round j) = (4 * Z.to_nat (ops - j) + 1)%nat.
Proof. intros Hj. unfold next_round. zcase; cbn; split_and!; lia. Qed.

Lemma moves_ok phase total success phase' :
  phase_ok phase → moves phase total success phase' →
  phase_ok phase' ∧ (steps_left phase' < steps_left phase)%nat ∧
  (rounds_left phase' + Nat.b2n total <= rounds_left phase)%nat ∧
  (uncounted phase + Nat.b2n success <= uncounted phase' + Nat.b2n total)%nat ∧
  (uncounted phase <= rounds_left phase)%nat.
Proof.
  intros Hok H. destruct H; cbn [phase_ok] in Hok;
    try match goal with |- context [next_round ?j] =>
      destruct (next_round_ok j ltac:(lia)) as (? & -> & -> & ->) end;
    try destruct success; cbn; split_and!; try done; lia.
Qed.

Lemma uncounted_le phase : phase_ok phase → (uncounted phase <= rounds_left phase)%nat.
Proof. destruct phase; cbn; lia. Qed.

(** Sums over the threads. *)
Definition sum_of (f : Phase → nat) (b : Bench E) : nat :=
  sum_list_with (λ th, f th.1) (bench_threads b).

(** [limit] bounds the number of operations. *)
Record bench_inv (limit : nat) (b : Bench E) : Prop := {
  bi_phases : Forall (λ th, phase_ok th.1) (bench_threads b);
  bi_total : 0 <= total_operations (bench_shared b);
  bi_successful : 0 <= successful_operations (bench_shared b)
                  <= total_operations (bench_shared b) + Z.of_nat (sum_of uncounted b);
  bi_limit : total_operations (bench_shared b) + Z.of_nat (sum_of rounds_left b) <= Z.of_nat limit;
}.

Lemma sum_of_le f g (threads : list (Phase * DatabaseClient)) sh :
  Forall (λ th, f th.1 <= g th.1)%nat threads →
  (sum_of f (mkBench threads sh) <= sum_of g (mkBench threads sh))%nat.
Proof. unfold sum_of. cbn. induction 1; cbn; lia. Qed.

Lemma bench_step_moves (b b' : Bench E) :
  bench_step b b' →
  ∃ i phase cl phase' cl' total success,
    bench_threads b !! i = Some (phase, cl) ∧
    bench_threads b' = <[i := (phase', cl')]> (bench_threads b) ∧ moves phase total success phase' ∧
    total_operations (bench_shared b') = plus_one total (total_operations (bench_shared b)) ∧
    successful_operations (bench_shared b')
      = plus_one success (successful_operations (bench_shared b)).
Proof.
  intros [i phase cl threads sh phase' cl' sh' Hi Hne Hstep].
  destruct (thread_step_moves _ _ _ _ _ _ Hstep Hne) as (total & success & Hm & Ht & Hs).
  by exists i, phase, cl, phase', cl', total, success.
Qed.

Lemma sum_of_insert f (b b' : Bench E) i phase cl phase' cl' :
  bench_threads b !! i = Some (phase, cl) →
  bench_threads b' = <[i := (phase', cl')]> (bench_threads b) →
  (sum_of f b' + f phase = sum_of f b + f phase')%nat.
Proof.
  intros Hi Hb. unfold sum_of. rewrite Hb.
  exact (sum_list_with_insert (λ th : Phase * DatabaseClient, f th.1) _ _ _ (phase', cl') Hi).
Qed.

Lemma bench_step_inv limit (b b' : Bench E) :
  Z.of_nat limit <= INT_MAX → bench_inv limit b → bench_step b b' →
  bench_inv limit b' ∧ (sum_of steps_left b' < sum_of steps_left b)%nat.
Proof.
  intros Hlimit [H1 H2 H3 H4] Hstep.
  destruct (bench_step_moves b b' Hstep)
    as (i & phase & cl & phase' & cl' & total & success & Hi & Hb & Hm & Ht & Hs).
  pose proof (Forall_lookup_1 _ _ _ _ H1 Hi) as Hok. cbn in Hok.
  destruct (moves_ok _ _ _ _ Hok Hm) as (Hok' & Hleft & Hrounds & Hun & _).
  pose proof (sum_of_insert rounds_left _ _ _ _ _ _ _ Hi Hb) as S1.
  pose proof (sum_of_insert uncounted _ _ _ _ _ _ _ Hi Hb) as S2.
  pose proof (sum_of_insert steps_left _ _ _ _ _ _ _ Hi Hb) as S3.
  assert (Forall (λ th, phase_ok th.1) (bench_threads b')) as H1'.
  { rewrite Hb. by apply Forall_insert. }
  assert (sum_of uncounted b' <= sum_of rounds_left b')%nat as S4.
  { destruct b'. apply sum_of_le. eapply Forall_impl; [exact H1'|]. intros th. apply uncounted_le. }
  split; [|lia]. unfold INT_MAX in Hlimit.
  assert (total_operations (bench_shared b') = total_operations (bench_shared b) + Z.of_nat (Nat.b2n total)) as Ht'.
  { rewrite Ht. destruct total; cbn in *; [|lia]. rewrite i32_small; lia. }
  assert (successful_operations (bench_shared b') = successful_operations (bench_shared b) + Z.of_nat (Nat.b2n success)) as Hs'.
  { rewrite Hs. destruct success; cbn in *; [|lia]. rewrite i32_small; lia. }
  split; [done|lia..].
Qed.

Lemma bench_steps_inv limit (b b' : Bench E) n :
  Z.of_nat limit <= INT_MAX → bench_inv limit b → nsteps bench_step n b b' →
  bench_inv limit b' ∧ (n + sum_of steps_left b' <= sum_of steps_left b)%nat.
Proof.
  intros Hlimit Hi H. induction H as [|n b b1 b' H1 _ IH]; [done|].
  destruct (bench_step_inv limit b b1 Hlimit Hi H1) as [Hi1 ?].
  destruct (IH Hi1). split; [done|lia].
Qed.

Lemma bench_start_inv host port num (e : E) :
  bench_inv (Z.to_nat num * Z.to_nat ops) (bench_start host port num e) ∧
  sum_of steps_left (bench_start host port num e) = (Z.to_nat num * (4 * Z.to_nat ops + 2))%nat.
Proof.
  assert (∀ f : Phase → nat, sum_of f (bench_start host port num e) = (Z.to_nat num * f Starting)%nat) as Hsum.
  { intros f. unfold sum_of, bench_start. cbn [bench_threads].
    induction (Z.to_nat num) as [|k IH]; [done|]. cbn. rewrite IH. lia. }
  split; [|apply Hsum]. split; rewrite ?Hsum; [by apply Forall_replicate|..];
    cbn [bench_start bench_shared total_operations successful_operations rounds_left]; lia.
Qed.

Lemma joined_sums (b : Bench E) :
  joined b → sum_of rounds_left b = 0%nat ∧ sum_of uncounted b = 0%nat.
Proof.
  unfold joined, sum_of. induction 1 as [|th threads Hth _ [IH1 IH2]]; [done|].
  cbn. by rewrite Hth, IH1, IH2.
Qed.

(** A thread that is not done can move, when the network does no worse than throw. *)
Lemma thread_can_move i phase cl (sh : Shared E) :
  socket_safe N → ∃ phase' st', thread_step i phase (cl, sh) = (Val phase', st').
Proof.
  intros Hsafe. assert (ends (λ _, True) (λ _, False) (thread_step i phase)) as H.
  { unfold thread_step, on_net, bump_total, bump_successful.
    destruct phase; ends; try (eapply (ends_try _ (λ _, True)); ends).
    - eapply ends_try; [|ends]. unfold on_socket, cl_modify. ends. apply (ss_connect N Hsafe).
    - apply (client_put_tame Hsafe).
    - apply (client_get_tame Hsafe).
    - apply (disconnect_tame Hsafe). }
  specialize (H (cl, sh)). destruct (thread_step i phase (cl, sh)) as [[phase'|what|why] st']; [|done..].
  by exists phase', st'.
Qed.

Lemma joined_or_steps (b : Bench E) : socket_safe N → joined b ∨ ∃ b', bench_step b b'.
Proof.
  intros Hsafe. destruct b as [threads sh].
  destruct (decide (Forall (λ th : Phase * DatabaseClient, th.1 = Finished) threads)) as [H|H]; [by left|].
  right. apply not_Forall_Exists in H; [|apply _]. apply Exists_exists in H as ([phase cl] & Hin & Hne).
  apply list_elem_of_lookup in Hin as [i Hi].
  destruct (thread_can_move i phase cl sh Hsafe) as (phase' & [cl' sh'] & E0).
  eexists. by eapply thread_moves.
Qed.
End Threads.

(** ** Keys *)

(** Digits before a character that is none. *)
Lemma digits_inj (a b r r' : string) (c : Ascii.ascii) :
  all_chars is_digit a = true → all_chars is_digit b = true → is_digit c = false →
  a +:+ String c r = b +:+ String c r' → a = b ∧ r = r'.
Proof.
  intros Ha Hb Hc. revert b Hb. induction a as [|x a IH]; intros [|y b] Hb E.
  - by injection E.
  - injection E as -> _. rewrite all_chars_cons, Hc in Hb. done.
  - injection E as -> _. rewrite all_chars_cons, Hc in Ha. done.
  - rewrite all_chars_cons in Ha, Hb. apply andb_true_iff in Ha as [_ Ha], Hb as [_ Hb].
    rewrite !string_app_cons in E. injection E as -> E. destruct (IH Ha b Hb E) as [-> ->]. done.
Qed.

Lemma thread_key_inj i j i' j' : thread_key i j = thread_key i' j' → i = i' ∧ j = j'.
Proof.
  intros E. apply (inj (String.append _)) in E.
  destruct (to_string_digits (Z.of_nat i) ltac:(lia)) as (_ & H1 & _).
  destruct (to_string_digits (Z.of_nat i') ltac:(lia)) as (_ & H2 & _).
  change ("_key_" +:+ ?s) with (String "_"%char ("key_" +:+ s)) in E.
  apply digits_inj in E as [Hi Hj]; [|done..].
  apply (inj to_string) in Hi. apply (inj (String.append _)), (inj to_string) in Hj.
  split; [lia|done].
Qed.

(** ** The benchmark against the server *)

(** The network: the server, and each client's socket. *)
Record Hub (S : Type) := mkHub {
  hub_system : System S;
  hub_sockets : list ClientSocket;
}.
Arguments mkHub {S}.
Arguments hub_system {S}.
Arguments hub_sockets {S}.

Definition closed_socket : ClientSocket := mkClientSocket false None 0.

Section Served.
Context {S T : Type} `{!Database S T} `{!DatabaseContract S T} (fetch : nat → nat → nat → nat).
Implicit Types (hub : Hub S) (sh : Shared (Hub S)) (n : Link fetch S) (cl : DatabaseClient).

Definition hub_socket (i : nat) hub : ClientSocket := default closed_socket (hub_sockets hub !! i).

Definition hub_view (i : nat) hub : Link fetch S := mkLink (hub_system hub) (hub_socket i hub).

Definition hub_update (i : nat) n hub : Hub S :=
  mkHub (link_system n) (<[i := link_socket n]> (hub_sockets hub)).

(** The clients before they connect. *)
Definition hub_start (num : Z) (sys : System S) : Hub S := mkHub sys (replicate (Z.to_nat num) closed_socket).

Context (ops : Z) (Hops : ops <= INT_MAX).

Definition hub_step : Bench (Hub S) → Bench (Hub S) → Prop := bench_step hub_view hub_update ops.

(** The threads whose client is connected. *)
Definition linked (phase : Phase) : bool := match phase with Starting | Finished => false | _ => true end.

(** What a thread finds at its end of the connection. *)
Definition link_state (phase : Phase) (st : DatabaseClient * Link fetch S) : Prop :=
  match phase with
  | Starting => cs_open (link_socket st.2) = false
  | Finished => True
  | _ => online st
  end.

Lemma linked_state phase st : linked phase = true → link_state phase st ↔ online st.
Proof. by destruct phase. Qed.

(** The rounds whose value is in the database. *)
Definition written (phase : Phase) : Z :=
  match phase with
  | Starting => 0
  | Putting j => j
  | Getting j | Comparing j _ | Counting j => j + 1
  | Leaving | Finished => Z.max 0 ops
  end.

Definition has_written (m : gmap string string) (i : nat) (phase : Phase) : Prop :=
  ∀ j, 0 <= j < written phase → m !! thread_key i j = Some (thread_value i j).

(** A comparison is with the value that was put. *)
Definition retrieved_ok (i : nat) (phase : Phase) : Prop :=
  match phase with Comparing j retrieved => retrieved = thread_value i j | _ => True end.

Definition hub_count hub : Z := connection_count_ (sys_server (hub_system hub)).
Definition hub_contents hub : gmap string string := contents (sys_store (hub_system hub)).

(** What a step of client [i], which was connected before or not, and is then or not, does to
    the network: nothing to the other clients. *)
Record hub_moves (i : nat) (before after : bool) hub hub' : Prop := {
  hm_sockets : ∀ k, k ≠ i → hub_socket k hub' = hub_socket k hub;
  hm_length : length (hub_sockets hub') = length (hub_sockets hub);
  hm_ok : db_ok (sys_store (hub_system hub'));
  hm_accepting : accepting (hub_system hub') = accepting (hub_system hub);
  hm_database : srv_database_ (sys_server (hub_system hub')) = srv_database_ (sys_server (hub_system hub));
  hm_count : hub_count hub' + Z.of_nat (Nat.b2n before) = hub_count hub + Z.of_nat (Nat.b2n after);
  hm_peers : ∀ j, (j < length (sys_peers (hub_system hub)))%nat →
    (before = true → cs_peer (hub_socket i hub) ≠ Some j) →
    sys_peers (hub_system hub') !! j = sys_peers (hub_system hub) !! j;
  hm_peer : after = true → cs_peer (hub_socket i hub') =
    if before then cs_peer (hub_socket i hub) else Some (length (sys_peers (hub_system hub)));
}.

Lemma socket_update i n hub : (i < length (hub_sockets hub))%nat → hub_socket i (hub_update i n hub) = link_socket n.
Proof. intros Hi. unfold hub_socket. cbn. by rewrite list_lookup_insert_eq. Qed.

Lemma socket_other i k n hub : k ≠ i → hub_socket k (hub_update i n hub) = hub_socket k hub.
Proof. intros Hi. unfold hub_socket. cbn. by rewrite list_lookup_insert_ne. Qed.

Lemma view_update i n hub : (i < length (hub_sockets hub))%nat → hub_view i (hub_update i n hub) = n.
Proof. intros Hi. unfold hub_view. rewrite socket_update by done. by destruct n. Qed.

Lemma accepting_same (sys sys' : System S) :
  running_ (sys_server sys') = running_ (sys_server sys) →
  sys_acceptor_open sys' = sys_acceptor_open sys → sys_chain sys' = sys_chain sys → accepting sys' = accepting sys.
Proof. unfold accepting. by intros -> -> ->. Qed.

Lemma hub_calls i cl cl' n' hub :
  (i < length (hub_sockets hub))%nat → stays (cl, hub_view i hub) (cl', n') →
  hub_moves i true true hub (hub_update i n' hub).
Proof.
  intros Hi [Hon (B1 & B2 & B3 & B4 & B5 & B6)]. cbn in B1, B2, B3, B4, B5, B6.
  split; unfold hub_count; cbn [hub_update hub_system hub_sockets].
  - intros k. apply socket_other.
  - apply length_insert.
  - apply Hon.
  - by apply accepting_same; rewrite ?B1.
  - by rewrite B1.
  - by rewrite B1.
  - intros j _ Hj. apply B6. by apply Hj.
  - intros _. by rewrite socket_update.
Qed.

Lemma hub_connects i hub :
  (i < length (hub_sockets hub))%nat → awaits (hub_view i hub) →
  hub_moves i false true hub (hub_update i (admitted (hub_view i hub)) hub).
Proof.
  intros Hi Hn. destruct (admitted_online (hub_view i hub) (set_connected true (DatabaseClient_new "" 0)) Hn eq_refl)
    as ((_ & _ & Hok & _) & Hsrv & _).
  pose proof Hn as (_ & _ & _ & Hc & _). cbn [hub_view link_system] in Hc, Hsrv.
  assert (sys_acceptor_open (link_system (admitted (hub_view i hub))) = sys_acceptor_open (hub_system hub) ∧
    sys_chain (link_system (admitted (hub_view i hub))) = sys_chain (hub_system hub)) as [A2 A3].
  { unfold admitted, accept_client. by destruct (_ >=? _). }
  split; unfold hub_count; cbn [hub_update hub_system hub_sockets].
  - intros k. apply socket_other.
  - apply length_insert.
  - exact Hok.
  - apply accepting_same; [by rewrite Hsrv|done..].
  - by rewrite Hsrv.
  - rewrite Hsrv. unfold with_client_count, set_connection_count. cbn [connection_count_ Nat.b2n].
    rewrite u32_count by lia. lia.
  - intros j Hj _. unfold admitted, accept_client. cbn [hub_view link_system].
    rewrite Z.geb_leb, (proj2 (Z.leb_gt _ _)) by lia. cbn. by apply lookup_app_l.
  - intros _. by rewrite socket_update.
Qed.

Lemma hub_closes i cl n' hub :
  (i < length (hub_sockets hub))%nat → online (cl, hub_view i hub) → 0 < hub_count hub <= MAX_CONNECTIONS →
  sock_close (hub_view i hub) = (Val tt, n') → hub_moves i true false hub (hub_update i n' hub).
Proof.
  intros Hi Hon Hc E. destruct (close_online cl (hub_view i hub) Hon) as (n2 & E2 & C1 & C2 & C3 & C4 & C5 & C6 & C7).
  rewrite E in E2. injection E2 as <-. cbn [hub_view link_system link_socket] in *.
  split; unfold hub_count in *; cbn [hub_update hub_system hub_sockets].
  - intros k. apply socket_other.
  - apply length_insert.
  - rewrite C5. apply Hon.
  - apply accepting_same; [by rewrite C2|done..].
  - by rewrite C2.
  - rewrite C2. unfold on_client_disconnect, set_connection_count. cbn [connection_count_ Nat.b2n].
    rewrite u32_count by lia. lia.
  - intros j _ Hj. apply C7. by apply Hj.
  - done.
Qed.

(** A step of a thread when everything works. *)
Record good_move (i : nat) (phase : Phase) sh (phase' : Phase) (cl' : DatabaseClient) sh' : Prop := {
  gm_counts : ∃ total success, moves ops phase total success phase' ∧
    (rounds_left ops phase' + Nat.b2n total = rounds_left ops phase)%nat ∧
    (uncounted phase + Nat.b2n success = uncounted phase' + Nat.b2n total)%nat ∧
    total_operations sh' = plus_one total (total_operations sh) ∧
    successful_operations sh' = plus_one success (successful_operations sh);
  gm_network : hub_moves i (linked phase) (linked phase') (network sh) (network sh');
  gm_link : link_state phase' (cl', hub_view i (network sh'));
  gm_retrieved : retrieved_ok i phase';
  gm_contents : hub_contents (network sh') = hub_contents (network sh) ∨
    ∃ j, 0 <= j < ops ∧ hub_contents (network sh')
                        = <[thread_key i j := thread_value i j]> (hub_contents (network sh));
  gm_written : has_written (hub_contents (network sh')) i phase';
}.

(** Its next call is cut off by the server's undefined behaviour. *)
Definition call_dangles (i : nat) (phase : Phase) cl sh : Prop :=
  ∃ why cl' sh', thread_step hub_view hub_update ops i phase (cl, sh) = (UB why, (cl', sh')) ∧
    dangling (hub_view i (network sh')).

Definition makes_good_move i phase cl sh : Prop :=
  ∃ phase' cl' sh', thread_step hub_view hub_update ops i phase (cl, sh) = (Val phase', (cl', sh')) ∧
    good_move i phase sh phase' cl' sh'.

Lemma on_net_run {A} i (m : M (DatabaseClient * Link fetch S) A) cl sh r cl' n' :
  m (cl, hub_view i (network sh)) = (r, (cl', n')) →
  on_net hub_view hub_update i m (cl, sh)
  = (r, (cl', mkShared (total_operations sh) (successful_operations sh) (hub_update i n' (network sh)))).
Proof. intros E. unfold on_net, zoom. by rewrite E. Qed.

Lemma call_cut {A} i (m : M (DatabaseClient * Link fetch S) A) (k : A → M _ Phase) h cl sh :
  (i < length (hub_sockets (network sh)))%nat → cut_off (m (cl, hub_view i (network sh))) →
  ∃ why cl' sh', try_catch (a ← on_net hub_view hub_update i m; k a) h (cl, sh) = (UB why, (cl', sh')) ∧
    dangling (hub_view i (network sh')).
Proof.
  intros Hi [[why Er] Hd]. destruct (m (cl, hub_view i (network sh))) as [r [cl' n']] eqn:E. cbn in Er, Hd. subst r.
  eexists why, cl', _. unfold try_catch, mbind, M_bind. rewrite (on_net_run _ _ _ _ _ _ _ E). split; [done|].
  cbn [network]. by rewrite view_update.
Qed.

Lemma thread_fits i j :
  Z.of_nat i <= INT_MAX → 0 <= j <= INT_MAX →
  slen (thread_key i j) <= MAX_KEY_SIZE ∧
  slen (thread_key i j) + slen (thread_value i j) <= MAX_MESSAGE_SIZE - 13 ∧
  slen (thread_value i j) <= MAX_MESSAGE_SIZE - 13.
Proof.
  intros Hi Hj%slen_to_string. assert (slen (to_string (Z.of_nat i)) <= 10) as Hi' by (apply slen_to_string; lia).
  unfold thread_key, thread_value. rewrite !slen_app.
  unfold MAX_KEY_SIZE, MAX_MESSAGE_SIZE, slen in *. cbn. lia.
Qed.

Lemma next_round_link j st : online st → link_state (next_round ops j) st.
Proof. unfold next_round. by zcase. Qed.

Lemma next_round_linked j : linked (next_round ops j) = true.
Proof. unfold next_round. by zcase. Qed.

Lemma next_round_written m i j :
  0 <= j → (j <= ops ∨ j = 0) → (∀ k, 0 <= k < j → m !! thread_key i k = Some (thread_value i k)) →
  has_written m i (next_round ops j).
Proof.
  intros Hj Hle H k Hk. apply H. unfold next_round in Hk.
  destruct (Z.ltb_spec j ops); cbn in Hk; lia.
Qed.

(** A good move by a call on the client. *)
Lemma good_call i phase sh phase' cl' n' :
  (i < length (hub_sockets (network sh)))%nat →
  moves ops phase false false phase' →
  rounds_left ops phase' = rounds_left ops phase → uncounted phase = uncounted phase' →
  hub_moves i (linked phase) (linked phase') (network sh) (hub_update i n' (network sh)) →
  link_state phase' (cl', n') → retrieved_ok i phase' →
  (contents (sys_store (link_system n')) = hub_contents (network sh) ∨
   ∃ j, 0 <= j < ops ∧ contents (sys_store (link_system n'))
                       = <[thread_key i j := thread_value i j]> (hub_contents (network sh))) →
  has_written (contents (sys_store (link_system n'))) i phase' →
  good_move i phase sh phase' cl'
    (mkShared (total_operations sh) (successful_operations sh) (hub_update i n' (network sh))).
Proof.
  intros Hlen Hm Hr Hu Hnet Hlink Hret Hc Hw. split; cbn [network]; try done.
  - exists false, false. cbn. split_and!; done || lia.
  - by rewrite view_update.
Qed.

Lemma good_put i j cl sh :
  Z.of_nat i <= INT_MAX → (i < length (hub_sockets (network sh)))%nat →
  phase_ok ops (Putting j) → online (cl, hub_view i (network sh)) →
  has_written (hub_contents (network sh)) i (Putting j) →
  makes_good_move i (Putting j) cl sh ∨ call_dangles i (Putting j) cl sh.
Proof.
  intros Hi Hlen Hok Hlink Hw. cbn [phase_ok] in Hok.
  destruct (thread_fits i j ltac:(lia) ltac:(lia)) as (Hk & Hkv & _).
  destruct (put_online _ (thread_key i j) (thread_value i j) Hlink Hk Hkv) as [([cl' n'] & E & Hst & Hr)|Hcut];
    [left|right; by apply call_cut].
  exists (Getting j), cl'. eexists. split.
  { cbn [thread_step]. unfold try_catch, mbind, M_bind. by rewrite (on_net_run _ _ _ _ _ _ _ E). }
  unfold remote in Hr. cbn [snd] in Hr.
  change (contents (sys_store (link_system (hub_view _ _)))) with (hub_contents (network sh)) in Hr.
  apply good_call; try done; try (by constructor); try by left.
  - by eapply hub_calls.
  - apply Hst.
  - right. by exists j.
  - intros k Hk'. rewrite Hr. destruct (decide (k = j)) as [->|]; [apply lookup_insert_eq|].
    rewrite lookup_insert_ne by (by intros [_ ?]%thread_key_inj). apply Hw. cbn in *. lia.
Qed.

Lemma good_get i j cl sh :
  Z.of_nat i <= INT_MAX → (i < length (hub_sockets (network sh)))%nat →
  phase_ok ops (Getting j) → online (cl, hub_view i (network sh)) →
  has_written (hub_contents (network sh)) i (Getting j) →
  makes_good_move i (Getting j) cl sh ∨ call_dangles i (Getting j) cl sh.
Proof.
  intros Hi Hlen Hok Hlink Hw. cbn [phase_ok] in Hok.
  destruct (thread_fits i j ltac:(lia) ltac:(lia)) as (Hk & _ & Hv).
  pose proof (Hw j ltac:(cbn; lia)) as Hget.
  change (hub_contents (network sh)) with (remote (cl, hub_view i (network sh))) in Hget.
  destruct (get_online _ (thread_key i j) Hlink Hk) as [([cl' n'] & E & Hst & Hr)|Hcut];
    [by rewrite Hget|left|right; by apply call_cut].
  rewrite Hget in E. exists (Comparing j (thread_value i j)), cl'. eexists. split.
  { cbn [thread_step]. unfold try_catch, mbind, M_bind. by rewrite (on_net_run _ _ _ _ _ _ _ E). }
  unfold remote in Hr. cbn [snd] in Hr.
  change (contents (sys_store (link_system (hub_view _ _)))) with (hub_contents (network sh)) in Hr.
  apply good_call; try done; try (by constructor); try by left.
  - by eapply hub_calls.
  - apply Hst.
  - intros k Hk'. rewrite Hr. by apply Hw.
Qed.

(** A step that only counts. *)
Lemma hub_unmoved i b hub : db_ok (sys_store (hub_system hub)) → hub_moves i b b hub hub.
Proof.
  intros Hok. split; try done. by intros ->.
Qed.

(** What a thread that is to move relies on. *)
Record thread_ready (i : nat) (phase : Phase) cl sh : Prop := {
  tr_int : Z.of_nat i <= INT_MAX;
  tr_length : (i < length (hub_sockets (network sh)))%nat;
  tr_phase : phase_ok ops phase;
  tr_ok : db_ok (sys_store (hub_system (network sh)));
  tr_accepting : accepting (hub_system (network sh)) = true;
  tr_database : srv_database_ (sys_server (hub_system (network sh))) = true;
  tr_connect : linked phase = false → 0 <= hub_count (network sh) < MAX_CONNECTIONS;
  tr_leave : linked phase = true → 0 < hub_count (network sh) <= MAX_CONNECTIONS;
  tr_link : link_state phase (cl, hub_view i (network sh));
  tr_retrieved : retrieved_ok i phase;
  tr_written : has_written (hub_contents (network sh)) i phase;
}.

Lemma good_start i cl sh : thread_ready i Starting cl sh → makes_good_move i Starting cl sh.
Proof.
  intros [_ Hlen _ Hok Ha Hd Hc _ Hopen _ _].
  assert (awaits (hub_view i (network sh))) as Hn by (by split_and!; [..|apply Hc|apply Hc|]).
  destruct (admitted_online (hub_view i (network sh)) (set_connected true cl) Hn eq_refl) as (Hon & _ & Hr).
  assert (client_connect (cl, hub_view i (network sh))
    = (Val true, (set_connected true cl, admitted (hub_view i (network sh))))) as E.
  { unfold client_connect, on_socket, cl_modify, try_catch, zoom, mbind, M_bind, gets, modify. cbn [fst snd].
    by rewrite (connect_admitted (hub_view i (network sh)) _ _ Hn). }
  exists (next_round ops 0), (set_connected true cl). eexists. split.
  { cbn [thread_step]. unfold try_catch, mbind, M_bind. by rewrite (on_net_run _ _ _ _ _ _ _ E). }
  destruct (next_round_ok ops 0 ltac:(lia)) as (_ & Hrl & Hu & _).
  apply good_call; try done.
  - constructor.
  - rewrite Hrl. cbn. by rewrite Z.sub_0_r.
  - rewrite next_round_linked. by apply hub_connects.
  - by apply next_round_link.
  - unfold next_round. by zcase.
  - by left.
  - apply next_round_written; [lia|lia|]. intros k Hk. lia.
Qed.

Lemma good_leave i cl sh : thread_ready i Leaving cl sh → makes_good_move i Leaving cl sh.
Proof.
  intros [_ Hlen _ _ _ _ _ Hc Hon _ Hw]. cbn [link_state] in Hon.
  destruct (close_online cl (hub_view i (network sh)) Hon) as (n' & En & _ & _ & _ & _ & C5 & _).
  assert (DatabaseClient_delete (cl, hub_view i (network sh)) = (Val tt, (set_connected false cl, n'))) as E.
  { destruct Hon as (Hcl & Ho & _). cbn [fst snd] in Hcl, Ho.
    change (cs_open (link_socket (hub_view i (network sh)))) with (sock_is_open (hub_view i (network sh))) in Ho.
    unfold DatabaseClient_delete, client_disconnect, on_socket, cl_modify, get_state, zoom, mbind, M_bind, modify.
    cbn [fst snd]. rewrite Hcl, Ho. cbn [andb fst snd]. by rewrite En. }
  exists Finished, (set_connected false cl). eexists. split.
  { cbn [thread_step]. unfold mbind, M_bind. by rewrite (on_net_run _ _ _ _ _ _ _ E). }
  cbn [hub_view link_system] in C5.
  apply good_call; try done.
  - constructor.
  - eapply hub_closes; [done|exact Hon|by apply Hc|done].
  - left. unfold hub_contents. by rewrite C5.
  - rewrite C5. exact Hw.
Qed.

(** A thread that is not done makes a good move, or its next call is cut off. *)
Lemma good_thread i phase cl sh :
  phase ≠ Finished → thread_ready i phase cl sh →
  makes_good_move i phase cl sh ∨ call_dangles i phase cl sh.
Proof.
  intros Hne H. destruct phase as [|j|j|j rt|j| |]; [left; by apply good_start| | | | |left; by apply good_leave|done];
    destruct H as [Hi Hlen Hok Hdb _ _ _ _ Hlink Hret Hw]; cbn [phase_ok link_state] in Hok, Hlink.
  - by apply good_put.
  - by apply good_get.
  - left. cbn in Hret. subst rt. exists (Counting j), cl. eexists. split.
    { cbn [thread_step]. rewrite bool_decide_eq_true_2 by done. reflexivity. }
    split; cbn [network]; [|by apply hub_unmoved|done|done|by left|done].
    exists false, true. cbn. split_and!; try done; constructor.
  - left. exists (next_round ops (j + 1)), cl. eexists. split; [reflexivity|].
    destruct (next_round_ok ops (j + 1) ltac:(lia)) as (_ & Hr & Hu & _).
    split; cbn [network]; try done; try by left.
    + exists true, false. rewrite Hr, Hu. cbn. split_and!; try done; [constructor|lia].
    + rewrite next_round_linked. by apply hub_unmoved.
    + by apply next_round_link.
    + unfold next_round. by zcase.
    + apply next_round_written; [lia|lia|]. intros k Hk. apply Hw. cbn. lia.
Qed.

(** ** All threads together *)

(** What the others do leaves a thread's connection as it is. *)
Lemma link_state_other i k phase cl before after hub hub' :
  k ≠ i → hub_moves i before after hub hub' →
  (linked phase = true → before = true → cs_peer (hub_socket k hub) ≠ cs_peer (hub_socket i hub)) →
  link_state phase (cl, hub_view k hub) → link_state phase (cl, hub_view k hub').
Proof.
  intros Hk [H1 _ H3 _ _ _ H7 _] Hapart. specialize (H1 k Hk).
  destruct (linked phase) eqn:Hl; [|destruct phase; try done; cbn [link_state snd hub_view link_socket]; by rewrite H1].
  rewrite !(linked_state phase) by done. unfold online, hub_view. cbn [fst snd link_socket link_system].
  rewrite H1. intros (A1 & A2 & A3 & j & p & A4 & A5 & A6 & A7).
  split; [done|]. split; [done|]. split; [done|]. exists j, p. split; [done|]. split; [|done].
  rewrite H7; [done|by eapply lookup_lt_Some|]. intros Hb Hj. by apply (Hapart eq_refl Hb); rewrite A4.
Qed.

(** The connected threads. *)
Definition linked_count (b : Bench (Hub S)) : nat := sum_of (λ phase, Nat.b2n (linked phase)) b.

Lemma linked_bound (b : Bench (Hub S)) i phase cl :
  bench_threads b !! i = Some (phase, cl) →
  (linked_count b + Nat.b2n (negb (linked phase)) <= length (bench_threads b))%nat ∧
  (Nat.b2n (linked phase) <= linked_count b)%nat.
Proof.
  unfold linked_count, sum_of. revert i. induction (bench_threads b) as [|th threads IH]; intros i Hi; [done|].
  assert (sum_list_with (λ th : Phase * DatabaseClient, Nat.b2n (linked th.1)) threads <= length threads)%nat as Hle.
  { clear. induction threads as [|th threads IH]; [done|]. cbn. destruct (linked th.1); cbn; lia. }
  destruct i as [|i]; cbn in *.
  - injection Hi as ->. cbn. destruct (linked phase); cbn; lia.
  - destruct (IH i Hi). destruct (linked th.1); cbn; lia.
Qed.

Lemma joined_unlinked (b : Bench (Hub S)) : joined b → linked_count b = 0%nat.
Proof.
  unfold joined, linked_count, sum_of. induction 1 as [|th threads Hth _ IH]; [done|]. cbn. by rewrite Hth, IH.
Qed.

Record served_inv (m0 : gmap string string) (base : Z) (num : nat) (b : Bench (Hub S)) : Prop := {
  sv_threads : length (bench_threads b) = num;
  sv_sockets : length (hub_sockets (network (bench_shared b))) = num;
  sv_ok : db_ok (sys_store (hub_system (network (bench_shared b))));
  sv_accepting : accepting (hub_system (network (bench_shared b))) = true;
  sv_database : srv_database_ (sys_server (hub_system (network (bench_shared b)))) = true;
  sv_count : hub_count (network (bench_shared b)) = base + Z.of_nat (linked_count b);
  sv_apart : ∀ i k phase phase' cl cl', i ≠ k →
    bench_threads b !! i = Some (phase, cl) → bench_threads b !! k = Some (phase', cl') →
    linked phase = true → linked phase' = true →
    cs_peer (hub_socket i (network (bench_shared b))) ≠ cs_peer (hub_socket k (network (bench_shared b)));
  sv_each : ∀ i phase cl, bench_threads b !! i = Some (phase, cl) →
    phase_ok ops phase ∧ link_state phase (cl, hub_view i (network (bench_shared b))) ∧
    retrieved_ok i phase ∧ has_written (hub_contents (network (bench_shared b))) i phase;
  sv_positive : 0 <= total_operations (bench_shared b);
  sv_total : total_operations (bench_shared b) + Z.of_nat (sum_of (rounds_left ops) b)
             = Z.of_nat (num * Z.to_nat ops);
  sv_successful : successful_operations (bench_shared b)
                  = total_operations (bench_shared b) + Z.of_nat (sum_of uncounted b);
  sv_others : ∀ k, (∀ i j, (i < num)%nat → 0 <= j < ops → k ≠ thread_key i j) →
    hub_contents (network (bench_shared b)) !! k = m0 !! k;
}.

Lemma has_written_mono (m : gmap string string) k phase j i :
  has_written m k phase → has_written (<[thread_key i j := thread_value i j]> m) k phase.
Proof.
  intros H l Hl. destruct (decide (thread_key i j = thread_key k l)) as [E|Hne].
  - rewrite E. apply thread_key_inj in E as [-> ->]. apply lookup_insert_eq.
  - rewrite lookup_insert_ne by done. by apply H.
Qed.

(** The peer of a connected client is one of the server's connections. *)
Lemma linked_peer i phase cl hub :
  linked phase = true → link_state phase (cl, hub_view i hub) →
  ∃ j, cs_peer (hub_socket i hub) = Some j ∧ (j < length (sys_peers (hub_system hub)))%nat.
Proof.
  intros Hl. rewrite (linked_state phase) by done. intros (_ & _ & _ & j & p & Hj & Hp & _).
  exists j. split; [done|]. by eapply lookup_lt_Some.
Qed.

Lemma apart_kept m0 base num (b : Bench (Hub S)) i phase cl phase' cl' sh' :
  served_inv m0 base num b → bench_threads b !! i = Some (phase, cl) →
  hub_moves i (linked phase) (linked phase') (network (bench_shared b)) (network sh') →
  ∀ k ph c, k ≠ i → bench_threads b !! k = Some (ph, c) → linked phase' = true → linked ph = true →
    cs_peer (hub_socket i (network sh')) ≠ cs_peer (hub_socket k (network sh')).
Proof.
  intros Hinv Hi Hm k ph c Hk Hth Hl' Hl. rewrite (hm_peer _ _ _ _ _ Hm Hl'), (hm_sockets _ _ _ _ _ Hm k Hk).
  destruct (linked phase) eqn:Hb.
  - by eapply (sv_apart _ _ _ _ Hinv).
  - destruct (sv_each _ _ _ _ Hinv k ph c Hth) as (_ & Hlk & _).
    destruct (linked_peer k ph c _ Hl Hlk) as (j & -> & Hj). intros [= <-]. lia.
Qed.

Lemma served_step m0 base num (b : Bench (Hub S)) i phase cl phase' cl' sh' :
  Z.of_nat num <= INT_MAX → Z.of_nat (num * Z.to_nat ops) <= INT_MAX →
  served_inv m0 base num b → bench_threads b !! i = Some (phase, cl) →
  good_move i phase (bench_shared b) phase' cl' sh' →
  served_inv m0 base num (mkBench (<[i := (phase', cl')]> (bench_threads b)) sh').
Proof.
  intros Hnum Hlimit Hinv Hi [(total & success & Hm & Hr & Hu & Ht & Hs) Gn G5 G6 G7 G8].
  pose proof (apart_kept _ _ _ _ _ _ _ _ cl' _ Hinv Hi Gn) as Hapart.
  destruct Hinv as [H1 H2 H3 Ha Hd Hc Hap H4 H5 H6 H7 H8].
  destruct (H4 i phase cl Hi) as (Hok & _).
  pose proof (moves_ok ops _ _ _ _ Hok Hm) as (Hok' & _).
  set (b' := mkBench (<[i := (phase', cl')]> (bench_threads b)) sh').
  pose proof (sum_of_insert (rounds_left ops) b b' i phase cl phase' cl' Hi eq_refl) as S1.
  pose proof (sum_of_insert uncounted b b' i phase cl phase' cl' Hi eq_refl) as S2.
  pose proof (sum_of_insert (λ phase, Nat.b2n (linked phase)) b b' i phase cl phase' cl' Hi eq_refl) as S3.
  cbn beta in S3. fold (linked_count b') (linked_count b) in S3.
  assert (i < num)%nat as Hlt by (rewrite <- H1; by eapply lookup_lt_Some).
  assert (sum_of uncounted b' <= sum_of (rounds_left ops) b')%nat as S4.
  { apply sum_of_le. apply Forall_lookup. intros k [ph c] Hk. apply uncounted_le. cbn.
    destruct (decide (k = i)) as [->|Hne].
    - rewrite list_lookup_insert_eq in Hk by lia. by injection Hk as <- <-.
    - rewrite list_lookup_insert_ne in Hk by done. by destruct (H4 k ph c Hk). }
  unfold INT_MAX in Hlimit.
  assert (total_operations sh' = total_operations (bench_shared b) + Z.of_nat (Nat.b2n total)) as Ht'.
  { rewrite Ht. destruct total; cbn in *; [|lia]. rewrite i32_small; lia. }
  assert (successful_operations sh' = successful_operations (bench_shared b) + Z.of_nat (Nat.b2n success)) as Hs'.
  { rewrite Hs. destruct success; cbn in *; [|lia]. rewrite i32_small; lia. }
  split; cbn [bench_threads bench_shared b']; fold b'; try lia; try done.
  - by rewrite length_insert.
  - by rewrite (hm_length _ _ _ _ _ Gn).
  - apply Gn.
  - by rewrite (hm_accepting _ _ _ _ _ Gn).
  - by rewrite (hm_database _ _ _ _ _ Gn).
  - pose proof (hm_count _ _ _ _ _ Gn). lia.
  - intros k l ph ph' c c' Hkl Hk Hl Lk Ll.
    destruct (decide (k = i)) as [->|Hki]; [|destruct (decide (l = i)) as [->|Hli]].
    + rewrite list_lookup_insert_eq in Hk by lia. injection Hk as <- <-.
      rewrite list_lookup_insert_ne in Hl by done. by eapply Hapart.
    + rewrite list_lookup_insert_eq in Hl by lia. injection Hl as <- <-.
      rewrite list_lookup_insert_ne in Hk by done. apply not_eq_sym. by eapply Hapart.
    + rewrite list_lookup_insert_ne in Hk, Hl by done.
      rewrite !(hm_sockets _ _ _ _ _ Gn) by done. by eapply Hap.
  - intros k ph c Hk. destruct (decide (k = i)) as [->|Hne].
    + rewrite list_lookup_insert_eq in Hk by lia. by injection Hk as <- <-.
    + rewrite list_lookup_insert_ne in Hk by done. destruct (H4 k ph c Hk) as (A & B & C & D).
      split; [done|]. split; [|split; [done|]].
      * eapply link_state_other; [done|exact Gn| |done]. intros Lk Lb. by eapply Hap.
      * destruct G7 as [->|(j & _ & ->)]; [done|by apply has_written_mono].
  - intros k Hk. destruct G7 as [->|(j & Hj & ->)]; [by apply H8|].
    rewrite lookup_insert_ne; [by apply H8|]. symmetry. by apply Hk.
Qed.

Lemma served_ready m0 base num (b : Bench (Hub S)) i phase cl :
  Z.of_nat num <= INT_MAX → 0 <= base → base + Z.of_nat num <= MAX_CONNECTIONS → served_inv m0 base num b →
  bench_threads b !! i = Some (phase, cl) → thread_ready i phase cl (bench_shared b).
Proof.
  intros Hnum Hbase Hmax [H1 H2 H3 Ha Hd Hc _ H4 _ _ _ _] Hi. destruct (H4 i phase cl Hi) as (A & B & C & D).
  assert (i < num)%nat as Hlt by (rewrite <- H1; by eapply lookup_lt_Some).
  destruct (linked_bound b i phase cl Hi) as [L1 L2].
  split; try done; try lia; intros Hl; rewrite Hl in L1, L2; cbn in L1, L2; lia.
Qed.

Lemma served_progress m0 base num (b : Bench (Hub S)) i phase cl :
  Z.of_nat num <= INT_MAX → 0 <= base → base + Z.of_nat num <= MAX_CONNECTIONS → served_inv m0 base num b →
  bench_threads b !! i = Some (phase, cl) → phase ≠ Finished →
  makes_good_move i phase cl (bench_shared b) ∨ call_dangles i phase cl (bench_shared b).
Proof. intros Hnum Hbase Hmax Hinv Hi Hne. apply good_thread; [done|]. by eapply served_ready. Qed.

Lemma served_steps m0 base num (b b' : Bench (Hub S)) :
  Z.of_nat num <= INT_MAX → Z.of_nat (num * Z.to_nat ops) <= INT_MAX → 0 <= base →
  base + Z.of_nat num <= MAX_CONNECTIONS →
  served_inv m0 base num b → rtc hub_step b b' → served_inv m0 base num b'.
Proof.
  intros Hnum Hlimit Hbase Hmax Hinv H. induction H as [|b b1 b' H1 _ IH]; [done|]. apply IH. clear IH.
  destruct H1 as [i phase cl threads sh phase' cl' sh' Hi Hne Hstep].
  destruct (served_progress m0 base num (mkBench threads sh) i phase cl Hnum Hbase Hmax Hinv Hi Hne)
    as [(p1 & c1 & s1 & E & G)|(why & c1 & s1 & E & _)]; cbn [bench_shared] in E; rewrite Hstep in E; [|done].
  injection E as <- <- <-.
  exact (served_step m0 base num (mkBench threads sh) i phase cl phase' cl' sh' Hnum Hlimit Hinv Hi G).
Qed.

(** A server that can take clients. *)
Record takes_clients (num : Z) (sys : System S) : Prop := {
  tc_accepting : accepting sys = true;
  tc_database : srv_database_ (sys_server sys) = true;
  tc_count : 0 <= connection_count_ (sys_server sys);
  tc_limit : connection_count_ (sys_server sys) + Z.max 0 num <= MAX_CONNECTIONS;
  tc_ok : db_ok (sys_store sys);
}.

Lemma served_start host port num sys :
  takes_clients num sys →
  served_inv (contents (sys_store sys)) (connection_count_ (sys_server sys)) (Z.to_nat num)
    (bench_start host port num (hub_start num sys)).
Proof.
  intros [Ha Hd Hc Hl Hs].
  assert (∀ f : Phase → nat, sum_of f (bench_start host port num (hub_start num sys)) = (Z.to_nat num * f Starting)%nat) as Hsum.
  { intros f. unfold sum_of, bench_start. cbn [bench_threads].
    induction (Z.to_nat num) as [|k IH]; [done|]. cbn. rewrite IH. lia. }
  split; unfold linked_count; rewrite ?Hsum; unfold bench_start, hub_start; cbn [bench_threads bench_shared network hub_sockets hub_system]; try done.
  - apply length_replicate.
  - apply length_replicate.
  - unfold hub_count. cbn. lia.
  - by intros i k phase phase' cl cl' _ [[= -> ->] _]%lookup_replicate.
  - intros i phase cl [[= -> ->] Hi]%lookup_replicate. split; [done|]. split; [|split; [done|]].
    + cbn [link_state hub_view link_socket snd]. unfold hub_socket. cbn [hub_sockets].
      assert (replicate (Z.to_nat num) closed_socket !! i = Some closed_socket) as -> by (by apply lookup_replicate).
      done.
    + intros j Hj. cbn in Hj. lia.
  - cbn. lia.
Qed.
End Served.

(** ** Theorems *)

(** C29.  The concurrent benchmark ends, whatever the scheduler and the network do, as long as the
    network does no worse than throw: no interleaving has more than [4 * operations + 2] steps
    per client, and until every thread is joined some thread can move. *)
Theorem benchmark_terminates {E N : Type} `{!Socket N} (view : nat → E → N) (update : nat → N → E → E)
    (ops : Z) (host : string) (port num : Z) (e : E) (k : nat) (b : Bench E) :
  socket_safe N → Z.of_nat (Z.to_nat num * Z.to_nat ops) <= INT_MAX →
  nsteps (bench_step view update ops) k (bench_start host port num e) b →
  (k <= Z.to_nat num * (4 * Z.to_nat ops + 2))%nat ∧
  (joined b ∨ ∃ b', bench_step view update ops b b').
Proof.
  intros Hsafe Hlimit Hsteps. destruct (bench_start_inv ops host port num e) as [Hi Hsum].
  destruct (bench_steps_inv view update ops _ _ _ _ Hlimit Hi Hsteps) as [_ Hk].
  split; [lia|]. by apply joined_or_steps.
Qed.

(** The counters of the benchmark on any network: at every moment the successes are at most
    the operations counted plus the threads that are about to count one, and neither counter
    leaves the range of [int] when the number of operations is in it; when all threads are
    joined, [0 <= successful <= total <= clients * operations]. *)
Theorem benchmark_counters {E N : Type} `{!Socket N} (view : nat → E → N) (update : nat → N → E → E)
    (ops : Z) (host : string) (port num : Z) (e : E) (b : Bench E) :
  Z.of_nat (Z.to_nat num * Z.to_nat ops) <= INT_MAX →
  rtc (bench_step view update ops) (bench_start host port num e) b →
  let total := total_operations (bench_shared b) in
  let successful := successful_operations (bench_shared b) in
  0 <= successful <= total + Z.of_nat (sum_of uncounted b) ∧
  0 <= total <= Z.of_nat (Z.to_nat num * Z.to_nat ops) ∧
  (joined b → successful <= total).
Proof.
  intros Hlimit [k Hsteps]%rtc_nsteps. destruct (bench_start_inv ops host port num e) as [Hi _].
  destruct (bench_steps_inv view update ops _ _ _ _ Hlimit Hi Hsteps) as [[_ H1 H2 H3] _].
  cbn zeta. split; [done|]. split; [lia|]. intros Hj. destruct (joined_sums ops b Hj) as [_ Hu]. lia.
Qed.

(** C21.  The benchmark against the server, under any interleaving of the clients' calls: if the
    server accepts clients, and its connections and the benchmark's clients together are within
    the limit of connections, then until all threads are joined some thread can move, or its next
    call is cut off by the undefined behaviour of the server's write of a response that did not
    fetch all its bytes at its start; and when all are joined every operation has been counted as
    successful, every key of every client has its value, the other keys are as before, and so
    is the server's counter of connections. *)
Theorem benchmark_succeeds {S T : Type} `{!Database S T} `{!DatabaseContract S T}
    (fetch : nat → nat → nat → nat) (ops : Z) (host : string) (port num : Z) (sys : System S) (b : Bench (Hub S)) :
  is_int num → is_int ops → Z.of_nat (Z.to_nat num * Z.to_nat ops) <= INT_MAX → takes_clients num sys →
  rtc (hub_step fetch ops) (bench_start host port num (hub_start num sys)) b →
  (∃ b', hub_step fetch ops b b') ∨
  (∃ i phase cl, bench_threads b !! i = Some (phase, cl) ∧ call_dangles fetch ops i phase cl (bench_shared b)) ∨
  joined b ∧
  total_operations (bench_shared b) = Z.of_nat (Z.to_nat num * Z.to_nat ops) ∧
  successful_operations (bench_shared b) = Z.of_nat (Z.to_nat num * Z.to_nat ops) ∧
  (∀ i j, (i < Z.to_nat num)%nat → 0 <= j < ops →
     hub_contents (network (bench_shared b)) !! thread_key i j = Some (thread_value i j)) ∧
  (∀ k, (∀ i j, (i < Z.to_nat num)%nat → 0 <= j < ops → k ≠ thread_key i j) →
     hub_contents (network (bench_shared b)) !! k = contents (sys_store sys) !! k) ∧
  hub_count (network (bench_shared b)) = connection_count_ (sys_server sys).
Proof.
  intros Hnum Hops Hlimit Hsys Hsteps. unfold is_int, INT_MIN, INT_MAX in Hnum, Hops.
  assert (Z.of_nat (Z.to_nat num) <= INT_MAX) as Hnum' by (unfold INT_MAX; lia).
  pose proof (tc_count _ _ Hsys) as Hbase.
  assert (connection_count_ (sys_server sys) + Z.of_nat (Z.to_nat num) <= MAX_CONNECTIONS) as Hmax.
  { pose proof (tc_limit _ _ Hsys). lia. }
  pose proof (served_steps fetch ops (proj2 Hops) _ _ (Z.to_nat num) _ b Hnum' Hlimit Hbase Hmax
    (served_start fetch ops host port num sys Hsys) Hsteps) as Hinv.
  destruct (decide (Forall (λ th : Phase * DatabaseClient, th.1 = Finished) (bench_threads b))) as [Hj|Hj].
  - right. right. destruct Hinv as [H1 _ _ _ _ Hc _ H4 _ H6 H7 H8]. destruct (joined_sums ops b Hj) as [Hr Hu].
    split; [exact Hj|]. split; [lia|]. split; [lia|]. split; [|split; [exact H8|]].
    + intros i j Hi Hij. rewrite <- H1 in Hi. destruct (lookup_lt_is_Some_2 _ _ Hi) as [[phase cl] Hth].
      destruct (H4 i phase cl Hth) as (_ & _ & _ & Hw).
      pose proof (Forall_lookup_1 _ _ _ _ Hj Hth) as Hf. cbn in Hf. subst phase. apply Hw. cbn. lia.
    + rewrite Hc. rewrite (joined_unlinked b Hj). lia.
  - apply not_Forall_Exists in Hj; [|apply _]. apply Exists_exists in Hj as ([phase cl] & Hin & Hne).
    apply list_elem_of_lookup in Hin as [i Hi].
    destruct (served_progress fetch ops (proj2 Hops) _ _ _ b i phase cl Hnum' Hbase Hmax Hinv Hi Hne)
      as [(phase' & cl' & sh' & E & _)|Hcut]; [left|right; left; by exists i, phase, cl].
    destruct b as [threads sh]. eexists. by eapply thread_moves.
Qed.

(** ** Witnesses *)

(** Two clients with one operation each, taking turns until both are done. *)
Definition demo_bench : Bench (Hub Process) :=
  bench_start "localhost" 8080 2 (hub_start 2 (system_start demo_srv demo_process)).

Definition demo_order : list nat := concat (replicate 6 [0; 1]%nat).

Abbreviation demo_schedule := (schedule (hub_view eager_fetch) (hub_update eager_fetch) 1 demo_order demo_bench).

Lemma demo_run_ends :
  ∃ b, rtc (hub_step eager_fetch 1) demo_bench b ∧ (fst <$> bench_threads b) = [Finished; Finished].
Proof.
  assert ((λ b, fst <$> bench_threads b) <$> demo_schedule = Some [Finished; Finished]) as H by (vm_compute; reflexivity).
  destruct demo_schedule as [b|] eqn:Hrun; [|done].
  exists b. split; [|by injection H].
  apply rtc_nsteps. exists (length demo_order). exact (schedule_steps _ _ _ _ _ _ Hrun).
Qed.

(** No thread moves when all are done, and no call is cut off. *)
Lemma all_done b :
  (fst <$> bench_threads b) = [Finished; Finished] →
  ¬ (∃ b', hub_step (S := Process) eager_fetch 1 b b') ∧
  ¬ ∃ i phase cl, bench_threads b !! i = Some (phase, cl) ∧
      call_dangles (S := Process) eager_fetch 1 i phase cl (bench_shared b).
Proof.
  intros Hdone. split.
  - intros [b' Hb']. destruct Hb' as [i phase cl threads sh phase' cl' sh' Hi Hne _]. cbn in Hdone.
    apply (f_equal (λ l : list Phase, l !! i)) in Hdone. rewrite list_lookup_fmap, Hi in Hdone. cbn in Hdone.
    destruct i as [|[|i]]; cbn in Hdone; [congruence|congruence|]. by destruct i.
  - intros (i & phase & cl & _ & (why & cl' & sh' & _ & (k & p & _ & _ & _ & j & n & Hn))).
    unfold eager_fetch in Hn. lia.
Qed.

Lemma demo_strings : thread_key 1 0 = "client_1_key_0" ∧ thread_value 1 0 = "client_1_value_0".
Proof. split; vm_compute; reflexivity. Qed.

Lemma demo_takes_clients : takes_clients 2 (system_start demo_srv demo_process).
Proof. split; [reflexivity|reflexivity|by vm_compute|by vm_compute|exact demo_ok]. Qed.

Lemma benchmark_succeeds_witness :
  ∃ b : Bench (Hub Process), joined b ∧ total_operations (bench_shared b) = 2 ∧
    successful_operations (bench_shared b) = 2 ∧
    hub_contents (network (bench_shared b)) !! "client_1_key_0" = Some "client_1_value_0".
Proof.
  destruct demo_run_ends as (b & Hrun & Hdone). exists b. destruct (all_done b Hdone) as [Hn Hd].
  destruct (benchmark_succeeds eager_fetch 1 "localhost" 8080 2 (system_start demo_srv demo_process) b)
    as [Hb'|[Hcut|(Hj & Ht & Hs & Hw & _)]].
  - vm_compute. split; congruence.
  - vm_compute. split; congruence.
  - vm_compute. congruence.
  - exact demo_takes_clients.
  - exact Hrun.
  - destruct (Hn Hb').
  - destruct (Hd Hcut).
  - split; [exact Hj|]. split; [exact Ht|]. split; [exact Hs|].
    destruct demo_strings as [<- <-]. apply Hw; [apply Nat.lt_1_2|split; reflexivity || discriminate].
Defined.

(** Two clients whose server accepts and then hangs up. *)
Definition script_view (i : nat) (e : list (bool * list Byte.byte)) : bool * list Byte.byte :=
  nth i e (false, []).
Definition script_update (i : nat) (n : bool * list Byte.byte) (e : list (bool * list Byte.byte))
    : list (bool * list Byte.byte) := <[i := n]> e.

Definition script_bench : Bench (list (bool * list Byte.byte)) :=
  bench_start "localhost" 8080 2 [(false, []); (false, [])].

Lemma script_run_ends :
  ∃ b, schedule script_view script_update 1 [0; 0; 0; 1]%nat script_bench = Some b ∧
    (fst <$> bench_threads b) = [Finished; Putting 0].
Proof. eexists. split; vm_compute; reflexivity. Qed.

Lemma benchmark_terminates_witness :
  ∃ b, nsteps (bench_step script_view script_update 1) 4 script_bench b ∧
    (joined b ∨ ∃ b', bench_step script_view script_update 1 b b').
Proof.
  destruct script_run_ends as (b & Hrun & _). exists b.
  pose proof (schedule_steps script_view script_update 1 _ _ _ Hrun) as Hsteps.
  split; [exact Hsteps|].
  destruct (benchmark_terminates script_view script_update 1 "localhost" 8080 2 [(false, []); (false, [])] 4 b)
    as [_ H].
  - exact Script_socket_safe.
  - vm_compute. congruence.
  - exact Hsteps.
  - exact H.
Defined.

Lemma benchmark_counters_witness :
  ∃ b, (fst <$> bench_threads b) = [Finished; Putting 0] ∧
    0 <= total_operations (bench_shared (E := list (bool * list Byte.byte)) b) <= 2.
Proof.
  destruct script_run_ends as (b & Hrun & Hphases). exists b. split; [exact Hphases|].
  pose proof (schedule_steps script_view script_update 1 _ _ _ Hrun) as Hsteps.
  destruct (benchmark_counters script_view script_update 1 "localhost" 8080 2 [(false, []); (false, [])] b)
    as (_ & H & _).
  - vm_compute. congruence.
  - apply rtc_nsteps. exists 4%nat. exact Hsteps.
  - exact H.
Defined.
