(* ===== verification/StandAlone.v ===== *)
(** * The stand-alone demo

    [src/main.cpp]: a program of its own, with a class [Database] that is no more than an
    [std::unordered_map], a few insertions and lookups, and two loops that are timed. *)

From stdpp Require Import base gmap list strings.
From Stdlib Require Import ZArith Lia.
From S2P Require Import Prelude.
From S2P Require Import Effects.
From S2P Require Import Wal.
From S2P Require Import Stoi.
From S2P Require Import ClientMain.

Module Demo.

(** [class Database] of this program. *)
Record Database := mkDatabase { data_ : gmap string string }.

(** [put]. *)
Definition put (key value : string) (db : Database) : bool * Database :=
  (true, mkDatabase (<[key := value]> (data_ db))).

(** [get]: the empty string for a key that is not there. *)
Definition get (db : Database) (key : string) : string :=
  match data_ db !! key with Some value => value | None => "" end.

(** [size]. *)
Definition size (db : Database) : Z := Z.of_nat (base.size (data_ db)).

(** [db] and what the program prints. *)
Abbreviation DemoM := (M (Terminal * Database)).

Definition put_ (key value : string) : DemoM bool := λ '(t, db),
  let '(r, db) := put key value db in (Val r, (t, db)).
Definition get_ (key : string) : DemoM string := gets (λ '(_, db), get db key).

Definition loop_key (i : Z) : string := "key_" +:+ to_string i.
Definition loop_value (i : Z) : string := "value_" +:+ to_string i.

(** The two loops: [rounds] rounds are left, the next one with [i]. *)
Fixpoint insert_loop (rounds : nat) (i : Z) : DemoM unit :=
  match rounds with
  | O => mret tt
  | S rounds => put_ (loop_key i) (loop_value i);; insert_loop rounds (i + 1)
  end.

Fixpoint lookup_loop (rounds : nat) (i : Z) : DemoM unit :=
  match rounds with
  | O => mret tt
  | S rounds => get_ (loop_key i);; lookup_loop rounds (i + 1)
  end.

(** A line that shows the value of a key. *)
Definition show_key (key : string) : DemoM unit := value ← get_ key; say (key +:+ " = " +:+ value).

Definition show_rate (label : string) : DemoM unit :=
  t ← gets fst;
  say (label +:+ rate t (rates_printed t) +:+ " ops/sec");;
  modify (λ '(t, x), (next_rate t, x)).

Definition rounds : nat := Z.to_nat 10000.

(** [main]. *)
Definition main : DemoM Z :=
  say "🚀 DistributedDB - High-Performance Database System";;
  say "==================================================";;
  modify (λ '(t, _), (t, mkDatabase ∅));;
  say "";; say "--- Testing Basic Operations ---";;
  put_ "user:1" "John Doe";;
  put_ "user:2" "Jane Smith";;
  put_ "config:version" "1.0.0";;
  put_ "stats:visits" "12345";;
  say "✅ Inserted test data";;
  show_key "user:1";;
  show_key "user:2";;
  show_key "config:version";;
  say "✅ Read operations successful";;
  say "";; say "--- Performance Benchmark ---";;
  insert_loop rounds 0;;
  lookup_loop rounds 0;;
  show_rate "Write performance: ";;
  show_rate "Read performance: ";;
  db ← gets snd;
  say ("Total entries: " +:+ to_string (size db));;
  say "";; say "✅ Database test completed successfully!";;
  mret 0.

(** ** Lemmas *)

Definition loop_pairs (i : Z) (n : nat) : list (string * string) :=
  (λ j, (loop_key j, loop_value j)) <$> seqZ i (Z.of_nat n).

Lemma insert_loop_run n i t db :
  insert_loop n i (t, db) = (Val tt, (t, mkDatabase (after_puts (data_ db) (loop_pairs i n)))).
Proof.
  revert i db. induction n as [|n IH]; intros i db.
  - unfold loop_pairs. rewrite seqZ_nil by lia. by destruct db.
  - cbn [insert_loop]. unfold mbind, M_bind. cbn [put_ put]. rewrite IH. unfold loop_pairs.
    rewrite (seqZ_cons i) by lia. by replace (Z.pred (Z.of_nat (S n))) with (Z.of_nat n) by lia.
Qed.

Lemma lookup_loop_run n i t db : lookup_loop n i (t, db) = (Val tt, (t, db)).
Proof. revert i. induction n as [|n IH]; intros i; [done|]. cbn. apply IH. Qed.

#[global] Instance loop_key_inj : Inj (=) (=) loop_key.
Proof. intros i j E. by apply (inj (String.append _)), (inj to_string) in E. Qed.

Lemma loop_keys i n : (loop_pairs i n).*1 = loop_key <$> seqZ i (Z.of_nat n).
Proof. unfold loop_pairs. by rewrite <- list_fmap_compose. Qed.

(** Fresh keys, each once, are as many new elements. *)
Lemma size_after_puts (m : gmap string string) pairs :
  NoDup pairs.*1 → (∀ k, k ∈ pairs.*1 → m !! k = None) →
  base.size (after_puts m pairs) = (base.size m + length pairs)%nat.
Proof.
  revert m. induction pairs as [|[k v] pairs IH]; intros m Hnd Hf; [cbn; lia|].
  cbn in Hnd. apply NoDup_cons in Hnd as [Hk Hnd]. cbn [after_puts foldl].
  change (foldl _ ?m pairs) with (after_puts m pairs). rewrite IH; [|done|].
  - rewrite map_size_insert_None by (apply Hf; left). cbn. lia.
  - intros k' Hk'. cbn. rewrite lookup_insert_ne by (by intros ->). apply Hf. by right.
Qed.

(** ** Theorems *)

(** The demo's whole output on any machine: what was put is what is shown, the entries are
    the four of the test and the 10,000 of the loop, and the exit status is 0.  Only the two
    rates depend on the clock. *)
Theorem main_output (t : Terminal) (db : Database) :
  ∃ writes reads t' db', main (t, db) = (Val 0, (t', db')) ∧ size db' = 10004 ∧
    (∀ i, 0 <= i < 10000 → get db' (loop_key i) = loop_value i) ∧
    cout t' = cout t +:+
      line "🚀 DistributedDB - High-Performance Database System" +:+
      line "==================================================" +:+
      line "" +:+ line "--- Testing Basic Operations ---" +:+
      line "✅ Inserted test data" +:+
      line "user:1 = John Doe" +:+ line "user:2 = Jane Smith" +:+ line "config:version = 1.0.0" +:+
      line "✅ Read operations successful" +:+
      line "" +:+ line "--- Performance Benchmark ---" +:+
      line ("Write performance: " +:+ writes +:+ " ops/sec") +:+
      line ("Read performance: " +:+ reads +:+ " ops/sec") +:+
      line "Total entries: 10004" +:+
      line "" +:+ line "✅ Database test completed successfully!".
Proof.
  set (m := <["stats:visits" := "12345"]> (<["config:version" := "1.0.0"]>
              (<["user:2" := "Jane Smith"]> (<["user:1" := "John Doe"]> (∅ : gmap string string))))).
  assert (Z.of_nat (base.size (after_puts m (loop_pairs 0 rounds))) = 10004) as Hsize.
  { rewrite size_after_puts.
    - unfold loop_pairs. rewrite length_fmap, length_seqZ. unfold rounds. rewrite Nat2Z.id.
      change (base.size m) with 4%nat. lia.
    - rewrite loop_keys. apply (NoDup_fmap_2 _), NoDup_seqZ.
    - rewrite loop_keys. intros k (j & -> & _)%list_elem_of_fmap. by vm_compute. }
  exists (rate t (rates_printed t)), (rate t (1 + rates_printed t)%nat).
  eexists _, (mkDatabase (after_puts m (loop_pairs 0 rounds))). split; [|split; [|split]].
  - unfold main, show_key, show_rate, mbind, M_bind.
    cbn [say modify put_ put get_ gets data_ fst snd].
    fold m. rewrite insert_loop_run. cbn [data_]. rewrite lookup_loop_run.
    unfold size. cbn [fst snd data_ rate rates_printed next_rate put_out]. rewrite Hsize.
    reflexivity.
  - unfold size. cbn [data_]. exact Hsize.
  - intros i Hi. unfold get. cbn [data_]. 
    assert (after_puts m (loop_pairs 0 rounds) !! loop_key i = Some (loop_value i)) as ->;
      [apply after_puts_lookup|reflexivity].
    + rewrite loop_keys. apply (NoDup_fmap_2 _), NoDup_seqZ.
    + apply list_elem_of_fmap. exists i. split; [done|]. apply elem_of_seqZ. unfold rounds. lia.
  - cbn [cout put_out next_rate]. rewrite !string_app_assoc. reflexivity.
Qed.
End Demo.
