(* ===== verification/ServerMain.v ===== *)
(** * The server program

    [src/server_main.cpp]: the port, the signal handlers, the database, the server, the threads
    that run the [io_context]; what a signal does, with the joins of [DatabaseServer::stop] on
    the worker threads of [Workers.v]; and the destruction of the global objects when [main]
    has returned.  Making the context, binding the port and making threads can fail, and are
    parameters.  The signals of interest are those that find [main] waiting for its threads,
    and its thread runs their handler, one after the other.  What the classes themselves write
    to the console is not tracked. *)

From stdpp Require Import base gmap list strings relations.
From Stdlib Require Import ZArith Lia.
From Stdlib Require Import Strings.Byte.
From S2P Require Import Prelude.
From S2P Require Import Framing.
From S2P Require Import Protocol.
From S2P Require Import Effects.
From S2P Require Import LogReader.
From S2P Require Import WalRecord.
From S2P Require Import Wal.
From S2P Require Import Interface.
From S2P Require Import Database.
From S2P Require Import Server.
From S2P Require Import Connection.
From S2P Require Import Acceptor.
From S2P Require Import Workers.
From S2P Require Import Concurrency.
From S2P Require Import LockingTheorems.
From S2P Require Import Serving.
From S2P Require Import System.
From S2P Require Import Parallel.
From S2P Require Import IoThreads.
From S2P Require Import Stoi.
From S2P Require Import ClientMain.

(** [boost::asio::io_context]: whether [stop] was called. *)
Record IoContext := mkIoContext { io_stopped : bool }.

(** The program: the console, whether the signal handlers are set, the three global pointers
    (the server with its acceptor and its worker threads, the context, the work guard), whether
    a signal handler is in [server->stop()], the local variable [database], the threads that
    are in [io_context->run()], and the environment. *)
Record ServerProgram := mkServerProgram {
  sp_terminal : Terminal;
  sp_signals : bool;
  sp_server : option Acceptor;
  sp_workers : Pool;
  sp_stopping : bool;
  sp_io_context : option IoContext;
  sp_work_guard : bool;
  sp_database : option Process;
  sp_io_threads : nat;
  sp_world : World;
}.

(** The members of a [DatabaseServer] before [start]. *)
Definition no_workers : Pool :=
  {| p_running := false; p_queue := []; p_mutex := None; p_workers := []; p_stopper := NotStopping;
     p_notices := 0; p_submitted := []; p_taken := []; p_answered := [] |}.

(** Before [main]. *)
Definition program_new (t : Terminal) (w : World) : ServerProgram :=
  mkServerProgram t false None no_workers false None false None 0 w.

(** How [main] goes on after its threads were made, or does not. *)
Inductive main_state :=
  | MainReturns (code : Z)
  | MainTerminates        (** [std::terminate] *)
  | MainWaits.            (** in the joins *)

Abbreviation ProgramM := (M ServerProgram).

Definition sp_say (s : string) : ProgramM unit := modify (λ sp,
  mkServerProgram (put_out (line s) (sp_terminal sp)) (sp_signals sp) (sp_server sp) (sp_workers sp) (sp_stopping sp)
    (sp_io_context sp) (sp_work_guard sp) (sp_database sp) (sp_io_threads sp) (sp_world sp)).
Definition sp_complain (s : string) : ProgramM unit := modify (λ sp,
  mkServerProgram (put_err (line s) (sp_terminal sp)) (sp_signals sp) (sp_server sp) (sp_workers sp) (sp_stopping sp)
    (sp_io_context sp) (sp_work_guard sp) (sp_database sp) (sp_io_threads sp) (sp_world sp)).
Definition set_signals : ProgramM unit := modify (λ sp,
  mkServerProgram (sp_terminal sp) true (sp_server sp) (sp_workers sp) (sp_stopping sp)
    (sp_io_context sp) (sp_work_guard sp) (sp_database sp) (sp_io_threads sp) (sp_world sp)).
Definition set_server (a : option Acceptor) : ProgramM unit := modify (λ sp,
  mkServerProgram (sp_terminal sp) (sp_signals sp) a (sp_workers sp) (sp_stopping sp)
    (sp_io_context sp) (sp_work_guard sp) (sp_database sp) (sp_io_threads sp) (sp_world sp)).
Definition set_workers (p : Pool) : ProgramM unit := modify (λ sp,
  mkServerProgram (sp_terminal sp) (sp_signals sp) (sp_server sp) p (sp_stopping sp)
    (sp_io_context sp) (sp_work_guard sp) (sp_database sp) (sp_io_threads sp) (sp_world sp)).
Definition set_stopping (b : bool) : ProgramM unit := modify (λ sp,
  mkServerProgram (sp_terminal sp) (sp_signals sp) (sp_server sp) (sp_workers sp) b
    (sp_io_context sp) (sp_work_guard sp) (sp_database sp) (sp_io_threads sp) (sp_world sp)).
Definition set_io_context (io : option IoContext) : ProgramM unit := modify (λ sp,
  mkServerProgram (sp_terminal sp) (sp_signals sp) (sp_server sp) (sp_workers sp) (sp_stopping sp)
    io (sp_work_guard sp) (sp_database sp) (sp_io_threads sp) (sp_world sp)).
Definition set_work_guard (b : bool) : ProgramM unit := modify (λ sp,
  mkServerProgram (sp_terminal sp) (sp_signals sp) (sp_server sp) (sp_workers sp) (sp_stopping sp)
    (sp_io_context sp) b (sp_database sp) (sp_io_threads sp) (sp_world sp)).
Definition set_io_threads (n : nat) : ProgramM unit := modify (λ sp,
  mkServerProgram (sp_terminal sp) (sp_signals sp) (sp_server sp) (sp_workers sp) (sp_stopping sp)
    (sp_io_context sp) (sp_work_guard sp) (sp_database sp) n (sp_world sp)).

(** [database->initialize(dir)] on the process that [create_database] has made. *)
Definition initialize_database (dir : string) : ProgramM OperationResult.t := λ sp,
  let '(r, p) := PersistentDatabase_initialize dir (create_database (sp_world sp)) in
  (r, mkServerProgram (sp_terminal sp) (sp_signals sp) (sp_server sp) (sp_workers sp) (sp_stopping sp)
        (sp_io_context sp) (sp_work_guard sp) (Some p) (sp_io_threads sp) (p_world p)).

(** [DatabaseServer::stop()] up to [acceptor_.close()]; then come [notify_all] and the joins,
    in steps with the worker threads. *)
Definition stop_begin (a : Acceptor) : ProgramM unit :=
  sp ← get_state;
  set_server (Some (mkAcceptor (set_running false (server a)) false (chain a) (open a) (aborted a)));;
  set_workers (clear_running (sp_workers sp));;
  set_stopping true.

(** [worker_threads_.clear()]. *)
Definition clear_workers (p : Pool) : Pool :=
  mkPool (p_running p) (p_queue p) (p_mutex p) [] NotStopping (p_notices p) (p_submitted p) (p_taken p)
    (p_answered p).

(** [signal_handler]: after [server->stop()] ... *)
Definition signal_rest : ProgramM unit :=
  sp ← get_state;
  (if sp_work_guard sp then set_work_guard false else mret tt);;
  match sp_io_context sp with Some _ => set_io_context (Some (mkIoContext true)) | None => mret tt end.

(** ... and to its joins. *)
Definition signal_handler (signal : Z) : ProgramM unit :=
  sp_say "";;
  sp_say ("Received signal " +:+ to_string signal +:+ ", shutting down...");;
  sp ← get_state;
  match sp_server sp with Some a => stop_begin a | None => signal_rest end.

(** The joins are done. *)
Definition stop_end : ProgramM unit :=
  sp ← get_state;
  set_workers (clear_workers (sp_workers sp));;
  set_stopping false;;
  signal_rest.

Section Main.
(** [std::make_unique<boost::asio::io_context>()], binding the acceptor to a port, the
    construction of the [i]-th [std::thread], and [std::thread::hardware_concurrency()]. *)
Context (make_context : result unit) (bind : Z → result unit) (spawn : nat → result unit)
  (hardware_concurrency : nat).

(** [std::make_unique<DatabaseServer>(context, port)]: the acceptor is bound first. *)
Definition make_server (port : Z) : ProgramM unit :=
  _ ← of_result (bind port);
  set_server (Some (mkAcceptor DatabaseServer_new true NotAccepting 0 0)).

(** [running_ = true], and a worker thread more. *)
Definition with_workers (n : nat) (p : Pool) : Pool :=
  mkPool true (p_queue p) (p_mutex p) (replicate n AtLoop) (p_stopper p) (p_notices p)
    (p_submitted p) (p_taken p) (p_answered p).

(** The first [n] worker threads of [start]. *)
Fixpoint start_workers (n : nat) : ProgramM unit :=
  match n with
  | O => mret tt
  | S n =>
      start_workers n;;
      _ ← of_result (spawn n);
      sp ← get_state;
      set_workers (with_workers (S n) (sp_workers sp))
  end.

(** [server->set_database(database)] and [server->start()]. *)
Definition start_server : ProgramM unit :=
  sp ← get_state;
  match sp_server sp with
  | Some a =>
      let srv := set_database (server a) in
      set_server (Some (mkAcceptor (set_running true srv) (acceptor_open a) (chain a) (open a) (aborted a)));;
      set_workers (with_workers 0 (sp_workers sp));;
      start_workers MAX_WORKER_THREADS;;
      set_server (Some (server_start srv))
  | None => undefined "null DatabaseServer"
  end.

Definition num_io_threads : nat :=
  if (hardware_concurrency =? 0)%nat then 4 else hardware_concurrency.

(** The loop that makes the threads of the context; [false] when it ends the program: an
    exception destroys the vector with the threads made before, which are joinable. *)
Fixpoint start_io_threads (n : nat) : ProgramM bool :=
  match n with
  | O => mret true
  | S n =>
      made ← start_io_threads n;
      if negb made then mret false else
      match spawn (MAX_WORKER_THREADS + n) with
      | Ok _ => set_io_threads (S n);; mret true
      | Throw what => if (n =? 0)%nat then throw what else mret false
      end
  end.

(** [main] up to the joins. *)
Definition server_main (argv : list string) : ProgramM main_state :=
  port ← (if zlen argv >? 1 then of_result (read_port (nth 1 argv "")) else mret 8080);
  sp_say "🚀 DistributedDB Server - High-Performance Database System";;
  sp_say "=========================================================";;
  sp_say ("Starting server on port " +:+ to_string port);;
  set_signals;;
  try_catch
    (_ ← of_result make_context;
     set_io_context (Some (mkIoContext false));;
     set_work_guard true;;
     result ← initialize_database "./data";
     if decide (result ≠ OperationResult.SUCCESS) then
       sp_complain "Failed to initialize database";; mret (MainReturns 1)
     else
     sp_say "✅ Database initialized successfully";;
     make_server port;;
     start_server;;
     sp_say "✅ Server started successfully";;
     sp_say ("   Port: " +:+ to_string port);;
     sp_say "   Max connections: 50,000";;
     sp_say "   Worker threads: 8";;
     sp_say "Press Ctrl+C to stop the server";;
     made ← start_io_threads num_io_threads;
     mret (if made : bool then MainWaits else MainTerminates))
    (λ what, sp_complain ("Server error: " +:+ what);; mret (MainReturns 1)).
End Main.

(** What the program does by itself while [main] waits: [stop] and the worker threads move on
    (nothing submits a request to them), [stop] returns from its joins, and [run] returns once
    the context is stopped; the work guard is what keeps [run] from returning before. *)
Inductive program_step : ServerProgram → ServerProgram → Prop :=
  | program_workers sp p sp' :
      pool_step (sp_workers sp) p → p_submitted p = p_submitted (sp_workers sp) →
      (p_stopper (sp_workers sp) = NotStopping → p_stopper p = NotStopping) →
      set_workers p sp = (Val tt, sp') → program_step sp sp'
  | program_stopped sp sp' :
      sp_stopping sp = true → p_stopper (sp_workers sp) = Joined →
      stop_end sp = (Val tt, sp') → program_step sp sp'
  | program_return sp n sp' :
      sp_io_threads sp = S n → sp_io_context sp = Some (mkIoContext true) →
      set_io_threads n sp = (Val tt, sp') → program_step sp sp'.

(** With signals. *)
Inductive life_step : ServerProgram → ServerProgram → Prop :=
  | life_signal signal sp sp' :
      sp_signals sp = true → sp_stopping sp = false → signal_handler signal sp = (Val tt, sp') →
      life_step sp sp'
  | life_own sp sp' : program_step sp sp' → life_step sp sp'.

(** The end of [main], when every thread is joined. *)
Definition main_end : ProgramM Z := sp_say "✅ Server shutdown complete";; mret 0.

(** The global pointers are destroyed in the reverse order of their declarations: the work
    guard, the context, the server, whose destructor calls [stop] and so closes an acceptor
    that belongs to the context. *)
Definition static_destruction : ProgramM unit :=
  set_work_guard false;;
  set_io_context None;;
  sp ← get_state;
  match sp_server sp with
  | None => mret tt
  | Some a =>
      match sp_io_context sp with
      | None => undefined "acceptor_.close() after its io_context was destroyed"
      | Some _ => set_server None
      end
  end.

(** ** Lemmas *)

(** The port of the server: the first argument, or 8080. *)
Definition chosen_port (argv : list string) : result Z :=
  match argv with _ :: arg :: _ => read_port arg | _ => Ok 8080 end.

(** [main] up to the database. *)
Definition announced (port : Z) (t : Terminal) (w : World) : ServerProgram :=
  let t := put_out (line "🚀 DistributedDB Server - High-Performance Database System") t in
  let t := put_out (line "=========================================================") t in
  let t := put_out (line ("Starting server on port " +:+ to_string port)) t in
  mkServerProgram t true None no_workers false None false None 0 w.

(** With the threads that it has at last. *)
Definition launched (threads : nat) (port : Z) (p : Process) (t : Terminal) : ServerProgram :=
  let t := sp_terminal (announced port t (p_world p)) in
  let t := put_out (line "✅ Database initialized successfully") t in
  let t := put_out (line "✅ Server started successfully") t in
  let t := put_out (line ("   Port: " +:+ to_string port)) t in
  let t := put_out (line "   Max connections: 50,000") t in
  let t := put_out (line "   Worker threads: 8") t in
  let t := put_out (line "Press Ctrl+C to stop the server") t in
  mkServerProgram t true (Some (server_start (set_database DatabaseServer_new))) pool_start false
    (Some (mkIoContext false)) true (Some p) threads (p_world p).

(** Runs [main] through its statements. *)
Ltac spsimpl :=
  cbv beta iota zeta delta [sp_say sp_complain set_signals set_server set_workers set_stopping set_io_context
    set_work_guard set_io_threads get_state modify of_result throw undefined try_catch mbind M_bind
    mret M_ret announced initialize_database make_server start_server server acceptor_open chain open aborted
    stop_begin stop_end signal_rest signal_handler
    sp_terminal sp_signals sp_server sp_workers sp_stopping sp_io_context sp_work_guard sp_database
    sp_io_threads sp_world].

Section Programs.
Implicit Types (sp : ServerProgram) (w : World) (p : Pool) (t : Terminal).

Lemma port_argument argv sp :
  (if zlen argv >? 1 then of_result (read_port (nth 1 argv "")) else mret 8080 : ProgramM Z) sp
  = of_result (chosen_port argv) sp.
Proof.
  destruct argv as [|prog [|arg argv]]; [done|done|].
  rewrite Z.gtb_ltb, (proj2 (Z.ltb_lt _ _)); [done|].
  autorewrite with db_len. pose proof (zlen_nonneg argv). lia.
Qed.

(** [n] worker threads. *)
Definition staffed (n : nat) sp : ServerProgram := (set_workers (with_workers n (sp_workers sp)) sp).2.

Lemma start_workers_run spawn n sp :
  with_workers 0 (sp_workers sp) = sp_workers sp →
  (∀ i, (i < n)%nat → spawn i = Ok tt) ∧ start_workers spawn n sp = (Val tt, staffed n sp) ∨
  ∃ i what, (i < n)%nat ∧ spawn i = Throw what ∧ start_workers spawn n sp = (Exn what, staffed i sp).
Proof.
  intros H0. induction n as [|n IH]; cbn [start_workers].
  - left. split; [lia|]. unfold staffed. rewrite H0. by destruct sp.
  - unfold mbind, M_bind. destruct IH as [[Hok ->]|(i & what & Hi & Ht & ->)].
    + destruct (spawn n) as [[]|what] eqn:Hn.
      * left. split; [|by destruct sp].
        intros i Hi. destruct (decide (i = n)) as [->|]; [done|]. apply Hok. lia.
      * right. exists n, what. by split; [lia|].
    + right. exists i, what. by split; [lia|].
Qed.

(** The threads of the context; a first one that cannot be made is an exception, a later one the
    end of the program. *)
Lemma start_io_threads_run spawn n sp :
  sp_io_threads sp = 0%nat →
  (∀ i, (i < n)%nat → spawn (MAX_WORKER_THREADS + i)%nat = Ok tt) ∧
    start_io_threads spawn n sp = (Val true, (set_io_threads n sp).2) ∨
  (∃ what, (0 < n)%nat ∧ spawn MAX_WORKER_THREADS = Throw what ∧ start_io_threads spawn n sp = (Exn what, sp)) ∨
  ∃ i what sp', (0 < i < n)%nat ∧ spawn (MAX_WORKER_THREADS + i)%nat = Throw what ∧
    start_io_threads spawn n sp = (Val false, sp').
Proof.
  intros H0. induction n as [|n IH]; cbn [start_io_threads].
  - left. split; [lia|]. unfold set_io_threads, modify. cbn [snd]. rewrite <- H0. by destruct sp.
  - unfold mbind, M_bind. destruct IH as [[Hok ->]|[(what & Hn & Ht & ->)|(i & what & sp' & Hi & Ht & ->)]].
    + cbn [negb]. destruct (spawn (MAX_WORKER_THREADS + n)%nat) as [[]|what] eqn:Hn.
      * left. split; [|by destruct sp].
        intros i Hi. destruct (decide (i = n)) as [->|]; [done|]. apply Hok. lia.
      * right. destruct n as [|n].
        -- left. exists what. split; [lia|]. rewrite <- Hn. split; [f_equal; lia|]. cbn [Nat.eqb].
           rewrite <- H0. by destruct sp.
        -- right. eexists (S n), what, _. split; [lia|]. by split.
    + right. left. exists what. by split; [lia|].
    + right. right. exists i, what, sp'. by split; [lia|].
Qed.

Lemma server_main_bad_port mc bind spawn hc argv what sp :
  chosen_port argv = Throw what → server_main mc bind spawn hc argv sp = (Exn what, sp).
Proof.
  intros Hport. unfold server_main, mbind at 1, M_bind at 1. by rewrite port_argument, Hport.
Qed.

(** What the [catch] block leaves on the console. *)
Definition complained t sp : Prop := ∃ what, cerr (sp_terminal sp) = cerr t +:+ line ("Server error: " +:+ what).

Lemma exception_before mc bind spawn hc argv port t w :
  chosen_port argv = Ok port →
  (∃ sp, server_main mc bind spawn hc argv (program_new t w) = (Val (MainReturns 1), sp) ∧
     sp_server sp = None ∧ complained t sp) ∨
  mc = Ok tt ∧ bind port = Ok tt ∧ ∃ p : Process,
    PersistentDatabase_initialize "./data" (create_database w) = (Val OperationResult.SUCCESS, p).
Proof.
  intros Hport. unfold server_main, mbind at 1, M_bind at 1. rewrite port_argument, Hport.
  destruct mc as [[]|what]; [|left; eexists; split; [spsimpl; reflexivity|split; [done|by exists what]]].
  destruct (initialize_new "./data" w) as [p [E|E]].
  - destruct (bind port) as [[]|what] eqn:Hb; [right; by split_and!; [..|exists p]|].
    left. spsimpl. cbn [program_new sp_world]. rewrite E. cbv beta iota zeta.
    rewrite decide_False by (by intros []). rewrite Hb. eexists. split; [reflexivity|split; [done|by exists what]].
  - left. spsimpl. cbn [program_new sp_world]. rewrite E. eexists. split; [reflexivity|split; [done|by eexists]].
Qed.

(** With the database and the port, it is the threads that decide. *)
Lemma server_main_run bind spawn hc argv port t w (p : Process) :
  chosen_port argv = Ok port → bind port = Ok tt →
  PersistentDatabase_initialize "./data" (create_database w) = (Val OperationResult.SUCCESS, p) →
  let main := server_main (Ok tt) bind spawn hc argv (program_new t w) in
  (∀ i, (i < MAX_WORKER_THREADS + num_io_threads hc)%nat → spawn i = Ok tt) ∧
    main = (Val MainWaits, launched (num_io_threads hc) port p t) ∨
  (∃ i what sp, (i <= MAX_WORKER_THREADS)%nat ∧ spawn i = Throw what ∧ main = (Val (MainReturns 1), sp) ∧
     is_Some (sp_server sp) ∧ complained t sp) ∨
  (∃ i what sp, (MAX_WORKER_THREADS < i < MAX_WORKER_THREADS + num_io_threads hc)%nat ∧
     spawn i = Throw what ∧ main = (Val MainTerminates, sp)).
Proof.
  intros Hport Hb E main. assert (main = server_main (Ok tt) bind spawn hc argv (program_new t w)) as Hm by done.
  clearbody main. revert Hm.
  unfold server_main, mbind at 1, M_bind at 1. rewrite port_argument, Hport.
  spsimpl. cbn [program_new sp_world]. rewrite E. cbv beta iota zeta.
  rewrite decide_False by (by intros []). rewrite Hb. cbv beta iota zeta.
  match goal with |- context [start_workers spawn MAX_WORKER_THREADS ?s] =>
    destruct (start_workers_run spawn MAX_WORKER_THREADS s eq_refl) as [[Hok ->]|(i & what & Hi & Ht & ->)] end.
  2:{ intros ->. right. left. eexists i, what, _. split; [lia|]. split; [done|]. split; [reflexivity|]. split; [by eexists|by exists what]. }
  unfold staffed. spsimpl. cbn [snd].
  match goal with |- context [start_io_threads spawn _ ?s] =>
    destruct (start_io_threads_run spawn (num_io_threads hc) s eq_refl)
      as [[Hio ->]|[(what & Hi & Ht & ->)|(i & what & sp' & Hi & Ht & ->)]] end.
  - intros ->. left. split; [|reflexivity]. intros i Hi. destruct (decide (i < MAX_WORKER_THREADS)%nat); [by apply Hok|].
    replace i with (MAX_WORKER_THREADS + (i - MAX_WORKER_THREADS))%nat by lia. apply Hio. lia.
  - intros ->. right. left. eexists MAX_WORKER_THREADS, what, _. split; [lia|]. split; [done|].
    split; [reflexivity|]. split; [by eexists|by exists what].
  - intros ->. right. right. eexists (MAX_WORKER_THREADS + i)%nat, what, _. split; [lia|]. by split.
Qed.

Lemma destroyed_without sp : sp_server sp = None → (static_destruction sp).1 = Val tt.
Proof. destruct sp. cbn [sp_server]. by intros ->. Qed.

Lemma destroyed_with sp : is_Some (sp_server sp) → ∃ why, (static_destruction sp).1 = UB why.
Proof. destruct sp. cbn [sp_server]. intros [a ->]. by eexists. Qed.

(** ** Shutting down *)

Definition pool_ok p : Prop :=
  pool_inv p ∧ (p_stopper p ≠ NotStopping → p_running p = false) ∧
  ∀ i, p_mutex p = Some i → is_Some (p_workers p !! i).

Lemma pool_ok_start : pool_ok pool_start.
Proof. split; [apply pool_start_inv|done]. Qed.

Lemma pool_ok_step p p' : pool_ok p → pool_step p p' → pool_ok p'.
Proof.
  intros (Hi & Hr & Ho) Hst. split_and!.
  - by eapply any_step_inv, step_promised.
  - by eapply pool_step_shut.
  - by eapply pool_owner.
Qed.

Lemma pool_ok_clear p : pool_ok p → pool_ok (clear_running p).
Proof. intros (Hi & Hr & Ho). split; [by apply inv_clear|done]. Qed.

(** All workers have finished, so nobody has the mutex or a task. *)
Lemma pool_ok_joined p :
  pool_ok p → Forall (λ v, v = Finished) (p_workers p) → pool_ok (clear_workers p).
Proof.
  intros ([Hf Ho Hm Ha] & Hr & Hown) Hall.
  assert (p_mutex p = None) as Hn.
  { destruct (p_mutex p) as [i|] eqn:Hi; [|done]. destruct (Hown i eq_refl) as [w Hw].
    pose proof (proj2 (Hm i w Hw) eq_refl) as Hh. rewrite (Forall_lookup_1 _ _ _ _ Hall Hw) in Hh. done. }
  split; [split; cbn; try done|split; [done|by intros i; cbn; rewrite Hn]].
  etrans; [exact Ho|]. apply Permutation_app_head. unfold Workers.processing.
  clear -Hall. induction Hall as [|w ws -> _ IH]; [done|exact IH].
Qed.

(** The program while [main] waits: the server was made, and is stopped and closed once a
    signal has come. *)
Record running_program sp : Prop := {
  rp_signals : sp_signals sp = true;
  rp_server : ∃ a, sp_server sp = Some a ∧
    (sp_stopping sp = true ∨ sp_io_context sp = Some (mkIoContext true) →
     running_ (server a) = false ∧ acceptor_open a = false);
  rp_workers : pool_ok (sp_workers sp);
  rp_stopper : p_stopper (sp_workers sp) = NotStopping ↔ sp_stopping sp = false;
  rp_joined : p_stopper (sp_workers sp) = Joined → Forall (λ v, v = Finished) (p_workers (sp_workers sp));
  rp_context : is_Some (sp_io_context sp);
}.

Lemma launched_running n port (p : Process) t : running_program (launched n port p t).
Proof.
  split; try done; [eexists; split; [done|]; by intros [|]|apply pool_ok_start].
Qed.

(** A worker that has finished does nothing more. *)
Lemma joined_step p p' :
  pool_step p p' → p_submitted p' = p_submitted p →
  (p_stopper p = Joined → Forall (λ v, v = Finished) (p_workers p)) →
  p_stopper p' = Joined → Forall (λ v, v = Finished) (p_workers p').
Proof.
  intros Hst _ Hj. destruct Hst as [i p p' Hw|task p _|i n p _ Hi|n p _ _|p _|p _|p _ Hall]; try done.
  - intros Hs. assert (p_stopper p = Joined) as Hp by (by destruct Hw).
    specialize (Hj Hp). destruct Hw as [H|H|H|H|H|H|H|H|H|task rest H|task H];
      by pose proof (Forall_lookup_1 _ _ _ _ Hj H).
  - intros Hs. pose proof (Forall_lookup_1 _ _ _ _ (Hj Hs) Hi). done.
Qed.

Lemma stopper_kept p p' :
  pool_step p p' → (p_stopper p = NotStopping → p_stopper p' = NotStopping) →
  p_stopper p' = NotStopping ↔ p_stopper p = NotStopping.
Proof.
  intros Hst Hn. split; [|done].
  destruct Hst as [i p p' Hw|task p _|i n p _ Hi|n p _ _|p _|p _|p _ _]; try done. by destruct Hw.
Qed.

Lemma running_own sp sp' : running_program sp → program_step sp sp' → running_program sp'.
Proof.
  intros [H1 (a & H2 & H3) H4 H5 H6 H7] H. destruct H as [sp p sp' Hst Hsub Hns E|sp sp' Hs Hj E|sp n sp' _ Hio E].
  - injection E as <-. split; cbn; [done|by exists a|by eapply pool_ok_step| |by eapply joined_step|done].
    by rewrite (stopper_kept _ _ Hst Hns).
  - destruct sp as [t sg sv ws st [io|] wg db n w]; cbn in *; [|by destruct H7].
    destruct wg; injection E as <-; (split; cbn; [done| |by apply pool_ok_joined; [|apply H6]|done|done|by eexists]);
      exists a; (split; [done|]); intros _; apply H3; by left.
  - injection E as <-. split; cbn; [done|by exists a|done..].
Qed.

Lemma signal_run signal sp a :
  sp_server sp = Some a →
  ∃ sp', signal_handler signal sp = (Val tt, sp') ∧ sp_signals sp' = sp_signals sp ∧
    sp_server sp' = Some (mkAcceptor (set_running false (server a)) false (chain a) (open a) (aborted a)) ∧
    sp_workers sp' = clear_running (sp_workers sp) ∧ sp_stopping sp' = true ∧
    sp_io_context sp' = sp_io_context sp ∧ sp_io_threads sp' = sp_io_threads sp.
Proof. destruct sp. cbn [sp_server]. intros ->. eexists. by split_and!. Qed.

Lemma running_step sp sp' : running_program sp → life_step sp sp' → running_program sp'.
Proof.
  intros Hrun H. destruct H as [signal sp sp' Hsig Hns E|sp sp' H]; [|by eapply running_own].
  destruct Hrun as [H1 (a & H2 & H3) H4 H5 H6 H7].
  destruct (signal_run signal sp a H2) as (sp1 & E1 & A1 & A2 & A3 & A4 & A5 & _).
  rewrite E in E1. injection E1 as <-. split.
  - congruence.
  - eexists. split; [exact A2|]. done.
  - rewrite A3. by apply pool_ok_clear.
  - rewrite A3, A4. done.
  - by rewrite A3.
  - by rewrite A5.
Qed.

Lemma running_steps sp sp' : running_program sp → rtc life_step sp sp' → running_program sp'.
Proof. intros H Hs. induction Hs; [done|]. eauto using running_step. Qed.

(** A signal has come. *)
Record signalled sp : Prop := {
  sd_running : p_running (sp_workers sp) = false;
  sd_phase : sp_stopping sp = true ∨ sp_io_context sp = Some (mkIoContext true);
}.

Lemma pool_running p p' : pool_step p p' → p_running p = false → p_running p' = false.
Proof. intros Hst Hr. destruct Hst as [i p p' Hw|task p _|i n p _ Hi|n p _ _|p _|p _|p _ _]; try done. by destruct Hw. Qed.

Lemma stop_end_run sp io :
  sp_io_context sp = Some io →
  ∃ sp', stop_end sp = (Val tt, sp') ∧ sp_workers sp' = clear_workers (sp_workers sp) ∧ sp_stopping sp' = false ∧
    sp_io_context sp' = Some (mkIoContext true) ∧ sp_io_threads sp' = sp_io_threads sp.
Proof. destruct sp as [t sg sv ws st cx [] db n w]; cbn; intros ->; eexists; by split_and!. Qed.

Lemma signalled_step sp sp' : running_program sp → signalled sp → program_step sp sp' → signalled sp'.
Proof.
  intros Hrun [Hr Hp] H. destruct H as [sp p sp' Hst Hsub Hns E|sp sp' Hs Hj E|sp n sp' _ Hio E].
  - injection E as <-. split; [by eapply pool_running|done].
  - destruct (rp_context _ Hrun) as [io Hio]. destruct (stop_end_run sp io Hio) as (sp1 & E1 & A1 & A2 & A3 & _).
    rewrite E in E1. injection E1 as <-. split; [by rewrite A1|by right].
  - injection E as <-. split; [done|by right].
Qed.

(** What is left to do then. *)
Definition down_rank p : nat :=
  sum_list_with worker_rank (p_workers p) + p_notices p +
  match p_stopper p with Cleared => 2 | WokenAll => 1 | _ => 0 end.
Definition life_rank sp : nat :=
  sp_io_threads sp + (if sp_stopping sp then 1 else 0) + down_rank (sp_workers sp).

Lemma wake_rank ws : (sum_list_with worker_rank (wake <$> ws) <= sum_list_with worker_rank ws)%nat.
Proof. induction ws as [|v ws IH]; [done|]. cbn. destruct v; cbn; lia. Qed.

Lemma pool_down p p' :
  p_running p = false → pool_step p p' → p_submitted p' = p_submitted p →
  (p_stopper p = NotStopping → p_stopper p' = NotStopping) → (down_rank p' < down_rank p)%nat.
Proof.
  intros Hr Hst Hsub Hns. unfold down_rank.
  destruct Hst as [i p p' Hw|task p _|i n p Hn Hi|n p Hn _|p Hs|p Hs|p Hs _]; cbn in *.
  - destruct (worker_step_rank i p p' Hr Hw) as (Hlt & -> & ->). lia.
  - apply (f_equal length) in Hsub. rewrite length_app in Hsub. cbn in Hsub. lia.
  - pose proof (rank_insert (p_workers p) i Asleep Notified Hi ltac:(cbn; lia)). lia.
  - lia.
  - by specialize (Hns Hs).
  - pose proof (wake_rank (p_workers p)). rewrite Hs. lia.
  - rewrite Hs. lia.
Qed.

Lemma program_down sp sp' :
  running_program sp → signalled sp → program_step sp sp' → (life_rank sp' < life_rank sp)%nat.
Proof.
  intros Hrun [Hr Hp] H. unfold life_rank. destruct H as [sp p sp' Hst Hsub Hns E|sp sp' Hs Hj E|sp n sp' Hn Hio E].
  - injection E as <-. cbn. pose proof (pool_down _ _ Hr Hst Hsub Hns). lia.
  - destruct (rp_context _ Hrun) as [io Hio]. destruct (stop_end_run sp io Hio) as (sp1 & E1 & A1 & A2 & _ & A4).
    rewrite E in E1. injection E1 as <-. rewrite A1, A2, A4, Hs. unfold down_rank. cbn. rewrite Hj. lia.
  - injection E as <-. cbn. lia.
Qed.

Lemma program_bounded k sp sp' :
  running_program sp → signalled sp → nsteps program_step k sp sp' → (k + life_rank sp' <= life_rank sp)%nat.
Proof.
  intros Hrun Hsd H. induction H as [|k sp1 sp2 sp3 H1 _ IH]; [lia|].
  pose proof (program_down _ _ Hrun Hsd H1). specialize (IH (running_own _ _ Hrun H1) (signalled_step _ _ Hrun Hsd H1)). lia.
Qed.

Lemma program_kept sp sp' :
  running_program sp → signalled sp → rtc program_step sp sp' → running_program sp' ∧ signalled sp'.
Proof. intros Hrun Hsd H. induction H; [done|]. eauto using running_own, signalled_step. Qed.

(** The two ends of a shutdown: every thread has returned, and [main] with 0, but the destruction
    of the globals is undefined behaviour; or the signal handler waits in [stop] for a worker
    that sleeps. *)
Definition shut_down sp : Prop :=
  sp_io_threads sp = 0%nat ∧ sp_stopping sp = false ∧
  (∃ a, sp_server sp = Some a ∧ running_ (server a) = false ∧ acceptor_open a = false) ∧
  (main_end sp).1 = Val 0 ∧ ∃ why, (static_destruction (main_end sp).2).1 = UB why.
Definition hung sp : Prop :=
  sp_stopping sp = true ∧ p_stopper (sp_workers sp) = WokenAll ∧
  ∃ i, p_workers (sp_workers sp) !! i = Some Asleep.

Lemma ended sp :
  running_program sp → signalled sp → sp_stopping sp = false → sp_io_threads sp = 0%nat → shut_down sp.
Proof.
  intros Hrun [_ Hp] Hs H0. destruct (rp_server _ Hrun) as (a & Ha & Hc).
  destruct Hp as [|Hio]; [congruence|]. destruct (Hc (or_intror Hio)) as [? ?].
  split; [done|]. split; [done|]. split; [by exists a|]. split; [done|].
  apply destroyed_with. unfold main_end, mbind, M_bind. cbn. by eexists.
Qed.

Lemma shutdown_stuck sp :
  running_program sp → signalled sp → (∀ sp', ¬ program_step sp sp') → shut_down sp ∨ hung sp.
Proof.
  intros Hrun Hsd Hn. destruct (sp_stopping sp) eqn:Hs.
  - right. destruct (p_stopper (sp_workers sp)) eqn:Hp.
    + apply (rp_stopper _ Hrun) in Hp. congruence.
    + exfalso. eapply Hn. eapply (program_workers sp (notify_all (sp_workers sp))); [by apply step_notify_all|done| |reflexivity].
      by rewrite Hp.
    + destruct (rp_workers _ Hrun) as (Hi & Hr & Ho).
      destruct (stopping_stuck (sp_workers sp)) as [?|Ha]; [| |congruence|by split].
      * split; [done|apply Hsd|by left|done].
      * intros p' [Hst Hsub]. eapply Hn. eapply (program_workers sp p'); [done|done| |reflexivity]. by rewrite Hp.
    + exfalso. destruct (rp_context _ Hrun) as [io Hio]. destruct (stop_end_run sp io Hio) as (sp1 & E1 & _).
      by eapply Hn, program_stopped.
  - left. apply ended; [done..|]. destruct (sp_io_threads sp) as [|n] eqn:Hio; [done|exfalso].
    destruct (sd_phase _ Hsd) as [|Hc]; [congruence|]. by eapply Hn, program_return.
Qed.

(** No thread returns before the handler of a signal does. *)
Lemma unstopped_step sp sp' :
  running_program sp → life_step sp sp' → sp_io_context sp' = Some (mkIoContext false) →
  sp_io_context sp = Some (mkIoContext false) ∧ sp_io_threads sp' = sp_io_threads sp.
Proof.
  intros Hrun H Hio. destruct H as [signal sp1 sp2 _ _ E|sp1 sp2 H].
  - destruct (rp_server _ Hrun) as (a & Ha & _).
    destruct (signal_run signal sp1 a Ha) as (sp3 & E3 & _ & _ & _ & _ & A5 & A6). rewrite E in E3. injection E3 as <-.
    by rewrite A5 in Hio.
  - destruct H as [sp p sp' _ _ _ E|sp sp' _ _ E|sp n sp' _ Hc E].
    + injection E as <-. done.
    + destruct (rp_context _ Hrun) as [io Hc]. destruct (stop_end_run sp io Hc) as (sp1 & E1 & _ & _ & A3 & _).
      rewrite E in E1. injection E1 as <-. congruence.
    + injection E as <-. cbn in Hio. congruence.
Qed.

Lemma unstopped_steps sp sp' :
  running_program sp → rtc life_step sp sp' → sp_io_context sp' = Some (mkIoContext false) →
  sp_io_context sp = Some (mkIoContext false) ∧ sp_io_threads sp' = sp_io_threads sp.
Proof.
  intros Hrun H Hio. induction H as [|sp1 sp2 sp3 H1 _ IH]; [done|].
  destruct (IH (running_step _ _ Hrun H1) Hio) as [Hio2 E2].
  destruct (unstopped_step _ _ Hrun H1 Hio2) as [? ?]. split; [done|congruence].
Qed.

(** *** Both ends can be reached *)

(** Steps of the workers and of [stop]. *)
Definition quiet_pool p p' : Prop :=
  pool_step p p' ∧ p_submitted p' = p_submitted p ∧ (p_stopper p = NotStopping → p_stopper p' = NotStopping).

Lemma workers_run p p' sp :
  rtc quiet_pool p p' → sp_workers sp = p → rtc program_step sp (set_workers p' sp).2.
Proof.
  intros H. revert sp. induction H as [p|p p1 p2 (H1 & H2 & H3) _ IH]; intros sp Hp.
  - subst p. destruct sp. apply rtc_refl.
  - subst p. eapply rtc_l; [by eapply (program_workers sp p1)|]. by apply (IH (set_workers p1 sp).2).
Qed.

Lemma own_life sp sp' : rtc program_step sp sp' → rtc life_step sp sp'.
Proof. induction 1 as [|? ? ? H _ IH]; [done|]. eapply rtc_l; [by apply life_own|done]. Qed.

(** Threads return one by one from a stopped context. *)
Lemma threads_return sp :
  sp_io_context sp = Some (mkIoContext true) →
  ∃ sp', rtc program_step sp sp' ∧ sp_io_threads sp' = 0%nat ∧ sp_stopping sp' = sp_stopping sp.
Proof.
  remember (sp_io_threads sp) as n eqn:Hn. revert sp Hn. induction n as [|n IH]; intros sp Hn Hio.
  - exists sp. by split; [apply rtc_refl|].
  - destruct (IH (set_io_threads n sp).2) as (sp' & Hs & H0 & E); [done|done|].
    exists sp'. split; [|done]. eapply rtc_l; [|exact Hs]. by eapply program_return.
Qed.

(** The signal comes before any worker has moved: all leave their loops. *)
Definition all_left : Pool :=
  {| p_running := false; p_queue := []; p_mutex := None; p_workers := replicate 8 Finished;
     p_stopper := Joined; p_notices := 0; p_submitted := []; p_taken := []; p_answered := [] |}.

Ltac pool_goes tac := eapply rtc_l; [split; [tac|done]|].
Ltac pool_leaves i := pool_goes ltac:(by apply (step_worker i), worker_leaves).

Lemma all_left_reached : rtc quiet_pool (clear_running pool_start) all_left.
Proof.
  pool_goes ltac:(by apply step_notify_all).
  pool_leaves 0%nat; pool_leaves 1%nat; pool_leaves 2%nat; pool_leaves 3%nat; pool_leaves 4%nat; pool_leaves 5%nat;
    pool_leaves 6%nat; pool_leaves 7%nat.
  pool_goes ltac:(by apply step_joined; [|repeat constructor]). apply rtc_refl.
Qed.

(** It comes when a worker has found nothing to do, and is about to sleep. *)
Definition about_to_sleep : Pool := move 0 FallingAsleep (Some 0%nat) pool_start.

Lemma about_to_sleep_reached : rtc quiet_pool pool_start about_to_sleep.
Proof.
  pool_goes ltac:(by apply (step_worker 0), worker_enters).
  pool_goes ltac:(by apply (step_worker 0), worker_locks).
  pool_goes ltac:(by apply (step_worker 0), worker_must_wait). apply rtc_refl.
Qed.

Lemma sleeps_through : rtc quiet_pool (clear_running about_to_sleep) slept_through.
Proof.
  pool_goes ltac:(by apply step_notify_all).
  pool_goes ltac:(by apply (step_worker 0), worker_sleeps).
  pool_leaves 1%nat; pool_leaves 2%nat; pool_leaves 3%nat; pool_leaves 4%nat; pool_leaves 5%nat;
    pool_leaves 6%nat; pool_leaves 7%nat.
  apply rtc_refl.
Qed.

(** From a launched program, with the workers at [p], to a signal's handler. *)
Lemma signal_comes (signal : Z) n port (p0 : Process) t p :
  rtc quiet_pool pool_start p →
  ∃ sp, rtc life_step (launched n port p0 t) sp ∧ sp_workers sp = clear_running p ∧ sp_stopping sp = true ∧
    sp_io_context sp = Some (mkIoContext false).
Proof.
  intros Hp. set (sp0 := launched n port p0 t).
  destruct (signal_run signal (set_workers p sp0).2 _ eq_refl) as (sp & E & _ & _ & A3 & A4 & A5 & _).
  exists sp. split; [|done]. etrans; [by apply own_life, (workers_run pool_start p)|].
  apply rtc_once. by eapply (life_signal signal).
Qed.

Lemma shutdown_reached n port (p0 : Process) t :
  ∃ sp, rtc life_step (launched n port p0 t) sp ∧ shut_down sp.
Proof.
  destruct (signal_comes 15 n port p0 t pool_start (rtc_refl _ _)) as (sp & Hst & Hw & Hs & Hio).
  pose proof (running_steps _ _ (launched_running n port p0 t) Hst) as Hrun.
  assert (signalled sp) as Hsd by (split; [by rewrite Hw|by left]).
  pose proof (workers_run _ _ sp all_left_reached Hw) as Hst1. set (sp1 := (set_workers all_left sp).2) in *.
  destruct (stop_end_run sp1 (mkIoContext false) Hio) as (sp2 & E2 & _ & B2 & B3 & _).
  assert (rtc program_step sp sp2) as Hst2.
  { eapply rtc_r; [exact Hst1|]. by eapply (program_stopped sp1). }
  destruct (threads_return sp2 B3) as (sp3 & Hst3 & C1 & C2).
  exists sp3. split; [etrans; [exact Hst|apply own_life; by etrans]|].
  destruct (program_kept sp sp3 Hrun Hsd ltac:(by etrans)) as [? ?]. apply ended; [done|done|congruence|done].
Qed.

Lemma hang_reached n port (p0 : Process) t :
  ∃ sp, rtc life_step (launched n port p0 t) sp ∧ hung sp ∧ ∀ sp', ¬ program_step sp sp'.
Proof.
  destruct (signal_comes 15 n port p0 t about_to_sleep about_to_sleep_reached) as (sp & Hst & Hw & Hs & Hio).
  pose proof (workers_run _ _ sp sleeps_through Hw) as Hst1. set (sp1 := (set_workers slept_through sp).2) in *.
  exists sp1. split; [etrans; [exact Hst|by apply own_life]|]. split; [split; [exact Hs|split; [done|by exists 0%nat]]|].
  intros sp' H. assert (sp_workers sp1 = slept_through) as Hw1 by done. assert (sp_io_context sp1 = Some (mkIoContext false)) as Hio1 by done.
  clearbody sp1. destruct H as [sp2 p sp' Hp Hsub _ _|sp2 sp' _ Hj _|sp2 k sp' _ Hc _].
  - rewrite Hw1 in Hp, Hsub. destruct (slept_through_stuck p Hp) as [task ->]. done.
  - by rewrite Hw1 in Hj.
  - congruence.
Qed.
End Programs.

(** ** Theorems *)

(** C12.  The server program in working order: with an environment in which files, the context,
    the port and threads can be had, it ends up with its threads running and its server started
    on a database that holds what its log replays to; and from there on, whatever clients
    connect, send and receive, however the threads interleave, and as long as no write goes on
    that did not fetch all its bytes at its start, all they are answered is one sequential
    execution from these contents, the connections stay within the limit, and the server can
    finish whatever has arrived. *)
Theorem server_main_serves (bind : Z → result unit) (spawn : nat → result unit) (hardware_concurrency : nat)
    (argv : list string) (port : Z) (t : Terminal) (w : World) (rs : list WALRecord) :
  chosen_port argv = Ok port → bind port = Ok tt → (∀ i, spawn i = Ok tt) → healthy w → fair_order w →
  read_records (file_bytes w (log_name_now "./data" w)) = Some rs →
  ∃ sp (p : Process),
    server_main (Ok tt) bind spawn hardware_concurrency argv (program_new t w) = (Val MainWaits, sp) ∧
    sp_database sp = Some p ∧ sp_server sp = Some (server_start (set_database DatabaseServer_new)) ∧
    (0 < sp_io_threads sp)%nat ∧ length (p_workers (sp_workers sp)) = MAX_WORKER_THREADS ∧
    ∀ fetch (sys : Running),
      rtc (run_steps fetch) (running_start (set_database DatabaseServer_new) (sp_io_threads sp) p) sys →
      0 <= rn_connection_count sys <= MAX_CONNECTIONS ∧
      (∃ (h : list (nat * (Message * Message))) m,
        served_all (replay ∅ rs) h.*2.*1 h.*2.*2 m ∧
        (LockingTheorems.quiet (sv_threads (rn_serving sys)) → m = contents (shared (rn_serving sys))) ∧
        ∀ i x, rn_lines sys !! i = Some x → ac_request x = None →
          writes (of_peer i h).*2 (ac_conn x)) ∧
      ∃ sys', rtc (works fetch) sys sys' ∧ resting sys'.
Proof.
  intros Hport Hbind Hspawn Hw Hf Hrs.
  destruct (initialize_ready "./data" (create_database w) rs eq_refl Hw Hf Hrs)
    as (p & q & l & E & Hr & Hd & _).
  assert (0 < num_io_threads hardware_concurrency)%nat as Hpos.
  { unfold num_io_threads. destruct hardware_concurrency; cbn; lia. }
  exists (launched (num_io_threads hardware_concurrency) port p t), p.
  split; [|do 4 (split; [done|])].
  { destruct (server_main_run bind spawn hardware_concurrency argv port t w p Hport Hbind E)
      as [[_ ->]|[(i & what & ? & _ & Hi & _)|(i & what & ? & _ & Hi & _)]]; [done|by rewrite Hspawn in Hi..]. }
  intros fetch sys Hsteps. pose proof (running_threads _ _ _ _ _ Hsteps) as Hn.
  destruct (running_history fetch (set_database DatabaseServer_new) _ p sys
    (ex_intro _ q (ex_intro _ l (ex_intro _ _ Hr))) eq_refl Hsteps)
    as (q' & rq & par & h & H & Hh & Hp & Hc).
  destruct (parallel_count fetch (set_database DatabaseServer_new) p par eq_refl Hp) as (_ & _ & _ & Hcnt).
  unfold pa_connection_count in Hcnt. rewrite (st_server _ _ _ _ _ H) in Hcnt. split; [exact Hcnt|].
  split.
  - exists h, (contents (pa_store par)). split; [|split].
    + pose proof (sh_served _ _ _ Hh) as Hs. unfold contents in Hs at 1. cbn in Hs. rewrite Hd in Hs. exact Hs.
    + intros Hq. by rewrite (stands_quiet _ _ _ _ _ H Hq).
    + intros i x. by eapply idle_share.
  - eapply works_settle; [apply le_n|exact H|exact Hh|exact Hc|]. by rewrite Hn.
Qed.

(** C37.  How the server program can end before it serves, whatever the environment does: an
    exception of [std::stoi] for the port leaves [main]; a context that cannot be made, a
    directory that cannot be created or a port that cannot be bound is exit status 1 with a
    message, and the global objects are destroyed without harm.  A worker thread, or the first
    thread of the context, that cannot be made is exit status 1 too, but then the server exists,
    and is destroyed after the context; a later thread of the context that cannot be made
    terminates the program.  Otherwise everything could be had, and the program runs.  The
    branch for a failed [initialize] is never taken. *)
Theorem server_main_exits (make_context : result unit) (bind : Z → result unit) (spawn : nat → result unit)
    (hardware_concurrency : nat) (argv : list string) (t : Terminal) (w : World) :
  match server_main make_context bind spawn hardware_concurrency argv (program_new t w) with
  | (Exn what, sp) => chosen_port argv = Throw what ∧ sp = program_new t w
  | (Val (MainReturns code), sp) =>
      code = 1 ∧ complained t sp ∧
      (sp_server sp = None ∧ (static_destruction sp).1 = Val tt ∨
       (∃ i what, (i <= MAX_WORKER_THREADS)%nat ∧ spawn i = Throw what) ∧ is_Some (sp_server sp) ∧
       ∃ why, (static_destruction sp).1 = UB why)
  | (Val MainTerminates, _) =>
      ∃ i what, (MAX_WORKER_THREADS < i < MAX_WORKER_THREADS + num_io_threads hardware_concurrency)%nat ∧
        spawn i = Throw what
  | (Val MainWaits, sp) =>
      running_program sp ∧ make_context = Ok tt ∧ (∃ port, chosen_port argv = Ok port ∧ bind port = Ok tt) ∧
      ∀ i, (i < MAX_WORKER_THREADS + num_io_threads hardware_concurrency)%nat → spawn i = Ok tt
  | (UB _, _) => False
  end.
Proof.
  destruct (chosen_port argv) as [port|what] eqn:Hport; [|by rewrite (server_main_bad_port _ _ _ _ _ what)].
  destruct (exception_before make_context bind spawn hardware_concurrency argv port t w Hport)
    as [(sp & -> & Hs & Hc)|(-> & Hb & p & E)].
  { split; [done|]. split; [done|]. left. split; [done|]. by apply destroyed_without. }
  destruct (server_main_run bind spawn hardware_concurrency argv port t w p Hport Hb E)
    as [[Hok ->]|[(i & what & sp & Hi & Ht & -> & Hs & Hc)|(i & what & sp & Hi & Ht & ->)]].
  - split; [apply launched_running|]. split; [done|]. split; [by exists port|done].
  - split; [done|]. split; [done|]. right. split; [by exists i, what|]. split; [done|]. by apply destroyed_with.
  - by exists i, what.
Qed.


(** ** Witnesses *)

(** Every port can be bound, and every thread made. *)
Definition demo_bind (port : Z) : result unit := Ok tt.
Definition demo_spawn (i : nat) : result unit := Ok tt.

Lemma server_main_serves_witness :
  ∃ sp (p : Process),
    server_main (Ok tt) demo_bind demo_spawn 8 ["server"; "9090"] (program_new demo_terminal demo_world)
      = (Val MainWaits, sp) ∧
    sp_database sp = Some p ∧ (0 < sp_io_threads sp)%nat.
Proof.
  destruct (server_main_serves demo_bind demo_spawn 8 ["server"; "9090"] 9090 demo_terminal demo_world [])
    as (sp & p & E & Hp & _ & Hn & _).
  - reflexivity.
  - reflexivity.
  - reflexivity.
  - exact demo_world_healthy.
  - exact demo_world_fair.
  - vm_compute. reflexivity.
  - exists sp, p. split; [exact E|]. split; [exact Hp|exact Hn].
Defined.

Lemma demo_launched :
  ∃ sp, server_main (Ok tt) demo_bind demo_spawn 8 ["server"; "9090"] (program_new demo_terminal demo_world)
    = (Val MainWaits, sp).
Proof.
  destruct (initialize_ready "./data" (create_database demo_world) [] eq_refl demo_world_healthy demo_world_fair)
    as (p & q & l & E & _); [vm_compute; reflexivity|].
  destruct (server_main_run demo_bind demo_spawn 8 ["server"; "9090"] 9090 demo_terminal demo_world p eq_refl eq_refl E)
    as [[_ E1]|[(i & what & sp & _ & Hi & _)|(i & what & sp & _ & Hi & _)]]; [by eexists|done..].
Qed.

