(* ===== verification/Headers.v ===== *)
(** * The unused headers

    [include/storage/btree.h] and [include/storage/transaction.h] are included by no source file;
    what they have with a body is modelled here: the node of the B-tree with its constructor
    and its two tests, and the transaction's operation records and accessors.  The other
    member functions are declared and nowhere defined. *)

From stdpp Require Import base gmap list strings.
From Stdlib Require Import ZArith Lia.
From S2P Require Import Prelude.
From S2P Require Import Effects.
From S2P Require Import Stoi.

Module BTree.

(** [struct BTreeNode<KeyType, ValueType>]; a child is a pointer. *)
Record BTreeNode (K V : Type) := mkBTreeNode {
  is_leaf : bool;
  keys : list K;
  values : list V;
  children : list (option nat);
}.
Arguments mkBTreeNode {K V}.
Arguments is_leaf {K V}.
Arguments keys {K V}.
Arguments values {K V}.
Arguments children {K V}.

Section Node.
Context {K V : Type}.
Implicit Types (node : BTreeNode K V) (order : Z).

(** [BTreeNode(bool leaf = true)]. *)
Definition BTreeNode_new (leaf : bool) : BTreeNode K V := mkBTreeNode leaf [] [] [].

(** [int] arithmetic: overflow is undefined. *)
Definition int (z : Z) : outcome Z :=
  if bool_decide (is_int z) then Val z else UB "signed integer overflow".

(** The comparison of a [size_t] with an [int] converts the latter. *)
Definition is_full node order : outcome bool :=
  match int (2 * order) with
  | Val twice =>
      match int (twice - 1) with
      | Val bound => Val (zlen (keys node) >=? u64 bound)
      | Exn what => Exn what
      | UB why => UB why
      end
  | Exn what => Exn what
  | UB why => UB why
  end.

Definition is_underflow node order : outcome bool :=
  match int (order - 1) with
  | Val bound => Val (zlen (keys node) <? u64 bound)
  | Exn what => Exn what
  | UB why => UB why
  end.

(** ** Lemmas *)

Lemma int_ok z : is_int z → int z = Val z.
Proof. intros H. unfold int. by rewrite bool_decide_eq_true_2. Qed.

Lemma u64_int z : is_int z → u64 z = if z <? 0 then 2 ^ 64 + z else z.
Proof.
  unfold is_int, INT_MIN, INT_MAX, u64. intros H. zcase.
  - replace (2 ^ 64 + z) with (z + 1 * 2 ^ 64) by lia. rewrite <- (Z.mod_add z 1) by lia.
    apply Z.mod_small. lia.
  - apply Z.mod_small. lia.
Qed.
Lemma full_bound node order :
  is_int order → zlen (keys node) < 2 ^ 63 →
  is_full node order =
    if bool_decide (- 2 ^ 30 < order < 2 ^ 30) then
      Val ((1 <=? order) && (2 * order - 1 <=? zlen (keys node)))
    else UB "signed integer overflow".
Proof.
  unfold is_int, INT_MIN, INT_MAX. intros Ho Hk. pose proof (zlen_nonneg (keys node)) as H0. unfold is_full.
  destruct (decide (- 2 ^ 30 < order < 2 ^ 30)) as [H|H].
  - rewrite bool_decide_eq_true_2 by done.
    rewrite !int_ok, u64_int, Z.geb_leb by (unfold is_int, INT_MIN, INT_MAX; lia). f_equal.
    destruct (Z.leb_spec 1 order); cbn [andb].
    + by rewrite (proj2 (Z.ltb_ge (2 * order - 1) 0)) by lia.
    + rewrite (proj2 (Z.ltb_lt (2 * order - 1) 0)) by lia. apply Z.leb_gt. lia.
  - rewrite bool_decide_eq_false_2 by done. destruct (decide (order = - 2 ^ 30)) as [->|]; [reflexivity|].
    unfold int at 1. rewrite bool_decide_eq_false_2; [done|]. unfold is_int, INT_MIN, INT_MAX. lia.
Qed.

Lemma underflow_bound node order :
  is_int order → zlen (keys node) < 2 ^ 63 →
  is_underflow node order =
    if bool_decide (order = INT_MIN) then UB "signed integer overflow"
    else Val ((order <=? 0) || (zlen (keys node) <? order - 1)).
Proof.
  intros Ho Hk. pose proof (zlen_nonneg (keys node)) as H0. unfold is_underflow.
  destruct (decide (order = INT_MIN)) as [->|H]; [by rewrite bool_decide_eq_true_2|].
  rewrite bool_decide_eq_false_2 by done. unfold is_int, INT_MIN, INT_MAX in *.
  rewrite int_ok, u64_int by (unfold is_int, INT_MIN, INT_MAX; lia). f_equal.
  destruct (Z.leb_spec order 0); cbn [orb].
  - rewrite (proj2 (Z.ltb_lt (order - 1) 0)) by lia. apply Z.ltb_lt. lia.
  - by rewrite (proj2 (Z.ltb_ge (order - 1) 0)) by lia.
Qed.
End Node.

(** ** Theorems *)

(** C40.  The tests of a B-tree node, for every [int] order.  From an order of 1 up they are the
    usual bounds, [2 * order - 1] and [order - 1] keys, and no node passes both; for an order of
    0 or less the bounds wrap to a [size_t] near 2^64, so that no node is full and every one
    underflows.  [is_full] is undefined exactly from 2^30 on and from -2^30 down, where its
    arithmetic overflows, and [is_underflow] for the least [int] only. *)
Theorem BTreeNode_bounds {K V : Type} (node : BTreeNode K V) (order : Z) :
  is_int order → zlen (keys node) < 2 ^ 63 →
  is_full node order =
    (if bool_decide (- 2 ^ 30 < order < 2 ^ 30) then
       Val ((1 <=? order) && (2 * order - 1 <=? zlen (keys node)))
     else UB "signed integer overflow") ∧
  is_underflow node order =
    (if bool_decide (order = INT_MIN) then UB "signed integer overflow"
     else Val ((order <=? 0) || (zlen (keys node) <? order - 1))) ∧
  (1 <= order → ¬ (is_full node order = Val true ∧ is_underflow node order = Val true)).
Proof.
  intros Ho Hk.
  assert (is_full node order =
    (if bool_decide (- 2 ^ 30 < order < 2 ^ 30) then
       Val ((1 <=? order) && (2 * order - 1 <=? zlen (keys node)))
     else UB "signed integer overflow")) as E1 by (by apply full_bound).
  assert (is_underflow node order =
    (if bool_decide (order = INT_MIN) then UB "signed integer overflow"
     else Val ((order <=? 0) || (zlen (keys node) <? order - 1)))) as E2 by (by apply underflow_bound).
  split; [done|]. split; [done|]. rewrite E1, E2. intros Hone [H1 H2].
  destruct (bool_decide _) in H1; [|done]. destruct (bool_decide _) in H2; [done|].
  injection H1 as H1. injection H2 as H2. apply andb_true_iff in H1 as [_ H1%Z.leb_le].
  apply orb_true_iff in H2 as [H2%Z.leb_le|H2%Z.ltb_lt]; lia.
Qed.

(** ** Witnesses *)

Lemma BTreeNode_bounds_witness :
  let node : BTreeNode string string := BTreeNode_new true in
  is_full node 4 = Val false ∧ is_underflow node 4 = Val true ∧
  is_full node (2 ^ 30) = UB "signed integer overflow" ∧ is_underflow node (2 ^ 30) = Val true ∧
  is_underflow node INT_MIN = UB "signed integer overflow".
Proof.
  intros node.
  destruct (BTreeNode_bounds node 4) as (E1 & E2 & _); [vm_compute; split; congruence|vm_compute; reflexivity|].
  destruct (BTreeNode_bounds node (2 ^ 30)) as (E3 & E4 & _); [vm_compute; split; congruence|vm_compute; reflexivity|].
  destruct (BTreeNode_bounds node INT_MIN) as (_ & E5 & _); [vm_compute; split; congruence|vm_compute; reflexivity|].
  split; [exact E1|]. split; [exact E2|]. split; [exact E3|]. split; [exact E4|exact E5].
Defined.
End BTree.

Module Transaction.

(** [enum class TransactionState]. *)
Inductive TransactionState := ACTIVE | COMMITTED | ABORTED.

(** [enum class OperationType]. *)
Inductive OperationType := GET | PUT | DELETE | SCAN.

#[global] Instance TransactionState_eq_dec : EqDecision TransactionState.
Proof. solve_decision. Defined.
#[global] Instance OperationType_eq_dec : EqDecision OperationType.
Proof. solve_decision. Defined.

(** [struct TransactionOperation]. *)
Record TransactionOperation := mkTransactionOperation {
  type : OperationType;
  key : string;
  value : string;
  timestamp : Z;
}.

(** [TransactionOperation(t, k, v)]; [v] is empty by default. *)
Definition TransactionOperation_new (t : OperationType) (k v : string) : TransactionOperation :=
  {| type := t; key := k; value := v; timestamp := 0 |}.

(** [class ACIDTransaction]. *)
Record ACIDTransaction := mkACIDTransaction {
  id_ : Z;
  state_ : TransactionState;
  operations_ : list TransactionOperation;
  local_changes_ : gmap string string;
  locked_keys_ : gset string;
}.

Definition get_id (t : ACIDTransaction) : Z := id_ t.
Definition get_state (t : ACIDTransaction) : TransactionState := state_ t.
Definition get_operations (t : ACIDTransaction) : list TransactionOperation := operations_ t.
End Transaction.
